(** * Client-channel core: service-config parsing, retry orchestration,
      round-robin and grpclb picks, health-check client.

    A shallow embedding of the functions of
    [src/core/ext/filters/client_channel/client_channel.c],
    [lb_policy/round_robin/round_robin.cc], [lb_policy/grpclb/grpclb.cc] and
    [health/health_check_client.cc] that the properties below talk about.
    C integers are modelled as [Z] with their wrap-around written out,
    nullable pointers as [option], out-parameters by state passing. *)

From Stdlib Require Import ZArith QArith Ascii String List Bool Lia.
From stdpp Require Import base tactics option list strings gmap.

Local Open Scope string_scope.
Local Open Scope Z_scope.

#[local] Set Warnings "-register-all".

(** ** Machine integers *)

Definition INT_MAX : Z := 2147483647.
Definition SIZE_MAX : Z := 18446744073709551615.

(** [size_t] arithmetic wraps modulo 2^64. *)
Definition size_t_wrap (z : Z) : Z := z mod (SIZE_MAX + 1).

(** [int32_t] arithmetic (two's complement) as the compilers at hand do it. *)
Definition int32_wrap (z : Z) : Z := (z + 2147483648) mod 4294967296 - 2147483648.

(** ** C strings *)

Definition strlen (s : string) : Z := Z.of_nat (String.length s).

(** [strchr s c]: the text before and after the first occurrence of [c]. *)
Fixpoint strchr (s : string) (c : ascii) : option (string * string) :=
  match s with
  | EmptyString => None
  | String a rest =>
      if Ascii.eqb a c then Some (EmptyString, rest)
      else match strchr rest c with
           | Some (before, after) => Some (String a before, after)
           | None => None
           end
  end.

(** The last character of a string and the text before it
    ([value[len - 1]] and [buf] once [buf[len - 1]] is overwritten by NUL). *)
Fixpoint split_last (s : string) : option (string * ascii) :=
  match s with
  | EmptyString => None
  | String a rest =>
      match split_last rest with
      | None => Some (EmptyString, a)
      | Some (init, l) => Some (String a init, l)
      end
  end.

Definition is_digit (c : ascii) : bool :=
  let n := nat_of_ascii c in (48 <=? n)%nat && (n <=? 57)%nat.

Definition digit_value (c : ascii) : Z := Z.of_nat (nat_of_ascii c) - 48.

Fixpoint all_digits (s : string) : bool :=
  match s with
  | EmptyString => true
  | String a rest => is_digit a && all_digits rest
  end.

Fixpoint decimal_value_acc (acc : Z) (s : string) : Z :=
  match s with
  | EmptyString => acc
  | String a rest => decimal_value_acc (10 * acc + digit_value a) rest
  end.

Definition decimal_value (s : string) : Z := decimal_value_acc 0 s.

(** Modelled from the spec: [gpr_parse_nonnegative_int] (its file,
    src/core/lib/support/string.c, is not part of the sources at hand).  The
    spec admits decimal digits only ([[0-9]+]) and the callers compare the
    result with [-1]: a non-empty string of decimal digits whose value fits
    an [int] yields that value, anything else yields [-1]. *)
Definition gpr_parse_nonnegative_int (s : string) : Z :=
  match s with
  | EmptyString => -1
  | _ => if all_digits s && (decimal_value s <=? INT_MAX) then decimal_value s
         else -1
  end.

(** ** Status codes *)

Inductive grpc_status_code : Type :=
  | GRPC_STATUS_OK | GRPC_STATUS_CANCELLED | GRPC_STATUS_UNKNOWN
  | GRPC_STATUS_INVALID_ARGUMENT | GRPC_STATUS_DEADLINE_EXCEEDED
  | GRPC_STATUS_NOT_FOUND | GRPC_STATUS_ALREADY_EXISTS
  | GRPC_STATUS_PERMISSION_DENIED | GRPC_STATUS_RESOURCE_EXHAUSTED
  | GRPC_STATUS_FAILED_PRECONDITION | GRPC_STATUS_ABORTED
  | GRPC_STATUS_OUT_OF_RANGE | GRPC_STATUS_UNIMPLEMENTED
  | GRPC_STATUS_INTERNAL | GRPC_STATUS_UNAVAILABLE | GRPC_STATUS_DATA_LOSS
  | GRPC_STATUS_UNAUTHENTICATED.

Definition grpc_status_code_eqb (a b : grpc_status_code) : bool :=
  match a, b with
  | GRPC_STATUS_OK, GRPC_STATUS_OK
  | GRPC_STATUS_CANCELLED, GRPC_STATUS_CANCELLED
  | GRPC_STATUS_UNKNOWN, GRPC_STATUS_UNKNOWN
  | GRPC_STATUS_INVALID_ARGUMENT, GRPC_STATUS_INVALID_ARGUMENT
  | GRPC_STATUS_DEADLINE_EXCEEDED, GRPC_STATUS_DEADLINE_EXCEEDED
  | GRPC_STATUS_NOT_FOUND, GRPC_STATUS_NOT_FOUND
  | GRPC_STATUS_ALREADY_EXISTS, GRPC_STATUS_ALREADY_EXISTS
  | GRPC_STATUS_PERMISSION_DENIED, GRPC_STATUS_PERMISSION_DENIED
  | GRPC_STATUS_RESOURCE_EXHAUSTED, GRPC_STATUS_RESOURCE_EXHAUSTED
  | GRPC_STATUS_FAILED_PRECONDITION, GRPC_STATUS_FAILED_PRECONDITION
  | GRPC_STATUS_ABORTED, GRPC_STATUS_ABORTED
  | GRPC_STATUS_OUT_OF_RANGE, GRPC_STATUS_OUT_OF_RANGE
  | GRPC_STATUS_UNIMPLEMENTED, GRPC_STATUS_UNIMPLEMENTED
  | GRPC_STATUS_INTERNAL, GRPC_STATUS_INTERNAL
  | GRPC_STATUS_UNAVAILABLE, GRPC_STATUS_UNAVAILABLE
  | GRPC_STATUS_DATA_LOSS, GRPC_STATUS_DATA_LOSS
  | GRPC_STATUS_UNAUTHENTICATED, GRPC_STATUS_UNAUTHENTICATED => true
  | _, _ => false
  end.

(** Modelled from the spec: [grpc_status_from_string] (only its declaration,
    status_string.h, is among the sources).  "If status_str is a valid status
    string, sets status to the corresponding status value and returns true";
    the spec calls the valid strings the known status set, e.g.
    ["UNAVAILABLE"]. *)
Definition grpc_status_from_string (s : string) : option grpc_status_code :=
  if String.eqb s "OK" then Some GRPC_STATUS_OK
  else if String.eqb s "CANCELLED" then Some GRPC_STATUS_CANCELLED
  else if String.eqb s "UNKNOWN" then Some GRPC_STATUS_UNKNOWN
  else if String.eqb s "INVALID_ARGUMENT" then Some GRPC_STATUS_INVALID_ARGUMENT
  else if String.eqb s "DEADLINE_EXCEEDED" then Some GRPC_STATUS_DEADLINE_EXCEEDED
  else if String.eqb s "NOT_FOUND" then Some GRPC_STATUS_NOT_FOUND
  else if String.eqb s "ALREADY_EXISTS" then Some GRPC_STATUS_ALREADY_EXISTS
  else if String.eqb s "PERMISSION_DENIED" then Some GRPC_STATUS_PERMISSION_DENIED
  else if String.eqb s "RESOURCE_EXHAUSTED" then Some GRPC_STATUS_RESOURCE_EXHAUSTED
  else if String.eqb s "FAILED_PRECONDITION" then Some GRPC_STATUS_FAILED_PRECONDITION
  else if String.eqb s "ABORTED" then Some GRPC_STATUS_ABORTED
  else if String.eqb s "OUT_OF_RANGE" then Some GRPC_STATUS_OUT_OF_RANGE
  else if String.eqb s "UNIMPLEMENTED" then Some GRPC_STATUS_UNIMPLEMENTED
  else if String.eqb s "INTERNAL" then Some GRPC_STATUS_INTERNAL
  else if String.eqb s "UNAVAILABLE" then Some GRPC_STATUS_UNAVAILABLE
  else if String.eqb s "DATA_LOSS" then Some GRPC_STATUS_DATA_LOSS
  else if String.eqb s "UNAUTHENTICATED" then Some GRPC_STATUS_UNAUTHENTICATED
  else None.

(** ** JSON trees ([grpc_json]) *)

Inductive grpc_json_type : Type :=
  | GRPC_JSON_OBJECT | GRPC_JSON_ARRAY | GRPC_JSON_STRING | GRPC_JSON_NUMBER
  | GRPC_JSON_TRUE | GRPC_JSON_FALSE | GRPC_JSON_NULL.

Definition grpc_json_type_eqb (a b : grpc_json_type) : bool :=
  match a, b with
  | GRPC_JSON_OBJECT, GRPC_JSON_OBJECT | GRPC_JSON_ARRAY, GRPC_JSON_ARRAY
  | GRPC_JSON_STRING, GRPC_JSON_STRING | GRPC_JSON_NUMBER, GRPC_JSON_NUMBER
  | GRPC_JSON_TRUE, GRPC_JSON_TRUE | GRPC_JSON_FALSE, GRPC_JSON_FALSE
  | GRPC_JSON_NULL, GRPC_JSON_NULL => true
  | _, _ => false
  end.

(** A node with its [child]/[next] chain as the list of its children.  [key]
    is NULL for array elements; [value] holds the text of strings and
    numbers. *)
Inductive grpc_json : Type :=
  Json (type : grpc_json_type) (key : option string) (value : string)
       (children : list grpc_json).

Definition json_type (j : grpc_json) : grpc_json_type :=
  match j with Json t _ _ _ => t end.
Definition json_key (j : grpc_json) : option string :=
  match j with Json _ k _ _ => k end.
Definition json_value (j : grpc_json) : string :=
  match j with Json _ _ v _ => v end.
Definition json_children (j : grpc_json) : list grpc_json :=
  match j with Json _ _ _ c => c end.

(** [strcmp(key, name) == 0] for a key known to be non-NULL. *)
Definition key_is (k : option string) (name : string) : bool :=
  match k with Some s => String.eqb s name | None => false end.

(** ** Method-config table (client_channel.c, METHOD-CONFIG TABLE) *)

Inductive wait_for_ready_value : Type :=
  | WAIT_FOR_READY_UNSET | WAIT_FOR_READY_FALSE | WAIT_FOR_READY_TRUE.

Record gpr_timespec : Type := { tv_sec : Z; tv_nsec : Z }.

Record retry_policy_params : Type := {
  max_retry_attempts : Z;
  initial_backoff_ms : Z;
  max_backoff_ms : Z;
  backoff_multiplier : Z;
  (* NULL until the first element of retryableStatusCodes is stored *)
  retryable_status_codes : option (list grpc_status_code);
  num_retryable_status_codes : Z
}.

Record method_parameters : Type := {
  timeout : gpr_timespec;
  wait_for_ready : wait_for_ready_value;
  retry_policy : option retry_policy_params
}.

(** [memset(retry_policy, 0, sizeof( *retry_policy))]. *)
Definition zeroed_retry_policy : retry_policy_params :=
  {| max_retry_attempts := 0; initial_backoff_ms := 0; max_backoff_ms := 0;
     backoff_multiplier := 0; retryable_status_codes := None;
     num_retryable_status_codes := 0 |}.

Definition parse_wait_for_ready (field : grpc_json)
    (wait_for_ready : wait_for_ready_value) : bool * wait_for_ready_value :=
  match json_type field with
  | GRPC_JSON_TRUE => (true, WAIT_FOR_READY_TRUE)
  | GRPC_JSON_FALSE => (true, WAIT_FOR_READY_FALSE)
  | _ => (false, wait_for_ready)
  end.

(** The [switch (strlen(decimal_point + 1))] of [parse_timeout]. *)
Definition fraction_multiplier (digits : Z) : option Z :=
  if digits =? 9 then Some 1
  else if digits =? 6 then Some 1000
  else if digits =? 3 then Some 1000000
  else None.

(** [parse_timeout].  The result is [None] where the C code reads
    [field->value[len - 1]] with [len = 0]; otherwise the returned flag and
    the out-parameter [timeout] as the function leaves it. *)
Definition parse_timeout (field : grpc_json) (timeout : gpr_timespec)
    : option (bool * gpr_timespec) :=
  if negb (grpc_json_type_eqb (json_type field) GRPC_JSON_STRING)
  then Some (false, timeout)
  else
    match split_last (json_value field) with
    | None => None
    | Some (buf, last) =>
        if negb (Ascii.eqb last "s") then Some (false, timeout)
        else
          match strchr buf "." with
          | Some (whole, fraction) =>
              let nsec := gpr_parse_nonnegative_int fraction in
              let timeout1 := {| tv_sec := tv_sec timeout; tv_nsec := nsec |} in
              if nsec =? -1 then Some (false, timeout1)
              else
                match fraction_multiplier (strlen fraction) with
                | None => Some (false, timeout1)
                | Some multiplier =>
                    let timeout2 :=
                      {| tv_sec := tv_sec timeout;
                         tv_nsec := int32_wrap (nsec * multiplier) |} in
                    let sec := gpr_parse_nonnegative_int whole in
                    let timeout3 :=
                      {| tv_sec := sec; tv_nsec := tv_nsec timeout2 |} in
                    Some (negb (sec =? -1), timeout3)
                end
          | None =>
              let sec := gpr_parse_nonnegative_int buf in
              Some (negb (sec =? -1),
                    {| tv_sec := sec; tv_nsec := tv_nsec timeout |})
          end
    end.

(** The inner loop of [parse_retry_policy] over the elements of
    retryableStatusCodes.  The slot that [gpr_realloc] adds is filled by
    [grpc_status_from_string]; when that fails the function returns with the
    count already incremented. *)
Fixpoint parse_retryable_status_codes (elements : list grpc_json)
    (rp : retry_policy_params) : bool * retry_policy_params :=
  match elements with
  | [] => (true, rp)
  | element :: rest =>
      if negb (grpc_json_type_eqb (json_type element) GRPC_JSON_STRING)
      then (false, rp)
      else
        let stored := default [] (retryable_status_codes rp) in
        let count := size_t_wrap (num_retryable_status_codes rp + 1) in
        match grpc_status_from_string (json_value element) with
        | None =>
            (false,
             {| max_retry_attempts := max_retry_attempts rp;
                initial_backoff_ms := initial_backoff_ms rp;
                max_backoff_ms := max_backoff_ms rp;
                backoff_multiplier := backoff_multiplier rp;
                retryable_status_codes := Some stored;
                num_retryable_status_codes := count |})
        | Some status =>
            parse_retryable_status_codes rest
              {| max_retry_attempts := max_retry_attempts rp;
                 initial_backoff_ms := initial_backoff_ms rp;
                 max_backoff_ms := max_backoff_ms rp;
                 backoff_multiplier := backoff_multiplier rp;
                 retryable_status_codes := Some ((stored ++ [status])%list);
                 num_retryable_status_codes := count |}
        end
  end.

(** One iteration of the outer loop of [parse_retry_policy]: [false] stands
    for [return false]. *)
Definition parse_retry_policy_sub_field (sub_field : grpc_json)
    (rp : retry_policy_params) : bool * retry_policy_params :=
  match json_key sub_field with
  | None => (false, rp)
  | Some key =>
      if String.eqb key "maxRetryAttempts" then
        if negb (max_retry_attempts rp =? 0) then (false, rp)
        else if negb (grpc_json_type_eqb (json_type sub_field) GRPC_JSON_NUMBER)
        then (false, rp)
        else
          let v := gpr_parse_nonnegative_int (json_value sub_field) in
          (negb (v <=? 0),
           {| max_retry_attempts := v;
              initial_backoff_ms := initial_backoff_ms rp;
              max_backoff_ms := max_backoff_ms rp;
              backoff_multiplier := backoff_multiplier rp;
              retryable_status_codes := retryable_status_codes rp;
              num_retryable_status_codes := num_retryable_status_codes rp |})
      else if String.eqb key "initialBackoffMs" then
        if negb (initial_backoff_ms rp =? 0) then (false, rp)
        else if negb (grpc_json_type_eqb (json_type sub_field) GRPC_JSON_NUMBER)
        then (false, rp)
        else
          let v := gpr_parse_nonnegative_int (json_value sub_field) in
          (negb (v <=? 0),
           {| max_retry_attempts := max_retry_attempts rp;
              initial_backoff_ms := v;
              max_backoff_ms := max_backoff_ms rp;
              backoff_multiplier := backoff_multiplier rp;
              retryable_status_codes := retryable_status_codes rp;
              num_retryable_status_codes := num_retryable_status_codes rp |})
      else if String.eqb key "maxBackoffMs" then
        if negb (max_backoff_ms rp =? 0) then (false, rp)
        else if negb (grpc_json_type_eqb (json_type sub_field) GRPC_JSON_NUMBER)
        then (false, rp)
        else
          let v := gpr_parse_nonnegative_int (json_value sub_field) in
          (negb (v <=? 0),
           {| max_retry_attempts := max_retry_attempts rp;
              initial_backoff_ms := initial_backoff_ms rp;
              max_backoff_ms := v;
              backoff_multiplier := backoff_multiplier rp;
              retryable_status_codes := retryable_status_codes rp;
              num_retryable_status_codes := num_retryable_status_codes rp |})
      else if String.eqb key "retryableStatusCodes" then
        if bool_decide (retryable_status_codes rp <> None) then (false, rp)
        else if negb (grpc_json_type_eqb (json_type sub_field) GRPC_JSON_ARRAY)
        then (false, rp)
        else parse_retryable_status_codes (json_children sub_field) rp
      else (true, rp)
  end.

Fixpoint parse_retry_policy_sub_fields (sub_fields : list grpc_json)
    (rp : retry_policy_params) : bool * retry_policy_params :=
  match sub_fields with
  | [] => (true, rp)
  | sub_field :: rest =>
      match parse_retry_policy_sub_field sub_field rp with
      | (false, rp') => (false, rp')
      | (true, rp') => parse_retry_policy_sub_fields rest rp'
      end
  end.

Definition parse_retry_policy (field : grpc_json) (rp : retry_policy_params)
    : bool * retry_policy_params :=
  if negb (grpc_json_type_eqb (json_type field) GRPC_JSON_OBJECT)
  then (false, rp)
  else parse_retry_policy_sub_fields (json_children field) rp.

(** The locals of [method_parameters_create_from_json]. *)
Record method_parsing_state : Type := {
  mps_wait_for_ready : wait_for_ready_value;
  mps_timeout : gpr_timespec;
  mps_retry_policy : option retry_policy_params
}.

(** The outcome of one loop iteration. *)
Inductive field_outcome : Type :=
  | FieldOk (st : method_parsing_state)   (* go on with the next field *)
  | FieldError                             (* goto error *)
  | FieldUndefined.                        (* out-of-bounds read *)

Definition method_parameters_field (field : grpc_json)
    (st : method_parsing_state) : field_outcome :=
  match json_key field with
  | None => FieldOk st
  | Some key =>
      if String.eqb key "waitForReady" then
        match mps_wait_for_ready st with
        | WAIT_FOR_READY_UNSET =>
            match parse_wait_for_ready field (mps_wait_for_ready st) with
            | (true, w) =>
                FieldOk {| mps_wait_for_ready := w;
                           mps_timeout := mps_timeout st;
                           mps_retry_policy := mps_retry_policy st |}
            | (false, _) => FieldError
            end
        | _ => FieldError
        end
      else if String.eqb key "timeout" then
        if (tv_sec (mps_timeout st) >? 0) || (tv_nsec (mps_timeout st) >? 0)
        then FieldError
        else
          match parse_timeout field (mps_timeout st) with
          | None => FieldUndefined
          | Some (true, t) =>
              FieldOk {| mps_wait_for_ready := mps_wait_for_ready st;
                         mps_timeout := t;
                         mps_retry_policy := mps_retry_policy st |}
          | Some (false, _) => FieldError
          end
      else if String.eqb key "retryPolicy" then
        match mps_retry_policy st with
        | Some _ => FieldError
        | None =>
            match parse_retry_policy field zeroed_retry_policy with
            | (true, rp) =>
                FieldOk {| mps_wait_for_ready := mps_wait_for_ready st;
                           mps_timeout := mps_timeout st;
                           mps_retry_policy := Some rp |}
            | (false, _) => FieldError
            end
        end
      else FieldOk st
  end.

Fixpoint method_parameters_fields (fields : list grpc_json)
    (st : method_parsing_state) : field_outcome :=
  match fields with
  | [] => FieldOk st
  | field :: rest =>
      match method_parameters_field field st with
      | FieldOk st' => method_parameters_fields rest st'
      | other => other
      end
  end.

(** [method_parameters_create_from_json]: [Some None] is the NULL returned at
    [error:], [Some (Some value)] the freshly allocated parameters, [None] an
    out-of-bounds read in [parse_timeout]. *)
Definition method_parameters_create_from_json (json : grpc_json)
    : option (option method_parameters) :=
  match method_parameters_fields (json_children json)
          {| mps_wait_for_ready := WAIT_FOR_READY_UNSET;
             mps_timeout := {| tv_sec := 0; tv_nsec := 0 |};
             mps_retry_policy := None |} with
  | FieldOk st =>
      Some (Some {| timeout := mps_timeout st;
                    wait_for_ready := mps_wait_for_ready st;
                    retry_policy := mps_retry_policy st |})
  | FieldError => Some None
  | FieldUndefined => None
  end.

(** ** Retry orchestration (client_channel.c, PER-CALL FUNCTIONS) *)

Module ClientChannel.

Definition DEFAULT_PER_RPC_RETRY_BUFFER_SIZE : Z := Z.shiftl 1 30.
Definition RETRY_BACKOFF_JITTER : Q := 2 # 10.
Definition MAX_PENDING_BATCHES : nat := 7.

(** What the retry code looks at in a metadata batch:
    [grpc_metadata_batch_size] and whether [grpc_metadata_batch_copy] of it
    returns an error. *)
Record grpc_metadata_batch : Type := {
  md_size : Z;
  md_copy_fails : bool
}.

(** [grpc_byte_stream], of which the retry code reads [length]. *)
Record grpc_byte_stream : Type := { bs_length : Z }.

(** [grpc_transport_stream_op_batch] with the parts of its payload that the
    retry code reads. *)
Record grpc_transport_stream_op_batch : Type := {
  send_initial_metadata : bool;
  send_message : bool;
  send_trailing_metadata : bool;
  recv_initial_metadata : bool;
  recv_message : bool;
  recv_trailing_metadata : bool;
  cancel_stream : bool;
  collect_stats : bool;
  payload_send_initial_metadata : grpc_metadata_batch;
  payload_send_initial_metadata_flags : Z;
  payload_send_message : grpc_byte_stream;
  payload_send_trailing_metadata : grpc_metadata_batch
}.

Record pending_batch : Type := {
  batch : option grpc_transport_stream_op_batch;
  retry_checks_for_new_batch_done : bool;
  handler_in_flight : bool
}.

(** Retry state stored in the parent data of a subchannel call. *)
Record subchannel_call_retry_state : Type := {
  started_send_message_count : Z;
  started_send_initial_metadata : bool;
  started_send_trailing_metadata : bool;
  started_recv_initial_metadata : bool;
  started_recv_message : bool;
  started_recv_trailing_metadata : bool;
  completed_send_message_count : Z;
  completed_send_initial_metadata : bool;
  completed_send_trailing_metadata : bool;
  completed_recv_initial_metadata : bool;
  completed_recv_message : bool;
  completed_recv_trailing_metadata : bool;
  retry_dispatched : bool
}.

(** The parent data of a subchannel call that was just created. *)
Definition fresh_retry_state : subchannel_call_retry_state :=
  {| started_send_message_count := 0;
     started_send_initial_metadata := false;
     started_send_trailing_metadata := false;
     started_recv_initial_metadata := false;
     started_recv_message := false;
     started_recv_trailing_metadata := false;
     completed_send_message_count := 0;
     completed_send_initial_metadata := false;
     completed_send_trailing_metadata := false;
     completed_recv_initial_metadata := false;
     completed_recv_message := false;
     completed_recv_trailing_metadata := false;
     retry_dispatched := false |}.

(** The arguments [gpr_backoff_init] was called with, and how often
    [gpr_backoff_step] was called since. *)
Record gpr_backoff : Type := {
  bo_initial_connect_timeout : Z;
  bo_multiplier : Z;
  bo_jitter : Q;
  bo_min_timeout_millis : Z;
  bo_max_timeout_millis : Z;
  bo_steps : nat
}.

(** Modelled from the spec: the retry throttle (retry_throttle.c is not part
    of the sources at hand).  "Each throttle tracks a milli-token count.
    record_failure() debits 1000; returns true iff count (before debit) >=
    max/2.  record_success() credits milli_token_ratio and caps at max"; the
    count stays in [[0, max_milli_tokens]]. *)
Record grpc_server_retry_throttle_data : Type := {
  max_milli_tokens : Z;
  milli_token_ratio : Z;
  milli_tokens : Z
}.

Definition grpc_server_retry_throttle_data_record_failure
    (t : grpc_server_retry_throttle_data)
    : bool * grpc_server_retry_throttle_data :=
  (max_milli_tokens t / 2 <=? milli_tokens t,
   {| max_milli_tokens := max_milli_tokens t;
      milli_token_ratio := milli_token_ratio t;
      milli_tokens := Z.max 0 (milli_tokens t - 1000) |}).

Definition grpc_server_retry_throttle_data_record_success
    (t : grpc_server_retry_throttle_data) : grpc_server_retry_throttle_data :=
  {| max_milli_tokens := max_milli_tokens t;
     milli_token_ratio := milli_token_ratio t;
     milli_tokens :=
       Z.min (max_milli_tokens t) (milli_tokens t + milli_token_ratio t) |}.

(** The fields of [channel_data] that the retry code reads. *)
Record channel_data : Type := { per_rpc_retry_buffer_size : Z }.

(** [grpc_channel_arg_get_integer (arg, {default, min, max})] for an integer
    argument that may be absent. *)
Definition grpc_channel_arg_get_integer (arg : option Z)
    (default_value min_value max_value : Z) : Z :=
  match arg with
  | None => default_value
  | Some v => if (v <? min_value) || (max_value <? v) then default_value else v
  end.

(** What [cc_init_channel_elem] records for the per-RPC retry buffer. *)
Definition cc_init_channel_elem (per_rpc_retry_buffer_size_arg : option Z)
    : channel_data :=
  {| per_rpc_retry_buffer_size :=
       grpc_channel_arg_get_integer per_rpc_retry_buffer_size_arg
         DEFAULT_PER_RPC_RETRY_BUFFER_SIZE 0 INT_MAX |}.

(** [call_data].  [subchannel_call] carries the retry state kept in the
    parent data of the call object; [error] is the stashed cancel error;
    [retry_timer] is the deadline of the timer armed for [pick_closure].
    [send_message_caches] is [initial_send_message] followed by
    [send_messages]. *)
Record call_data : Type := {
  retry_throttle_data : grpc_server_retry_throttle_data;
  method_params : option method_parameters;
  subchannel_call : option subchannel_call_retry_state;
  error : option grpc_status_code;
  pending_batches : list pending_batch;
  retry_committed_flag : bool;
  num_retry_attempts : Z;
  bytes_buffered_for_retry : Z;
  retry_backoff : option gpr_backoff;
  retry_timer : option Z;
  seen_send_initial_metadata : bool;
  send_initial_metadata_storage : option grpc_metadata_batch;
  send_initial_metadata_flags : Z;
  num_send_message_ops : Z;
  send_message_caches : list grpc_byte_stream;
  seen_send_trailing_metadata : bool;
  send_trailing_metadata_storage : option grpc_metadata_batch
}.

(** A call element as the channel stack hands it over (zeroed call data). *)
Definition initial_call_data (throttle : grpc_server_retry_throttle_data)
    (params : option method_parameters) : call_data :=
  {| retry_throttle_data := throttle; method_params := params;
     subchannel_call := None; error := None;
     pending_batches :=
       replicate MAX_PENDING_BATCHES
         {| batch := None; retry_checks_for_new_batch_done := false;
            handler_in_flight := false |};
     retry_committed_flag := false; num_retry_attempts := 0;
     bytes_buffered_for_retry := 0; retry_backoff := None;
     retry_timer := None;
     seen_send_initial_metadata := false;
     send_initial_metadata_storage := None;
     send_initial_metadata_flags := 0;
     num_send_message_ops := 0; send_message_caches := [];
     seen_send_trailing_metadata := false;
     send_trailing_metadata_storage := None |}.

(** The retry policy of the call's method, if any
    ([calld->method_params != NULL && ...->retry_policy != NULL]). *)
Definition call_retry_policy (calld : call_data) : option retry_policy_params :=
  match method_params calld with
  | Some params => retry_policy params
  | None => None
  end.

(** Field updates. *)
Definition set_pending_batches (v : list pending_batch) (c : call_data) :=
  {| retry_throttle_data := retry_throttle_data c;
     method_params := method_params c; subchannel_call := subchannel_call c;
     error := error c; pending_batches := v;
     retry_committed_flag := retry_committed_flag c;
     num_retry_attempts := num_retry_attempts c;
     bytes_buffered_for_retry := bytes_buffered_for_retry c;
     retry_backoff := retry_backoff c; retry_timer := retry_timer c;
     seen_send_initial_metadata := seen_send_initial_metadata c;
     send_initial_metadata_storage := send_initial_metadata_storage c;
     send_initial_metadata_flags := send_initial_metadata_flags c;
     num_send_message_ops := num_send_message_ops c;
     send_message_caches := send_message_caches c;
     seen_send_trailing_metadata := seen_send_trailing_metadata c;
     send_trailing_metadata_storage := send_trailing_metadata_storage c |}.

Definition set_retry_committed_flag (v : bool) (c : call_data) :=
  {| retry_throttle_data := retry_throttle_data c;
     method_params := method_params c; subchannel_call := subchannel_call c;
     error := error c; pending_batches := pending_batches c;
     retry_committed_flag := v;
     num_retry_attempts := num_retry_attempts c;
     bytes_buffered_for_retry := bytes_buffered_for_retry c;
     retry_backoff := retry_backoff c; retry_timer := retry_timer c;
     seen_send_initial_metadata := seen_send_initial_metadata c;
     send_initial_metadata_storage := send_initial_metadata_storage c;
     send_initial_metadata_flags := send_initial_metadata_flags c;
     num_send_message_ops := num_send_message_ops c;
     send_message_caches := send_message_caches c;
     seen_send_trailing_metadata := seen_send_trailing_metadata c;
     send_trailing_metadata_storage := send_trailing_metadata_storage c |}.

Definition set_bytes_buffered_for_retry (v : Z) (c : call_data) :=
  {| retry_throttle_data := retry_throttle_data c;
     method_params := method_params c; subchannel_call := subchannel_call c;
     error := error c; pending_batches := pending_batches c;
     retry_committed_flag := retry_committed_flag c;
     num_retry_attempts := num_retry_attempts c;
     bytes_buffered_for_retry := v;
     retry_backoff := retry_backoff c; retry_timer := retry_timer c;
     seen_send_initial_metadata := seen_send_initial_metadata c;
     send_initial_metadata_storage := send_initial_metadata_storage c;
     send_initial_metadata_flags := send_initial_metadata_flags c;
     num_send_message_ops := num_send_message_ops c;
     send_message_caches := send_message_caches c;
     seen_send_trailing_metadata := seen_send_trailing_metadata c;
     send_trailing_metadata_storage := send_trailing_metadata_storage c |}.

Definition set_subchannel_call (v : option subchannel_call_retry_state)
    (c : call_data) :=
  {| retry_throttle_data := retry_throttle_data c;
     method_params := method_params c; subchannel_call := v;
     error := error c; pending_batches := pending_batches c;
     retry_committed_flag := retry_committed_flag c;
     num_retry_attempts := num_retry_attempts c;
     bytes_buffered_for_retry := bytes_buffered_for_retry c;
     retry_backoff := retry_backoff c; retry_timer := retry_timer c;
     seen_send_initial_metadata := seen_send_initial_metadata c;
     send_initial_metadata_storage := send_initial_metadata_storage c;
     send_initial_metadata_flags := send_initial_metadata_flags c;
     num_send_message_ops := num_send_message_ops c;
     send_message_caches := send_message_caches c;
     seen_send_trailing_metadata := seen_send_trailing_metadata c;
     send_trailing_metadata_storage := send_trailing_metadata_storage c |}.

Definition set_retry_throttle_data (v : grpc_server_retry_throttle_data)
    (c : call_data) :=
  {| retry_throttle_data := v;
     method_params := method_params c; subchannel_call := subchannel_call c;
     error := error c; pending_batches := pending_batches c;
     retry_committed_flag := retry_committed_flag c;
     num_retry_attempts := num_retry_attempts c;
     bytes_buffered_for_retry := bytes_buffered_for_retry c;
     retry_backoff := retry_backoff c; retry_timer := retry_timer c;
     seen_send_initial_metadata := seen_send_initial_metadata c;
     send_initial_metadata_storage := send_initial_metadata_storage c;
     send_initial_metadata_flags := send_initial_metadata_flags c;
     num_send_message_ops := num_send_message_ops c;
     send_message_caches := send_message_caches c;
     seen_send_trailing_metadata := seen_send_trailing_metadata c;
     send_trailing_metadata_storage := send_trailing_metadata_storage c |}.

Definition set_error (v : option grpc_status_code) (c : call_data) :=
  {| retry_throttle_data := retry_throttle_data c;
     method_params := method_params c; subchannel_call := subchannel_call c;
     error := v; pending_batches := pending_batches c;
     retry_committed_flag := retry_committed_flag c;
     num_retry_attempts := num_retry_attempts c;
     bytes_buffered_for_retry := bytes_buffered_for_retry c;
     retry_backoff := retry_backoff c; retry_timer := retry_timer c;
     seen_send_initial_metadata := seen_send_initial_metadata c;
     send_initial_metadata_storage := send_initial_metadata_storage c;
     send_initial_metadata_flags := send_initial_metadata_flags c;
     num_send_message_ops := num_send_message_ops c;
     send_message_caches := send_message_caches c;
     seen_send_trailing_metadata := seen_send_trailing_metadata c;
     send_trailing_metadata_storage := send_trailing_metadata_storage c |}.

(** The bookkeeping at the end of [maybe_retry]: back-off, timer, counter. *)
Definition set_retry_dispatch (backoff : gpr_backoff) (deadline : Z)
    (attempts : Z) (c : call_data) :=
  {| retry_throttle_data := retry_throttle_data c;
     method_params := method_params c; subchannel_call := subchannel_call c;
     error := error c; pending_batches := pending_batches c;
     retry_committed_flag := retry_committed_flag c;
     num_retry_attempts := attempts;
     bytes_buffered_for_retry := bytes_buffered_for_retry c;
     retry_backoff := Some backoff; retry_timer := Some deadline;
     seen_send_initial_metadata := seen_send_initial_metadata c;
     send_initial_metadata_storage := send_initial_metadata_storage c;
     send_initial_metadata_flags := send_initial_metadata_flags c;
     num_send_message_ops := num_send_message_ops c;
     send_message_caches := send_message_caches c;
     seen_send_trailing_metadata := seen_send_trailing_metadata c;
     send_trailing_metadata_storage := send_trailing_metadata_storage c |}.

Definition set_send_initial_metadata_cache (seen : bool)
    (storage : option grpc_metadata_batch) (flags : Z) (c : call_data) :=
  {| retry_throttle_data := retry_throttle_data c;
     method_params := method_params c; subchannel_call := subchannel_call c;
     error := error c; pending_batches := pending_batches c;
     retry_committed_flag := retry_committed_flag c;
     num_retry_attempts := num_retry_attempts c;
     bytes_buffered_for_retry := bytes_buffered_for_retry c;
     retry_backoff := retry_backoff c; retry_timer := retry_timer c;
     seen_send_initial_metadata := seen;
     send_initial_metadata_storage := storage;
     send_initial_metadata_flags := flags;
     num_send_message_ops := num_send_message_ops c;
     send_message_caches := send_message_caches c;
     seen_send_trailing_metadata := seen_send_trailing_metadata c;
     send_trailing_metadata_storage := send_trailing_metadata_storage c |}.

Definition set_send_message_cache (count : Z) (caches : list grpc_byte_stream)
    (c : call_data) :=
  {| retry_throttle_data := retry_throttle_data c;
     method_params := method_params c; subchannel_call := subchannel_call c;
     error := error c; pending_batches := pending_batches c;
     retry_committed_flag := retry_committed_flag c;
     num_retry_attempts := num_retry_attempts c;
     bytes_buffered_for_retry := bytes_buffered_for_retry c;
     retry_backoff := retry_backoff c; retry_timer := retry_timer c;
     seen_send_initial_metadata := seen_send_initial_metadata c;
     send_initial_metadata_storage := send_initial_metadata_storage c;
     send_initial_metadata_flags := send_initial_metadata_flags c;
     num_send_message_ops := count;
     send_message_caches := caches;
     seen_send_trailing_metadata := seen_send_trailing_metadata c;
     send_trailing_metadata_storage := send_trailing_metadata_storage c |}.

Definition set_send_trailing_metadata_cache (seen : bool)
    (storage : option grpc_metadata_batch) (c : call_data) :=
  {| retry_throttle_data := retry_throttle_data c;
     method_params := method_params c; subchannel_call := subchannel_call c;
     error := error c; pending_batches := pending_batches c;
     retry_committed_flag := retry_committed_flag c;
     num_retry_attempts := num_retry_attempts c;
     bytes_buffered_for_retry := bytes_buffered_for_retry c;
     retry_backoff := retry_backoff c; retry_timer := retry_timer c;
     seen_send_initial_metadata := seen_send_initial_metadata c;
     send_initial_metadata_storage := send_initial_metadata_storage c;
     send_initial_metadata_flags := send_initial_metadata_flags c;
     num_send_message_ops := num_send_message_ops c;
     send_message_caches := send_message_caches c;
     seen_send_trailing_metadata := seen;
     send_trailing_metadata_storage := storage |}.

(** [get_batch_index]; the unreachable fall-through is [None]. *)
Definition get_batch_index (b : grpc_transport_stream_op_batch) : option nat :=
  if send_initial_metadata b then Some 0%nat
  else if send_message b then Some 1%nat
  else if send_trailing_metadata b then Some 2%nat
  else if recv_initial_metadata b then Some 3%nat
  else if recv_message b then Some 4%nat
  else if recv_trailing_metadata b then Some 5%nat
  else if cancel_stream b then Some 6%nat
  else None.

(** [pending_batches_add]; [None] where [GPR_ASSERT(pending->batch == NULL)]
    fails. *)
Definition pending_batches_add (calld : call_data)
    (b : grpc_transport_stream_op_batch) : option call_data :=
  idx ← get_batch_index b;
  pending ← pending_batches calld !! idx;
  match batch pending with
  | Some _ => None
  | None =>
      Some (set_pending_batches
              (<[idx := {| batch := Some b;
                           retry_checks_for_new_batch_done := false;
                           handler_in_flight := false |}]>
                 (pending_batches calld)) calld)
  end.

(** [retry_committed]: marks the call committed and releases the cached
    copies.  The release is not modelled: the C code keeps the pointers in the
    fields, the model keeps the fields. *)
Definition retry_committed (calld : call_data) : call_data :=
  if retry_committed_flag calld then calld
  else set_retry_committed_flag true calld.

(** [get_send_message_cache]; [None] where [GPR_ASSERT(index <
    calld->num_send_message_ops)] fails. *)
Definition get_send_message_cache (calld : call_data) (index : Z)
    : option grpc_byte_stream :=
  if index <? num_send_message_ops calld
  then send_message_caches calld !! Z.to_nat index
  else None.

(** The bytes that a batch adds to [bytes_buffered_for_retry]. *)
Definition bytes_after_batch (bytes : Z) (b : grpc_transport_stream_op_batch)
    : Z :=
  let bytes1 :=
    if send_initial_metadata b
    then size_t_wrap (bytes + md_size (payload_send_initial_metadata b))
    else bytes in
  if send_message b
  then size_t_wrap (bytes1 + bs_length (payload_send_message b))
  else bytes1.

(** The three caching steps of [retry_checks_for_new_batch].  Each yields
    [Some (true, calld)] to go on, [Some (false, calld)] for an early
    [return], [None] for a failed assertion. *)
Definition cache_send_initial_metadata (b : grpc_transport_stream_op_batch)
    (calld : call_data) : option (bool * call_data) :=
  if send_initial_metadata b then
    match send_initial_metadata_storage calld with
    | Some _ => None
    | None =>
        if md_copy_fails (payload_send_initial_metadata b)
        then Some (false,
                   retry_committed
                     (set_send_initial_metadata_cache true None
                        (send_initial_metadata_flags calld) calld))
        else Some (true,
                   set_send_initial_metadata_cache true
                     (Some (payload_send_initial_metadata b))
                     (payload_send_initial_metadata_flags b) calld)
    end
  else Some (true, calld).

Definition cache_send_message (b : grpc_transport_stream_op_batch)
    (calld : call_data) : option call_data :=
  if send_message b then
    let count := size_t_wrap (num_send_message_ops calld + 1) in
    let index := size_t_wrap (count - 1) in
    if index <? count
    then Some (set_send_message_cache count
                 (send_message_caches calld ++ [payload_send_message b])%list
                 calld)
    else None
  else Some calld.

Definition cache_send_trailing_metadata (b : grpc_transport_stream_op_batch)
    (calld : call_data) : option call_data :=
  if send_trailing_metadata b then
    match send_trailing_metadata_storage calld with
    | Some _ => None
    | None =>
        if md_copy_fails (payload_send_trailing_metadata b)
        then Some (retry_committed
                     (set_send_trailing_metadata_cache true None calld))
        else Some (set_send_trailing_metadata_cache true
                     (Some (payload_send_trailing_metadata b)) calld)
    end
  else Some calld.

(** [retry_checks_for_new_batch] on [&calld->pending_batches[i]]. *)
Definition retry_checks_for_new_batch (chand : channel_data)
    (calld : call_data) (i : nat) : option call_data :=
  pending ← pending_batches calld !! i;
  if retry_checks_for_new_batch_done pending then Some calld
  else
    b ← batch pending;
    let calld :=
      set_pending_batches
        (<[i := {| batch := batch pending;
                   retry_checks_for_new_batch_done := true;
                   handler_in_flight := handler_in_flight pending |}]>
           (pending_batches calld)) calld in
    if cancel_stream b then Some calld
    else
      match call_retry_policy calld with
      | None => Some calld
      | Some _ =>
          if retry_committed_flag calld then Some calld
          else
            let calld :=
              set_bytes_buffered_for_retry
                (bytes_after_batch (bytes_buffered_for_retry calld) b) calld in
            if per_rpc_retry_buffer_size chand <? bytes_buffered_for_retry calld
            then Some (retry_committed calld)
            else
              '(go_on, calld) ← cache_send_initial_metadata b calld;
              if go_on : bool then
                calld ← cache_send_message b calld;
                cache_send_trailing_metadata b calld
              else Some calld
      end.

Definition is_status_code_in_list (status : grpc_status_code)
    (codes : option (list grpc_status_code)) (list_size : Z) : bool :=
  match codes with
  | None => true
  | Some l =>
      existsb (grpc_status_code_eqb status) (take (Z.to_nat list_size) l)
  end.

Section MaybeRetry.

(** [gpr_backoff_begin] and [gpr_backoff_step] (backoff.c is not part of
    the sources at hand) enter only through the deadline they return for a
    back-off state and the current time. *)
Variable gpr_backoff_deadline : gpr_backoff -> Z -> Z.

(** [maybe_retry (elem, batch_data, status)] at time [now].  [retry_state]
    is the parent data of [batch_data->subchannel_call], [None] for a NULL
    [batch_data].  The result is [None] where an assertion fails. *)
Definition maybe_retry (calld : call_data)
    (retry_state : option subchannel_call_retry_state)
    (status : grpc_status_code) (now : Z)
    : option (bool * call_data * option subchannel_call_retry_state) :=
  policy ← call_retry_policy calld;
  if from_option retry_dispatched false retry_state
  then Some (true, calld, retry_state)
  else if grpc_status_code_eqb status GRPC_STATUS_OK
  then Some (false,
             set_retry_throttle_data
               (grpc_server_retry_throttle_data_record_success
                  (retry_throttle_data calld)) calld,
             retry_state)
  else if negb (is_status_code_in_list status
                  (retryable_status_codes policy)
                  (num_retryable_status_codes policy))
  then Some (false, calld, retry_state)
  else
    let '(allowed, throttle) :=
      grpc_server_retry_throttle_data_record_failure
        (retry_throttle_data calld) in
    let calld := set_retry_throttle_data throttle calld in
    if negb allowed then Some (false, calld, retry_state)
    else if retry_committed_flag calld then Some (false, calld, retry_state)
    else if num_retry_attempts calld =? max_retry_attempts policy
    then Some (false, calld, retry_state)
    else if bool_decide (error calld <> None)
    then Some (false, calld, retry_state)
    else
      let calld := set_subchannel_call None calld in
      let backoff :=
        if num_retry_attempts calld =? 0
        then {| bo_initial_connect_timeout := initial_backoff_ms policy;
                bo_multiplier := backoff_multiplier policy;
                bo_jitter := RETRY_BACKOFF_JITTER;
                bo_min_timeout_millis :=
                  Z.min (initial_backoff_ms policy) (max_backoff_ms policy);
                bo_max_timeout_millis := max_backoff_ms policy;
                bo_steps := 0 |}
        else
          let old :=
            default {| bo_initial_connect_timeout := 0; bo_multiplier := 0;
                       bo_jitter := 0; bo_min_timeout_millis := 0;
                       bo_max_timeout_millis := 0; bo_steps := 0 |}
              (retry_backoff calld) in
          {| bo_initial_connect_timeout := bo_initial_connect_timeout old;
             bo_multiplier := bo_multiplier old;
             bo_jitter := bo_jitter old;
             bo_min_timeout_millis := bo_min_timeout_millis old;
             bo_max_timeout_millis := bo_max_timeout_millis old;
             bo_steps := S (bo_steps old) |} in
      let next_attempt_time := gpr_backoff_deadline backoff now in
      Some (true,
            set_retry_dispatch backoff next_attempt_time
              (int32_wrap (num_retry_attempts calld + 1)) calld,
            match retry_state with
            | Some rs =>
                Some {| started_send_message_count :=
                          started_send_message_count rs;
                        started_send_initial_metadata :=
                          started_send_initial_metadata rs;
                        started_send_trailing_metadata :=
                          started_send_trailing_metadata rs;
                        started_recv_initial_metadata :=
                          started_recv_initial_metadata rs;
                        started_recv_message := started_recv_message rs;
                        started_recv_trailing_metadata :=
                          started_recv_trailing_metadata rs;
                        completed_send_message_count :=
                          completed_send_message_count rs;
                        completed_send_initial_metadata :=
                          completed_send_initial_metadata rs;
                        completed_send_trailing_metadata :=
                          completed_send_trailing_metadata rs;
                        completed_recv_initial_metadata :=
                          completed_recv_initial_metadata rs;
                        completed_recv_message := completed_recv_message rs;
                        completed_recv_trailing_metadata :=
                          completed_recv_trailing_metadata rs;
                        retry_dispatched := true |}
            | None => None
            end).

End MaybeRetry.

(** Updates of the "started" half of the retry state. *)
Definition with_started (messages : Z)
  (initial_md trailing_md recv_initial recv_msg recv_trailing : bool)
  (rs : subchannel_call_retry_state) : subchannel_call_retry_state :=
{| started_send_message_count := messages;
   started_send_initial_metadata := initial_md;
   started_send_trailing_metadata := trailing_md;
   started_recv_initial_metadata := recv_initial;
   started_recv_message := recv_msg;
   started_recv_trailing_metadata := recv_trailing;
   completed_send_message_count := completed_send_message_count rs;
   completed_send_initial_metadata := completed_send_initial_metadata rs;
   completed_send_trailing_metadata := completed_send_trailing_metadata rs;
   completed_recv_initial_metadata := completed_recv_initial_metadata rs;
   completed_recv_message := completed_recv_message rs;
   completed_recv_trailing_metadata := completed_recv_trailing_metadata rs;
   retry_dispatched := retry_dispatched rs |}.

Definition no_metadata : grpc_metadata_batch :=
{| md_size := 0; md_copy_fails := false |}.

(** The batch of a [subchannel_batch_data] holding send ops. *)
Definition make_send_batch (initial_md : option (grpc_metadata_batch * Z))
  (message : option grpc_byte_stream)
  (trailing_md : option grpc_metadata_batch)
  : grpc_transport_stream_op_batch :=
{| send_initial_metadata := bool_decide (is_Some initial_md);
   send_message := bool_decide (is_Some message);
   send_trailing_metadata := bool_decide (is_Some trailing_md);
   recv_initial_metadata := false; recv_message := false;
   recv_trailing_metadata := false; cancel_stream := false;
   collect_stats := false;
   payload_send_initial_metadata :=
     from_option fst no_metadata initial_md;
   payload_send_initial_metadata_flags := from_option snd 0 initial_md;
   payload_send_message := default {| bs_length := 0 |} message;
   payload_send_trailing_metadata := default no_metadata trailing_md |}.

(** The batch of a [subchannel_batch_data] holding recv ops. *)
Definition make_recv_batch (recv_initial recv_msg recv_trailing : bool)
  : grpc_transport_stream_op_batch :=
{| send_initial_metadata := false; send_message := false;
   send_trailing_metadata := false;
   recv_initial_metadata := recv_initial; recv_message := recv_msg;
   recv_trailing_metadata := recv_trailing; cancel_stream := false;
   collect_stats := recv_trailing;
   payload_send_initial_metadata := no_metadata;
   payload_send_initial_metadata_flags := 0;
   payload_send_message := {| bs_length := 0 |};
   payload_send_trailing_metadata := no_metadata |}.

(** First loop of [start_retriable_subchannel_batches]. *)
Fixpoint retry_checks_for_pending_batches (chand : channel_data)
  (calld : call_data) (indices : list nat) : option call_data :=
match indices with
| [] => Some calld
| i :: rest =>
    pending ← pending_batches calld !! i;
    calld ← (if batch pending is Some _
             then retry_checks_for_new_batch chand calld i
             else Some calld);
    retry_checks_for_pending_batches chand calld rest
end.

(** [grpc_metadata_batch_copy] of a cached copy under
  [GPR_ASSERT(error == GRPC_ERROR_NONE)]. *)
Definition copy_cached_metadata (storage : option grpc_metadata_batch)
  : option grpc_metadata_batch :=
md ← storage;
if md_copy_fails md then None else Some md.

(** The send batch.  Yields the updated retry state and the batch, if one was
  created ([send_batch_data != NULL]). *)
Definition build_send_batch (calld : call_data)
  (retry_state : subchannel_call_retry_state)
  : option (subchannel_call_retry_state *
            option grpc_transport_stream_op_batch) :=
(* send_initial_metadata. *)
let start_initial :=
  seen_send_initial_metadata calld
  && negb (started_send_initial_metadata retry_state) in
initial_md ←
  (if start_initial
   then md ← copy_cached_metadata (send_initial_metadata_storage calld);
        Some (Some (md, send_initial_metadata_flags calld))
   else Some None);
let retry_state :=
  if start_initial
  then with_started (started_send_message_count retry_state) true
         (started_send_trailing_metadata retry_state)
         (started_recv_initial_metadata retry_state)
         (started_recv_message retry_state)
         (started_recv_trailing_metadata retry_state) retry_state
  else retry_state in
(* send_message. *)
let have_pending_send_message_ops :=
  started_send_message_count retry_state <? num_send_message_ops calld in
let send_message_op_pending :=
  started_send_message_count retry_state
  <? completed_send_message_count retry_state in
let start_message :=
  have_pending_send_message_ops && negb send_message_op_pending in
message ←
  (if start_message
   then cache ← get_send_message_cache calld
                  (started_send_message_count retry_state);
        Some (Some cache)
   else Some None);
let retry_state :=
  if start_message
  then with_started
         (size_t_wrap (started_send_message_count retry_state + 1))
         (started_send_initial_metadata retry_state)
         (started_send_trailing_metadata retry_state)
         (started_recv_initial_metadata retry_state)
         (started_recv_message retry_state)
         (started_recv_trailing_metadata retry_state) retry_state
  else retry_state in
(* send_trailing_metadata. *)
let start_trailing :=
  seen_send_trailing_metadata calld
  && (started_send_message_count retry_state
      =? num_send_message_ops calld)
  && negb (started_send_trailing_metadata retry_state) in
trailing_md ←
  (if start_trailing
   then md ← copy_cached_metadata (send_trailing_metadata_storage calld);
        Some (Some md)
   else Some None);
let retry_state :=
  if start_trailing
  then with_started (started_send_message_count retry_state)
         (started_send_initial_metadata retry_state) true
         (started_recv_initial_metadata retry_state)
         (started_recv_message retry_state)
         (started_recv_trailing_metadata retry_state) retry_state
  else retry_state in
Some (retry_state,
      if start_initial || start_message || start_trailing
      then Some (make_send_batch initial_md message trailing_md)
      else None).

(** The loop that builds one recv batch per pending batch with recv ops that
  were not started on this subchannel call. *)
Fixpoint build_recv_batches (pending : list pending_batch)
  (retry_state : subchannel_call_retry_state)
  : option (subchannel_call_retry_state *
            list grpc_transport_stream_op_batch) :=
match pending with
| [] => Some (retry_state, [])
| p :: rest =>
    match batch p with
    | None => build_recv_batches rest retry_state
    | Some b =>
        let start_recv_initial_metadata :=
          recv_initial_metadata b
          && negb (started_recv_initial_metadata retry_state) in
        let start_recv_message :=
          recv_message b && negb (started_recv_message retry_state) in
        let start_recv_trailing_metadata :=
          recv_trailing_metadata b
          && negb (started_recv_trailing_metadata retry_state) in
        if negb start_recv_initial_metadata && negb start_recv_message
           && negb start_recv_trailing_metadata
        then build_recv_batches rest retry_state
        else if start_recv_trailing_metadata && negb (collect_stats b)
        then None
        else
          let retry_state :=
            with_started (started_send_message_count retry_state)
              (started_send_initial_metadata retry_state)
              (started_send_trailing_metadata retry_state)
              (start_recv_initial_metadata
               || started_recv_initial_metadata retry_state)
              (start_recv_message || started_recv_message retry_state)
              (start_recv_trailing_metadata
               || started_recv_trailing_metadata retry_state)
              retry_state in
          '(retry_state, batches) ← build_recv_batches rest retry_state;
          Some (retry_state,
                make_recv_batch start_recv_initial_metadata
                  start_recv_message start_recv_trailing_metadata
                :: batches)
    end
end.

(** [start_retriable_subchannel_batches]: the call data afterwards and the
  batches handed to [grpc_subchannel_call_process_op], in order.  [None]
  where the call has no subchannel call, an assertion fails or the
  two-element array [batches] overflows. *)
Definition start_retriable_subchannel_batches (chand : channel_data)
  (calld : call_data)
  : option (call_data * list grpc_transport_stream_op_batch) :=
retry_state ← subchannel_call calld;
calld ← retry_checks_for_pending_batches chand calld
          (seq 0 MAX_PENDING_BATCHES);
'(retry_state, send_batch) ← build_send_batch calld retry_state;
'(retry_state, recv_batches) ←
  build_recv_batches (pending_batches calld) retry_state;
let batches := (option_list send_batch ++ recv_batches)%list in
if (2 <? length batches)%nat then None
else if (length batches =? 0)%nat then None
else Some (set_subchannel_call (Some retry_state) calld, batches).

(** [create_subchannel_call] on success: the new call object comes with
  zeroed parent data. *)
Definition create_subchannel_call (calld : call_data) : call_data :=
set_subchannel_call (Some fresh_retry_state) calld.

(** *** The slots of the pending batches *)

Definition set_handler_in_flight (v : bool) (p : pending_batch)
    : pending_batch :=
  {| batch := batch p;
     retry_checks_for_new_batch_done := retry_checks_for_new_batch_done p;
     handler_in_flight := v |}.

Definition clear_batch (p : pending_batch) : pending_batch :=
  {| batch := None;
     retry_checks_for_new_batch_done := retry_checks_for_new_batch_done p;
     handler_in_flight := handler_in_flight p |}.

(** [pending->batch != NULL && !pending->handler_in_flight]. *)
Definition awaits_handler (p : pending_batch) : bool :=
  bool_decide (batch p <> None) && negb (handler_in_flight p).

(** The loop that [pending_batches_fail] and [pending_batches_resume] share,
    over the slots from index [i] on.  A slot that holds a batch whose
    handler is not in flight is marked; the first such slot becomes
    [first_batch_idx] ([None] stands for [GPR_ARRAY_SIZE]), for each later
    one a closure is started on the call combiner.  Yields the slots,
    [first_batch_idx] and the slots of the closures started, in order. *)
Fixpoint mark_handlers_in_flight (pending : list pending_batch) (i : nat)
    (first_batch_idx : option nat)
    : list pending_batch * option nat * list nat :=
  match pending with
  | [] => ([], first_batch_idx, [])
  | p :: rest =>
      if awaits_handler p then
        match first_batch_idx with
        | None =>
            let '(rest', first, started) :=
              mark_handlers_in_flight rest (S i) (Some i) in
            (set_handler_in_flight true p :: rest', first, started)
        | Some _ =>
            let '(rest', first, started) :=
              mark_handlers_in_flight rest (S i) first_batch_idx in
            (set_handler_in_flight true p :: rest', first, i :: started)
        end
      else
        let '(rest', first, started) :=
          mark_handlers_in_flight rest (S i) first_batch_idx in
        (p :: rest', first, started)
  end.

(** [fail_pending_batch_in_call_combiner] and
    [resume_pending_batch_in_call_combiner] on [&calld->pending_batches[i]]:
    the slot is cleared, and the batch it held is failed or passed to the
    subchannel call.  [None] where the slot holds no batch (the C code would
    pass a NULL batch on). *)
Definition take_pending_batch (calld : call_data) (i : nat)
    : option (call_data * grpc_transport_stream_op_batch) :=
  pending ← pending_batches calld !! i;
  b ← batch pending;
  Some (set_pending_batches
          (<[i := clear_batch pending]> (pending_batches calld)) calld,
        b).

Definition fail_pending_batch_in_call_combiner := take_pending_batch.
Definition resume_pending_batch_in_call_combiner := take_pending_batch.

(** The operations on a call that touch its retry bookkeeping or its
  pending batches.  [OpMarkHandlersInFlight] is the walk over the slots
  that [pending_batches_fail] and [pending_batches_resume] make;
  [OpTakePendingBatch] is [pending->batch = NULL] on one slot, as
  [fail_pending_batch_in_call_combiner],
  [resume_pending_batch_in_call_combiner] and, for a batch whose callbacks
  have all been taken, [maybe_clear_pending_batch] do it. *)
Inductive call_op : Type :=
| OpPendingBatchesAdd (b : grpc_transport_stream_op_batch)
| OpCancelStream (status : grpc_status_code)
| OpCreateSubchannelCall
| OpRetryChecksForNewBatch (i : nat)
| OpStartRetriableSubchannelBatches
| OpRetryCommitted
| OpMaybeRetry (retry_state : option subchannel_call_retry_state)
    (status : grpc_status_code) (now : Z)
| OpMarkHandlersInFlight
| OpTakePendingBatch (i : nat).

Section Runs.

Variable gpr_backoff_deadline : gpr_backoff -> Z -> Z.
Variable chand : channel_data.

Definition call_step (calld : call_data) (op : call_op) : option call_data :=
  match op with
  | OpPendingBatchesAdd b => pending_batches_add calld b
  | OpCancelStream status => Some (set_error (Some status) calld)
  | OpCreateSubchannelCall => Some (create_subchannel_call calld)
  | OpRetryChecksForNewBatch i => retry_checks_for_new_batch chand calld i
  | OpStartRetriableSubchannelBatches =>
      fst <$> start_retriable_subchannel_batches chand calld
  | OpRetryCommitted => Some (retry_committed calld)
  | OpMaybeRetry retry_state status now =>
      (fun r => snd (fst r))
        <$> maybe_retry gpr_backoff_deadline calld retry_state status now
  | OpMarkHandlersInFlight =>
      let '(pending, _, _) :=
        mark_handlers_in_flight (pending_batches calld) 0 None in
      Some (set_pending_batches pending calld)
  | OpTakePendingBatch i => fst <$> take_pending_batch calld i
  end.

Fixpoint call_run (calld : call_data) (ops : list call_op)
    : option call_data :=
  match ops with
  | [] => Some calld
  | op :: rest => calld' ← call_step calld op; call_run calld' rest
  end.

End Runs.

(** Sizes that fit the address space: what [grpc_metadata_batch_size] and the
  32-bit [length] of a byte stream can be. *)
Definition batch_sizes_ok (b : grpc_transport_stream_op_batch) : Prop :=
0 <= md_size (payload_send_initial_metadata b) < 2 ^ 63
/\ 0 <= bs_length (payload_send_message b) < 2 ^ 32.

Definition op_sizes_ok (op : call_op) : Prop :=
match op with
| OpPendingBatchesAdd b => batch_sizes_ok b
| _ => True
end.

(** The bytes held by the send-side caches: the copy of the initial metadata
  and every cached message. *)
Definition cached_bytes (calld : call_data) : Z :=
from_option md_size 0 (send_initial_metadata_storage calld)
+ foldr (fun m acc => bs_length m + acc) 0 (send_message_caches calld).

(** The bytes a batch asks to buffer. *)
Definition batch_bytes (b : grpc_transport_stream_op_batch) : Z :=
(if send_initial_metadata b
 then md_size (payload_send_initial_metadata b) else 0)
+ (if send_message b then bs_length (payload_send_message b) else 0).

(** What holds of a call between any two of its operations. *)
Definition retry_invariant (chand : channel_data) (calld : call_data) : Prop :=
0 <= bytes_buffered_for_retry calld
/\ Forall (fun p => forall b, batch p = Some b -> batch_sizes_ok b)
     (pending_batches calld)
/\ (call_retry_policy calld <> None ->
    retry_committed_flag calld = false ->
    bytes_buffered_for_retry calld = cached_bytes calld
    /\ bytes_buffered_for_retry calld <= per_rpc_retry_buffer_size chand).

(** The send-side caches of a call. *)
Definition send_caches (calld : call_data) :=
(seen_send_initial_metadata calld, send_initial_metadata_storage calld,
 send_initial_metadata_flags calld, num_send_message_ops calld,
 send_message_caches calld, seen_send_trailing_metadata calld,
 send_trailing_metadata_storage calld).

(** A unary call: one batch with the three send ops, under a policy that
  allows one retry. *)
Definition sample_unary_batch : grpc_transport_stream_op_batch :=
{| send_initial_metadata := true; send_message := true;
   send_trailing_metadata := true;
   recv_initial_metadata := false; recv_message := false;
   recv_trailing_metadata := false;
   cancel_stream := false; collect_stats := false;
   payload_send_initial_metadata :=
     {| md_size := 40; md_copy_fails := false |};
   payload_send_initial_metadata_flags := 0;
   payload_send_message := {| bs_length := 5 |};
   payload_send_trailing_metadata :=
     {| md_size := 0; md_copy_fails := false |} |}.

Definition sample_throttle : grpc_server_retry_throttle_data :=
{| max_milli_tokens := 10000; milli_token_ratio := 100;
   milli_tokens := 10000 |}.

Definition sample_policy : retry_policy_params :=
{| max_retry_attempts := 1; initial_backoff_ms := 100;
   max_backoff_ms := 1000; backoff_multiplier := 0;
   retryable_status_codes := Some [GRPC_STATUS_UNAVAILABLE];
   num_retryable_status_codes := 1 |}.

Definition sample_params : method_parameters :=
{| timeout := {| tv_sec := 0; tv_nsec := 0 |};
   wait_for_ready := WAIT_FOR_READY_UNSET;
   retry_policy := Some sample_policy |}.

Definition sample_call : call_data :=
initial_call_data sample_throttle (Some sample_params).

(** A back-off without jitter that always waits the initial time. *)
Definition sample_backoff_deadline (backoff : gpr_backoff) (now : Z) : Z :=
now + bo_initial_connect_timeout backoff.

(** The first attempt of the sample call fails with UNAVAILABLE at time 0. *)
Definition sample_first_retry
  : option (bool * call_data * option subchannel_call_retry_state) :=
maybe_retry sample_backoff_deadline (create_subchannel_call sample_call)
  (Some fresh_retry_state) GRPC_STATUS_UNAVAILABLE 0.

(** A streaming call: a batch with the initial metadata and a first message,
  then batches with one message each.  Every batch but the last gets its
  retry checks and leaves its slot before the next one arrives. *)
Definition sample_opening_batch : grpc_transport_stream_op_batch :=
{| send_initial_metadata := true; send_message := true;
   send_trailing_metadata := false;
   recv_initial_metadata := false; recv_message := false;
   recv_trailing_metadata := false;
   cancel_stream := false; collect_stats := false;
   payload_send_initial_metadata :=
     {| md_size := 40; md_copy_fails := false |};
   payload_send_initial_metadata_flags := 0;
   payload_send_message := {| bs_length := 5 |};
   payload_send_trailing_metadata :=
     {| md_size := 0; md_copy_fails := false |} |}.

Definition sample_message_batch (length : Z)
  : grpc_transport_stream_op_batch :=
{| send_initial_metadata := false; send_message := true;
   send_trailing_metadata := false;
   recv_initial_metadata := false; recv_message := false;
   recv_trailing_metadata := false;
   cancel_stream := false; collect_stats := false;
   payload_send_initial_metadata :=
     {| md_size := 0; md_copy_fails := false |};
   payload_send_initial_metadata_flags := 0;
   payload_send_message := {| bs_length := length |};
   payload_send_trailing_metadata :=
     {| md_size := 0; md_copy_fails := false |} |}.

Definition sample_streaming_ops : list call_op :=
[OpPendingBatchesAdd sample_opening_batch;
 OpRetryChecksForNewBatch 0; OpTakePendingBatch 0;
 OpPendingBatchesAdd (sample_message_batch 7);
 OpRetryChecksForNewBatch 1; OpTakePendingBatch 1;
 OpPendingBatchesAdd (sample_message_batch 8);
 OpRetryChecksForNewBatch 1; OpTakePendingBatch 1;
 OpPendingBatchesAdd (sample_message_batch 1)].


(** ** Failing and resuming pending batches *)

(** What a walk over the pending batches has set in motion: the batch that
    the direct call at the end handled ([None] when the call combiner was
    stopped instead) and the slots whose closure was started on the call
    combiner. *)
Record handled_batches : Type := {
  handled_directly : option grpc_transport_stream_op_batch;
  closures_started : list nat
}.

Definition pending_batches_fail (calld : call_data)
    : option (call_data * handled_batches) :=
  let '(pending, first_batch_idx, started) :=
    mark_handlers_in_flight (pending_batches calld) 0 None in
  let calld := set_pending_batches pending calld in
  match first_batch_idx with
  | Some idx =>
      '(calld, b) ← fail_pending_batch_in_call_combiner calld idx;
      Some (calld,
            {| handled_directly := Some b; closures_started := started |})
  | None =>
      Some (calld, {| handled_directly := None; closures_started := started |})
  end.

(** What [pending_batches_resume] set in motion: the retriable batches given
    to the subchannel call, or the pending batches sent down as they are. *)
Inductive resumed_batches : Type :=
  | RetriableBatches (batches : list grpc_transport_stream_op_batch)
  | BatchesAsIs (handled : handled_batches).

(** [pending_batches_resume]; [None] where an assertion fails. *)
Definition pending_batches_resume (chand : channel_data) (calld : call_data)
    : option (call_data * resumed_batches) :=
  if bool_decide (call_retry_policy calld <> None)
     && negb (retry_committed_flag calld)
  then
    '(calld, batches) ← start_retriable_subchannel_batches chand calld;
    Some (calld, RetriableBatches batches)
  else
    let '(pending, first_batch_idx, started) :=
      mark_handlers_in_flight (pending_batches calld) 0 None in
    let calld := set_pending_batches pending calld in
    idx ← first_batch_idx;
    '(calld, b) ← resume_pending_batch_in_call_combiner calld idx;
    Some (calld,
          BatchesAsIs {| handled_directly := Some b;
                         closures_started := started |}).

(** The closures that a walk started, run in the order in which the call
    combiner got them: the call data afterwards and the batches they
    handled. *)
Fixpoint run_started_closures (calld : call_data) (slots : list nat)
    : option (call_data * list grpc_transport_stream_op_batch) :=
  match slots with
  | [] => Some (calld, [])
  | i :: rest =>
      '(calld, b) ← take_pending_batch calld i;
      '(calld, handled) ← run_started_closures calld rest;
      Some (calld, b :: handled)
  end.

(** What [cc_start_transport_stream_op_batch] did with a batch. *)
Inductive batch_disposition : Type :=
  | FailedAtOnce                 (* finish_with_failure on the new batch *)
  | PendingFailed (handled : handled_batches)
  | PendingResumed (resumed : resumed_batches)
  | PickStarted                  (* start_pick_locked was scheduled *)
  | BatchSaved.                  (* the call combiner was released *)

(** [cc_start_transport_stream_op_batch] without deadline checking.
    [cancel_error] is [batch->payload->cancel_stream.cancel_error], read for
    a batch with [cancel_stream].  [None] where an assertion fails. *)
Definition cc_start_transport_stream_op_batch (chand : channel_data)
    (calld : call_data) (b : grpc_transport_stream_op_batch)
    (cancel_error : grpc_status_code)
    : option (call_data * batch_disposition) :=
  (* If we've previously been cancelled, immediately fail any new batches. *)
  if bool_decide (error calld <> None) then Some (calld, FailedAtOnce)
  else
    (* Add the batch to the pending list. *)
    calld ← pending_batches_add calld b;
    (* Handle cancellation. *)
    if cancel_stream b then
      let calld := set_error (Some cancel_error) calld in
      match subchannel_call calld with
      | None =>
          '(calld, handled) ← pending_batches_fail calld;
          Some (calld, PendingFailed handled)
      | Some _ =>
          '(calld, resumed) ← pending_batches_resume chand calld;
          Some (calld, PendingResumed resumed)
      end
    else
      (* Check if we've already gotten a subchannel call. *)
      match subchannel_call calld with
      | Some _ =>
          '(calld, resumed) ← pending_batches_resume chand calld;
          Some (calld, PendingResumed resumed)
      | None =>
          if send_initial_metadata b then Some (calld, PickStarted)
          else Some (calld, BatchSaved)
      end.

(** The batches held by the slots whose handler is not in flight, in the
    order of the slots. *)
Definition batches_to_handle (pending : list pending_batch)
    : list grpc_transport_stream_op_batch :=
  omap (fun p => if handler_in_flight p then None else batch p) pending.

(** The slots after a walk and the closures it started: what awaited a
    handler is marked and cleared. *)
Definition handle_slot (p : pending_batch) : pending_batch :=
  if awaits_handler p then clear_batch (set_handler_in_flight true p) else p.

(** The batches that a walk and the closures it started have handled. *)
Definition all_handled (handled : handled_batches)
    (by_closures : list grpc_transport_stream_op_batch)
    : list grpc_transport_stream_op_batch :=
  (option_list (handled_directly handled) ++ by_closures)%list.

(** A batch with [cancel_stream] only. *)
Definition sample_cancel_batch : grpc_transport_stream_op_batch :=
  {| send_initial_metadata := false; send_message := false;
     send_trailing_metadata := false;
     recv_initial_metadata := false; recv_message := false;
     recv_trailing_metadata := false;
     cancel_stream := true; collect_stats := false;
     payload_send_initial_metadata := no_metadata;
     payload_send_initial_metadata_flags := 0;
     payload_send_message := {| bs_length := 0 |};
     payload_send_trailing_metadata := no_metadata |}.

(** The sample call when its unary batch has arrived and no pick is done. *)
Definition sample_waiting_call : call_data :=
  default sample_call (pending_batches_add sample_call sample_unary_batch).

(** The slots that await a handler, counted from [i] on. *)
Fixpoint marked_slots (pending : list pending_batch) (i : nat) : list nat :=
  match pending with
  | [] => []
  | p :: rest =>
      if awaits_handler p then i :: marked_slots rest (S i)
      else marked_slots rest (S i)
  end.

(** What the retry checks and the caching of send ops leave alone in a call,
    and that they do not take a commitment back. *)
Definition call_frame (calld calld' : call_data) : Prop :=
  error calld' = error calld
  /\ retry_timer calld' = retry_timer calld
  /\ subchannel_call calld' = subchannel_call calld
  /\ num_retry_attempts calld' = num_retry_attempts calld
  /\ method_params calld' = method_params calld
  /\ pending_batches calld' = pending_batches calld
  /\ (retry_committed_flag calld = true -> retry_committed_flag calld' = true).

Definition call_frame_but_slots (calld : call_data)
    (slots : list pending_batch) (calld' : call_data) : Prop :=
  pending_batches calld' = slots
  /\ error calld' = error calld
  /\ retry_timer calld' = retry_timer calld
  /\ subchannel_call calld' = subchannel_call calld
  /\ num_retry_attempts calld' = num_retry_attempts calld
  /\ method_params calld' = method_params calld
  /\ (retry_committed_flag calld = true -> retry_committed_flag calld' = true).

(** The sample call when the retry checks for its batch were made. *)
Definition sample_checked_call : call_data :=
  default sample_call
    (retry_checks_for_new_batch (cc_init_channel_elem None)
       sample_waiting_call 0).

(** The sample call once it is committed, and the same call when its
    attempt has then failed with UNAVAILABLE. *)
Definition sample_committed_call : call_data :=
  retry_committed (create_subchannel_call sample_waiting_call).

Definition sample_committed_after_failure : call_data :=
  default sample_committed_call
    (call_run sample_backoff_deadline (cc_init_channel_elem None)
       sample_committed_call
       [OpMaybeRetry (Some fresh_retry_state) GRPC_STATUS_UNAVAILABLE 0]).

(** The send ops that a subchannel call has been given so far. *)
Definition send_started (rs : subchannel_call_retry_state) : Z * bool * bool :=
  (started_send_message_count rs, started_send_initial_metadata rs,
   started_send_trailing_metadata rs).

(** The batches [batches] start each send op they carry for the first time
    on the subchannel call, whose retry state goes from [rs] to [rs'], and
    a message they carry is the cached message that is next in line. *)
Definition send_ops_started_once (calld : call_data)
    (rs rs' : subchannel_call_retry_state)
    (batches : list grpc_transport_stream_op_batch) : Prop :=
  (forall b, In b batches ->
     (send_initial_metadata b = true ->
      started_send_initial_metadata rs = false
      /\ started_send_initial_metadata rs' = true)
     /\ (send_message b = true ->
         send_message_caches calld !! Z.to_nat (started_send_message_count rs)
         = Some (payload_send_message b)
         /\ started_send_message_count rs'
            = size_t_wrap (started_send_message_count rs + 1))
     /\ (send_trailing_metadata b = true ->
         started_send_trailing_metadata rs = false
         /\ started_send_trailing_metadata rs' = true))
  /\ ((forall b, In b batches -> send_message b = false) ->
      started_send_message_count rs' = started_send_message_count rs)
  /\ (started_send_initial_metadata rs = true ->
      started_send_initial_metadata rs' = true)
  /\ (started_send_trailing_metadata rs = true ->
      started_send_trailing_metadata rs' = true).

(** The sample call when the batches of its first attempt were started. *)
Definition sample_first_attempt : call_data :=
  from_option fst sample_call
    (start_retriable_subchannel_batches (cc_init_channel_elem None)
       (create_subchannel_call sample_waiting_call)).

(** *** External connectivity watchers *)

(** [external_connectivity_watcher].  A node is told from the others by
    its address; [on_complete] names the closure.  The list of a channel,
    from [external_connectivity_watcher_list_head] along [next], is given
    by its nodes in that order. *)
Record external_connectivity_watcher : Type := {
  watcher_address : nat;
  on_complete : nat
}.

(** Equality of two node pointers. *)
Definition same_watcher (a b : external_connectivity_watcher) : bool :=
  (watcher_address a =? watcher_address b)%nat.

Fixpoint lookup_external_connectivity_watcher
    (watchers : list external_connectivity_watcher) (closure : nat)
    : option external_connectivity_watcher :=
  match watchers with
  | [] => None
  | w :: next =>
      if negb (on_complete w =? closure)%nat
      then lookup_external_connectivity_watcher next closure
      else Some w
  end.

(** [external_connectivity_watcher_list_append] of a node whose [next] is
    null; [None] where [GPR_ASSERT(!lookup...)] fails. *)
Definition external_connectivity_watcher_list_append
    (watchers : list external_connectivity_watcher)
    (w : external_connectivity_watcher)
    : option (list external_connectivity_watcher) :=
  match lookup_external_connectivity_watcher watchers (on_complete w) with
  | Some _ => None
  | None => Some (w :: watchers)
  end.

(** The loop of [external_connectivity_watcher_list_remove] at the node [w]
    with the nodes [next] behind it: the list from [w] on when the loop
    returns; [None] where it runs off the list into
    [GPR_UNREACHABLE_CODE]. *)
Fixpoint remove_behind (w : external_connectivity_watcher)
    (next : list external_connectivity_watcher)
    (too_remove : external_connectivity_watcher)
    : option (list external_connectivity_watcher) :=
  match next with
  | [] => None
  | n :: behind =>
      if same_watcher n too_remove then Some (w :: behind)
      else cons w <$> remove_behind n behind too_remove
  end.

(** [external_connectivity_watcher_list_remove]; [None] where the assertion
    fails or [GPR_UNREACHABLE_CODE] is reached. *)
Definition external_connectivity_watcher_list_remove
    (watchers : list external_connectivity_watcher)
    (too_remove : external_connectivity_watcher)
    : option (list external_connectivity_watcher) :=
  match lookup_external_connectivity_watcher watchers
          (on_complete too_remove) with
  | None => None
  | Some _ =>
      match watchers with
      | head :: next =>
          if same_watcher too_remove head then Some next
          else remove_behind head next too_remove
      | [] => None
      end
  end.

(** The loop of [grpc_client_channel_num_external_connectivity_watchers]. *)
Fixpoint count_watchers (watchers : list external_connectivity_watcher)
    (count : Z) : Z :=
  match watchers with
  | [] => count
  | _ :: next => count_watchers next (count + 1)
  end.

Definition grpc_client_channel_num_external_connectivity_watchers
    (watchers : list external_connectivity_watcher) : Z :=
  count_watchers watchers 0.

(** No two nodes of the list share an address or a closure. *)
Definition watchers_distinct (watchers : list external_connectivity_watcher)
    : Prop :=
  NoDup (map watcher_address watchers) /\ NoDup (map on_complete watchers).

Definition sample_watchers : list external_connectivity_watcher :=
  [{| watcher_address := 3; on_complete := 30 |};
   {| watcher_address := 2; on_complete := 20 |};
   {| watcher_address := 1; on_complete := 10 |}].

End ClientChannel.

(** ** Connectivity state *)

Inductive grpc_connectivity_state : Type :=
| GRPC_CHANNEL_IDLE | GRPC_CHANNEL_CONNECTING | GRPC_CHANNEL_READY
| GRPC_CHANNEL_TRANSIENT_FAILURE | GRPC_CHANNEL_SHUTDOWN.

Definition grpc_connectivity_state_eqb (a b : grpc_connectivity_state) : bool :=
match a, b with
| GRPC_CHANNEL_IDLE, GRPC_CHANNEL_IDLE
| GRPC_CHANNEL_CONNECTING, GRPC_CHANNEL_CONNECTING
| GRPC_CHANNEL_READY, GRPC_CHANNEL_READY
| GRPC_CHANNEL_TRANSIENT_FAILURE, GRPC_CHANNEL_TRANSIENT_FAILURE
| GRPC_CHANNEL_SHUTDOWN, GRPC_CHANNEL_SHUTDOWN => true
| _, _ => false
end.

Record grpc_connectivity_state_tracker : Type := {
current_state : grpc_connectivity_state;
current_error : option string
}.

Definition grpc_connectivity_state_init (state : grpc_connectivity_state)
  : grpc_connectivity_state_tracker :=
{| current_state := state; current_error := None |}.

(** Modelled from the spec: [grpc_connectivity_state_set]
  (connectivity_state.cc is not part of the sources at hand).  "set(state,
  error, reason) updates the fields"; "SHUTDOWN is absorbing: later set
  calls are permitted but the tracker refuses to move off SHUTDOWN".  The
  watchers it notifies are left out. *)
Definition grpc_connectivity_state_set
  (tracker : grpc_connectivity_state_tracker)
  (state : grpc_connectivity_state) (error : option string)
  : grpc_connectivity_state_tracker :=
match current_state tracker with
| GRPC_CHANNEL_SHUTDOWN => tracker
| _ => {| current_state := state; current_error := error |}
end.

(** ** Round-robin policy (round_robin.cc) *)

Module RoundRobin.

(** [grpc_lb_address] as the resolver hands it over. *)
Record grpc_lb_address : Type := {
address : string;
is_balancer : bool;
address_user_data : option string
}.

(** [grpc_lb_subchannel_data].  Subchannels and connected subchannels are
  named by the address they were created for. *)
Record grpc_lb_subchannel_data : Type := {
subchannel : option string;
curr_connectivity_state : grpc_connectivity_state;
prev_connectivity_state : grpc_connectivity_state;
connected_subchannel : option string;
user_data : option string
}.

Record grpc_lb_subchannel_list : Type := {
subchannels : list grpc_lb_subchannel_data;
num_ready : Z;
num_transient_failures : Z;
num_shutdown : Z;
num_idle : Z;
shutting_down : bool
}.

Definition num_subchannels (sl : grpc_lb_subchannel_list) : Z :=
Z.of_nat (length (subchannels sl)).

(** [LoadBalancingPolicy::PickState].  [pick_user_data] is the [void**] the
  caller supplies: [None] for a null pointer, [Some v] for a slot that
  holds [v]. *)
Record PickState : Type := {
initial_metadata_flags : Z;
pick_connected_subchannel : option string;
pick_user_data : option (option string)
}.

Record RoundRobin : Type := {
subchannel_list_ : option grpc_lb_subchannel_list;
started_picking_ : bool;
shutdown_ : bool;
pending_picks_ : list PickState;
state_tracker_ : grpc_connectivity_state_tracker;
last_ready_subchannel_index_ : Z;
latest_pending_subchannel_list_ : option grpc_lb_subchannel_list
}.

(** [LoadBalancingPolicy::Args]: the [GRPC_ARG_LB_ADDRESSES] argument, [None]
  when it is absent or not a pointer. *)
Record Args : Type := { lb_addresses : option (list grpc_lb_address) }.

(** The loop of [GetNextReadySubchannelIndexLocked], [remaining] iterations
  from [i] on. *)
Fixpoint next_ready_from (sl : grpc_lb_subchannel_list) (last_ready : Z)
  (remaining : nat) (i : Z) : Z :=
match remaining with
| O => num_subchannels sl
| S remaining' =>
    let index := size_t_wrap (i + last_ready + 1) mod num_subchannels sl in
    match subchannels sl !! Z.to_nat index with
    | Some sd =>
        if grpc_connectivity_state_eqb (curr_connectivity_state sd)
             GRPC_CHANNEL_READY
        then index
        else next_ready_from sl last_ready remaining' (i + 1)
    | None => next_ready_from sl last_ready remaining' (i + 1)
    end
end.

(** [GetNextReadySubchannelIndexLocked]; [None] where
  [GPR_ASSERT(subchannel_list_ != nullptr)] fails. *)
Definition GetNextReadySubchannelIndexLocked (p : RoundRobin) : option Z :=
sl ← subchannel_list_ p;
Some (next_ready_from sl (last_ready_subchannel_index_ p)
        (length (subchannels sl)) 0).

Definition set_last_ready_subchannel_index (v : Z) (p : RoundRobin) :=
{| subchannel_list_ := subchannel_list_ p;
   started_picking_ := started_picking_ p; shutdown_ := shutdown_ p;
   pending_picks_ := pending_picks_ p; state_tracker_ := state_tracker_ p;
   last_ready_subchannel_index_ := v;
   latest_pending_subchannel_list_ := latest_pending_subchannel_list_ p |}.

Definition set_started_picking (v : bool) (p : RoundRobin) :=
{| subchannel_list_ := subchannel_list_ p;
   started_picking_ := v; shutdown_ := shutdown_ p;
   pending_picks_ := pending_picks_ p; state_tracker_ := state_tracker_ p;
   last_ready_subchannel_index_ := last_ready_subchannel_index_ p;
   latest_pending_subchannel_list_ := latest_pending_subchannel_list_ p |}.

Definition set_pending_picks (v : list PickState) (p : RoundRobin) :=
{| subchannel_list_ := subchannel_list_ p;
   started_picking_ := started_picking_ p; shutdown_ := shutdown_ p;
   pending_picks_ := v; state_tracker_ := state_tracker_ p;
   last_ready_subchannel_index_ := last_ready_subchannel_index_ p;
   latest_pending_subchannel_list_ := latest_pending_subchannel_list_ p |}.

Definition set_state_tracker (v : grpc_connectivity_state_tracker)
  (p : RoundRobin) :=
{| subchannel_list_ := subchannel_list_ p;
   started_picking_ := started_picking_ p; shutdown_ := shutdown_ p;
   pending_picks_ := pending_picks_ p; state_tracker_ := v;
   last_ready_subchannel_index_ := last_ready_subchannel_index_ p;
   latest_pending_subchannel_list_ := latest_pending_subchannel_list_ p |}.

Definition set_subchannel_list (v : option grpc_lb_subchannel_list)
  (p : RoundRobin) :=
{| subchannel_list_ := v;
   started_picking_ := started_picking_ p; shutdown_ := shutdown_ p;
   pending_picks_ := pending_picks_ p; state_tracker_ := state_tracker_ p;
   last_ready_subchannel_index_ := last_ready_subchannel_index_ p;
   latest_pending_subchannel_list_ := latest_pending_subchannel_list_ p |}.

Definition set_latest_pending_subchannel_list
  (v : option grpc_lb_subchannel_list) (p : RoundRobin) :=
{| subchannel_list_ := subchannel_list_ p;
   started_picking_ := started_picking_ p; shutdown_ := shutdown_ p;
   pending_picks_ := pending_picks_ p; state_tracker_ := state_tracker_ p;
   last_ready_subchannel_index_ := last_ready_subchannel_index_ p;
   latest_pending_subchannel_list_ := v |}.

(** [UpdateLastReadySubchannelIndexLocked]; [None] where its assertion
  fails. *)
Definition UpdateLastReadySubchannelIndexLocked (p : RoundRobin)
  (last_ready_index : Z) : option RoundRobin :=
sl ← subchannel_list_ p;
if last_ready_index <? num_subchannels sl
then Some (set_last_ready_subchannel_index last_ready_index p)
else None.

(** [StartPickingLocked]: dereferences [subchannel_list_]; the connectivity
  watches it starts live outside the policy object. *)
Definition StartPickingLocked (p : RoundRobin) : option RoundRobin :=
_ ← subchannel_list_ p;
Some (set_started_picking true p).

(** [PickLocked]: the returned flag, the policy and the pick afterwards;
  [None] where an assertion fails or a null list is dereferenced. *)
Definition PickLocked (p : RoundRobin) (pick : PickState)
  : option (bool * RoundRobin * PickState) :=
if shutdown_ p then None
else
  let queue :=
    p ← (if started_picking_ p then Some p else StartPickingLocked p);
    Some (false, set_pending_picks (pick :: pending_picks_ p) p, pick) in
  match subchannel_list_ p with
  | Some sl =>
      next_ready_index ← GetNextReadySubchannelIndexLocked p;
      if next_ready_index <? num_subchannels sl then
        sd ← subchannels sl !! Z.to_nat next_ready_index;
        let pick :=
          {| initial_metadata_flags := initial_metadata_flags pick;
             pick_connected_subchannel := connected_subchannel sd;
             pick_user_data :=
               match pick_user_data pick with
               | Some _ => Some (user_data sd)
               | None => None
               end |} in
        p ← UpdateLastReadySubchannelIndexLocked p next_ready_index;
        Some (true, p, pick)
      else queue
  | None => queue
  end.

(** Modelled from the spec: [grpc_lb_subchannel_list_create]
  (subchannel_list.cc is not part of the sources at hand).  The policy
  "builds a fresh subchannel list from the new addresses": one
  [subchannel_data] per address, in order, not yet connected, with the
  per-address user data. *)
Definition grpc_lb_subchannel_list_create (addresses : list grpc_lb_address)
  : grpc_lb_subchannel_list :=
{| subchannels :=
     map (fun a => {| subchannel := Some (address a);
                      curr_connectivity_state := GRPC_CHANNEL_IDLE;
                      prev_connectivity_state := GRPC_CHANNEL_IDLE;
                      connected_subchannel := None;
                      user_data := address_user_data a |}) addresses;
   num_ready := 0; num_transient_failures := 0; num_shutdown := 0;
   num_idle := Z.of_nat (length addresses);
   shutting_down := false |}.

(** [UpdateLocked].  [grpc_lb_subchannel_list_shutdown_and_unref] of a list
  that the policy lets go of has no effect on the policy object. *)
Definition UpdateLocked (p : RoundRobin) (args : Args) : RoundRobin :=
match lb_addresses args with
| None =>
    match subchannel_list_ p with
    | None =>
        set_state_tracker
          (grpc_connectivity_state_set (state_tracker_ p)
             GRPC_CHANNEL_TRANSIENT_FAILURE (Some "Missing update in args"))
          p
    | Some _ => p
    end
| Some addresses =>
    let subchannel_list := grpc_lb_subchannel_list_create addresses in
    if num_subchannels subchannel_list =? 0 then
      set_subchannel_list (Some subchannel_list)
        (set_state_tracker
           (grpc_connectivity_state_set (state_tracker_ p)
              GRPC_CHANNEL_TRANSIENT_FAILURE (Some "Empty update")) p)
    else if started_picking_ p then
      set_latest_pending_subchannel_list (Some subchannel_list) p
    else set_subchannel_list (Some subchannel_list) p
end.

(** Whether the subchannel at [index] of the list is READY. *)
Definition ready_at (sl : grpc_lb_subchannel_list) (index : Z) : bool :=
match subchannels sl !! Z.to_nat index with
| Some sd =>
    grpc_connectivity_state_eqb (curr_connectivity_state sd)
      GRPC_CHANNEL_READY
| None => false
end.

(** The index that the scan visits in its [k]-th step when it starts after
  [last_ready]. *)
Definition scan_index (sl : grpc_lb_subchannel_list) (last_ready k : Z) : Z :=
(last_ready + 1 + k) mod num_subchannels sl.

(** The outputs of a pick that chose the subchannel [sd]. *)
Definition picked (pick : PickState) (sd : grpc_lb_subchannel_data)
  : PickState :=
{| initial_metadata_flags := initial_metadata_flags pick;
   pick_connected_subchannel := connected_subchannel sd;
   pick_user_data :=
     match pick_user_data pick with
     | Some _ => Some (user_data sd)
     | None => None
     end |}.

(** Two backends A and B; B is READY, A is still connecting; the last pick
  went to index 1. *)
Definition sample_subchannel (name : string)
  (state : grpc_connectivity_state) : grpc_lb_subchannel_data :=
{| subchannel := Some name; curr_connectivity_state := state;
   prev_connectivity_state := state;
   connected_subchannel :=
     if grpc_connectivity_state_eqb state GRPC_CHANNEL_READY
     then Some name else None;
   user_data := Some ("token-" ++ name) |}.

Definition sample_list : grpc_lb_subchannel_list :=
{| subchannels :=
     [sample_subchannel "A" GRPC_CHANNEL_CONNECTING;
      sample_subchannel "B" GRPC_CHANNEL_READY];
   num_ready := 1; num_transient_failures := 0; num_shutdown := 0;
   num_idle := 0; shutting_down := false |}.

Definition sample_policy : RoundRobin :=
{| subchannel_list_ := Some sample_list; started_picking_ := true;
   shutdown_ := false; pending_picks_ := [];
   state_tracker_ := grpc_connectivity_state_init GRPC_CHANNEL_READY;
   last_ready_subchannel_index_ := 1;
   latest_pending_subchannel_list_ := None |}.

Definition sample_pick : PickState :=
{| initial_metadata_flags := 0; pick_connected_subchannel := None;
   pick_user_data := Some None |}.

(** Three backends of which the first is still connecting; the last pick
  went to index 2, so that the scan starts at index 0, passes A and stops
  at B. *)
Definition sample_scan_list : grpc_lb_subchannel_list :=
{| subchannels :=
     [sample_subchannel "A" GRPC_CHANNEL_CONNECTING;
      sample_subchannel "B" GRPC_CHANNEL_READY;
      sample_subchannel "C" GRPC_CHANNEL_READY];
   num_ready := 2; num_transient_failures := 0; num_shutdown := 0;
   num_idle := 0; shutting_down := false |}.

Definition sample_scan_policy : RoundRobin :=
{| subchannel_list_ := Some sample_scan_list; started_picking_ := true;
   shutdown_ := false; pending_picks_ := [];
   state_tracker_ := grpc_connectivity_state_init GRPC_CHANNEL_READY;
   last_ready_subchannel_index_ := 2;
   latest_pending_subchannel_list_ := None |}.

(** ** Shutdown, cancellation, hand-off and connectivity changes *)

(** A pick whose [on_complete] closure was scheduled, with the error that
    was passed, if any. *)
Record completed_pick : Type := {
  completed : PickState;
  completion_error : option string
}.

Definition set_shutdown (v : bool) (p : RoundRobin) :=
  {| subchannel_list_ := subchannel_list_ p;
     started_picking_ := started_picking_ p; shutdown_ := v;
     pending_picks_ := pending_picks_ p; state_tracker_ := state_tracker_ p;
     last_ready_subchannel_index_ := last_ready_subchannel_index_ p;
     latest_pending_subchannel_list_ := latest_pending_subchannel_list_ p |}.

Definition set_pick_connected_subchannel (v : option string)
    (pick : PickState) : PickState :=
  {| initial_metadata_flags := initial_metadata_flags pick;
     pick_connected_subchannel := v;
     pick_user_data := pick_user_data pick |}.

(** [ShutdownLocked]: the policy afterwards and the closures scheduled, in
    order.  The re-resolution request goes to the channel. *)
Definition ShutdownLocked (p : RoundRobin) : RoundRobin * list completed_pick :=
  let completions :=
    map (fun pick =>
           {| completed := set_pick_connected_subchannel None pick;
              completion_error := Some "Channel shutdown" |})
      (pending_picks_ p) in
  ({| subchannel_list_ := None;
      started_picking_ := started_picking_ p; shutdown_ := true;
      pending_picks_ := [];
      state_tracker_ :=
        grpc_connectivity_state_set (state_tracker_ p) GRPC_CHANNEL_SHUTDOWN
          (Some "Channel shutdown");
      last_ready_subchannel_index_ := last_ready_subchannel_index_ p;
      latest_pending_subchannel_list_ := None |},
   completions).

(** The loop of [CancelPicksLocked] from the pick [pick] on: [kept] is the
    new [pending_picks_] list built so far, [cancelled] the picks whose
    closure was scheduled so far. *)
Fixpoint cancel_picks_from (picks : list PickState)
    (initial_metadata_flags_mask initial_metadata_flags_eq : Z)
    (kept cancelled : list PickState) : list PickState * list PickState :=
  match picks with
  | [] => (kept, cancelled)
  | pick :: next =>
      if Z.land (initial_metadata_flags pick) initial_metadata_flags_mask
         =? initial_metadata_flags_eq
      then cancel_picks_from next initial_metadata_flags_mask
             initial_metadata_flags_eq kept (cancelled ++ [pick])%list
      else cancel_picks_from next initial_metadata_flags_mask
             initial_metadata_flags_eq (pick :: kept) cancelled
  end.

(** [CancelPicksLocked]: the policy afterwards and the closures scheduled
    with the error "Pick Cancelled", in order. *)
Definition CancelPicksLocked (p : RoundRobin)
    (initial_metadata_flags_mask initial_metadata_flags_eq : Z)
    : RoundRobin * list completed_pick :=
  let '(kept, cancelled) :=
    cancel_picks_from (pending_picks_ p) initial_metadata_flags_mask
      initial_metadata_flags_eq [] [] in
  (set_pending_picks kept p,
   map (fun pick => {| completed := pick;
                       completion_error := Some "Pick Cancelled" |})
     cancelled).

(** The loop of [HandOffPendingPicksLocked] over the pending picks: the new
    policy afterwards and the closures scheduled, in order.  [None] where
    [PickLocked] of the new policy fails an assertion. *)
Fixpoint hand_off_picks (picks : list PickState) (new_policy : RoundRobin)
    : option (RoundRobin * list completed_pick) :=
  match picks with
  | [] => Some (new_policy, [])
  | pick :: next =>
      '(done, new_policy, pick) ← PickLocked new_policy pick;
      '(new_policy, completions) ← hand_off_picks next new_policy;
      Some (new_policy,
            if done : bool
            then {| completed := pick; completion_error := None |}
                 :: completions
            else completions)
  end.

(** [HandOffPendingPicksLocked (new_policy)], the new policy being a
    round-robin policy as well. *)
Definition HandOffPendingPicksLocked (p new_policy : RoundRobin)
    : option (RoundRobin * RoundRobin * list completed_pick) :=
  '(new_policy, completions) ← hand_off_picks (pending_picks_ p) new_policy;
  Some (set_pending_picks [] p, new_policy, completions).

(** [ExitIdleLocked]. *)
Definition ExitIdleLocked (p : RoundRobin) : option RoundRobin :=
  if started_picking_ p then Some p else StartPickingLocked p.

Definition set_counters (ready transient_failures shutdown idle : Z)
    (sl : grpc_lb_subchannel_list) : grpc_lb_subchannel_list :=
  {| subchannels := subchannels sl;
     num_ready := ready; num_transient_failures := transient_failures;
     num_shutdown := shutdown; num_idle := idle;
     shutting_down := shutting_down sl |}.

Definition set_subchannels (v : list grpc_lb_subchannel_data)
    (sl : grpc_lb_subchannel_list) : grpc_lb_subchannel_list :=
  {| subchannels := v;
     num_ready := num_ready sl;
     num_transient_failures := num_transient_failures sl;
     num_shutdown := num_shutdown sl; num_idle := num_idle sl;
     shutting_down := shutting_down sl |}.

Definition set_connectivity_states (curr prev : grpc_connectivity_state)
    (sd : grpc_lb_subchannel_data) : grpc_lb_subchannel_data :=
  {| subchannel := subchannel sd;
     curr_connectivity_state := curr; prev_connectivity_state := prev;
     connected_subchannel := connected_subchannel sd;
     user_data := user_data sd |}.

Definition set_connected_subchannel (v : option string)
    (sd : grpc_lb_subchannel_data) : grpc_lb_subchannel_data :=
  {| subchannel := subchannel sd;
     curr_connectivity_state := curr_connectivity_state sd;
     prev_connectivity_state := prev_connectivity_state sd;
     connected_subchannel := v;
     user_data := user_data sd |}.

(** The first half of [UpdateStateCountersLocked]: the counter of the
    previous state goes down; [None] where its assertion fails. *)
Definition decrement_state_counter (state : grpc_connectivity_state)
    (sl : grpc_lb_subchannel_list) : option grpc_lb_subchannel_list :=
  match state with
  | GRPC_CHANNEL_READY =>
      if 0 <? num_ready sl
      then Some (set_counters (num_ready sl - 1) (num_transient_failures sl)
                   (num_shutdown sl) (num_idle sl) sl)
      else None
  | GRPC_CHANNEL_TRANSIENT_FAILURE =>
      if 0 <? num_transient_failures sl
      then Some (set_counters (num_ready sl) (num_transient_failures sl - 1)
                   (num_shutdown sl) (num_idle sl) sl)
      else None
  | GRPC_CHANNEL_SHUTDOWN =>
      if 0 <? num_shutdown sl
      then Some (set_counters (num_ready sl) (num_transient_failures sl)
                   (num_shutdown sl - 1) (num_idle sl) sl)
      else None
  | GRPC_CHANNEL_IDLE =>
      if 0 <? num_idle sl
      then Some (set_counters (num_ready sl) (num_transient_failures sl)
                   (num_shutdown sl) (num_idle sl - 1) sl)
      else None
  | GRPC_CHANNEL_CONNECTING => Some sl
  end.

(** The second half: the counter of the current state goes up. *)
Definition increment_state_counter (state : grpc_connectivity_state)
    (sl : grpc_lb_subchannel_list) : grpc_lb_subchannel_list :=
  match state with
  | GRPC_CHANNEL_READY =>
      set_counters (size_t_wrap (num_ready sl + 1))
        (num_transient_failures sl) (num_shutdown sl) (num_idle sl) sl
  | GRPC_CHANNEL_TRANSIENT_FAILURE =>
      set_counters (num_ready sl)
        (size_t_wrap (num_transient_failures sl + 1))
        (num_shutdown sl) (num_idle sl) sl
  | GRPC_CHANNEL_SHUTDOWN =>
      set_counters (num_ready sl) (num_transient_failures sl)
        (size_t_wrap (num_shutdown sl + 1)) (num_idle sl) sl
  | GRPC_CHANNEL_IDLE =>
      set_counters (num_ready sl) (num_transient_failures sl)
        (num_shutdown sl) (size_t_wrap (num_idle sl + 1)) sl
  | GRPC_CHANNEL_CONNECTING => sl
  end.

(** [UpdateStateCountersLocked (sd)] for the subchannel at index [i] of its
    list; [None] where an assertion fails or [i] is no index of the list. *)
Definition UpdateStateCountersLocked (sl : grpc_lb_subchannel_list) (i : nat)
    : option grpc_lb_subchannel_list :=
  sd ← subchannels sl !! i;
  sl ← decrement_state_counter (prev_connectivity_state sd) sl;
  let sd :=
    set_connectivity_states (curr_connectivity_state sd)
      (curr_connectivity_state sd) sd in
  let sl := set_subchannels (<[i := sd]> (subchannels sl)) sl in
  Some (increment_state_counter (curr_connectivity_state sd) sl).

(** [UpdateConnectivityStatusLocked (sd, error)], [sl] being the list of
    [sd]; [None] where its assertion fails.  The re-resolution request of
    rule 3 goes to the channel. *)
Definition UpdateConnectivityStatusLocked (p : RoundRobin)
    (sl : grpc_lb_subchannel_list) (sd : grpc_lb_subchannel_data)
    (error : option string) : option RoundRobin :=
  if grpc_connectivity_state_eqb (curr_connectivity_state sd)
       GRPC_CHANNEL_IDLE
  then None
  else if 0 <? num_ready sl then
    (* 1) READY *)
    Some (set_state_tracker
            (grpc_connectivity_state_set (state_tracker_ p)
               GRPC_CHANNEL_READY None) p)
  else if grpc_connectivity_state_eqb (curr_connectivity_state sd)
            GRPC_CHANNEL_CONNECTING then
    (* 2) CONNECTING *)
    Some (set_state_tracker
            (grpc_connectivity_state_set (state_tracker_ p)
               GRPC_CHANNEL_CONNECTING None) p)
  else if num_shutdown sl =? num_subchannels sl then
    (* 3) IDLE and re-resolve *)
    Some (set_started_picking false
            (set_state_tracker
               (grpc_connectivity_state_set (state_tracker_ p)
                  GRPC_CHANNEL_IDLE None) p))
  else if size_t_wrap (num_shutdown sl + num_transient_failures sl)
          =? num_subchannels sl then
    (* 4) TRANSIENT_FAILURE *)
    Some (set_state_tracker
            (grpc_connectivity_state_set (state_tracker_ p)
               GRPC_CHANNEL_TRANSIENT_FAILURE error) p)
  else Some p.

(** The list that a subchannel belongs to ([sd->subchannel_list]): the
    current list of the policy, its latest pending list, or a list that the
    policy has let go of. *)
Inductive subchannel_list_ref : Type :=
  | CurrentList
  | LatestPendingList
  | OutdatedList (sl : grpc_lb_subchannel_list).

Definition referenced_list (p : RoundRobin) (list : subchannel_list_ref)
    : option grpc_lb_subchannel_list :=
  match list with
  | CurrentList => subchannel_list_ p
  | LatestPendingList => latest_pending_subchannel_list_ p
  | OutdatedList sl => Some sl
  end.

Definition set_referenced_list (list : subchannel_list_ref)
    (sl : grpc_lb_subchannel_list) (p : RoundRobin) : RoundRobin :=
  match list with
  | CurrentList => set_subchannel_list (Some sl) p
  | LatestPendingList => set_latest_pending_subchannel_list (Some sl) p
  | OutdatedList _ => p
  end.

(** What a call of [OnConnectivityChangedLocked] leaves behind. *)
Record connectivity_change : Type := {
  policy_after : RoundRobin;
  picks_completed : list completed_pick;
  watch_renewed : bool    (* the connectivity watch was started again *)
}.

(** The loop of [OnConnectivityChangedLocked] that fulfils the pending picks
    with the subchannel [selected]. *)
Definition fulfil_pending_picks (picks : list PickState)
    (selected : grpc_lb_subchannel_data) : list completed_pick :=
  map (fun pick =>
         {| completed :=
              {| initial_metadata_flags := initial_metadata_flags pick;
                 pick_connected_subchannel := connected_subchannel selected;
                 pick_user_data :=
                   match pick_user_data pick with
                   | Some _ => Some (user_data selected)
                   | None => None
                   end |};
            completion_error := None |}) picks.

(** [OnConnectivityChangedLocked (sd, error)] for the subchannel at index
    [i] of the list [list].  [new_state] is
    [sd->pending_connectivity_state_unsafe], [cancelled] stands for
    [error == GRPC_ERROR_CANCELLED].  [None] where an assertion fails or a
    null list is dereferenced.  The connected subchannel that a READY
    subchannel hands out is named like the subchannel. *)
Definition OnConnectivityChangedLocked (p : RoundRobin)
    (list : subchannel_list_ref) (i : nat)
    (new_state : grpc_connectivity_state) (error : option string)
    (cancelled : bool) : option connectivity_change :=
  let stop p :=
    Some {| policy_after := p; picks_completed := [];
            watch_renewed := false |} in
  (* If the policy is shutting down, unref and return. *)
  if shutdown_ p then stop p
  else
    sl ← referenced_list p list;
    (* If the subchannel list is shutting down, stop watching. *)
    if shutting_down sl || cancelled then stop p
    else
    match list with
    | OutdatedList _ => None
    | _ =>
        sd ← subchannels sl !! i;
        let sd :=
          set_connectivity_states new_state (prev_connectivity_state sd) sd in
        let sl := set_subchannels (<[i := sd]> (subchannels sl)) sl in
        (* Update state counters and new overall state. *)
        sl ← UpdateStateCountersLocked sl i;
        sd ← subchannels sl !! i;
        p ← UpdateConnectivityStatusLocked (set_referenced_list list sl p)
              sl sd error;
        if grpc_connectivity_state_eqb (curr_connectivity_state sd)
             GRPC_CHANNEL_SHUTDOWN
        then stop p
        else if grpc_connectivity_state_eqb (curr_connectivity_state sd)
                  GRPC_CHANNEL_READY
        then
          let sd :=
            match connected_subchannel sd with
            | None => set_connected_subchannel (subchannel sd) sd
            | Some _ => sd
            end in
          let sl := set_subchannels (<[i := sd]> (subchannels sl)) sl in
          let p := set_referenced_list list sl p in
          (* promote sd->subchannel_list to p->subchannel_list_ *)
          let p :=
            match list with
            | LatestPendingList =>
                set_latest_pending_subchannel_list None
                  (set_subchannel_list (latest_pending_subchannel_list_ p) p)
            | _ => p
            end in
          next_ready_index ← GetNextReadySubchannelIndexLocked p;
          current ← subchannel_list_ p;
          if next_ready_index <? num_subchannels current then
            selected ← subchannels current !! Z.to_nat next_ready_index;
            p ← (match pending_picks_ p with
                 | [] => Some p
                 | _ => UpdateLastReadySubchannelIndexLocked p
                          next_ready_index
                 end);
            Some {| policy_after := set_pending_picks [] p;
                    picks_completed :=
                      fulfil_pending_picks (pending_picks_ p) selected;
                    watch_renewed := true |}
          else None
        else
          Some {| policy_after := p; picks_completed := [];
                  watch_renewed := true |}
    end.

(** The number of subchannels of a list whose previous state is [state]. *)
Definition count_prev_state (state : grpc_connectivity_state)
    (sl : grpc_lb_subchannel_list) : Z :=
  Z.of_nat
    (length
       (List.filter
          (fun sd =>
             grpc_connectivity_state_eqb (prev_connectivity_state sd) state)
          (subchannels sl))).

(** The four counters of a list agree with the previous states of its
    subchannels. *)
Definition counters_consistent (sl : grpc_lb_subchannel_list) : Prop :=
  num_ready sl = count_prev_state GRPC_CHANNEL_READY sl
  /\ num_transient_failures sl
     = count_prev_state GRPC_CHANNEL_TRANSIENT_FAILURE sl
  /\ num_shutdown sl = count_prev_state GRPC_CHANNEL_SHUTDOWN sl
  /\ num_idle sl = count_prev_state GRPC_CHANNEL_IDLE sl.

(** Whether a pick is cancelled by a mask and a value for its flags. *)
Definition pick_matches (initial_metadata_flags_mask
    initial_metadata_flags_eq : Z) (pick : PickState) : bool :=
  Z.land (initial_metadata_flags pick) initial_metadata_flags_mask
  =? initial_metadata_flags_eq.

(** The policy after [n] further picks, each of which is to complete at
    once; [None] when one of them does not. *)
Fixpoint pick_repeatedly (p : RoundRobin) (pick : PickState) (n : nat)
    : option RoundRobin :=
  match n with
  | O => Some p
  | S n' =>
      match PickLocked p pick with
      | Some (true, p', _) => pick_repeatedly p' pick n'
      | _ => None
      end
  end.

(** Two picks that wait at the sample policy. *)
Definition sample_queued_policy : RoundRobin :=
  set_pending_picks
    [{| initial_metadata_flags := 32; pick_connected_subchannel := None;
        pick_user_data := Some None |};
     {| initial_metadata_flags := 0; pick_connected_subchannel := None;
        pick_user_data := None |}] sample_policy.

(** Three backends that are all READY; the last pick went to index 0. *)
Definition sample_ready_list : grpc_lb_subchannel_list :=
  {| subchannels :=
       [sample_subchannel "A" GRPC_CHANNEL_READY;
        sample_subchannel "B" GRPC_CHANNEL_READY;
        sample_subchannel "C" GRPC_CHANNEL_READY];
     num_ready := 3; num_transient_failures := 0; num_shutdown := 0;
     num_idle := 0; shutting_down := false |}.

Definition sample_ready_policy : RoundRobin :=
  {| subchannel_list_ := Some sample_ready_list; started_picking_ := true;
     shutdown_ := false; pending_picks_ := [];
     state_tracker_ := grpc_connectivity_state_init GRPC_CHANNEL_READY;
     last_ready_subchannel_index_ := 0;
     latest_pending_subchannel_list_ := None |}.

(** The sample list when the subchannel A was reported READY and its
    counters were not updated yet. *)
Definition sample_changed_subchannel : grpc_lb_subchannel_data :=
  {| subchannel := Some "A";
     curr_connectivity_state := GRPC_CHANNEL_READY;
     prev_connectivity_state := GRPC_CHANNEL_CONNECTING;
     connected_subchannel := None;
     user_data := Some "token-A" |}.

Definition sample_changed_list : grpc_lb_subchannel_list :=
  set_subchannels
    [sample_changed_subchannel; sample_subchannel "B" GRPC_CHANNEL_READY]
    sample_list.

(** Whether some subchannel of a list was last seen READY, and whether all
    of them were last seen in TRANSIENT_FAILURE or SHUTDOWN. *)
Definition any_subchannel_ready (sl : grpc_lb_subchannel_list) : bool :=
  existsb
    (fun sd =>
       grpc_connectivity_state_eqb (prev_connectivity_state sd)
         GRPC_CHANNEL_READY)
    (subchannels sl).

Definition all_subchannels_failed (sl : grpc_lb_subchannel_list) : bool :=
  forallb
    (fun sd =>
       grpc_connectivity_state_eqb (prev_connectivity_state sd)
         GRPC_CHANNEL_TRANSIENT_FAILURE
       || grpc_connectivity_state_eqb (prev_connectivity_state sd)
            GRPC_CHANNEL_SHUTDOWN)
    (subchannels sl).

(** A policy that waits with one pick for its two subchannels, the first
    connecting and the second failed. *)
Definition sample_failing_list : grpc_lb_subchannel_list :=
  {| subchannels :=
       [sample_subchannel "A" GRPC_CHANNEL_CONNECTING;
        sample_subchannel "B" GRPC_CHANNEL_TRANSIENT_FAILURE];
     num_ready := 0; num_transient_failures := 1; num_shutdown := 0;
     num_idle := 0; shutting_down := false |}.

Definition sample_failing_policy : RoundRobin :=
  {| subchannel_list_ := Some sample_failing_list;
     started_picking_ := true; shutdown_ := false;
     pending_picks_ := [sample_pick];
     state_tracker_ := grpc_connectivity_state_init GRPC_CHANNEL_CONNECTING;
     last_ready_subchannel_index_ := 0;
     latest_pending_subchannel_list_ := None |}.

End RoundRobin.

(** ** grpclb policy: picks (grpclb.cc) *)

Module GrpcLb.

Import RoundRobin.

Record grpc_grpclb_server : Type := {
server_address : string;
load_balance_token : string;
drop : bool
}.

(** The per-token drop counters of [grpc_grpclb_client_stats]. *)
Record grpc_grpclb_client_stats : Type := {
drop_token_counts : gmap string Z
}.

Definition drop_count (stats : grpc_grpclb_client_stats) (token : string) : Z :=
default 0 (drop_token_counts stats !! token).

(** Modelled from the spec: [grpc_grpclb_client_stats_add_call_dropped_locked]
  (grpclb_client_stats.cc is not part of the sources at hand): "increment
  that token's drop count on the client-stats". *)
Definition grpc_grpclb_client_stats_add_call_dropped_locked (token : string)
  (stats : grpc_grpclb_client_stats) : grpc_grpclb_client_stats :=
{| drop_token_counts :=
     <[token := drop_count stats token + 1]> (drop_token_counts stats) |}.

(** [BalancerCallState], of which a pick reads [client_stats ()]. *)
Record BalancerCallState : Type := {
client_stats_ : option grpc_grpclb_client_stats
}.

(** [PendingPick].  [pp_client_stats] tells whether the pending pick holds a
  reference to the client stats. *)
Record PendingPick : Type := {
pick : PickState;
lb_token : option string;
pp_client_stats : bool
}.

Record GrpcLb : Type := {
serverlist_ : option (list grpc_grpclb_server);
serverlist_index_ : Z;
lb_calld_ : option BalancerCallState;
rr_policy_ : option RoundRobin
}.

(** What a call of [PickFromInternalRRLocked] leaves behind. *)
Record pick_result : Type := {
pick_done : bool;                     (* the returned flag *)
policy_after : GrpcLb;
pending_pick_after : PendingPick;
rr_consulted : bool;                  (* rr_policy_->PickLocked was called *)
on_complete_scheduled : bool;         (* original_on_complete was scheduled *)
lb_token_attached : bool              (* token added to initial metadata *)
}.

Definition has_client_stats (glb : GrpcLb) : bool :=
match lb_calld_ glb with
| Some lb_calld => bool_decide (is_Some (client_stats_ lb_calld))
| None => false
end.

(** [PendingPickSetMetadataAndContext]: whether the LB token was added to the
  initial metadata; [None] for [abort ()]. *)
Definition PendingPickSetMetadataAndContext (pp : PendingPick) : option bool :=
match pick_connected_subchannel (pick pp) with
| Some _ =>
    match lb_token pp with
    | Some _ => Some true
    | None => None
    end
| None => Some false
end.

(** [PickFromInternalRRLocked (force_async, pp)]; [None] where the server
  list is indexed out of bounds, an assertion fails, [rr_policy_] is null
  or the process aborts. *)
Definition PickFromInternalRRLocked (glb : GrpcLb) (force_async : bool)
  (pp : PendingPick) : option pick_result :=
(* Check for drops if we are not using fallback backend addresses. *)
'(glb, dropped) ←
  match serverlist_ glb with
  | Some servers =>
      server ← servers !! Z.to_nat (serverlist_index_ glb);
      let index := size_t_wrap (serverlist_index_ glb + 1) in
      let index :=
        if index =? Z.of_nat (length servers) then 0 else index in
      let glb :=
        {| serverlist_ := serverlist_ glb; serverlist_index_ := index;
           lb_calld_ := lb_calld_ glb; rr_policy_ := rr_policy_ glb |} in
      if drop server then
        let lb_calld :=
          match lb_calld_ glb with
          | Some {| client_stats_ := Some stats |} =>
              Some {| client_stats_ :=
                        Some (grpc_grpclb_client_stats_add_call_dropped_locked
                                (load_balance_token server) stats) |}
          | other => other
          end in
        Some ({| serverlist_ := serverlist_ glb;
                 serverlist_index_ := serverlist_index_ glb;
                 lb_calld_ := lb_calld; rr_policy_ := rr_policy_ glb |},
              true)
      else Some (glb, false)
  | None => Some (glb, false)
  end;
if dropped : bool then
  Some {| pick_done := negb force_async; policy_after := glb;
          pending_pick_after := pp; rr_consulted := false;
          on_complete_scheduled := force_async;
          lb_token_attached := false |}
else
  (* Set client_stats and user_data. *)
  let pp :=
    {| pick := pick pp; lb_token := lb_token pp;
       pp_client_stats := has_client_stats glb || pp_client_stats pp |} in
  match pick_user_data (pick pp) with
  | Some _ => None
  | None =>
      let rr_pick :=
        {| initial_metadata_flags := initial_metadata_flags (pick pp);
           pick_connected_subchannel := pick_connected_subchannel (pick pp);
           pick_user_data := Some (lb_token pp) |} in
      (* Pick via the RR policy. *)
      rr ← rr_policy_ glb;
      '(done, rr, rr_pick) ← PickLocked rr rr_pick;
      let pp :=
        {| pick := rr_pick;
           lb_token := default None (pick_user_data rr_pick);
           pp_client_stats := pp_client_stats pp |} in
      let glb :=
        {| serverlist_ := serverlist_ glb;
           serverlist_index_ := serverlist_index_ glb;
           lb_calld_ := lb_calld_ glb; rr_policy_ := Some rr |} in
      if done : bool then
        attached ← PendingPickSetMetadataAndContext pp;
        Some {| pick_done := negb force_async; policy_after := glb;
                pending_pick_after := pp; rr_consulted := true;
                on_complete_scheduled := force_async;
                lb_token_attached := attached |}
      else
        Some {| pick_done := false; policy_after := glb;
                pending_pick_after := pp; rr_consulted := true;
                on_complete_scheduled := false;
                lb_token_attached := false |}
  end.

(** The index after [serverlist_index_++] and the wrap-around test. *)
Definition next_serverlist_index (servers : list grpc_grpclb_server)
  (index : Z) : Z :=
if index + 1 =? Z.of_nat (length servers) then 0 else index + 1.

(** The client stats of the balancer call, if it keeps any. *)
Definition client_stats (glb : GrpcLb) : option grpc_grpclb_client_stats :=
lb_calld_ glb ≫= client_stats_.

(** The pick that is handed to the inner round-robin policy: its user-data
  slot is [&pp->lb_token]. *)
Definition rr_pick_of (pp : PendingPick) : PickState :=
{| initial_metadata_flags := initial_metadata_flags (pick pp);
   pick_connected_subchannel := pick_connected_subchannel (pick pp);
   pick_user_data := Some (lb_token pp) |}.

(** The server list of the drop scenario of the spec, an inner round-robin
  over the one backend X, and client stats without any drop so far. *)
Definition sample_serverlist : list grpc_grpclb_server :=
[{| server_address := ""; load_balance_token := "t1"; drop := true |};
 {| server_address := "X"; load_balance_token := "t2"; drop := false |}].

Definition sample_inner_rr : RoundRobin :=
{| subchannel_list_ :=
     Some {| subchannels :=
               [{| subchannel := Some "X";
                   curr_connectivity_state := GRPC_CHANNEL_READY;
                   prev_connectivity_state := GRPC_CHANNEL_READY;
                   connected_subchannel := Some "X";
                   user_data := Some "t2" |}];
             num_ready := 1; num_transient_failures := 0;
             num_shutdown := 0; num_idle := 0; shutting_down := false |};
   started_picking_ := true; shutdown_ := false; pending_picks_ := [];
   state_tracker_ := grpc_connectivity_state_init GRPC_CHANNEL_READY;
   last_ready_subchannel_index_ := 0;
   latest_pending_subchannel_list_ := None |}.

Definition sample_grpclb : GrpcLb :=
{| serverlist_ := Some sample_serverlist; serverlist_index_ := 0;
   lb_calld_ := Some {| client_stats_ := Some {| drop_token_counts := ∅ |} |};
   rr_policy_ := Some sample_inner_rr |}.

Definition sample_pending_pick : PendingPick :=
{| pick := {| initial_metadata_flags := 0;
              pick_connected_subchannel := None;
              pick_user_data := None |};
   lb_token := None; pp_client_stats := false |}.

(** The same policy when its balancer call keeps no client stats (the
  balancer asked for no load reports). *)
Definition sample_grpclb_without_stats : GrpcLb :=
{| serverlist_ := Some sample_serverlist; serverlist_index_ := 0;
   lb_calld_ := Some {| client_stats_ := None |};
   rr_policy_ := Some sample_inner_rr |}.

End GrpcLb.

(** ** Health-check client (health_check_client.cc) *)

Module HealthCheck.

Definition HEALTH_CHECK_INITIAL_CONNECT_BACKOFF_SECONDS : Z := 1.
Definition HEALTH_CHECK_RECONNECT_BACKOFF_MULTIPLIER : Q := 16 # 10.
Definition HEALTH_CHECK_RECONNECT_MAX_BACKOFF_SECONDS : Z := 120.
Definition HEALTH_CHECK_RECONNECT_JITTER : Q := 2 # 10.

(** [BackOff::Options], times in milliseconds. *)
Record BackOffOptions : Type := {
initial_backoff : Z;
multiplier : Q;
jitter : Q;
max_backoff : Z
}.

(** [BackOff]: its options and the number of [NextAttemptTime] calls since
  construction or the last [Reset]. *)
Record BackOff : Type := {
options_ : BackOffOptions;
attempts_ : nat
}.

Definition BackOff_Reset (b : BackOff) : BackOff :=
{| options_ := options_ b; attempts_ := 0 |}.

(** [HealthCheckClient::CallState]: calls are told apart by the order in
  which the client created them. *)
Record CallState : Type := {
call_number : nat;
seen_response_ : bool
}.

Record HealthCheckClient : Type := {
state_ : grpc_connectivity_state;
(* the state behind [notify_state_], when a watcher is registered *)
notify_state_ : option grpc_connectivity_state;
(* how often [on_health_changed_] was scheduled *)
health_changes_notified : nat;
shutting_down_ : bool;
call_state_ : option CallState;
calls_started : nat;
retry_backoff_ : BackOff;
retry_timer_callback_pending_ : bool;
(* deadline of [retry_timer_] when armed *)
retry_timer_ : option Z
}.

(** The state of the client when its constructor has set the members and is
  about to call [StartCall ()]. *)
Definition constructed : HealthCheckClient :=
{| state_ := GRPC_CHANNEL_IDLE; notify_state_ := None;
   health_changes_notified := 0; shutting_down_ := false;
   call_state_ := None; calls_started := 0;
   retry_backoff_ :=
     {| options_ :=
          {| initial_backoff :=
               HEALTH_CHECK_INITIAL_CONNECT_BACKOFF_SECONDS * 1000;
             multiplier := HEALTH_CHECK_RECONNECT_BACKOFF_MULTIPLIER;
             jitter := HEALTH_CHECK_RECONNECT_JITTER;
             max_backoff :=
               HEALTH_CHECK_RECONNECT_MAX_BACKOFF_SECONDS * 1000 |};
        attempts_ := 0 |};
   retry_timer_callback_pending_ := false; retry_timer_ := None |}.

Definition SetHealthStatusLocked (c : HealthCheckClient)
  (state : grpc_connectivity_state) : HealthCheckClient :=
let notify :=
  match notify_state_ c with
  | Some observed => negb (grpc_connectivity_state_eqb observed state)
  | None => false
  end in
{| state_ := state;
   notify_state_ := if notify then Some state else notify_state_ c;
   health_changes_notified :=
     if notify then S (health_changes_notified c)
     else health_changes_notified c;
   shutting_down_ := shutting_down_ c; call_state_ := call_state_ c;
   calls_started := calls_started c; retry_backoff_ := retry_backoff_ c;
   retry_timer_callback_pending_ := retry_timer_callback_pending_ c;
   retry_timer_ := retry_timer_ c |}.

Definition set_call_state (v : option CallState) (started : nat)
  (c : HealthCheckClient) : HealthCheckClient :=
{| state_ := state_ c; notify_state_ := notify_state_ c;
   health_changes_notified := health_changes_notified c;
   shutting_down_ := shutting_down_ c; call_state_ := v;
   calls_started := started; retry_backoff_ := retry_backoff_ c;
   retry_timer_callback_pending_ := retry_timer_callback_pending_ c;
   retry_timer_ := retry_timer_ c |}.

Definition set_retry (backoff : BackOff) (pending : bool) (timer : option Z)
  (c : HealthCheckClient) : HealthCheckClient :=
{| state_ := state_ c; notify_state_ := notify_state_ c;
   health_changes_notified := health_changes_notified c;
   shutting_down_ := shutting_down_ c; call_state_ := call_state_ c;
   calls_started := calls_started c; retry_backoff_ := backoff;
   retry_timer_callback_pending_ := pending; retry_timer_ := timer |}.

(** [StartCallLocked]; [None] where [GPR_ASSERT(call_state_ == nullptr)]
  fails.  The new [CallState] starts its call on the connected
  subchannel. *)
Definition StartCallLocked (c : HealthCheckClient) : option HealthCheckClient :=
if shutting_down_ c then Some c
else
  match call_state_ c with
  | Some _ => None
  | None =>
      let c := SetHealthStatusLocked c GRPC_CHANNEL_CONNECTING in
      Some (set_call_state
              (Some {| call_number := calls_started c;
                       seen_response_ := false |})
              (S (calls_started c)) c)
  end.

Definition StartCall (c : HealthCheckClient) : option HealthCheckClient :=
StartCallLocked c.

(** How the status of a finished call reaches
  [RecvTrailingMetadataReady]: through the error of the batch, or through
  the grpc-status entry of the trailing metadata, which may be missing. *)
Inductive trailing_metadata_result : Type :=
| BatchError (status_of_error : grpc_status_code)
| TrailingMetadata (grpc_status : option grpc_status_code).

(** "Get call status" in [RecvTrailingMetadataReady]. *)
Definition received_status (result : trailing_metadata_result)
  : grpc_status_code :=
match result with
| BatchError status_of_error => status_of_error
| TrailingMetadata (Some grpc_status) => grpc_status
| TrailingMetadata None => GRPC_STATUS_UNKNOWN
end.

Section Timers.

(** [BackOff::NextAttemptTime] (backoff.cc is not part of the sources at
    hand) enters only through the deadline it returns for the options of
    the back-off and the number of earlier attempts. *)
Variable next_attempt_time : BackOffOptions -> nat -> Z.

Definition BackOff_NextAttemptTime (b : BackOff) : Z * BackOff :=
  (next_attempt_time (options_ b) (attempts_ b),
   {| options_ := options_ b; attempts_ := S (attempts_ b) |}).

Definition StartRetryTimer (c : HealthCheckClient) : HealthCheckClient :=
  let c := SetHealthStatusLocked c GRPC_CHANNEL_TRANSIENT_FAILURE in
  let '(next_try, backoff) := BackOff_NextAttemptTime (retry_backoff_ c) in
  set_retry backoff true (Some next_try) c.

(** [OnRetryTimer (self, error)]; [cancelled] stands for
    [error != GRPC_ERROR_NONE]. *)
Definition OnRetryTimer (c : HealthCheckClient) (cancelled : bool)
    : option HealthCheckClient :=
  let c := set_retry (retry_backoff_ c) false (retry_timer_ c) c in
  if negb (shutting_down_ c) && negb cancelled
     && bool_decide (call_state_ c = None)
  then StartCallLocked c
  else Some c.

(** [CallState::CallEnded (retry)] for the call state numbered [self];
    [None] where an assertion fails. *)
Definition CallEnded (c : HealthCheckClient) (self : nat) (retry : bool)
    : option HealthCheckClient :=
  match call_state_ c with
  | Some current =>
      if (call_number current =? self)%nat then
        let c := set_call_state None (calls_started c) c in
        if retry then
          if shutting_down_ c then None
          else if seen_response_ current then
            StartCall
              (set_retry (BackOff_Reset (retry_backoff_ c))
                 (retry_timer_callback_pending_ c) (retry_timer_ c) c)
          else Some (StartRetryTimer c)
        else Some c
      else Some c
  | None => Some c
  end.

(** [CallState::RecvTrailingMetadataReady] for the call state numbered
    [self]. *)
Definition RecvTrailingMetadataReady (c : HealthCheckClient) (self : nat)
    (result : trailing_metadata_result) : option HealthCheckClient :=
  let status := received_status result in
  if grpc_status_code_eqb status GRPC_STATUS_UNIMPLEMENTED
  then CallEnded (SetHealthStatusLocked c GRPC_CHANNEL_READY) self false
  else CallEnded c self true.

End Timers.

(** [DoneReadingRecvMessage] without error, for the current call state: the
  decoded response sets the health status and marks the response seen. *)
Definition DoneReadingRecvMessage (c : HealthCheckClient) (healthy : bool)
  : HealthCheckClient :=
let c :=
  SetHealthStatusLocked c
    (if healthy then GRPC_CHANNEL_READY
     else GRPC_CHANNEL_TRANSIENT_FAILURE) in
set_call_state
  (match call_state_ c with
   | Some current =>
       Some {| call_number := call_number current; seen_response_ := true |}
   | None => None
   end) (calls_started c) c.

(** The back-off of the spec: initial 1 s, multiplier 1.6, jitter 0.2,
  maximum 120 s. *)
Definition health_check_backoff_options : BackOffOptions :=
{| initial_backoff := 1000; multiplier := 16 # 10; jitter := 2 # 10;
   max_backoff := 120000 |}.

(** A back-off that always waits the initial time. *)
Definition sample_next_attempt_time (options : BackOffOptions) (attempts : nat)
  : Z :=
initial_backoff options.

(** A client whose first call got a SERVING response. *)
Definition sample_serving_client : option HealthCheckClient :=
c ← StartCall constructed; Some (DoneReadingRecvMessage c true).

(** A client whose first call has not got a response yet. *)
Definition sample_waiting_client : HealthCheckClient :=
default constructed (StartCall constructed).

(** *** Watchers, shutdown and runs of the client *)

Definition set_notify_state (v : option grpc_connectivity_state)
  (c : HealthCheckClient) : HealthCheckClient :=
{| state_ := state_ c; notify_state_ := v;
   health_changes_notified := health_changes_notified c;
   shutting_down_ := shutting_down_ c; call_state_ := call_state_ c;
   calls_started := calls_started c; retry_backoff_ := retry_backoff_ c;
   retry_timer_callback_pending_ := retry_timer_callback_pending_ c;
   retry_timer_ := retry_timer_ c |}.

(** What [NotifyOnHealthChange] leaves behind: the client, the value of
  [*state] and whether [closure] was scheduled at once. *)
Record health_watch : Type := {
watched_client : HealthCheckClient;
state_seen : grpc_connectivity_state;
closure_scheduled : bool
}.

(** [NotifyOnHealthChange (state, closure)], where [observed] is the value of
  [*state] at the call; [None] where [GPR_ASSERT(notify_state_ == nullptr)]
  fails.  [notify_state_] and [on_health_changed_] are set and cleared
  together, so that the one field [notify_state_] stands for both. *)
Definition NotifyOnHealthChange (c : HealthCheckClient)
  (observed : grpc_connectivity_state) : option health_watch :=
match notify_state_ c with
| Some _ => None
| None =>
    if negb (grpc_connectivity_state_eqb observed (state_ c))
    then Some {| watched_client := c; state_seen := state_ c;
                 closure_scheduled := true |}
    else Some {| watched_client := set_notify_state (Some observed) c;
                 state_seen := observed; closure_scheduled := false |}
end.

(** What [Orphan] does besides changing the client: whether it scheduled
  [on_health_changed_] with [GRPC_ERROR_CANCELLED], and whether it cancelled
  [retry_timer_] (the callback of a cancelled timer still runs, with an
  error). *)
Record orphaned_client : Type := {
client_after : HealthCheckClient;
watcher_cancelled : bool;
timer_cancelled : bool
}.

Definition Orphan (c : HealthCheckClient) : orphaned_client :=
{| client_after :=
     {| state_ := state_ c; notify_state_ := None;
        health_changes_notified := health_changes_notified c;
        shutting_down_ := true; call_state_ := None;
        calls_started := calls_started c; retry_backoff_ := retry_backoff_ c;
        retry_timer_callback_pending_ := retry_timer_callback_pending_ c;
        retry_timer_ := retry_timer_ c |};
   watcher_cancelled := bool_decide (is_Some (notify_state_ c));
   timer_cancelled := retry_timer_callback_pending_ c |}.

(** The state that [DoneReadingRecvMessage] publishes for a response. *)
Definition response_state (healthy : bool) : grpc_connectivity_state :=
if healthy then GRPC_CHANNEL_READY else GRPC_CHANNEL_TRANSIENT_FAILURE.

(** Whether [self] numbers the call state that the client uses. *)
Definition is_current_call (c : HealthCheckClient) (self : nat) : bool :=
match call_state_ c with
| Some current => (call_number current =? self)%nat
| None => false
end.

(** What can happen to a client: the calls of its owner, the expiry or
  cancellation of the retry timer, and the callbacks of the call state
  numbered [self], which may be one that the client has given up already. *)
Inductive health_event : Type :=
| EvNotifyOnHealthChange (observed : grpc_connectivity_state)
| EvOrphan
| EvOnRetryTimer (cancelled : bool)
| EvDoneReadingRecvMessage (self : nat) (healthy : bool)
| EvRecvTrailingMetadataReady (self : nat) (result : trailing_metadata_result)
| EvCallEndedRetry (self : nat).

Definition is_notify_event (e : health_event) : bool :=
match e with
| EvNotifyOnHealthChange _ => true
| _ => false
end.

Section Events.

Variable next_attempt_time : BackOffOptions -> nat -> Z.

(** One event; [None] where an assertion fails.  A response read by a call
    state that the client has given up still sets the health status; its
    [seen_response_] flag is not looked at again. *)
Definition health_step (c : HealthCheckClient) (e : health_event)
    : option HealthCheckClient :=
  match e with
  | EvNotifyOnHealthChange observed =>
      watched_client <$> NotifyOnHealthChange c observed
  | EvOrphan => Some (client_after (Orphan c))
  | EvOnRetryTimer cancelled => OnRetryTimer c cancelled
  | EvDoneReadingRecvMessage self healthy =>
      if is_current_call c self then Some (DoneReadingRecvMessage c healthy)
      else Some (SetHealthStatusLocked c (response_state healthy))
  | EvRecvTrailingMetadataReady self result =>
      RecvTrailingMetadataReady next_attempt_time c self result
  | EvCallEndedRetry self => CallEnded next_attempt_time c self true
  end.

Fixpoint health_run (c : HealthCheckClient) (events : list health_event)
    : option HealthCheckClient :=
  match events with
  | [] => Some c
  | e :: rest => c' ← health_step c e; health_run c' rest
  end.

End Events.

(** No call state is in use once the client shuts down, nor while the
  callback of the retry timer is pending. *)
Definition call_state_consistent (c : HealthCheckClient) : Prop :=
(shutting_down_ c = true -> call_state_ c = None)
/\ (retry_timer_callback_pending_ c = true -> call_state_ c = None).

(** The variable of a registered watcher holds the state of the client. *)
Definition watcher_consistent (c : HealthCheckClient) : Prop :=
forall observed, notify_state_ c = Some observed -> observed = state_ c.

(** How often a step from [c] to [c'] schedules [on_health_changed_]
  without error. *)
Definition notifications (c c' : HealthCheckClient) : nat :=
(health_changes_notified c' - health_changes_notified c)%nat.

End HealthCheck.

(** The strings that [parse_timeout] accepts, and the time they denote: a
  non-empty run of digits that fits an [int], then optionally a dot with 3,
  6 or 9 digits, then [s]. *)
Definition whole_seconds (whole : string) : Prop :=
whole <> "" /\ all_digits whole = true /\ decimal_value whole <= INT_MAX.

Definition timeout_denotes (value : string) (nsec_before : Z)
  (t : gpr_timespec) : Prop :=
(exists whole,
    value = whole ++ "s" /\ whole_seconds whole
    /\ t = {| tv_sec := decimal_value whole; tv_nsec := nsec_before |})
\/ (exists whole fraction,
       value = whole ++ "." ++ fraction ++ "s" /\ whole_seconds whole
       /\ all_digits fraction = true
       /\ (String.length fraction = 3 \/ String.length fraction = 6
           \/ String.length fraction = 9)%nat
       /\ t = {| tv_sec := decimal_value whole;
                 tv_nsec := decimal_value fraction
                            * 10 ^ (9 - strlen fraction) |}).

(** ** Well-formed retry policies *)

(** A sub-field that holds a JSON number parsing to a positive [int]. *)
Definition positive_number_field (sub_field : grpc_json) : Prop :=
json_type sub_field = GRPC_JSON_NUMBER
/\ 0 < gpr_parse_nonnegative_int (json_value sub_field).

(** A sub-field that holds an array of known status names. *)
Definition status_name_array (sub_field : grpc_json) : Prop :=
json_type sub_field = GRPC_JSON_ARRAY
/\ Forall (fun element =>
             json_type element = GRPC_JSON_STRING
             /\ is_Some (grpc_status_from_string (json_value element)))
     (json_children sub_field).

Definition has_key (name : string) (sub_field : grpc_json) : Prop :=
json_key sub_field = Some name.

(** A method entry with a timeout and a full retry policy. *)
Definition sample_retry_policy_json : grpc_json :=
Json GRPC_JSON_OBJECT (Some "retryPolicy") ""
  [Json GRPC_JSON_NUMBER (Some "maxRetryAttempts") "3" [];
   Json GRPC_JSON_NUMBER (Some "initialBackoffMs") "100" [];
   Json GRPC_JSON_NUMBER (Some "maxBackoffMs") "1000" [];
   Json GRPC_JSON_NUMBER (Some "backoffMultiplier") "2" [];
   Json GRPC_JSON_ARRAY (Some "retryableStatusCodes") ""
     [Json GRPC_JSON_STRING None "UNAVAILABLE" []]].

Definition sample_method_json : grpc_json :=
Json GRPC_JSON_OBJECT None ""
  [Json GRPC_JSON_STRING (Some "timeout") "1.500s" [];
   sample_retry_policy_json].

Definition sample_retry_policy : retry_policy_params :=
{| max_retry_attempts := 3; initial_backoff_ms := 100;
   max_backoff_ms := 1000; backoff_multiplier := 0;
   retryable_status_codes := Some [GRPC_STATUS_UNAVAILABLE];
   num_retryable_status_codes := 1 |}.

Definition sample_method_parameters : method_parameters :=
{| timeout := {| tv_sec := 1; tv_nsec := 500000000 |};
   wait_for_ready := WAIT_FOR_READY_UNSET;
   retry_policy := Some sample_retry_policy |}.

(** ** Fields of a method entry *)

(** The keys that [method_parameters_create_from_json] compares
    [field->key] with. *)
Definition known_method_field (field : grpc_json) : bool :=
  key_is (json_key field) "waitForReady"
  || key_is (json_key field) "timeout"
  || key_is (json_key field) "retryPolicy".

(** The fields of an object that carry the key [name], in order. *)
Definition fields_with_key (name : string) (fields : list grpc_json)
    : list grpc_json :=
  List.filter (fun field => key_is (json_key field) name) fields.

(** The elements of all the [retryableStatusCodes] arrays of a retry
    policy. *)
Definition retryable_status_elements (field : grpc_json) : list grpc_json :=
  concat (map json_children
            (fields_with_key "retryableStatusCodes" (json_children field))).

(** A method entry with a retry policy that names two status codes. *)
Definition sample_two_codes_policy_json : grpc_json :=
  Json GRPC_JSON_OBJECT (Some "retryPolicy") ""
    [Json GRPC_JSON_NUMBER (Some "maxRetryAttempts") "2" [];
     Json GRPC_JSON_ARRAY (Some "retryableStatusCodes") ""
       [Json GRPC_JSON_STRING None "UNAVAILABLE" [];
        Json GRPC_JSON_STRING None "ABORTED" []]].

(** What the fields named waitForReady say about the state the parser
    started from and the state it ends in. *)
Definition wait_for_ready_outcome (fields : list grpc_json)
    (before after : wait_for_ready_value) : Prop :=
  match before with
  | WAIT_FOR_READY_UNSET =>
      match fields_with_key "waitForReady" fields with
      | [] => after = WAIT_FOR_READY_UNSET
      | [field] =>
          (json_type field = GRPC_JSON_TRUE /\ after = WAIT_FOR_READY_TRUE)
          \/ (json_type field = GRPC_JSON_FALSE
              /\ after = WAIT_FOR_READY_FALSE)
      | _ => False
      end
  | _ => fields_with_key "waitForReady" fields = [] /\ after = before
  end.

Definition retry_policy_outcome (fields : list grpc_json)
    (before after : option retry_policy_params) : Prop :=
  match before with
  | None =>
      match fields_with_key "retryPolicy" fields with
      | [] => after = None
      | [field] =>
          exists rp,
            parse_retry_policy field zeroed_retry_policy = (true, rp)
            /\ after = Some rp
      | _ => False
      end
  | Some _ => fields_with_key "retryPolicy" fields = [] /\ after = before
  end.

(** What the parser has stored of the status codes when it has read the
    elements [elements] of retryableStatusCodes arrays: nothing, or one code
    per element. *)
Definition status_codes_stored (rp : retry_policy_params)
    (elements : list grpc_json) : Prop :=
  (retryable_status_codes rp = None /\ num_retryable_status_codes rp = 0
   /\ elements = [])
  \/ (exists codes,
        retryable_status_codes rp = Some codes /\ codes <> []
        /\ num_retryable_status_codes rp = Z.of_nat (length codes)
        /\ Forall2 (fun element status =>
                      grpc_status_from_string (json_value element)
                      = Some status) elements codes).

(** What the members of a retry policy keyed [name] make of one of its
    three numbers, which holds [before] when [parse_retry_policy] starts
    (0 after the [memset]) and [after] when it returns true: without such a
    member the number keeps its value; one member is a JSON number parsing
    to a positive [int], which is stored; two or more are not accepted. *)
Definition number_member (name : string) (sub_fields : list grpc_json)
    (before after : Z) : Prop :=
  match fields_with_key name sub_fields with
  | [] => after = before
  | [sub_field] =>
      before = 0 /\ positive_number_field sub_field
      /\ after = gpr_parse_nonnegative_int (json_value sub_field)
  | _ => False
  end.

(** What the members keyed retryableStatusCodes make of the list of status
    codes and its count ([codes_before], [count_before] at the start): each
    is an array of known status names, met while the list is still NULL, so
    that only the last of them has elements; without any element the list
    and the count keep their values, otherwise the list holds one code per
    element and the count has grown by their number. *)
Definition status_code_members (sub_fields : list grpc_json)
    (codes_before : option (list grpc_status_code)) (count_before : Z)
    (codes_after : option (list grpc_status_code)) (count_after : Z)
    : Prop :=
  let arrays := fields_with_key "retryableStatusCodes" sub_fields in
  Forall status_name_array arrays
  /\ (arrays <> [] -> codes_before = None)
  /\ (forall first array rest,
        arrays = (first ++ array :: rest)%list -> rest <> [] ->
        json_children array = [])
  /\ match concat (map json_children arrays) with
     | [] => codes_after = codes_before /\ count_after = count_before
     | elements =>
         exists statuses,
           Forall2 (fun element status =>
                      grpc_status_from_string (json_value element)
                      = Some status) elements statuses
           /\ codes_after = Some statuses
           /\ count_after
              = size_t_wrap (count_before + Z.of_nat (length statuses))
     end.

(** What an accepted list of members makes of the policy [rp] that
    [parse_retry_policy] started from. *)
Definition retry_policy_members (sub_fields : list grpc_json)
    (rp rp' : retry_policy_params) : Prop :=
  Forall (fun sub_field => json_key sub_field <> None) sub_fields
  /\ number_member "maxRetryAttempts" sub_fields
       (max_retry_attempts rp) (max_retry_attempts rp')
  /\ number_member "initialBackoffMs" sub_fields
       (initial_backoff_ms rp) (initial_backoff_ms rp')
  /\ number_member "maxBackoffMs" sub_fields
       (max_backoff_ms rp) (max_backoff_ms rp')
  /\ backoff_multiplier rp' = backoff_multiplier rp
  /\ status_code_members sub_fields
       (retryable_status_codes rp) (num_retryable_status_codes rp)
       (retryable_status_codes rp') (num_retryable_status_codes rp').

(** A retry policy that holds maxRetryAttempts twice, with the same
    value. *)
Definition sample_duplicate_attempts_json : grpc_json :=
  Json GRPC_JSON_OBJECT (Some "retryPolicy") ""
    [Json GRPC_JSON_NUMBER (Some "maxRetryAttempts") "2" [];
     Json GRPC_JSON_NUMBER (Some "maxRetryAttempts") "2" []].

(** A method entry with a zero timeout followed by a timeout of five
    seconds, and the parameters the parser makes of it. *)
Definition sample_zero_timeout_json : grpc_json :=
  Json GRPC_JSON_OBJECT None ""
    [Json GRPC_JSON_STRING (Some "timeout") "0s" [];
     Json GRPC_JSON_TRUE (Some "waitForReady") "" [];
     Json GRPC_JSON_STRING (Some "timeout") "5s" []].

Definition sample_zero_timeout_parameters : method_parameters :=
  {| timeout := {| tv_sec := 5; tv_nsec := 0 |};
     wait_for_ready := WAIT_FOR_READY_TRUE;
     retry_policy := None |}.

(** ** grpclb: from server lists to LB addresses

    The "serverlist parsing code" of [grpclb.cc] and
    [ExtractBackendAddresses], over the fields of [grpc_grpclb_server] that
    this code reads. *)

Module Serverlist.

(** [grpc_grpclb_ip_address]: [size] and the byte array [bytes]. *)
Record grpc_grpclb_ip_address : Type := {
  size : Z;
  bytes : list Byte.byte
}.

(** [grpc_grpclb_server].  [port] is an [int32_t]; [load_balance_token] is
    the content of the character array of that name. *)
Record grpc_grpclb_server : Type := {
  ip_address : grpc_grpclb_ip_address;
  port : Z;
  has_load_balance_token : bool;
  load_balance_token : string;
  drop : bool
}.

(** What [ParseServer] leaves in [addr->addr]: all zero, a [sockaddr_in] or
    a [sockaddr_in6].  The port field is given by the number it holds in
    network byte order. *)
Inductive sockaddr : Type :=
| sockaddr_zeroed
| sockaddr_in (sin_port : Z) (sin_addr : list Byte.byte)
| sockaddr_in6 (sin6_port : Z) (sin6_addr : list Byte.byte).

(** [sizeof (struct sockaddr_in)] and [sizeof (struct sockaddr_in6)], as on
    Linux. *)
Definition sizeof_sockaddr_in : Z := 16.
Definition sizeof_sockaddr_in6 : Z := 28.

Record grpc_resolved_address : Type := {
  addr : sockaddr;
  len : Z
}.

(** The address after [memset] with zero. *)
Definition zeroed_address : grpc_resolved_address :=
  {| addr := sockaddr_zeroed; len := 0 |}.

(** [IsServerValid (server, idx, log)]; [idx] and [log] only reach the log.
    The shift of the [int32_t] port is arithmetic. *)
Definition IsServerValid (server : grpc_grpclb_server) : bool :=
  if drop server then false
  else if negb (Z.shiftr (port server) 16 =? 0) then false
  else if negb (size (ip_address server) =? 4)
          && negb (size (ip_address server) =? 16) then false
  else true.

(** The cast [(uint16_t)]. *)
Definition uint16_cast (z : Z) : Z := z mod 65536.

Definition ParseServer (server : grpc_grpclb_server) : grpc_resolved_address :=
  if drop server then zeroed_address
  else
    let netorder_port := uint16_cast (port server) in
    let ip := ip_address server in
    if size ip =? 4 then
      {| addr := sockaddr_in netorder_port (take (Z.to_nat (size ip)) (bytes ip));
         len := sizeof_sockaddr_in |}
    else if size ip =? 16 then
      {| addr := sockaddr_in6 netorder_port
                   (take (Z.to_nat (size ip)) (bytes ip));
         len := sizeof_sockaddr_in6 |}
    else zeroed_address.

(** [strnlen (s, maxlen)]. *)
Fixpoint strnlen (s : string) (maxlen : nat) : nat :=
  match maxlen, s with
  | S n, String c rest =>
      if Ascii.eqb c Ascii.zero then O else S (strnlen rest n)
  | _, _ => O
  end.

(** [grpc_lb_address].  [user_data] is the value of the LB-token metadata
    element it points to, [None] for a null pointer. *)
Record grpc_lb_address : Type := {
  address : grpc_resolved_address;
  is_balancer : bool;
  balancer_name : option string;
  user_data : option string
}.

(** The value of [GRPC_MDELEM_LB_TOKEN_EMPTY]. *)
Definition LB_TOKEN_EMPTY : string := "".

(** Modelled from the spec: [grpc_lb_addresses_create] and
    [grpc_lb_addresses_set_address] (lb_policy_factory.cc is not part of the
    sources at hand).  The LB addresses are an ordered list of entries with
    address, is_balancer, balancer_name and user_data: an array of
    [num_addresses] zeroed entries, in which an entry is stored at an index;
    [None] for an index outside the array. *)
Definition grpc_lb_addresses_create (num_addresses : Z)
    : list grpc_lb_address :=
  replicate (Z.to_nat num_addresses)
    {| address := zeroed_address; is_balancer := false;
       balancer_name := None; user_data := None |}.

Definition grpc_lb_addresses_set_address (addresses : list grpc_lb_address)
    (index : Z) (address : grpc_resolved_address) (is_balancer : bool)
    (balancer_name : option string) (user_data : option string)
    : option (list grpc_lb_address) :=
  if (0 <=? index) && (index <? Z.of_nat (length addresses)) then
    Some (<[Z.to_nat index :=
              {| address := address; is_balancer := is_balancer;
                 balancer_name := balancer_name; user_data := user_data |}]>
            addresses)
  else None.

(** The first pass of [ProcessServerlist]: [num_valid] after the servers. *)
Fixpoint count_valid (servers : list grpc_grpclb_server) (num_valid : Z) : Z :=
  match servers with
  | [] => num_valid
  | server :: rest =>
      count_valid rest
        (if IsServerValid server then size_t_wrap (num_valid + 1)
         else num_valid)
  end.

(** "lb token processing": the user data of a server. *)
Definition server_user_data (server : grpc_grpclb_server) : option string :=
  if has_load_balance_token server then
    let lb_token_max_length := String.length (load_balance_token server) in
    let lb_token_length :=
      strnlen (load_balance_token server) lb_token_max_length in
    Some (substring 0 lb_token_length (load_balance_token server))
  else Some LB_TOKEN_EMPTY.

(** The second pass of [ProcessServerlist] over the servers from [sl_idx]
    on: the addresses and [addr_idx] at the end; [None] where
    [GPR_ASSERT(addr_idx < num_valid)] fails or an entry is stored outside
    the array. *)
Fixpoint populate_addresses (servers : list grpc_grpclb_server)
    (num_valid : Z) (lb_addresses : list grpc_lb_address) (addr_idx : Z)
    : option (list grpc_lb_address * Z) :=
  match servers with
  | [] => Some (lb_addresses, addr_idx)
  | server :: rest =>
      if negb (IsServerValid server)
      then populate_addresses rest num_valid lb_addresses addr_idx
      else if negb (addr_idx <? num_valid) then None
      else
        let addr := ParseServer server in
        let user_data := server_user_data server in
        lb_addresses ←
          grpc_lb_addresses_set_address lb_addresses addr_idx addr false None
            user_data;
        populate_addresses rest num_valid lb_addresses
          (size_t_wrap (addr_idx + 1))
  end.

(** [ProcessServerlist]; [None] where an assertion fails. *)
Definition ProcessServerlist (serverlist : list grpc_grpclb_server)
    : option (list grpc_lb_address) :=
  let num_valid := count_valid serverlist 0 in
  let lb_addresses := grpc_lb_addresses_create num_valid in
  '(lb_addresses, addr_idx) ←
    populate_addresses serverlist num_valid lb_addresses 0;
  if addr_idx =? num_valid then Some lb_addresses else None.

(** The first pass of [ExtractBackendAddresses]. *)
Fixpoint count_backends (addresses : list grpc_lb_address) (num_backends : Z)
    : Z :=
  match addresses with
  | [] => num_backends
  | a :: rest =>
      count_backends rest
        (if negb (is_balancer a) then size_t_wrap (num_backends + 1)
         else num_backends)
  end.

(** The second pass of [ExtractBackendAddresses]. *)
Fixpoint copy_backends (addresses backend_addresses : list grpc_lb_address)
    (num_copied : Z) : option (list grpc_lb_address) :=
  match addresses with
  | [] => Some backend_addresses
  | a :: rest =>
      if is_balancer a then copy_backends rest backend_addresses num_copied
      else
        backend_addresses ←
          grpc_lb_addresses_set_address backend_addresses num_copied
            (address a) false None (Some LB_TOKEN_EMPTY);
        copy_backends rest backend_addresses (size_t_wrap (num_copied + 1))
  end.

Definition ExtractBackendAddresses (addresses : list grpc_lb_address)
    : option (list grpc_lb_address) :=
  let num_backends := count_backends addresses 0 in
  let backend_addresses := grpc_lb_addresses_create num_backends in
  copy_backends addresses backend_addresses 0.

(** The LB address that a valid server becomes. *)
Definition server_lb_address (server : grpc_grpclb_server) : grpc_lb_address :=
  {| address := ParseServer server; is_balancer := false;
     balancer_name := None; user_data := server_user_data server |}.

(** The copy that [ExtractBackendAddresses] makes of a backend address. *)
Definition backend_copy (a : grpc_lb_address) : grpc_lb_address :=
  {| address := address a; is_balancer := false; balancer_name := None;
     user_data := Some LB_TOKEN_EMPTY |}.

(** A server list with a drop entry, an IPv4 backend with a token, a server
    whose port does not fit 16 bits, and an IPv6 backend without token. *)
Definition sample_servers : list grpc_grpclb_server :=
  [{| ip_address := {| size := 0; bytes := [] |}; port := 0;
      has_load_balance_token := true; load_balance_token := "t1";
      drop := true |};
   {| ip_address :=
        {| size := 4;
           bytes := [Byte.x0a; Byte.x00; Byte.x00; Byte.x01] |};
      port := 443; has_load_balance_token := true;
      load_balance_token := "t2"; drop := false |};
   {| ip_address :=
        {| size := 4;
           bytes := [Byte.x0a; Byte.x00; Byte.x00; Byte.x02] |};
      port := 65536; has_load_balance_token := false;
      load_balance_token := ""; drop := false |};
   {| ip_address := {| size := 16; bytes := replicate 16 Byte.x00 |};
      port := 8080; has_load_balance_token := false;
      load_balance_token := ""; drop := false |}].

(** Resolver addresses: a balancer and a backend that carries user data. *)
Definition sample_addresses : list grpc_lb_address :=
  [{| address := {| addr := sockaddr_in 8443 [Byte.x0a; Byte.x00; Byte.x00;
                                               Byte.x09];
                    len := sizeof_sockaddr_in |};
      is_balancer := true; balancer_name := Some "lb.example.com";
      user_data := None |};
   {| address := {| addr := sockaddr_in 443 [Byte.x0a; Byte.x00; Byte.x00;
                                              Byte.x01];
                    len := sizeof_sockaddr_in |};
      is_balancer := false; balancer_name := None;
      user_data := Some "t2" |}].

End Serverlist.

(** * Properties *)

(** ** C strings *)

Section CStrings.

Lemma append_String (a : ascii) (s t : string) :
  String a s ++ t = String a (s ++ t).
Proof. reflexivity. Qed.

Lemma append_empty (t : string) : "" ++ t = t.
Proof. reflexivity. Qed.

Lemma append_assoc (s t u : string) : (s ++ t) ++ u = s ++ (t ++ u).
Proof.
  induction s as [|a s IH]; [reflexivity|].
  rewrite !append_String, IH. reflexivity.
Qed.

Lemma split_last_inv (s buf : string) (c : ascii) :
  split_last s = Some (buf, c) -> s = buf ++ String c "".
Proof.
  revert buf. induction s as [|a s IH]; simpl; intros buf H; [discriminate|].
  destruct (split_last s) as [[init l]|] eqn:E.
  - injection H as <- <-. rewrite append_String. f_equal. apply IH. reflexivity.
  - injection H as <- <-. destruct s; simpl in *; [reflexivity|].
    destruct (split_last s) as [[? ?]|]; discriminate.
Qed.


Lemma is_digit_not_dot (c : ascii) : is_digit c = true -> Ascii.eqb c "." = false.
Proof.
  intros H. destruct (Ascii.eqb_spec c "."); [subst; discriminate|reflexivity].
Qed.

Lemma strchr_inv (s before after : string) :
  strchr s "." = Some (before, after) -> s = before ++ String "." after.
Proof.
  revert before. induction s as [|a s IH]; simpl; intros before H; [discriminate|].
  destruct (Ascii.eqb_spec a ".") as [->|_].
  - injection H as <- <-. reflexivity.
  - destruct (strchr s ".") as [[b c]|]; [|discriminate].
    injection H as <- <-. rewrite append_String. f_equal. apply IH. reflexivity.
Qed.

Lemma digit_value_range (c : ascii) : is_digit c = true -> 0 <= digit_value c <= 9.
Proof.
  unfold is_digit, digit_value. intros [H1 H2]%andb_prop.
  apply Nat.leb_le in H1, H2. lia.
Qed.

Lemma decimal_value_acc_range (s : string) (acc : Z) :
  all_digits s = true -> 0 <= acc ->
  acc * 10 ^ strlen s <= decimal_value_acc acc s
    < (acc + 1) * 10 ^ strlen s.
Proof.
  unfold strlen. revert acc.
  induction s as [|a s IH]; simpl String.length; intros acc Hd Hacc.
  - simpl. lia.
  - simpl in Hd. apply andb_prop in Hd as [Ha Hs].
    pose proof (digit_value_range _ Ha) as Hv.
    cbn [decimal_value_acc].
    specialize (IH (10 * acc + digit_value a) Hs ltac:(lia)).
    rewrite Nat2Z.inj_succ, Z.pow_succ_r by lia.
    assert (0 < 10 ^ Z.of_nat (String.length s)) by (apply Z.pow_pos_nonneg; lia).
    nia.
Qed.

Lemma decimal_value_range (s : string) :
  all_digits s = true -> 0 <= decimal_value s < 10 ^ strlen s.
Proof.
  intros Hd. pose proof (decimal_value_acc_range s 0 Hd ltac:(lia)).
  unfold decimal_value. lia.
Qed.

Lemma gpr_parse_nonnegative_int_ok (s : string) :
  gpr_parse_nonnegative_int s <> -1 <->
  s <> "" /\ all_digits s = true /\ decimal_value s <= INT_MAX.
Proof.
  unfold gpr_parse_nonnegative_int. destruct s as [|a s]; [intuition congruence|].
  destruct (all_digits (String a s)) eqn:Hd; simpl.
  - pose proof (decimal_value_range _ Hd) as Hr.
    destruct (Z.leb_spec (decimal_value (String a s)) INT_MAX); split.
    + intros _. repeat split; [discriminate|assumption].
    + intros _. lia.
    + congruence.
    + intros (_ & _ & ?). lia.
  - split; [congruence|]. intros (_ & ? & _). discriminate.
Qed.

Lemma gpr_parse_nonnegative_int_value (s : string) :
  gpr_parse_nonnegative_int s <> -1 ->
  gpr_parse_nonnegative_int s = decimal_value s.
Proof.
  unfold gpr_parse_nonnegative_int. destruct s as [|a s]; [congruence|].
  destruct (all_digits (String a s) && (decimal_value (String a s) <=? INT_MAX));
    congruence.
Qed.

Lemma fraction_multiplier_Some (n m : Z) :
  fraction_multiplier n = Some m <->
  (n = 3 \/ n = 6 \/ n = 9) /\ m = 10 ^ (9 - n).
Proof.
  unfold fraction_multiplier.
  destruct (Z.eqb_spec n 9) as [->|?]; [split; [intros [= <-]; split; [lia|reflexivity]|intros [_ ->]; reflexivity]|].
  destruct (Z.eqb_spec n 6) as [->|?]; [split; [intros [= <-]; split; [lia|reflexivity]|intros [_ ->]; reflexivity]|].
  destruct (Z.eqb_spec n 3) as [->|?]; [split; [intros [= <-]; split; [lia|reflexivity]|intros [_ ->]; reflexivity]|].
  split; [discriminate|]. intros [? _]. lia.
Qed.

Lemma fraction_nsec_no_wrap (fraction : string) :
  all_digits fraction = true -> 0 <= strlen fraction <= 9 ->
  int32_wrap (decimal_value fraction * 10 ^ (9 - strlen fraction))
  = decimal_value fraction * 10 ^ (9 - strlen fraction).
Proof.
  intros Hd Hl. pose proof (decimal_value_range _ Hd) as Hr.
  assert (decimal_value fraction * 10 ^ (9 - strlen fraction) < 10 ^ 9).
  { replace (10 ^ 9) with (10 ^ strlen fraction * 10 ^ (9 - strlen fraction)).
    - assert (0 < 10 ^ (9 - strlen fraction)) by (apply Z.pow_pos_nonneg; lia). nia.
    - rewrite <- Z.pow_add_r by lia. f_equal. lia. }
  assert (0 <= decimal_value fraction * 10 ^ (9 - strlen fraction)).
  { assert (0 < 10 ^ (9 - strlen fraction)) by (apply Z.pow_pos_nonneg; lia). nia. }
  unfold int32_wrap. rewrite Z.mod_small; lia.
Qed.

End CStrings.

(** ** Per-method timeout *)

Lemma whole_seconds_parse (whole : string) :
whole_seconds whole <-> gpr_parse_nonnegative_int whole <> -1.
Proof. unfold whole_seconds. symmetry. apply gpr_parse_nonnegative_int_ok. Qed.

Lemma parse_timeout_sound (key : option string) (value : string)
  (children : list grpc_json) (t0 t : gpr_timespec) :
parse_timeout (Json GRPC_JSON_STRING key value children) t0 = Some (true, t) ->
timeout_denotes value (tv_nsec t0) t.
Proof.
unfold parse_timeout. simpl.
destruct (split_last value) as [[buf last]|] eqn:Hlast; [|discriminate].
apply split_last_inv in Hlast.
destruct (Ascii.eqb_spec last "s") as [->|_]; simpl; [|discriminate].
destruct (strchr buf ".") as [[whole fraction]|] eqn:Hdot.
- apply strchr_inv in Hdot.
  destruct (Z.eqb_spec (gpr_parse_nonnegative_int fraction) (-1)) as [|Hf];
    [discriminate|].
  destruct (fraction_multiplier (strlen fraction)) as [m|] eqn:Hm; [|discriminate].
  destruct (Z.eqb_spec (gpr_parse_nonnegative_int whole) (-1)) as [|Hw];
    simpl; [discriminate|].
  intros [= <-]. right. exists whole, fraction.
  apply fraction_multiplier_Some in Hm as [Hlen ->].
  pose proof Hf as Hf'. apply gpr_parse_nonnegative_int_ok in Hf' as (_ & Hd & _).
  rewrite (gpr_parse_nonnegative_int_value _ Hf),
    (gpr_parse_nonnegative_int_value _ Hw).
  rewrite fraction_nsec_no_wrap by (auto; lia).
  split; [|split; [|split; [|split]]].
  + subst value buf. rewrite append_assoc. reflexivity.
  + apply whole_seconds_parse. assumption.
  + assumption.
  + unfold strlen in Hlen. lia.
  + reflexivity.
- destruct (Z.eqb_spec (gpr_parse_nonnegative_int buf) (-1)) as [|Hw];
    simpl; [discriminate|].
  intros [= <-]. left. exists buf.
  rewrite (gpr_parse_nonnegative_int_value _ Hw).
  split; [assumption|]. split; [|reflexivity].
  apply whole_seconds_parse. assumption.
Qed.


(** ** Retry policy of a method *)

Lemma grpc_json_type_eqb_eq (a b : grpc_json_type) :
grpc_json_type_eqb a b = true <-> a = b.
Proof. destruct a, b; simpl; split; congruence. Qed.

Lemma classic_has_key (field : grpc_json) (name : string) :
has_key name field \/ ~ has_key name field.
Proof.
unfold has_key. destruct (json_key field) as [key|]; [|right; discriminate].
destruct (String.eqb_spec key name) as [E|Hne]; [left|right]; congruence.
Qed.

Lemma parse_retryable_status_codes_ok (elements : list grpc_json)
  (rp rp' : retry_policy_params) :
parse_retryable_status_codes elements rp = (true, rp') ->
Forall (fun element =>
          json_type element = GRPC_JSON_STRING
          /\ is_Some (grpc_status_from_string (json_value element)))
  elements
/\ max_retry_attempts rp' = max_retry_attempts rp
/\ initial_backoff_ms rp' = initial_backoff_ms rp
/\ max_backoff_ms rp' = max_backoff_ms rp.
Proof.
revert rp. induction elements as [|element rest IH]; simpl; intros rp H.
- injection H as <-. auto.
- destruct (grpc_json_type_eqb (json_type element) GRPC_JSON_STRING) eqn:Ht;
    simpl in H; [|discriminate].
  apply grpc_json_type_eqb_eq in Ht.
  destruct (grpc_status_from_string (json_value element)) as [status|] eqn:Hs;
    [|discriminate].
  apply IH in H as (Hrest & H1 & H2 & H3). simpl in *.
  repeat split; try assumption.
  constructor; [|assumption]. split; [assumption|]. rewrite Hs. eauto.
Qed.

(** What one accepted sub-field does to the three numbers. *)
Lemma parse_retry_policy_sub_field_ok (sub_field : grpc_json)
  (rp rp' : retry_policy_params) :
parse_retry_policy_sub_field sub_field rp = (true, rp') ->
exists key,
  json_key sub_field = Some key
  /\ (if String.eqb key "maxRetryAttempts"
      then max_retry_attempts rp = 0 /\ positive_number_field sub_field
           /\ max_retry_attempts rp'
              = gpr_parse_nonnegative_int (json_value sub_field)
      else max_retry_attempts rp' = max_retry_attempts rp)
  /\ (if String.eqb key "initialBackoffMs"
      then initial_backoff_ms rp = 0 /\ positive_number_field sub_field
           /\ initial_backoff_ms rp'
              = gpr_parse_nonnegative_int (json_value sub_field)
      else initial_backoff_ms rp' = initial_backoff_ms rp)
  /\ (if String.eqb key "maxBackoffMs"
      then max_backoff_ms rp = 0 /\ positive_number_field sub_field
           /\ max_backoff_ms rp'
              = gpr_parse_nonnegative_int (json_value sub_field)
      else max_backoff_ms rp' = max_backoff_ms rp)
  /\ (if String.eqb key "retryableStatusCodes"
      then status_name_array sub_field else True).
Proof.
unfold parse_retry_policy_sub_field, positive_number_field, status_name_array.
destruct (json_key sub_field) as [key|]; [|discriminate].
intros H. exists key. split; [reflexivity|].
destruct (String.eqb_spec key "maxRetryAttempts") as [E|_]; [subst key|]; simpl.
{ destruct (Z.eqb_spec (max_retry_attempts rp) 0); simpl in H; [|discriminate].
  destruct (grpc_json_type_eqb (json_type sub_field) GRPC_JSON_NUMBER) eqn:Ht;
    simpl in H; [|discriminate].
  apply grpc_json_type_eqb_eq in Ht.
  destruct (Z.leb_spec (gpr_parse_nonnegative_int (json_value sub_field)) 0);
    simpl in H; [discriminate|].
  injection H as <-. simpl. auto 10. }
destruct (String.eqb_spec key "initialBackoffMs") as [E|_]; [subst key|]; simpl.
{ destruct (Z.eqb_spec (initial_backoff_ms rp) 0); simpl in H; [|discriminate].
  destruct (grpc_json_type_eqb (json_type sub_field) GRPC_JSON_NUMBER) eqn:Ht;
    simpl in H; [|discriminate].
  apply grpc_json_type_eqb_eq in Ht.
  destruct (Z.leb_spec (gpr_parse_nonnegative_int (json_value sub_field)) 0);
    simpl in H; [discriminate|].
  injection H as <-. simpl. auto 10. }
destruct (String.eqb_spec key "maxBackoffMs") as [E|_]; [subst key|]; simpl.
{ destruct (Z.eqb_spec (max_backoff_ms rp) 0); simpl in H; [|discriminate].
  destruct (grpc_json_type_eqb (json_type sub_field) GRPC_JSON_NUMBER) eqn:Ht;
    simpl in H; [|discriminate].
  apply grpc_json_type_eqb_eq in Ht.
  destruct (Z.leb_spec (gpr_parse_nonnegative_int (json_value sub_field)) 0);
    simpl in H; [discriminate|].
  injection H as <-. simpl. auto 10. }
destruct (String.eqb_spec key "retryableStatusCodes") as [E|_]; [subst key|]; simpl.
{ destruct (bool_decide (retryable_status_codes rp <> None)); [discriminate|].
  destruct (grpc_json_type_eqb (json_type sub_field) GRPC_JSON_ARRAY) eqn:Ht;
    simpl in H; [|discriminate].
  apply grpc_json_type_eqb_eq in Ht.
  apply parse_retryable_status_codes_ok in H as (? & ? & ? & ?). auto 10. }
injection H as <-. auto.
Qed.

(** The outer loop: every sub-field met on the way to acceptance is
  well-formed, a number that was stored is the one the policy ends with,
  and a number whose key does not occur keeps its value. *)
Lemma parse_retry_policy_sub_fields_ok (sub_fields : list grpc_json)
  (rp rp' : retry_policy_params) :
parse_retry_policy_sub_fields sub_fields rp = (true, rp') ->
Forall
  (fun sub_field =>
     json_key sub_field <> None
     /\ (has_key "maxRetryAttempts" sub_field ->
         positive_number_field sub_field
         /\ max_retry_attempts rp'
            = gpr_parse_nonnegative_int (json_value sub_field))
     /\ (has_key "initialBackoffMs" sub_field ->
         positive_number_field sub_field
         /\ initial_backoff_ms rp'
            = gpr_parse_nonnegative_int (json_value sub_field))
     /\ (has_key "maxBackoffMs" sub_field ->
         positive_number_field sub_field
         /\ max_backoff_ms rp'
            = gpr_parse_nonnegative_int (json_value sub_field))
     /\ (has_key "retryableStatusCodes" sub_field ->
         status_name_array sub_field))
  sub_fields
/\ (max_retry_attempts rp <> 0 \/
    Forall (fun s => ~ has_key "maxRetryAttempts" s) sub_fields ->
    max_retry_attempts rp' = max_retry_attempts rp)
/\ (initial_backoff_ms rp <> 0 \/
    Forall (fun s => ~ has_key "initialBackoffMs" s) sub_fields ->
    initial_backoff_ms rp' = initial_backoff_ms rp)
/\ (max_backoff_ms rp <> 0 \/
    Forall (fun s => ~ has_key "maxBackoffMs" s) sub_fields ->
    max_backoff_ms rp' = max_backoff_ms rp).
Proof.
revert rp. induction sub_fields as [|sub_field rest IH]; intros rp H.
- simpl in H. injection H as <-. auto.
- simpl in H.
  destruct (parse_retry_policy_sub_field sub_field rp) as [[|] rp1] eqn:Hsub;
    [|discriminate].
  apply parse_retry_policy_sub_field_ok in Hsub
    as (key & Hkey & Hmax & Hinit & Hmaxb & Hcodes).
  apply IH in H as (Hrest & Smax & Sinit & Smaxb).
  unfold has_key, positive_number_field in *.
  split; [constructor; [|exact Hrest]|].
  + rewrite Hkey. split; [discriminate|].
    split; [|split; [|split]]; intros [= ->]; simpl in *.
    * destruct Hmax as (_ & Hp & Hv). split; [exact Hp|].
      rewrite Smax; [exact Hv|]. left. lia.
    * destruct Hinit as (_ & Hp & Hv). split; [exact Hp|].
      rewrite Sinit; [exact Hv|]. left. lia.
    * destruct Hmaxb as (_ & Hp & Hv). split; [exact Hp|].
      rewrite Smaxb; [exact Hv|]. left. lia.
    * exact Hcodes.
  + unfold has_key. split; [|split].
    * intros Hc.
      destruct (String.eqb key "maxRetryAttempts") eqn:E.
      -- apply String.eqb_eq in E. subst key.
         destruct Hmax as (Hz & _ & _). destruct Hc as [Hc|Hc]; [contradiction|].
         inversion Hc; subst. contradiction.
      -- rewrite Smax, Hmax; [reflexivity|]. destruct Hc as [Hc|Hc].
         ++ left. congruence.
         ++ right. inversion Hc; assumption.
    * intros Hc.
      destruct (String.eqb key "initialBackoffMs") eqn:E.
      -- apply String.eqb_eq in E. subst key.
         destruct Hinit as (Hz & _ & _). destruct Hc as [Hc|Hc]; [contradiction|].
         inversion Hc; subst. contradiction.
      -- rewrite Sinit, Hinit; [reflexivity|]. destruct Hc as [Hc|Hc].
         ++ left. congruence.
         ++ right. inversion Hc; assumption.
    * intros Hc.
      destruct (String.eqb key "maxBackoffMs") eqn:E.
      -- apply String.eqb_eq in E. subst key.
         destruct Hmaxb as (Hz & _ & _). destruct Hc as [Hc|Hc]; [contradiction|].
         inversion Hc; subst. contradiction.
      -- rewrite Smaxb, Hmaxb; [reflexivity|]. destruct Hc as [Hc|Hc].
         ++ left. congruence.
         ++ right. inversion Hc; assumption.
Qed.

Lemma method_parameters_field_retry_policy (field : grpc_json)
  (st st1 : method_parsing_state) :
method_parameters_field field st = FieldOk st1 ->
(has_key "retryPolicy" field ->
 mps_retry_policy st = None
 /\ exists rp, parse_retry_policy field zeroed_retry_policy = (true, rp)
               /\ mps_retry_policy st1 = Some rp)
/\ (~ has_key "retryPolicy" field ->
    mps_retry_policy st1 = mps_retry_policy st).
Proof.
unfold method_parameters_field, has_key.
destruct (json_key field) as [key|]; [|intros [= <-]; split; [discriminate|auto]].
destruct (String.eqb key "waitForReady") eqn:E1.
{ apply String.eqb_eq in E1. subst key.
  destruct (mps_wait_for_ready st); try discriminate.
  destruct (parse_wait_for_ready field WAIT_FOR_READY_UNSET) as [[|] w];
    [|discriminate].
  intros [= <-]. split; [discriminate|auto]. }
destruct (String.eqb key "timeout") eqn:E2.
{ apply String.eqb_eq in E2. subst key.
  destruct ((tv_sec (mps_timeout st) >? 0) || (tv_nsec (mps_timeout st) >? 0));
    [discriminate|].
  destruct (parse_timeout field (mps_timeout st)) as [[[|] t]|]; try discriminate.
  intros [= <-]. split; [discriminate|auto]. }
destruct (String.eqb key "retryPolicy") eqn:E3.
{ apply String.eqb_eq in E3. subst key.
  destruct (mps_retry_policy st) eqn:Hst; [discriminate|].
  destruct (parse_retry_policy field zeroed_retry_policy) as [[|] rp];
    [|discriminate].
  intros [= <-]. split; [|congruence]. intros _. split; [reflexivity|].
  exists rp. auto. }
apply String.eqb_neq in E3.
intros [= <-]. split; [congruence|auto].
Qed.

Lemma method_parameters_fields_retry_policy (fields : list grpc_json)
  (st st' : method_parsing_state) :
method_parameters_fields fields st = FieldOk st' ->
(forall field, In field fields -> has_key "retryPolicy" field ->
   exists rp, parse_retry_policy field zeroed_retry_policy = (true, rp)
              /\ mps_retry_policy st' = Some rp)
/\ (mps_retry_policy st <> None \/
    Forall (fun f => ~ has_key "retryPolicy" f) fields ->
    mps_retry_policy st' = mps_retry_policy st).
Proof.
revert st. induction fields as [|field rest IH]; simpl; intros st H.
- injection H as <-. split; [tauto|auto].
- destruct (method_parameters_field field st) as [st1| |] eqn:Hf;
    try discriminate.
  apply method_parameters_field_retry_policy in Hf as [Hkey Hother].
  apply IH in H as [Hrest Hstable].
  split.
  + intros f [<-|Hin] Hk.
    * destruct (Hkey Hk) as (_ & rp & Hp & Hst1). exists rp. split; [assumption|].
      rewrite Hstable; [assumption|]. left. congruence.
    * apply Hrest; assumption.
  + intros Hc. destruct (classic_has_key field "retryPolicy") as [Hk|Hk].
    * destruct (Hkey Hk) as (Hnone & _). destruct Hc as [Hc|Hc]; [contradiction|].
      inversion Hc; subst. contradiction.
    * rewrite Hstable, (Hother Hk); [reflexivity|].
      destruct Hc as [Hc|Hc]; [left; rewrite (Hother Hk); assumption|].
      right. inversion Hc; assumption.
Qed.

Lemma retry_policy_params_ext (rp rp' : retry_policy_params) :
  max_retry_attempts rp' = max_retry_attempts rp ->
  initial_backoff_ms rp' = initial_backoff_ms rp ->
  max_backoff_ms rp' = max_backoff_ms rp ->
  backoff_multiplier rp' = backoff_multiplier rp ->
  retryable_status_codes rp' = retryable_status_codes rp ->
  num_retryable_status_codes rp' = num_retryable_status_codes rp ->
  rp' = rp.
Proof. destruct rp, rp'; simpl; intros; subst; reflexivity. Qed.

Lemma size_t_wrap_succ (n k : Z) :
  size_t_wrap (size_t_wrap (n + 1) + k) = size_t_wrap (n + (1 + k)).
Proof.
  unfold size_t_wrap. rewrite Z.add_mod_idemp_l by (unfold SIZE_MAX; lia).
  f_equal. lia.
Qed.

(** The inner loop accepts the arrays of known status names, and appends
    one code per element. *)
Lemma parse_retryable_status_codes_spec (elements : list grpc_json) :
  forall rp rp',
    parse_retryable_status_codes elements rp = (true, rp')
    <-> Forall (fun element =>
                  json_type element = GRPC_JSON_STRING
                  /\ is_Some (grpc_status_from_string (json_value element)))
          elements
        /\ max_retry_attempts rp' = max_retry_attempts rp
        /\ initial_backoff_ms rp' = initial_backoff_ms rp
        /\ max_backoff_ms rp' = max_backoff_ms rp
        /\ backoff_multiplier rp' = backoff_multiplier rp
        /\ match elements with
           | [] => retryable_status_codes rp' = retryable_status_codes rp
                   /\ num_retryable_status_codes rp'
                      = num_retryable_status_codes rp
           | _ =>
               exists statuses,
                 Forall2 (fun element status =>
                            grpc_status_from_string (json_value element)
                            = Some status) elements statuses
                 /\ retryable_status_codes rp'
                    = Some ((default [] (retryable_status_codes rp)
                             ++ statuses)%list)
                 /\ num_retryable_status_codes rp'
                    = size_t_wrap (num_retryable_status_codes rp
                                   + Z.of_nat (length statuses))
           end.
Proof.
  induction elements as [|element rest IH]; intros rp rp'.
  - simpl. split.
    + intros [= <-]. auto 10.
    + intros (_ & H1 & H2 & H3 & H4 & H5 & H6). f_equal. symmetry.
      apply retry_policy_params_ext; assumption.
  - cbn [parse_retryable_status_codes].
    destruct (grpc_json_type_eqb (json_type element) GRPC_JSON_STRING) eqn:Ht;
      cbn [negb].
    2:{ split; [discriminate|]. intros (Hall & _). inversion Hall as [|? ? [Hty _] _].
        subst. rewrite Hty in Ht. discriminate. }
    apply grpc_json_type_eqb_eq in Ht.
    destruct (grpc_status_from_string (json_value element)) as [status|] eqn:Hs.
    2:{ split; [discriminate|]. intros (Hall & _).
        inversion Hall as [|? ? [_ [x Hx]] _]. subst. congruence. }
    rewrite IH. cbn [max_retry_attempts initial_backoff_ms max_backoff_ms
                     backoff_multiplier retryable_status_codes
                     num_retryable_status_codes default].
    unfold id. split.
    + intros (Hall & H1 & H2 & H3 & H4 & Hrest).
      split; [constructor; [split; [assumption|rewrite Hs; eauto]|assumption]|].
      repeat (split; [assumption|]).
      destruct rest as [|r rs].
      * destruct Hrest as [Hc Hn]. exists [status].
        split; [constructor; [assumption|constructor]|].
        split; assumption.
      * destruct Hrest as (statuses & Hall2 & Hc & Hn).
        exists (status :: statuses).
        split; [constructor; assumption|].
        split.
        -- rewrite Hc, <- app_assoc. reflexivity.
        -- rewrite Hn, size_t_wrap_succ. f_equal.
           cbn [length]. lia.
    + intros (Hall & H1 & H2 & H3 & H4 & statuses & Hall2 & Hc & Hn).
      inversion Hall as [|? ? _ Hallrest]. subst.
      split; [assumption|]. repeat (split; [assumption|]).
      inversion Hall2 as [|? s0 ? statuses' Hs0 Hrest2]. subst.
      rewrite Hs in Hs0. injection Hs0 as <-.
      destruct rest as [|r rs].
      * inversion Hrest2. subst. split; assumption.
      * exists statuses'. split; [assumption|]. split.
        -- rewrite Hc, <- app_assoc. reflexivity.
        -- rewrite Hn, size_t_wrap_succ. f_equal. cbn [length]. lia.
Qed.

Lemma number_member_cons_other (name : string) (sub_field : grpc_json)
    (rest : list grpc_json) (before after : Z) :
  key_is (json_key sub_field) name = false ->
  number_member name (sub_field :: rest) before after
  <-> number_member name rest before after.
Proof.
  intros H. unfold number_member, fields_with_key. simpl. rewrite H. tauto.
Qed.

Lemma number_member_cons_same (name : string) (sub_field : grpc_json)
    (rest : list grpc_json) (before after : Z) :
  key_is (json_key sub_field) name = true ->
  number_member name (sub_field :: rest) before after
  <-> before = 0 /\ positive_number_field sub_field
      /\ number_member name rest
           (gpr_parse_nonnegative_int (json_value sub_field)) after.
Proof.
  intros H. unfold number_member, fields_with_key. simpl. rewrite H.
  destruct (List.filter _ rest) as [|f [|g more]].
  - tauto.
  - split; [tauto|]. intros (_ & [_ Hpos] & Hzero & _). lia.
  - tauto.
Qed.

Lemma status_code_members_cons_other (sub_field : grpc_json)
    (rest : list grpc_json) (c c' : option (list grpc_status_code))
    (n n' : Z) :
  key_is (json_key sub_field) "retryableStatusCodes" = false ->
  status_code_members (sub_field :: rest) c n c' n'
  <-> status_code_members rest c n c' n'.
Proof.
  intros H. unfold status_code_members, fields_with_key. simpl. rewrite H.
  tauto.
Qed.

Lemma status_code_members_cons_same (sub_field : grpc_json)
    (rest : list grpc_json) (c c' : option (list grpc_status_code))
    (n n' : Z) :
  key_is (json_key sub_field) "retryableStatusCodes" = true ->
  status_code_members (sub_field :: rest) c n c' n'
  <-> c = None /\ status_name_array sub_field
      /\ exists c1 n1,
           match json_children sub_field with
           | [] => c1 = None /\ n1 = n
           | elements =>
               exists statuses,
                 Forall2 (fun element status =>
                            grpc_status_from_string (json_value element)
                            = Some status) elements statuses
                 /\ c1 = Some statuses
                 /\ n1 = size_t_wrap (n + Z.of_nat (length statuses))
           end
           /\ status_code_members rest c1 n1 c' n'.
Proof.
  intros H. unfold status_code_members, fields_with_key. simpl. rewrite H.
  set (arrays := List.filter _ rest). clearbody arrays.
  cbn [map concat]. split.
  - intros (Hall & Hnull & Hlast & Hres).
    inversion Hall as [|? ? Hsub Hrest]. subst.
    split; [apply Hnull; discriminate|]. split; [assumption|].
    destruct (json_children sub_field) as [|e es] eqn:Hch.
    + exists None, n. split; [auto|].
      split; [assumption|]. split; [reflexivity|].
      split.
      * intros first array more Heq. apply (Hlast (sub_field :: first)).
        rewrite Heq. reflexivity.
      * simpl in Hres. rewrite (Hnull ltac:(discriminate)) in Hres.
        exact Hres.
    + destruct arrays as [|a more].
      * simpl in Hres. rewrite app_nil_r in Hres.
        destruct Hres as (statuses & Hall2 & -> & ->).
        exists (Some statuses),
          (size_t_wrap (n + Z.of_nat (length statuses))).
        split; [eauto|].
        split; [constructor|]. split; [intros Hne; contradict Hne; reflexivity|].
        split; [intros [|? ?] ? ?; discriminate|].
        simpl. auto.
      * specialize (Hlast [] sub_field (a :: more) eq_refl
                      ltac:(discriminate)).
        congruence.
  - intros (-> & Hsub & c1 & n1 & Hstep & Hall & Hnull & Hlast & Hres).
    split; [constructor; assumption|]. split; [reflexivity|].
    destruct (json_children sub_field) as [|e es] eqn:Hch.
    + destruct Hstep as [-> ->]. split.
      * intros [|x first] array more Heq Hmore.
        -- injection Heq as <- <-. assumption.
        -- injection Heq as <- Heq. apply (Hlast first array more); assumption.
      * simpl. exact Hres.
    + destruct Hstep as (statuses & Hall2 & -> & ->).
      destruct arrays as [|a more].
      2:{ specialize (Hnull ltac:(discriminate)). discriminate. }
      simpl in Hres. destruct Hres as [-> ->]. split.
      * intros [|x [|y first]] array more Heq Hmore; try discriminate.
        injection Heq as <- <-. congruence.
      * simpl. rewrite app_nil_r. eauto.
Qed.

Lemma retry_policy_members_nil (rp rp' : retry_policy_params) :
  retry_policy_members [] rp rp' <-> rp' = rp.
Proof.
  unfold retry_policy_members, number_member, status_code_members. simpl.
  split.
  - intros (_ & H1 & H2 & H3 & H4 & _ & _ & _ & H5 & H6).
    apply retry_policy_params_ext; assumption.
  - intros ->. split; [constructor|]. do 4 (split; [reflexivity|]).
    split; [constructor|].
    split; [intros Hne; contradict Hne; reflexivity|].
    split; [intros [|? ?] ? ? ?; discriminate|]. auto.
Qed.

Lemma key_is_other (key name : string) :
  String.eqb key name = false -> key_is (Some key) name = false.
Proof. auto. Qed.

Lemma retry_policy_members_cons (sub_field : grpc_json)
    (rest : list grpc_json) (rp rp' : retry_policy_params) :
  retry_policy_members (sub_field :: rest) rp rp'
  <-> exists rp1,
        parse_retry_policy_sub_field sub_field rp = (true, rp1)
        /\ retry_policy_members rest rp1 rp'.
Proof.
  unfold retry_policy_members, parse_retry_policy_sub_field.
  rewrite Forall_cons_iff.
  destruct (json_key sub_field) as [key|] eqn:Hkey.
  2:{ split; [intros ([Hk _] & _); congruence|].
      intros (rp1 & [=] & _). }
  assert (Hsome : Some key <> None) by discriminate.
  destruct (String.eqb key "maxRetryAttempts") eqn:E1.
  { apply String.eqb_eq in E1. subst key.
    rewrite number_member_cons_same by (rewrite Hkey; reflexivity).
    rewrite !number_member_cons_other by (rewrite Hkey; reflexivity).
    rewrite status_code_members_cons_other by (rewrite Hkey; reflexivity).
    unfold positive_number_field. split.
    - intros ((_ & Hkeys) & (Hz & (Hty & Hpos) & Hm) & Hi & Hb & Hmult & Hc).
      eexists. rewrite Hz, Hty. simpl.
      destruct (Z.leb_spec (gpr_parse_nonnegative_int (json_value sub_field)) 0);
        [lia|]. simpl. split; [reflexivity|]. simpl. auto 10.
    - intros (rp1 & Hstep & Hkeys & Hm & Hi & Hb & Hmult & Hc).
      destruct (Z.eqb_spec (max_retry_attempts rp) 0) as [Hz|];
        simpl in Hstep; [|discriminate].
      destruct (grpc_json_type_eqb (json_type sub_field) GRPC_JSON_NUMBER)
        eqn:Hty; simpl in Hstep; [|discriminate].
      apply grpc_json_type_eqb_eq in Hty.
      destruct (Z.leb_spec (gpr_parse_nonnegative_int (json_value sub_field)) 0);
        simpl in Hstep; [discriminate|].
      injection Hstep as <-. simpl in *. auto 15. }
  destruct (String.eqb key "initialBackoffMs") eqn:E2.
  { apply String.eqb_eq in E2. subst key.
    rewrite (number_member_cons_same "initialBackoffMs")
      by (rewrite Hkey; reflexivity).
    rewrite !number_member_cons_other by (rewrite Hkey; reflexivity).
    rewrite status_code_members_cons_other by (rewrite Hkey; reflexivity).
    unfold positive_number_field. split.
    - intros ((_ & Hkeys) & Hm & (Hz & (Hty & Hpos) & Hi) & Hb & Hmult & Hc).
      eexists. rewrite Hz, Hty. simpl.
      destruct (Z.leb_spec (gpr_parse_nonnegative_int (json_value sub_field)) 0);
        [lia|]. simpl. split; [reflexivity|]. simpl. auto 10.
    - intros (rp1 & Hstep & Hkeys & Hm & Hi & Hb & Hmult & Hc).
      destruct (Z.eqb_spec (initial_backoff_ms rp) 0) as [Hz|];
        simpl in Hstep; [|discriminate].
      destruct (grpc_json_type_eqb (json_type sub_field) GRPC_JSON_NUMBER)
        eqn:Hty; simpl in Hstep; [|discriminate].
      apply grpc_json_type_eqb_eq in Hty.
      destruct (Z.leb_spec (gpr_parse_nonnegative_int (json_value sub_field)) 0);
        simpl in Hstep; [discriminate|].
      injection Hstep as <-. simpl in *. auto 15. }
  destruct (String.eqb key "maxBackoffMs") eqn:E3.
  { apply String.eqb_eq in E3. subst key.
    rewrite (number_member_cons_same "maxBackoffMs")
      by (rewrite Hkey; reflexivity).
    rewrite !number_member_cons_other by (rewrite Hkey; reflexivity).
    rewrite status_code_members_cons_other by (rewrite Hkey; reflexivity).
    unfold positive_number_field. split.
    - intros ((_ & Hkeys) & Hm & Hi & (Hz & (Hty & Hpos) & Hb) & Hmult & Hc).
      eexists. rewrite Hz, Hty. simpl.
      destruct (Z.leb_spec (gpr_parse_nonnegative_int (json_value sub_field)) 0);
        [lia|]. simpl. split; [reflexivity|]. simpl. auto 10.
    - intros (rp1 & Hstep & Hkeys & Hm & Hi & Hb & Hmult & Hc).
      destruct (Z.eqb_spec (max_backoff_ms rp) 0) as [Hz|];
        simpl in Hstep; [|discriminate].
      destruct (grpc_json_type_eqb (json_type sub_field) GRPC_JSON_NUMBER)
        eqn:Hty; simpl in Hstep; [|discriminate].
      apply grpc_json_type_eqb_eq in Hty.
      destruct (Z.leb_spec (gpr_parse_nonnegative_int (json_value sub_field)) 0);
        simpl in Hstep; [discriminate|].
      injection Hstep as <-. simpl in *. auto 15. }
  rewrite !number_member_cons_other
    by (rewrite Hkey; apply key_is_other; assumption).
  destruct (String.eqb key "retryableStatusCodes") eqn:E4.
  { apply String.eqb_eq in E4. subst key.
    rewrite status_code_members_cons_same by (rewrite Hkey; reflexivity).
    unfold status_name_array. split.
    - intros ((_ & Hkeys) & Hm & Hi & Hb & Hmult
              & Hnull & (Hty & Hels) & c1 & n1 & Hstep & Hc).
      exists {| max_retry_attempts := max_retry_attempts rp;
                initial_backoff_ms := initial_backoff_ms rp;
                max_backoff_ms := max_backoff_ms rp;
                backoff_multiplier := backoff_multiplier rp;
                retryable_status_codes := c1;
                num_retryable_status_codes := n1 |}.
      rewrite Hnull, Hty. simpl. split; [|auto 10].
      apply parse_retryable_status_codes_spec. simpl.
      split; [assumption|]. repeat (split; [reflexivity|]).
      rewrite Hnull. simpl.
      destruct (json_children sub_field); [tauto|exact Hstep].
    - intros (rp1 & Hstep & Hkeys & Hm & Hi & Hb & Hmult & Hc).
      destruct (retryable_status_codes rp) eqn:Hnull;
        simpl in Hstep; [discriminate|].
      destruct (grpc_json_type_eqb (json_type sub_field) GRPC_JSON_ARRAY)
        eqn:Hty; simpl in Hstep; [|discriminate].
      apply grpc_json_type_eqb_eq in Hty.
      apply parse_retryable_status_codes_spec in Hstep
        as (Hels & H1 & H2 & H3 & H4 & Hres).
      rewrite H1, H2, H3, H4 in *.
      split; [auto|]. repeat (split; [assumption|]).
      split; [reflexivity|]. split; [auto|].
      exists (retryable_status_codes rp1), (num_retryable_status_codes rp1).
      split; [|assumption].
      rewrite Hnull in Hres. simpl in Hres.
      destruct (json_children sub_field); [|exact Hres].
      destruct Hres as [-> ->]. auto. }
  rewrite status_code_members_cons_other
    by (rewrite Hkey; apply key_is_other; assumption).
  split.
  - intros ((_ & Hkeys) & H). exists rp. auto.
  - intros (rp1 & [= <-] & H). tauto.
Qed.

(** The outer loop accepts exactly the lists of members that are
    well-formed, and returns the policy they describe. *)
Lemma parse_retry_policy_sub_fields_spec (sub_fields : list grpc_json) :
  forall rp rp',
    parse_retry_policy_sub_fields sub_fields rp = (true, rp')
    <-> retry_policy_members sub_fields rp rp'.
Proof.
  induction sub_fields as [|sub_field rest IH]; intros rp rp'.
  - rewrite retry_policy_members_nil. simpl. split; congruence.
  - rewrite retry_policy_members_cons. simpl.
    destruct (parse_retry_policy_sub_field sub_field rp) as [[|] rp1].
    + rewrite IH. split; [eauto|]. intros (? & [= <-] & ?). assumption.
    + split; [discriminate|]. intros (? & [=] & _).
Qed.

(** C8, as amended.  [parse_retry_policy] accepts a [retryPolicy] field
  exactly when it is a JSON object all of whose members have keys, in which
  each of maxRetryAttempts, initialBackoffMs and maxBackoffMs occurs at most
  once and, where it occurs, is a JSON number parsing to a positive [int],
  and every retryableStatusCodes member is an array of known status names
  (met while the list of codes is still NULL); every other field is
  rejected.  A member that is absent is no reason to reject: its number
  stays 0, and without a status name the policy has no list of status
  codes.  The policy of an accepted field holds the numbers so parsed and
  one status code per name; backoffMultiplier is not read and stays 0.  A
  method entry that is accepted holds, for each of its [retryPolicy]
  fields, the policy so accepted: an entry with a [retryPolicy] that breaks
  one of the rules is rejected as a whole. *)
Theorem retry_policy_present_fields_checked (field : grpc_json) :
(forall rp,
   parse_retry_policy field zeroed_retry_policy = (true, rp)
   <-> json_type field = GRPC_JSON_OBJECT
       /\ Forall (fun sub_field => json_key sub_field <> None)
            (json_children field)
       /\ number_member "maxRetryAttempts" (json_children field)
            0 (max_retry_attempts rp)
       /\ number_member "initialBackoffMs" (json_children field)
            0 (initial_backoff_ms rp)
       /\ number_member "maxBackoffMs" (json_children field)
            0 (max_backoff_ms rp)
       /\ backoff_multiplier rp = 0
       /\ status_code_members (json_children field) None 0
            (retryable_status_codes rp) (num_retryable_status_codes rp))
/\ (forall json params,
      method_parameters_create_from_json json = Some (Some params) ->
      In field (json_children json) -> has_key "retryPolicy" field ->
      exists rp,
        retry_policy params = Some rp
        /\ parse_retry_policy field zeroed_retry_policy = (true, rp)).
Proof.
split.
- intros rp. unfold parse_retry_policy.
  destruct (grpc_json_type_eqb (json_type field) GRPC_JSON_OBJECT) eqn:Ht;
    simpl.
  + apply grpc_json_type_eqb_eq in Ht.
    rewrite parse_retry_policy_sub_fields_spec.
    unfold retry_policy_members. simpl. tauto.
  + split; [discriminate|]. intros [Hty _]. rewrite Hty in Ht. discriminate.
- unfold method_parameters_create_from_json.
  intros json params Hcreate Hin Hkey.
  destruct (method_parameters_fields (json_children json) _) as [st| |] eqn:Hrun;
    try discriminate.
  injection Hcreate as <-. simpl.
  apply method_parameters_fields_retry_policy in Hrun as [Hfields _].
  destruct (Hfields field Hin Hkey) as (rp & Hparse & Hst).
  exists rp. auto.
Qed.

(** C8, counterexample.  A [retryPolicy] object without any member is
  accepted, and so is the method entry that holds it: the policy is all
  zeros and has no list of status codes. *)
Lemma empty_retry_policy_accepted :
parse_retry_policy (Json GRPC_JSON_OBJECT (Some "retryPolicy") "" [])
  zeroed_retry_policy
= (true, zeroed_retry_policy)
/\ method_parameters_create_from_json
     (Json GRPC_JSON_OBJECT None ""
        [Json GRPC_JSON_OBJECT (Some "retryPolicy") "" []])
   = Some (Some {| timeout := {| tv_sec := 0; tv_nsec := 0 |};
                   wait_for_ready := WAIT_FOR_READY_UNSET;
                   retry_policy := Some zeroed_retry_policy |}).
Proof. split; reflexivity. Qed.

Lemma retry_policy_present_fields_checked_witness :
parse_retry_policy sample_retry_policy_json zeroed_retry_policy
= (true, sample_retry_policy)
/\ (forall rp,
      parse_retry_policy sample_duplicate_attempts_json zeroed_retry_policy
      <> (true, rp))
/\ exists rp,
     retry_policy sample_method_parameters = Some rp
     /\ parse_retry_policy sample_retry_policy_json zeroed_retry_policy
        = (true, rp).
Proof.
split; [|split].
- apply (retry_policy_present_fields_checked sample_retry_policy_json).
  split; [reflexivity|].
  split; [repeat constructor; discriminate|].
  unfold number_member, positive_number_field. simpl.
  do 3 (split; [repeat split; reflexivity|]).
  split; [reflexivity|].
  unfold status_code_members, status_name_array. simpl.
  split; [repeat constructor; eexists; reflexivity|].
  split; [reflexivity|].
  split.
  + intros [|x [|y first]] array rest Heq Hne; try discriminate.
    injection Heq as _ <-. contradict Hne. reflexivity.
  + exists [GRPC_STATUS_UNAVAILABLE].
    split; [repeat constructor|]. split; reflexivity.
- intros rp Hparse.
  apply (retry_policy_present_fields_checked sample_duplicate_attempts_json)
    in Hparse as (_ & _ & Hmax & _).
  exact Hmax.
- destruct (retry_policy_present_fields_checked sample_retry_policy_json)
    as [_ Hentry].
  apply (Hentry sample_method_json sample_method_parameters).
  + reflexivity.
  + simpl. auto.
  + reflexivity.
Defined.

(** ** Retry buffer and retry attempts *)

Section RetryBookkeeping.

Import ClientChannel.

Variable gpr_backoff_deadline : gpr_backoff -> Z -> Z.
Variable chand : channel_data.
Hypothesis buffer_size_range :
  0 <= per_rpc_retry_buffer_size chand <= INT_MAX.

Lemma size_t_wrap_range (z : Z) : 0 <= size_t_wrap z <= SIZE_MAX.
Proof.
  unfold size_t_wrap, SIZE_MAX.
  pose proof (Z.mod_pos_bound z (18446744073709551615 + 1) ltac:(lia)). lia.
Qed.

Lemma size_t_wrap_small (z : Z) : 0 <= z <= SIZE_MAX -> size_t_wrap z = z.
Proof. unfold size_t_wrap, SIZE_MAX. intros H. apply Z.mod_small. lia. Qed.

Lemma bytes_after_batch_nonneg (bytes : Z) (b : grpc_transport_stream_op_batch) :
  0 <= bytes -> 0 <= bytes_after_batch bytes b.
Proof.
  intros H. unfold bytes_after_batch.
  destruct (send_initial_metadata b), (send_message b);
    try apply size_t_wrap_range; assumption.
Qed.

Lemma bytes_after_batch_exact (bytes : Z) (b : grpc_transport_stream_op_batch) :
  0 <= bytes <= INT_MAX -> batch_sizes_ok b ->
  bytes_after_batch bytes b = bytes + batch_bytes b.
Proof.
  unfold bytes_after_batch, batch_bytes, batch_sizes_ok, INT_MAX.
  change (2 ^ 63) with 9223372036854775808.
  change (2 ^ 32) with 4294967296.
  intros Hb [Hmd Hlen].
  destruct (send_initial_metadata b), (send_message b).
  - rewrite (size_t_wrap_small (bytes + _)) by (unfold SIZE_MAX; lia).
    rewrite size_t_wrap_small by (unfold SIZE_MAX; lia). lia.
  - rewrite size_t_wrap_small by (unfold SIZE_MAX; lia). lia.
  - rewrite size_t_wrap_small by (unfold SIZE_MAX; lia). lia.
  - lia.
Qed.

Lemma cached_bytes_messages (caches : list grpc_byte_stream)
    (m : grpc_byte_stream) :
  foldr (fun m acc => bs_length m + acc) 0 (caches ++ [m])%list
  = foldr (fun m acc => bs_length m + acc) 0 caches + bs_length m.
Proof. induction caches as [|c caches IH]; simpl; lia. Qed.

Lemma retry_committed_spec (calld : call_data) :
  retry_committed_flag (retry_committed calld) = true
  /\ bytes_buffered_for_retry (retry_committed calld)
     = bytes_buffered_for_retry calld
  /\ pending_batches (retry_committed calld) = pending_batches calld
  /\ method_params (retry_committed calld) = method_params calld
  /\ num_retry_attempts (retry_committed calld) = num_retry_attempts calld
  /\ retry_timer (retry_committed calld) = retry_timer calld
  /\ seen_send_initial_metadata (retry_committed calld)
     = seen_send_initial_metadata calld
  /\ send_initial_metadata_storage (retry_committed calld)
     = send_initial_metadata_storage calld
  /\ send_initial_metadata_flags (retry_committed calld)
     = send_initial_metadata_flags calld
  /\ num_send_message_ops (retry_committed calld) = num_send_message_ops calld
  /\ send_message_caches (retry_committed calld) = send_message_caches calld
  /\ seen_send_trailing_metadata (retry_committed calld)
     = seen_send_trailing_metadata calld
  /\ send_trailing_metadata_storage (retry_committed calld)
     = send_trailing_metadata_storage calld.
Proof.
  unfold retry_committed. destruct (retry_committed_flag calld) eqn:E;
    [rewrite E|]; repeat split; reflexivity.
Qed.

(** The three caching steps, each by what it leaves alone and what it adds
    to the caches. *)
Lemma cache_send_initial_metadata_spec (b : grpc_transport_stream_op_batch)
    (calld calld' : call_data) (go_on : bool) :
  cache_send_initial_metadata b calld = Some (go_on, calld') ->
  bytes_buffered_for_retry calld' = bytes_buffered_for_retry calld
  /\ pending_batches calld' = pending_batches calld
  /\ method_params calld' = method_params calld
  /\ num_retry_attempts calld' = num_retry_attempts calld
  /\ (if go_on
      then retry_committed_flag calld' = retry_committed_flag calld
           /\ md_copy_fails (payload_send_initial_metadata b)
                && send_initial_metadata b = false
           /\ cached_bytes calld'
              = cached_bytes calld
                + (if send_initial_metadata b
                   then md_size (payload_send_initial_metadata b) else 0)
      else retry_committed_flag calld' = true
           /\ md_copy_fails (payload_send_initial_metadata b) = true).
Proof.
  unfold cache_send_initial_metadata.
  destruct (send_initial_metadata b).
  - destruct (send_initial_metadata_storage calld) eqn:Hs; [discriminate|].
    destruct (md_copy_fails (payload_send_initial_metadata b)) eqn:Hf;
      intros [= <- <-].
    + pose proof (retry_committed_spec
                    (set_send_initial_metadata_cache true None
                       (send_initial_metadata_flags calld) calld))
        as (-> & -> & -> & -> & -> & _). simpl. repeat split.
    + unfold cached_bytes. simpl. rewrite Hs. simpl. repeat split; lia.
  - intros [= <- <-]. rewrite andb_false_r. repeat split; lia.
Qed.

Lemma cache_send_message_spec (b : grpc_transport_stream_op_batch)
    (calld calld' : call_data) :
  cache_send_message b calld = Some calld' ->
  bytes_buffered_for_retry calld' = bytes_buffered_for_retry calld
  /\ pending_batches calld' = pending_batches calld
  /\ method_params calld' = method_params calld
  /\ num_retry_attempts calld' = num_retry_attempts calld
  /\ retry_committed_flag calld' = retry_committed_flag calld
  /\ cached_bytes calld'
     = cached_bytes calld
       + (if send_message b then bs_length (payload_send_message b) else 0).
Proof.
  unfold cache_send_message. destruct (send_message b).
  - destruct (_ <? _); [|discriminate]. intros [= <-].
    unfold cached_bytes. simpl. rewrite cached_bytes_messages.
    repeat split; lia.
  - intros [= <-]. repeat split; lia.
Qed.

Lemma cache_send_trailing_metadata_spec (b : grpc_transport_stream_op_batch)
    (calld calld' : call_data) :
  cache_send_trailing_metadata b calld = Some calld' ->
  bytes_buffered_for_retry calld' = bytes_buffered_for_retry calld
  /\ pending_batches calld' = pending_batches calld
  /\ method_params calld' = method_params calld
  /\ num_retry_attempts calld' = num_retry_attempts calld
  /\ cached_bytes calld' = cached_bytes calld
  /\ (retry_committed_flag calld' = retry_committed_flag calld
      /\ md_copy_fails (payload_send_trailing_metadata b)
           && send_trailing_metadata b = false
      \/ retry_committed_flag calld' = true
         /\ md_copy_fails (payload_send_trailing_metadata b) = true).
Proof.
  unfold cache_send_trailing_metadata. destruct (send_trailing_metadata b).
  - destruct (send_trailing_metadata_storage calld); [discriminate|].
    destruct (md_copy_fails (payload_send_trailing_metadata b)) eqn:Hf;
      intros [= <-].
    + pose proof (retry_committed_spec
                    (set_send_trailing_metadata_cache true None calld))
        as (-> & -> & -> & -> & -> & _ & _ & Hs & _ & _ & Hc & _).
      unfold cached_bytes. rewrite Hs, Hc. simpl. auto 10.
    + unfold cached_bytes. simpl. auto 10.
  - intros [= <-]. rewrite andb_false_r. auto 10.
Qed.


Lemma retry_checks_for_new_batch_invariant (calld calld' : call_data)
    (i : nat) :
  retry_invariant chand calld ->
  retry_checks_for_new_batch chand calld i = Some calld' ->
  retry_invariant chand calld'
  /\ method_params calld' = method_params calld
  /\ num_retry_attempts calld' = num_retry_attempts calld.
Proof.
  intros Hall. pose proof Hall as (Hbytes & Hpending & Hinv).
  unfold retry_checks_for_new_batch.
  destruct (pending_batches calld !! i) as [pending|] eqn:Hp; [|discriminate].
  simpl.
  destruct (retry_checks_for_new_batch_done pending).
  { intros [= <-]. auto. }
  destruct (batch pending) as [b|] eqn:Hb; [|discriminate]. simpl.
  assert (Hsizes : batch_sizes_ok b).
  { eapply Forall_lookup_1 in Hpending; eauto. }
  match goal with
  | |- context [set_pending_batches ?l calld] =>
      assert (Hpending' :
                Forall (fun p => forall b, batch p = Some b -> batch_sizes_ok b) l)
  end.
  { apply Forall_insert; [assumption|]. simpl. intros b' Hb'.
    assert (b' = b) by congruence. subst b'. assumption. }
  clear Hall. unfold retry_invariant, call_retry_policy, cached_bytes in *.
  destruct calld as [thr mp sc err pb cf nra bbr rbo rt ssim sims simf nsm smc sstm stms].
  simpl in *.
  destruct (cancel_stream b); [intros [= <-]; simpl; auto|].
  destruct (match mp with Some params => retry_policy params | None => None end)
    as [policy|] eqn:Hpol; [|intros [= <-]; simpl; rewrite Hpol; auto].
  destruct cf; [intros [= <-]; simpl; rewrite Hpol; auto|].
  destruct (Hinv ltac:(discriminate) eq_refl) as [Hcached Hlimit].
  unfold INT_MAX in buffer_size_range.
  assert (Hexact : bytes_after_batch bbr b = bbr + batch_bytes b).
  { apply bytes_after_batch_exact; [unfold INT_MAX; lia|assumption]. }
  destruct (per_rpc_retry_buffer_size chand <? bytes_after_batch bbr b) eqn:Hlt.
  { intros [= <-]. simpl. rewrite Hpol.
    split; [|split; reflexivity].
    split; [apply bytes_after_batch_nonneg; assumption|].
    split; [assumption|]. intros _ [=]. }
  apply Z.ltb_ge in Hlt.
  match goal with
  | |- context [cache_send_initial_metadata b ?c] =>
      destruct (cache_send_initial_metadata b c) as [[go_on c1]|] eqn:H1;
        [|discriminate]
  end.
  apply cache_send_initial_metadata_spec in H1
    as (Hb1 & Hp1 & Hm1 & Hn1 & Hgo). simpl in *.
  destruct go_on.
  - destruct Hgo as (Hc1 & _ & Hcb1).
    destruct (cache_send_message b c1) as [c2|] eqn:H2; [|discriminate]. simpl.
    apply cache_send_message_spec in H2 as (Hb2 & Hp2 & Hm2 & Hn2 & Hc2 & Hcb2).
    intros H3.
    apply cache_send_trailing_metadata_spec in H3
      as (Hb3 & Hp3 & Hm3 & Hn3 & Hcb3 & _).
    unfold cached_bytes in *. simpl in *.
    rewrite Hb3, Hb2, Hb1, Hp3, Hp2, Hp1, Hm3, Hm2, Hm1, Hn3, Hn2, Hn1, Hpol.
    split; [|split; reflexivity].
    split; [apply bytes_after_batch_nonneg; assumption|].
    split; [assumption|]. intros _ _.
    rewrite Hcb3, Hcb2, Hcb1. rewrite Hexact in *. unfold batch_bytes in *. lia.
  - destruct Hgo as [Hc1 _]. intros [= <-].
    rewrite Hb1, Hp1, Hm1, Hn1, Hpol, Hc1.
    split; [|split; reflexivity].
    split; [apply bytes_after_batch_nonneg; assumption|].
    split; [assumption|]. intros _ [=].
Qed.

(** The batch that takes the buffered bytes over the limit commits the
    call and leaves the caches as they were. *)
Lemma retry_checks_for_new_batch_overflow (calld : call_data) (i : nat)
    (pending : pending_batch) (b : grpc_transport_stream_op_batch) :
  retry_invariant chand calld ->
  pending_batches calld !! i = Some pending ->
  batch pending = Some b ->
  retry_checks_for_new_batch_done pending = false ->
  cancel_stream b = false ->
  call_retry_policy calld <> None ->
  retry_committed_flag calld = false ->
  per_rpc_retry_buffer_size chand
    < bytes_buffered_for_retry calld + batch_bytes b ->
  exists calld',
    retry_checks_for_new_batch chand calld i = Some calld'
    /\ retry_committed_flag calld' = true
    /\ send_caches calld' = send_caches calld.
Proof.
  intros (Hbytes & Hpending & Hinv) Hp Hb Hdone Hcancel Hpol Hcommitted Hover.
  destruct (Hinv Hpol Hcommitted) as [_ Hlimit].
  assert (Hsizes : batch_sizes_ok b).
  { eapply Forall_lookup_1 in Hpending; eauto. }
  assert (Hexact : bytes_after_batch (bytes_buffered_for_retry calld) b
                   = bytes_buffered_for_retry calld + batch_bytes b).
  { apply bytes_after_batch_exact; [lia|assumption]. }
  unfold retry_checks_for_new_batch. rewrite Hp. simpl.
  rewrite Hdone, Hb. simpl. rewrite Hcancel.
  unfold call_retry_policy, send_caches in *.
  destruct calld as [thr mp sc err pb cf nra bbr rbo rt ssim sims simf nsm smc sstm stms].
  simpl in *.
  destruct (match mp with Some params => retry_policy params | None => None end);
    [|contradiction].
  subst cf.
  destruct (Z.ltb_spec (per_rpc_retry_buffer_size chand) (bytes_after_batch bbr b));
    [|lia].
  eexists. split; [reflexivity|]. split; reflexivity.
Qed.

(** [maybe_retry] by cases. *)
Lemma maybe_retry_spec (calld calld' : call_data)
    (retry_state retry_state' : option subchannel_call_retry_state)
    (status : grpc_status_code) (now : Z) (retrying : bool) :
  maybe_retry gpr_backoff_deadline calld retry_state status now
  = Some (retrying, calld', retry_state') ->
  exists policy,
    call_retry_policy calld = Some policy
    /\ method_params calld' = method_params calld
    /\ bytes_buffered_for_retry calld' = bytes_buffered_for_retry calld
    /\ pending_batches calld' = pending_batches calld
    /\ retry_committed_flag calld' = retry_committed_flag calld
    /\ send_caches calld' = send_caches calld
    /\ (num_retry_attempts calld' = num_retry_attempts calld
        /\ retry_timer calld' = retry_timer calld
        /\ retry_state' = retry_state
        /\ (retrying = true <->
            from_option retry_dispatched false retry_state = true)
        \/ retrying = true
           /\ from_option retry_dispatched false retry_state = false
           /\ retry_committed_flag calld = false
           /\ num_retry_attempts calld <> max_retry_attempts policy
           /\ num_retry_attempts calld'
              = int32_wrap (num_retry_attempts calld + 1)
           /\ is_Some (retry_timer calld')
           /\ from_option retry_dispatched true retry_state' = true).
Proof.
  unfold maybe_retry, call_retry_policy, send_caches.
  destruct calld as [thr mp sc err pb cf nra bbr rbo rt ssim sims simf nsm smc sstm stms].
  simpl.
  destruct (match mp with Some params => retry_policy params | None => None end)
    as [policy|]; [|discriminate].
  simpl. intros H. exists policy. split; [reflexivity|].
  destruct (from_option retry_dispatched false retry_state) eqn:Hd.
  { injection H as <- <- <-. simpl. repeat split; try reflexivity.
    left. repeat split; auto. }
  destruct (grpc_status_code_eqb status GRPC_STATUS_OK).
  { injection H as <- <- <-. simpl. repeat split; try reflexivity.
    left. repeat split; auto; discriminate. }
  destruct (negb (is_status_code_in_list status _ _)).
  { injection H as <- <- <-. simpl. repeat split; try reflexivity.
    left. repeat split; auto; discriminate. }
  destruct (negb (max_milli_tokens thr / 2 <=? milli_tokens thr)).
  { injection H as <- <- <-. simpl. repeat split; try reflexivity.
    left. repeat split; auto; discriminate. }
  simpl in H. destruct cf.
  { injection H as <- <- <-. simpl. repeat split; try reflexivity.
    left. repeat split; auto; discriminate. }
  destruct (Z.eqb_spec nra (max_retry_attempts policy)).
  { injection H as <- <- <-. simpl. repeat split; try reflexivity.
    left. repeat split; auto; discriminate. }
  destruct (bool_decide (err <> None)).
  { injection H as <- <- <-. simpl. repeat split; try reflexivity.
    left. repeat split; auto; discriminate. }
  injection H as <- <- <-. simpl. repeat split; try reflexivity.
  right. repeat split; auto.
  destruct retry_state; reflexivity.
Qed.

(** A call with a retry policy always gets an answer from [maybe_retry]. *)
Lemma maybe_retry_total (calld : call_data)
    (retry_state : option subchannel_call_retry_state)
    (status : grpc_status_code) (now : Z) :
  call_retry_policy calld <> None ->
  is_Some (maybe_retry gpr_backoff_deadline calld retry_state status now).
Proof.
  unfold maybe_retry. destruct (call_retry_policy calld); [|contradiction].
  intros _. simpl.
  destruct (grpc_server_retry_throttle_data_record_failure
              (retry_throttle_data calld)).
  repeat case_match; eauto.
Qed.

Lemma retry_invariant_frame (calld calld' : call_data) :
  bytes_buffered_for_retry calld' = bytes_buffered_for_retry calld ->
  pending_batches calld' = pending_batches calld ->
  method_params calld' = method_params calld ->
  (retry_committed_flag calld' = false -> retry_committed_flag calld = false) ->
  cached_bytes calld' = cached_bytes calld ->
  retry_invariant chand calld -> retry_invariant chand calld'.
Proof.
  unfold retry_invariant, call_retry_policy.
  intros -> -> -> Hc -> (Hbytes & Hpending & Hinv).
  split; [assumption|]. split; [assumption|].
  intros Hpol Hcommitted. apply Hinv; auto.
Qed.

Lemma retry_checks_for_pending_batches_invariant (indices : list nat)
    (calld calld' : call_data) :
  retry_invariant chand calld ->
  retry_checks_for_pending_batches chand calld indices = Some calld' ->
  retry_invariant chand calld'
  /\ method_params calld' = method_params calld
  /\ num_retry_attempts calld' = num_retry_attempts calld.
Proof.
  revert calld. induction indices as [|i rest IH]; simpl; intros calld Hinv H.
  - injection H as <-. auto.
  - destruct (pending_batches calld !! i) as [pending|]; [|discriminate].
    simpl in H.
    destruct (batch pending) as [b|].
    + destruct (retry_checks_for_new_batch chand calld i) as [calld1|] eqn:H1;
        [|discriminate].
      simpl in H.
      apply retry_checks_for_new_batch_invariant in H1 as (Hinv1 & Hm1 & Hn1);
        [|assumption].
      apply IH in H as (Hinv' & Hm' & Hn'); [|assumption].
      split; [assumption|]. split; congruence.
    + simpl in H. apply IH in H; assumption.
Qed.

(** The walk over the slots changes no batch. *)
Lemma mark_handlers_in_flight_sizes (pending : list pending_batch) :
  forall i first,
    Forall (fun p => forall b, batch p = Some b -> batch_sizes_ok b) pending ->
    Forall (fun p => forall b, batch p = Some b -> batch_sizes_ok b)
      (fst (fst (mark_handlers_in_flight pending i first))).
Proof.
  induction pending as [|p rest IH]; intros i first Hall; simpl.
  - constructor.
  - inversion Hall as [|? ? Hp Hrest]. subst.
    destruct (awaits_handler p).
    + destruct first as [idx|].
      * specialize (IH (S i) (Some idx) Hrest).
        destruct (mark_handlers_in_flight rest (S i) (Some idx))
          as [[rest' first'] started]. simpl in *.
        constructor; assumption.
      * specialize (IH (S i) (Some i) Hrest).
        destruct (mark_handlers_in_flight rest (S i) (Some i))
          as [[rest' first'] started]. simpl in *.
        constructor; assumption.
    + specialize (IH (S i) first Hrest).
      destruct (mark_handlers_in_flight rest (S i) first)
        as [[rest' first'] started]. simpl in *.
      constructor; assumption.
Qed.

(** Every operation keeps the invariant and the method parameters, and
    only [maybe_retry] touches the number of attempts. *)
Lemma call_step_invariant (calld calld' : call_data) (op : call_op) :
  op_sizes_ok op ->
  retry_invariant chand calld ->
  call_step gpr_backoff_deadline chand calld op = Some calld' ->
  retry_invariant chand calld'
  /\ method_params calld' = method_params calld
  /\ (num_retry_attempts calld' = num_retry_attempts calld
      \/ exists retry_state status now policy,
           op = OpMaybeRetry retry_state status now
           /\ call_retry_policy calld = Some policy
           /\ num_retry_attempts calld <> max_retry_attempts policy
           /\ num_retry_attempts calld'
              = int32_wrap (num_retry_attempts calld + 1)).
Proof.
  intros Hsizes Hinv. destruct op as [b|status| |i| | |retry_state status now| |i];
    simpl.
  - unfold pending_batches_add.
    destruct (get_batch_index b) as [idx|]; [|discriminate]. simpl.
    destruct (pending_batches calld !! idx) as [pending|]; [|discriminate].
    simpl. destruct (batch pending); [discriminate|].
    intros [= <-]. split; [|split; [|left]]; try (destruct calld; reflexivity).
    destruct Hinv as (Hbytes & Hpending & Hrest).
    unfold retry_invariant, call_retry_policy, cached_bytes in *.
    destruct calld; simpl in *.
    split; [assumption|]. split; [|assumption].
    apply Forall_insert; [assumption|]. simpl. intros b' [= <-]. assumption.
  - intros [= <-]. split; [|split; [|left]]; try (destruct calld; reflexivity).
    revert Hinv. apply retry_invariant_frame; destruct calld; auto.
  - intros [= <-]. split; [|split; [|left]]; try (destruct calld; reflexivity).
    revert Hinv. apply retry_invariant_frame; destruct calld; auto.
  - intros H. apply retry_checks_for_new_batch_invariant in H as (? & ? & ?);
      auto.
  - unfold start_retriable_subchannel_batches.
    generalize (seq 0 MAX_PENDING_BATCHES). intros indices H.
    destruct (subchannel_call calld) as [retry_state|]; simpl in H;
      [|discriminate].
    destruct (retry_checks_for_pending_batches chand calld indices)
      as [calld1|] eqn:H1; simpl in H; [|discriminate].
    apply retry_checks_for_pending_batches_invariant in H1 as (Hinv1 & Hm1 & Hn1);
      [|assumption].
    destruct (build_send_batch calld1 retry_state) as [[rs1 send_batch]|];
      simpl in H; [|discriminate].
    destruct (build_recv_batches (pending_batches calld1) rs1)
      as [[rs2 recv_batches]|]; simpl in H; [|discriminate].
    repeat case_match; simpl in H; try discriminate.
    injection H as <-.
    split; [|split; [|left]].
    + revert Hinv1. apply retry_invariant_frame; destruct calld1; auto.
    + rewrite <- Hm1. destruct calld1; reflexivity.
    + rewrite <- Hn1. destruct calld1; reflexivity.
  - intros [= <-].
    pose proof (retry_committed_spec calld)
      as (Hc & Hb & Hp & Hm & Hn & _ & _ & Hs & _ & _ & Hcaches & _).
    split; [|split; [|left]]; try assumption.
    revert Hinv. apply retry_invariant_frame; try assumption.
    + rewrite Hc. discriminate.
    + unfold cached_bytes. rewrite Hs, Hcaches. reflexivity.
  - destruct (maybe_retry gpr_backoff_deadline calld retry_state status now)
      as [[[retrying calld1] rs1]|] eqn:H; [|discriminate].
    simpl. intros [= <-].
    apply maybe_retry_spec in H
      as (policy & Hpol & Hm & Hb & Hp & Hc & Hcaches & Hcases).
    split; [|split; [assumption|]].
    + revert Hinv. apply retry_invariant_frame; try assumption.
      * congruence.
      * unfold send_caches in Hcaches. unfold cached_bytes. congruence.
    + destruct Hcases as [(Hn & _)|(_ & _ & _ & Hne & Hn & _)]; [left; assumption|].
      right. exists retry_state, status, now, policy. auto.
  - destruct (mark_handlers_in_flight (pending_batches calld) 0 None)
      as [[pending first] started] eqn:Hmark.
    intros [= <-]. split; [|split; [|left]]; try reflexivity.
    destruct Hinv as (Hbytes & Hpending & Hrest).
    split; [assumption|]. split; [|assumption]. simpl.
    pose proof (mark_handlers_in_flight_sizes _ 0%nat None Hpending) as Hsizes'.
    rewrite Hmark in Hsizes'. exact Hsizes'.
  - unfold take_pending_batch.
    destruct (pending_batches calld !! i) as [pending|]; [|discriminate].
    simpl. destruct (batch pending); [|discriminate]. simpl.
    intros [= <-]. split; [|split; [|left]]; try reflexivity.
    destruct Hinv as (Hbytes & Hpending & Hrest).
    split; [assumption|]. split; [|assumption]. simpl.
    apply Forall_insert; [assumption|]. simpl. discriminate.
Qed.

Lemma call_run_invariant (ops : list call_op) (calld calld' : call_data) :
  Forall op_sizes_ok ops ->
  retry_invariant chand calld ->
  call_run gpr_backoff_deadline chand calld ops = Some calld' ->
  retry_invariant chand calld'
  /\ method_params calld' = method_params calld.
Proof.
  intros Hsizes. revert calld.
  induction Hsizes as [|op ops Hop Hops IH]; simpl; intros calld Hinv H.
  - injection H as <-. auto.
  - destruct (call_step gpr_backoff_deadline chand calld op) as [calld1|] eqn:H1;
      [|discriminate].
    simpl in H.
    apply call_step_invariant in H1 as (Hinv1 & Hm1 & _); [|assumption..].
    apply IH in H as [Hinv' Hm']; [|assumption].
    split; [assumption|congruence].
Qed.

Lemma initial_call_data_invariant
    (throttle : grpc_server_retry_throttle_data)
    (params : option method_parameters) :
  retry_invariant chand (initial_call_data throttle params).
Proof.
  unfold retry_invariant, cached_bytes. simpl. split; [lia|]. split.
  - repeat constructor; discriminate.
  - intros _ _. lia.
Qed.

End RetryBookkeeping.

Section RetryAttempts.

Import ClientChannel.

Variable gpr_backoff_deadline : gpr_backoff -> Z -> Z.
Variable chand : channel_data.

Lemma retry_checks_for_new_batch_frame (calld calld' : call_data) (i : nat) :
  retry_checks_for_new_batch chand calld i = Some calld' ->
  method_params calld' = method_params calld
  /\ num_retry_attempts calld' = num_retry_attempts calld.
Proof.
  unfold retry_checks_for_new_batch.
  destruct (pending_batches calld !! i) as [pending|]; [|discriminate].
  simpl. destruct (retry_checks_for_new_batch_done pending).
  { intros [= <-]. auto. }
  destruct (batch pending) as [b|]; [|discriminate]. simpl.
  match goal with
  | |- context [set_pending_batches ?l calld] =>
      generalize (eq_refl : method_params (set_pending_batches l calld)
                            = method_params calld);
      generalize (eq_refl : num_retry_attempts (set_pending_batches l calld)
                            = num_retry_attempts calld);
      generalize (set_pending_batches l calld)
  end.
  intros c Hn Hm.
  destruct (cancel_stream b); [intros; simplify_eq; auto|].
  destruct (call_retry_policy c); [|intros; simplify_eq; auto].
  destruct (retry_committed_flag calld); [intros; simplify_eq; auto|].
  match goal with
  | |- context [set_bytes_buffered_for_retry ?v c] =>
      generalize (eq_refl : method_params (set_bytes_buffered_for_retry v c)
                            = method_params c);
      generalize (eq_refl : num_retry_attempts (set_bytes_buffered_for_retry v c)
                            = num_retry_attempts c);
      generalize (set_bytes_buffered_for_retry v c)
  end.
  intros c0 Hn0 Hm0.
  destruct (_ <? _).
  { intros ?; simplify_eq.
    pose proof (retry_committed_spec c0) as (_ & _ & _ & -> & -> & _).
    split; congruence. }
  destruct (cache_send_initial_metadata b c0) as [[go_on c1]|] eqn:H1;
    [|discriminate].
  apply cache_send_initial_metadata_spec in H1 as (_ & _ & Hm1 & Hn1 & _).
  simpl. destruct go_on.
  - destruct (cache_send_message b c1) as [c2|] eqn:H2; [|discriminate]. simpl.
    apply cache_send_message_spec in H2 as (_ & _ & Hm2 & Hn2 & _).
    intros H3.
    apply cache_send_trailing_metadata_spec in H3 as (_ & _ & Hm3 & Hn3 & _).
    split; congruence.
  - intros ?; simplify_eq. split; congruence.
Qed.

Lemma retry_checks_for_pending_batches_frame (indices : list nat)
    (calld calld' : call_data) :
  retry_checks_for_pending_batches chand calld indices = Some calld' ->
  method_params calld' = method_params calld
  /\ num_retry_attempts calld' = num_retry_attempts calld.
Proof.
  revert calld. induction indices as [|i rest IH]; simpl; intros calld H.
  - injection H as <-. auto.
  - destruct (pending_batches calld !! i) as [pending|]; [|discriminate].
    simpl in H. destruct (batch pending) as [b|].
    + destruct (retry_checks_for_new_batch chand calld i) as [calld1|] eqn:H1;
        [|discriminate].
      simpl in H. apply retry_checks_for_new_batch_frame in H1 as (? & ?).
      apply IH in H as (? & ?). split; congruence.
    + simpl in H. apply IH in H. assumption.
Qed.

(** Of all operations, only [maybe_retry] changes [num_retry_attempts]. *)
Lemma call_step_attempts (calld calld' : call_data) (op : call_op) :
  call_step gpr_backoff_deadline chand calld op = Some calld' ->
  method_params calld' = method_params calld
  /\ (num_retry_attempts calld' = num_retry_attempts calld
      \/ exists retry_state status now policy,
           op = OpMaybeRetry retry_state status now
           /\ call_retry_policy calld = Some policy
           /\ num_retry_attempts calld <> max_retry_attempts policy
           /\ num_retry_attempts calld'
              = int32_wrap (num_retry_attempts calld + 1)).
Proof.
  destruct op as [b|status| |i| | |retry_state status now| |i]; simpl.
  - unfold pending_batches_add.
    destruct (get_batch_index b) as [idx|]; [|discriminate]. simpl.
    destruct (pending_batches calld !! idx) as [pending|]; [|discriminate].
    simpl. destruct (batch pending); [discriminate|].
    intros [= <-]. destruct calld; simpl; auto.
  - intros [= <-]. destruct calld; simpl; auto.
  - intros [= <-]. destruct calld; simpl; auto.
  - intros H. apply retry_checks_for_new_batch_frame in H as (? & ?). auto.
  - unfold start_retriable_subchannel_batches.
    generalize (seq 0 MAX_PENDING_BATCHES). intros indices H.
    destruct (subchannel_call calld) as [retry_state|]; simpl in H;
      [|discriminate].
    destruct (retry_checks_for_pending_batches chand calld indices)
      as [calld1|] eqn:H1; simpl in H; [|discriminate].
    apply retry_checks_for_pending_batches_frame in H1 as (Hm1 & Hn1).
    destruct (build_send_batch calld1 retry_state) as [[rs1 send_batch]|];
      simpl in H; [|discriminate].
    destruct (build_recv_batches (pending_batches calld1) rs1)
      as [[rs2 recv_batches]|]; simpl in H; [|discriminate].
    repeat case_match; simpl in H; try discriminate.
    injection H as <-. rewrite <- Hm1, <- Hn1.
    destruct calld1; simpl; auto.
  - intros [= <-].
    pose proof (retry_committed_spec calld) as (_ & _ & _ & Hm & Hn & _).
    auto.
  - destruct (maybe_retry gpr_backoff_deadline calld retry_state status now)
      as [[[retrying calld1] rs1]|] eqn:H; [|discriminate].
    simpl. intros [= <-].
    apply maybe_retry_spec in H as (policy & Hpol & Hm & _ & _ & _ & _ & Hcases).
    split; [assumption|].
    destruct Hcases as [(Hn & _)|(_ & _ & _ & Hne & Hn & _)]; [left; auto|].
    right. exists retry_state, status, now, policy. auto.
  - destruct (mark_handlers_in_flight (pending_batches calld) 0 None)
      as [[pending first] started].
    intros [= <-]. simpl. auto.
  - unfold take_pending_batch.
    destruct (pending_batches calld !! i) as [pending|]; [|discriminate].
    simpl. destruct (batch pending); [|discriminate]. simpl.
    intros [= <-]. simpl. auto.
Qed.

Lemma call_run_attempts (ops : list call_op) (calld calld' : call_data)
    (policy : retry_policy_params) :
  call_retry_policy calld = Some policy ->
  0 <= max_retry_attempts policy <= INT_MAX ->
  0 <= num_retry_attempts calld <= max_retry_attempts policy ->
  call_run gpr_backoff_deadline chand calld ops = Some calld' ->
  call_retry_policy calld' = Some policy
  /\ 0 <= num_retry_attempts calld' <= max_retry_attempts policy.
Proof.
  intros Hpol Hmax. revert calld Hpol.
  induction ops as [|op ops IH]; simpl; intros calld Hpol Hnum H.
  - injection H as <-. auto.
  - destruct (call_step gpr_backoff_deadline chand calld op) as [calld1|] eqn:H1;
      [|discriminate].
    simpl in H.
    apply call_step_attempts in H1 as (Hm1 & Hn1).
    assert (Hpol1 : call_retry_policy calld1 = Some policy).
    { unfold call_retry_policy in *. rewrite Hm1. assumption. }
    apply (IH calld1); try assumption.
    destruct Hn1 as [->|(rs & st & now & policy' & _ & Hpol' & Hne & ->)];
      [assumption|].
    assert (policy' = policy) by congruence. subst policy'.
    unfold INT_MAX in *. unfold int32_wrap.
    rewrite Z.mod_small by lia. lia.
Qed.

End RetryAttempts.

Section RetryClaims.

Import ClientChannel.

Lemma cc_init_channel_elem_range (arg : option Z) :
  0 <= per_rpc_retry_buffer_size (cc_init_channel_elem arg) <= INT_MAX.
Proof.
  unfold cc_init_channel_elem, grpc_channel_arg_get_integer. simpl.
  change DEFAULT_PER_RPC_RETRY_BUFFER_SIZE with 1073741824. unfold INT_MAX.
  destruct arg as [v|]; [|lia].
  destruct (Z.ltb_spec v 0); simpl; [lia|].
  destruct (Z.ltb_spec 2147483647 v); lia.
Qed.

(** C1.  Along every run of the operations of a call, in which batches
    arrive, get their retry checks and leave their slots for the next ones,
    so that any number of messages is cached: for a call with a retry
    policy that is not committed, the bytes buffered for retries are the
    size of the cached initial metadata plus the lengths of all the cached
    messages, and they are at most [per_rpc_retry_buffer_size], whose
    default is 2^30.  A batch that takes this sum over the limit makes
    [retry_checks_for_new_batch] commit the call and return with the caches
    as they were. *)
Theorem retry_buffer_limit (gpr_backoff_deadline : gpr_backoff -> Z -> Z)
    (per_rpc_retry_buffer_size_arg : option Z)
    (throttle : grpc_server_retry_throttle_data)
    (params : option method_parameters) (ops : list call_op)
    (calld : call_data) :
  Forall op_sizes_ok ops ->
  call_run gpr_backoff_deadline
    (cc_init_channel_elem per_rpc_retry_buffer_size_arg)
    (initial_call_data throttle params) ops = Some calld ->
  call_retry_policy calld <> None ->
  retry_committed_flag calld = false ->
  bytes_buffered_for_retry calld = cached_bytes calld
  /\ bytes_buffered_for_retry calld
     <= per_rpc_retry_buffer_size
          (cc_init_channel_elem per_rpc_retry_buffer_size_arg)
  /\ per_rpc_retry_buffer_size (cc_init_channel_elem None) = 2 ^ 30
  /\ forall i pending b,
       pending_batches calld !! i = Some pending ->
       batch pending = Some b ->
       retry_checks_for_new_batch_done pending = false ->
       cancel_stream b = false ->
       per_rpc_retry_buffer_size
         (cc_init_channel_elem per_rpc_retry_buffer_size_arg)
         < bytes_buffered_for_retry calld + batch_bytes b ->
       exists calld',
         retry_checks_for_new_batch
           (cc_init_channel_elem per_rpc_retry_buffer_size_arg) calld i
         = Some calld'
         /\ retry_committed_flag calld' = true
         /\ send_caches calld' = send_caches calld.
Proof.
  intros Hsizes Hrun Hpol Hcommitted.
  pose proof (cc_init_channel_elem_range per_rpc_retry_buffer_size_arg) as Hrange.
  apply (call_run_invariant _ _ Hrange) in Hrun as [Hinv _];
    [|assumption|apply initial_call_data_invariant; assumption].
  pose proof Hinv as (_ & _ & Hbytes).
  destruct (Hbytes Hpol Hcommitted) as [Hcached Hlimit].
  split; [assumption|]. split; [assumption|]. split; [reflexivity|].
  intros i pending b Hp Hb Hdone Hcancel Hover.
  eapply retry_checks_for_new_batch_overflow; eauto.
Qed.

Lemma retry_buffer_limit_witness :
  exists calld,
    call_run sample_backoff_deadline (cc_init_channel_elem (Some 60))
      sample_call sample_streaming_ops = Some calld
    /\ send_message_caches calld
       = [{| bs_length := 5 |}; {| bs_length := 7 |}; {| bs_length := 8 |}]
    /\ bytes_buffered_for_retry calld = 60
    /\ exists calld',
         retry_checks_for_new_batch (cc_init_channel_elem (Some 60)) calld 1
         = Some calld'
         /\ retry_committed_flag calld' = true
         /\ send_caches calld' = send_caches calld.
Proof.
  let c :=
    eval vm_compute in
      (default sample_call
         (call_run sample_backoff_deadline (cc_init_channel_elem (Some 60))
            sample_call sample_streaming_ops)) in
  pose (calld := c).
  exists calld. split; [vm_compute; reflexivity|]. split; [reflexivity|].
  destruct (retry_buffer_limit sample_backoff_deadline (Some 60)
              sample_throttle (Some sample_params)
              sample_streaming_ops calld)
    as (Hcached & _ & _ & Hcommit).
  - unfold sample_streaming_ops. repeat constructor; simpl; lia.
  - vm_compute. reflexivity.
  - discriminate.
  - reflexivity.
  - split; [rewrite Hcached; reflexivity|].
    destruct (Hcommit 1%nat
                {| batch := Some (sample_message_batch 1);
                   retry_checks_for_new_batch_done := false;
                   handler_in_flight := false |}
                (sample_message_batch 1)) as (calld' & Hchecks & Hflag & Hcaches);
      try reflexivity.
    exists calld'. auto.
Defined.

Lemma gpr_parse_nonnegative_int_range (s : string) :
  -1 <= gpr_parse_nonnegative_int s <= INT_MAX.
Proof.
  unfold gpr_parse_nonnegative_int, INT_MAX. destruct s as [|a s]; [lia|].
  destruct (all_digits (String a s)) eqn:Hd; simpl; [|lia].
  pose proof (decimal_value_range _ Hd).
  destruct (Z.leb_spec (decimal_value (String a s)) 2147483647); lia.
Qed.

(** The parser never yields a policy whose [max_retry_attempts] is negative
    or beyond an [int]. *)
Lemma parse_retry_policy_max_range (field : grpc_json)
    (rp : retry_policy_params) :
  parse_retry_policy field zeroed_retry_policy = (true, rp) ->
  0 <= max_retry_attempts rp <= INT_MAX.
Proof.
  unfold parse_retry_policy. destruct (negb _); [discriminate|].
  assert (H0 : 0 <= max_retry_attempts zeroed_retry_policy <= INT_MAX)
    by (simpl; unfold INT_MAX; lia).
  revert H0. generalize zeroed_retry_policy.
  induction (json_children field) as [|sub rest IH]; simpl; intros rp0 H0 H.
  - injection H as <-. assumption.
  - destruct (parse_retry_policy_sub_field sub rp0) as [[|] rp1] eqn:Hsub;
      [|discriminate].
    apply (IH rp1); [|assumption].
    apply parse_retry_policy_sub_field_ok in Hsub as (key & _ & Hmax & _).
    destruct (String.eqb key "maxRetryAttempts").
    + destruct Hmax as (_ & [_ Hpos] & ->).
      pose proof (gpr_parse_nonnegative_int_range (json_value sub)). lia.
    + rewrite Hmax. assumption.
Qed.

(** C2, as amended.  For a call with a retry policy, [num_retry_attempts]
    stays between 0 and [max_retry_attempts]; no operation but
    [maybe_retry] changes it; and when it equals [max_retry_attempts],
    [maybe_retry] schedules nothing and leaves the counter alone, returning
    false unless a retry was already dispatched from the same subchannel
    call, in which case it returns true. *)
Theorem num_retry_attempts_bounded
    (gpr_backoff_deadline : gpr_backoff -> Z -> Z) (chand : channel_data)
    (throttle : grpc_server_retry_throttle_data)
    (params : method_parameters) (policy : retry_policy_params)
    (ops : list call_op) (calld : call_data) :
  retry_policy params = Some policy ->
  0 <= max_retry_attempts policy <= INT_MAX ->
  call_run gpr_backoff_deadline chand
    (initial_call_data throttle (Some params)) ops = Some calld ->
  0 <= num_retry_attempts calld <= max_retry_attempts policy
  /\ (forall op calld',
        (forall retry_state status now,
            op <> OpMaybeRetry retry_state status now) ->
        call_step gpr_backoff_deadline chand calld op = Some calld' ->
        num_retry_attempts calld' = num_retry_attempts calld)
  /\ (forall retry_state status now,
        num_retry_attempts calld = max_retry_attempts policy ->
        exists retrying calld',
          maybe_retry gpr_backoff_deadline calld retry_state status now
          = Some (retrying, calld', retry_state)
          /\ num_retry_attempts calld' = num_retry_attempts calld
          /\ retry_timer calld' = retry_timer calld
          /\ (retrying = true <->
              from_option retry_dispatched false retry_state = true)).
Proof.
  intros Hpolicy Hmax Hrun.
  apply (call_run_attempts _ _ _ _ _ policy) in Hrun as [Hpol Hnum];
    [|unfold call_retry_policy; simpl; assumption|assumption|simpl; lia].
  split; [assumption|]. split.
  - intros op calld' Hop Hstep.
    apply call_step_attempts in Hstep
      as (_ & [Hn|(rs & st & now & _ & -> & _)]); [assumption|].
    exfalso. eapply Hop. reflexivity.
  - intros retry_state status now Heq.
    destruct (maybe_retry_total gpr_backoff_deadline calld retry_state
                status now) as [[[retrying calld'] rs'] Hr];
      [congruence|].
    pose proof Hr as Hspec.
    apply maybe_retry_spec in Hspec
      as (policy' & Hpol' & _ & _ & _ & _ & _ & Hcases).
    assert (policy' = policy) by congruence. subst policy'.
    destruct Hcases as [(Hn & Ht & -> & Hiff)|(_ & _ & _ & Hne & _)];
      [|contradiction].
    exists retrying, calld'. auto.
Qed.

Lemma num_retry_attempts_bounded_witness :
  exists calld,
    call_run sample_backoff_deadline (cc_init_channel_elem None) sample_call
      [OpPendingBatchesAdd sample_unary_batch; OpCreateSubchannelCall;
       OpMaybeRetry (Some fresh_retry_state) GRPC_STATUS_UNAVAILABLE 0]
    = Some calld
    /\ 0 <= num_retry_attempts calld <= max_retry_attempts sample_policy.
Proof.
  pose (calld :=
          default sample_call
            (call_run sample_backoff_deadline (cc_init_channel_elem None)
               sample_call
               [OpPendingBatchesAdd sample_unary_batch;
                OpCreateSubchannelCall;
                OpMaybeRetry (Some fresh_retry_state)
                  GRPC_STATUS_UNAVAILABLE 0])).
  exists calld. split; [reflexivity|].
  apply (num_retry_attempts_bounded sample_backoff_deadline
           (cc_init_channel_elem None) sample_throttle sample_params
           sample_policy
           [OpPendingBatchesAdd sample_unary_batch; OpCreateSubchannelCall;
            OpMaybeRetry (Some fresh_retry_state) GRPC_STATUS_UNAVAILABLE 0]).
  - reflexivity.
  - simpl. unfold INT_MAX. lia.
  - reflexivity.
Defined.

(** C2, counterexample.  With one retry allowed, the first failure of the
    first attempt dispatches the retry; the counter then equals
    [max_retry_attempts], and a second callback of the same attempt makes
    [maybe_retry] return true. *)
Lemma maybe_retry_true_when_already_dispatched :
  match sample_first_retry with
  | Some (_, calld, retry_state) =>
      num_retry_attempts calld = max_retry_attempts sample_policy
      /\ call_retry_policy calld = Some sample_policy
      /\ exists calld' retry_state',
           maybe_retry sample_backoff_deadline calld retry_state
             GRPC_STATUS_UNAVAILABLE 5
           = Some (true, calld', retry_state')
  | None => False
  end.
Proof. vm_compute. split; [reflexivity|]. split; [reflexivity|]. eauto. Qed.

End RetryClaims.

(** ** Order of the send ops of an attempt *)

Section SendOrder.

Import ClientChannel.






End SendOrder.

(** ** Round-robin picks *)

Section RoundRobinPick.

Import RoundRobin.

Variable sl : grpc_lb_subchannel_list.
Variable last_ready : Z.
Hypothesis last_ready_range :
  0 <= last_ready /\ last_ready + num_subchannels sl <= SIZE_MAX.

Lemma scan_index_wrap (k : Z) :
  0 <= k < num_subchannels sl ->
  size_t_wrap (k + last_ready + 1) mod num_subchannels sl
  = scan_index sl last_ready k.
Proof.
  intros Hk. unfold scan_index. rewrite size_t_wrap_small by lia.
  f_equal. lia.
Qed.

Lemma next_ready_from_step (remaining : nat) (i : Z) :
  0 <= i < num_subchannels sl ->
  next_ready_from sl last_ready (S remaining) i
  = if ready_at sl (scan_index sl last_ready i)
    then scan_index sl last_ready i
    else next_ready_from sl last_ready remaining (i + 1).
Proof.
  intros Hi. cbn [next_ready_from]. rewrite (scan_index_wrap i Hi).
  unfold ready_at.
  destruct (subchannels sl !! Z.to_nat (scan_index sl last_ready i));
    reflexivity.
Qed.

(** The scan stops at the first READY subchannel it visits. *)
Lemma next_ready_from_found (remaining : nat) (i k : Z) :
  0 <= i <= k -> k < i + Z.of_nat remaining ->
  i + Z.of_nat remaining <= num_subchannels sl ->
  ready_at sl (scan_index sl last_ready k) = true ->
  (forall k', i <= k' < k ->
     ready_at sl (scan_index sl last_ready k') = false) ->
  next_ready_from sl last_ready remaining i = scan_index sl last_ready k.
Proof.
  revert i. induction remaining as [|remaining IH]; intros i Hik Hk Hn Hready Hfirst.
  - lia.
  - rewrite next_ready_from_step by lia.
    destruct (Z.eq_dec i k) as [->|Hne].
    + rewrite Hready. reflexivity.
    + rewrite (Hfirst i) by lia. apply IH; try lia; [assumption|].
      intros k' Hk'. apply Hfirst. lia.
Qed.

(** Without a READY subchannel on its way the scan yields the size. *)
Lemma next_ready_from_none (remaining : nat) (i : Z) :
  0 <= i -> i + Z.of_nat remaining <= num_subchannels sl ->
  (forall k, i <= k < i + Z.of_nat remaining ->
     ready_at sl (scan_index sl last_ready k) = false) ->
  next_ready_from sl last_ready remaining i = num_subchannels sl.
Proof.
  revert i. induction remaining as [|remaining IH]; intros i Hi Hn Hnone.
  - reflexivity.
  - rewrite next_ready_from_step by lia.
    rewrite (Hnone i) by lia. apply IH; try lia.
    intros k Hk. apply Hnone. lia.
Qed.

Lemma scan_index_range (k : Z) :
  0 < num_subchannels sl ->
  0 <= scan_index sl last_ready k < num_subchannels sl.
Proof. intros Hn. unfold scan_index. apply Z.mod_pos_bound. assumption. Qed.

Lemma ready_at_lookup (index : Z) :
  ready_at sl index = true ->
  exists sd, subchannels sl !! Z.to_nat index = Some sd
             /\ curr_connectivity_state sd = GRPC_CHANNEL_READY.
Proof.
  unfold ready_at.
  destruct (subchannels sl !! Z.to_nat index) as [sd|]; [|discriminate].
  intros H. exists sd. split; [reflexivity|].
  destruct (curr_connectivity_state sd); try discriminate. reflexivity.
Qed.

(** C4.  A pick on a policy that is not shut down and has the list [sl]:
    the scan goes through the indices [(last_ready + 1 + k) mod N] for
    [k = 0, 1, ...]; the first one that is READY is chosen, its connected
    subchannel and user data go to the outputs of the pick (the user data
    where the pick has a slot for them), the cursor moves there and the
    pick is done; nothing else of the policy changes.  When no subchannel
    of the list is READY the pick is put in front of the pending picks and
    is not done; the pick and the cursor stay as they are. *)
Theorem round_robin_pick (p : RoundRobin) (pick : PickState) :
  shutdown_ p = false ->
  subchannel_list_ p = Some sl ->
  last_ready_subchannel_index_ p = last_ready ->
  (forall k,
      0 <= k < num_subchannels sl ->
      ready_at sl (scan_index sl last_ready k) = true ->
      (forall k', 0 <= k' < k ->
         ready_at sl (scan_index sl last_ready k') = false) ->
      exists sd p' pick',
        subchannels sl !! Z.to_nat (scan_index sl last_ready k) = Some sd
        /\ curr_connectivity_state sd = GRPC_CHANNEL_READY
        /\ PickLocked p pick = Some (true, p', pick')
        /\ pick_connected_subchannel pick' = connected_subchannel sd
        /\ pick_user_data pick'
           = match pick_user_data pick with
             | Some _ => Some (user_data sd)
             | None => None
             end
        /\ initial_metadata_flags pick' = initial_metadata_flags pick
        /\ last_ready_subchannel_index_ p' = scan_index sl last_ready k
        /\ pending_picks_ p' = pending_picks_ p
        /\ subchannel_list_ p' = Some sl
        /\ started_picking_ p' = started_picking_ p
        /\ shutdown_ p' = false
        /\ state_tracker_ p' = state_tracker_ p
        /\ latest_pending_subchannel_list_ p'
           = latest_pending_subchannel_list_ p)
  /\ ((forall index, 0 <= index < num_subchannels sl ->
         ready_at sl index = false) ->
      exists p',
        PickLocked p pick = Some (false, p', pick)
        /\ pending_picks_ p' = pick :: pending_picks_ p
        /\ last_ready_subchannel_index_ p' = last_ready
        /\ started_picking_ p' = true
        /\ subchannel_list_ p' = Some sl
        /\ shutdown_ p' = false
        /\ state_tracker_ p' = state_tracker_ p
        /\ latest_pending_subchannel_list_ p'
           = latest_pending_subchannel_list_ p).
Proof.
  intros Hshutdown Hlist Hlast. split.
  - intros k Hk Hready Hfirst.
    destruct (ready_at_lookup _ Hready) as (sd & Hsd & Hstate).
    exists sd.
    unfold PickLocked, GetNextReadySubchannelIndexLocked,
      UpdateLastReadySubchannelIndexLocked.
    rewrite Hshutdown, Hlist, Hlast. simpl.
    rewrite (next_ready_from_found _ 0 k) by (unfold num_subchannels in *; auto; lia).
    pose proof (scan_index_range k ltac:(lia)) as Hrange.
    destruct (Z.ltb_spec (scan_index sl last_ready k) (num_subchannels sl));
      [|lia].
    rewrite Hsd. simpl.
    eexists. eexists. split; [reflexivity|]. split; [assumption|].
    split; [reflexivity|]. simpl. auto 15.
  - intros Hnone.
    unfold PickLocked, GetNextReadySubchannelIndexLocked, StartPickingLocked.
    rewrite Hshutdown, Hlist, Hlast. simpl.
    rewrite (next_ready_from_none _ 0); unfold num_subchannels in *; try lia.
    + rewrite Z.ltb_irrefl.
      destruct (started_picking_ p) eqn:Hstarted; simpl;
        eexists; (split; [reflexivity|]); simpl; auto 10.
    + intros k Hk. apply Hnone.
      apply (scan_index_range k). unfold num_subchannels. lia.
Qed.

End RoundRobinPick.

Lemma round_robin_pick_witness :
exists p' pick',
  RoundRobin.PickLocked RoundRobin.sample_scan_policy RoundRobin.sample_pick
  = Some (true, p', pick')
  /\ RoundRobin.pick_connected_subchannel pick' = Some "B"
  /\ RoundRobin.pick_user_data pick' = Some (Some "token-B")
  /\ RoundRobin.last_ready_subchannel_index_ p' = 1
  /\ RoundRobin.pending_picks_ p' = [].
Proof.
assert (Hrange : 0 <= 2
                 /\ 2 + RoundRobin.num_subchannels RoundRobin.sample_scan_list
                    <= SIZE_MAX) by (vm_compute; split; discriminate).
destruct (round_robin_pick RoundRobin.sample_scan_list 2 Hrange
            RoundRobin.sample_scan_policy RoundRobin.sample_pick
            eq_refl eq_refl eq_refl) as [Hfound _].
destruct (Hfound 1)
  as (sd & p' & pick' & Hsd & _ & Hpick & Hconnected & Hdata & _ & Hcursor
      & Hpending & _).
- vm_compute. split; [discriminate|reflexivity].
- reflexivity.
- intros k' Hk'. assert (k' = 0) by lia. subst k'. reflexivity.
- vm_compute in Hsd. injection Hsd as <-.
  exists p', pick'. split; [exact Hpick|].
  split; [exact Hconnected|]. split; [exact Hdata|].
  split; [exact Hcursor|exact Hpending].
Defined.

(** ** Round-robin updates *)

Section RoundRobinUpdate.

Import RoundRobin.

Lemma grpc_connectivity_state_set_alive
    (tracker : grpc_connectivity_state_tracker)
    (state : grpc_connectivity_state) (error : option string) :
  current_state tracker <> GRPC_CHANNEL_SHUTDOWN ->
  current_state (grpc_connectivity_state_set tracker state error) = state.
Proof.
  unfold grpc_connectivity_state_set.
  destruct (current_state tracker); simpl; congruence.
Qed.

(** C5, as amended.  An update that carries no address list (the
    LB_ADDRESSES argument is absent or not a pointer) is ignored while a
    current subchannel list exists: the policy stays as it is.  Without a
    current list it moves the connectivity state of a live policy to
    TRANSIENT_FAILURE.  An update whose address list is empty is never
    ignored: the state of a live policy becomes TRANSIENT_FAILURE and the
    current list, if any, is replaced by the empty one. *)
Theorem round_robin_empty_update (p : RoundRobin) (args : Args) :
  current_state (state_tracker_ p) <> GRPC_CHANNEL_SHUTDOWN ->
  (lb_addresses args = None ->
   (is_Some (subchannel_list_ p) -> UpdateLocked p args = p)
   /\ (subchannel_list_ p = None ->
       current_state (state_tracker_ (UpdateLocked p args))
       = GRPC_CHANNEL_TRANSIENT_FAILURE
       /\ subchannel_list_ (UpdateLocked p args) = None))
  /\ (lb_addresses args = Some [] ->
      current_state (state_tracker_ (UpdateLocked p args))
      = GRPC_CHANNEL_TRANSIENT_FAILURE
      /\ subchannel_list_ (UpdateLocked p args)
         = Some (grpc_lb_subchannel_list_create [])).
Proof.
  intros Halive. unfold UpdateLocked. split.
  - intros ->. split.
    + intros [sl ->]. reflexivity.
    + intros Hnone. rewrite Hnone. simpl. split; [|exact Hnone].
      apply grpc_connectivity_state_set_alive. assumption.
  - intros ->. simpl. split; [|reflexivity].
    apply grpc_connectivity_state_set_alive. assumption.
Qed.

Lemma round_robin_empty_update_witness :
  UpdateLocked sample_policy {| lb_addresses := None |} = sample_policy
  /\ current_state
       (state_tracker_
          (UpdateLocked sample_policy {| lb_addresses := Some [] |}))
     = GRPC_CHANNEL_TRANSIENT_FAILURE.
Proof.
  assert (Halive : current_state (state_tracker_ sample_policy)
                   <> GRPC_CHANNEL_SHUTDOWN) by discriminate.
  split.
  - apply (round_robin_empty_update sample_policy {| lb_addresses := None |}
             Halive); [reflexivity|]. simpl. eauto.
  - apply (round_robin_empty_update sample_policy
             {| lb_addresses := Some [] |} Halive). reflexivity.
Defined.

(** C5, counterexample.  The policy has a current list with a READY
    subchannel and is READY; an update with an empty address list is not
    ignored: the policy goes to TRANSIENT_FAILURE and its current list is
    replaced by the empty list. *)
Lemma round_robin_empty_address_list_not_ignored :
  is_Some (subchannel_list_ sample_policy)
  /\ current_state (state_tracker_ sample_policy) = GRPC_CHANNEL_READY
  /\ current_state
       (state_tracker_
          (UpdateLocked sample_policy {| lb_addresses := Some [] |}))
     = GRPC_CHANNEL_TRANSIENT_FAILURE
  /\ (subchannels
        <$> subchannel_list_
              (UpdateLocked sample_policy {| lb_addresses := Some [] |}))
     = Some [].
Proof. split; [eauto|]. repeat split. Qed.

End RoundRobinUpdate.

(** ** grpclb picks *)

Section GrpcLbPick.

Import RoundRobin GrpcLb.

Lemma add_call_dropped_counts (token : string)
    (stats : grpc_grpclb_client_stats) :
  drop_count (grpc_grpclb_client_stats_add_call_dropped_locked token stats)
    token = drop_count stats token + 1
  /\ forall other, other <> token ->
       drop_count
         (grpc_grpclb_client_stats_add_call_dropped_locked token stats) other
       = drop_count stats other.
Proof.
  unfold drop_count, grpc_grpclb_client_stats_add_call_dropped_locked. simpl.
  split.
  - rewrite lookup_insert_eq. reflexivity.
  - intros other Hne. rewrite lookup_insert_ne by congruence. reflexivity.
Qed.

(** C6, as amended.  A pick while a server list is current looks at the
    entry at the current index and advances the index, wrapping at the end.
    When the entry is a drop, the pick completes without the inner
    round-robin being asked and with the pick as it was (no connected
    subchannel is chosen); if the balancer call keeps client stats, the
    drop count of the entry's token goes up by exactly one, all other
    counts staying as they are, and if there is no balancer call or it
    keeps no client stats, nothing is counted.  Otherwise the pick is
    handed to the inner round-robin policy, whose answer is the answer of
    the pick, and the client stats are left alone. *)
Theorem grpclb_pick_drop_or_delegate (glb : GrpcLb) (force_async : bool)
    (pp : PendingPick) (servers : list grpc_grpclb_server)
    (server : grpc_grpclb_server) :
  serverlist_ glb = Some servers ->
  0 <= serverlist_index_ glb < Z.of_nat (length servers) ->
  Z.of_nat (length servers) <= SIZE_MAX ->
  servers !! Z.to_nat (serverlist_index_ glb) = Some server ->
  (drop server = true ->
   exists r,
     PickFromInternalRRLocked glb force_async pp = Some r
     /\ rr_consulted r = false
     /\ pending_pick_after r = pp
     /\ rr_policy_ (policy_after r) = rr_policy_ glb
     /\ serverlist_ (policy_after r) = serverlist_ glb
     /\ serverlist_index_ (policy_after r)
        = next_serverlist_index servers (serverlist_index_ glb)
     /\ pick_done r = negb force_async
     /\ on_complete_scheduled r = force_async
     /\ match client_stats glb with
        | Some stats =>
            exists stats',
              client_stats (policy_after r) = Some stats'
              /\ drop_count stats' (load_balance_token server)
                 = drop_count stats (load_balance_token server) + 1
              /\ forall other, other <> load_balance_token server ->
                   drop_count stats' other = drop_count stats other
        | None => lb_calld_ (policy_after r) = lb_calld_ glb
        end)
  /\ (drop server = false ->
      forall rr done rr' pick',
        pick_user_data (pick pp) = None ->
        rr_policy_ glb = Some rr ->
        PickLocked rr (rr_pick_of pp) = Some (done, rr', pick') ->
        (done = true -> is_Some (pick_connected_subchannel pick') ->
         is_Some (default None (pick_user_data pick'))) ->
        exists r,
          PickFromInternalRRLocked glb force_async pp = Some r
          /\ rr_consulted r = true
          /\ pick (pending_pick_after r) = pick'
          /\ rr_policy_ (policy_after r) = Some rr'
          /\ serverlist_index_ (policy_after r)
             = next_serverlist_index servers (serverlist_index_ glb)
          /\ lb_calld_ (policy_after r) = lb_calld_ glb
          /\ pick_done r = done && negb force_async).
Proof.
  intros Hlist Hindex Hsize Hserver.
  assert (Hwrap : size_t_wrap (serverlist_index_ glb + 1)
                  = serverlist_index_ glb + 1)
    by (apply size_t_wrap_small; lia).
  unfold PickFromInternalRRLocked, next_serverlist_index, client_stats.
  rewrite Hlist. simpl. rewrite Hserver. simpl. rewrite Hwrap.
  split; intros Hdrop; rewrite Hdrop; simpl.
  - eexists. split; [reflexivity|]. simpl.
    repeat (split; [reflexivity|]).
    destruct (lb_calld_ glb) as [[[stats|]]|]; simpl; try reflexivity.
    eexists. split; [reflexivity|].
    apply add_call_dropped_counts.
  - intros rr done rr' pick' Hslot Hrr Hpick Htoken.
    rewrite Hslot, Hrr. simpl.
    unfold rr_pick_of in Hpick. rewrite Hpick. simpl.
    destruct done; simpl.
    + unfold PendingPickSetMetadataAndContext. simpl.
      destruct (pick_connected_subchannel pick') as [csc|] eqn:Hcsc.
      * destruct (Htoken eq_refl ltac:(eauto)) as [token ->]. simpl.
        eexists. split; [reflexivity|]. simpl.
        repeat (split; [reflexivity|]). reflexivity.
      * simpl. eexists. split; [reflexivity|]. simpl.
        repeat (split; [reflexivity|]). reflexivity.
    + eexists. split; [reflexivity|]. simpl.
      repeat (split; [reflexivity|]). reflexivity.
Qed.

Lemma grpclb_pick_drop_or_delegate_witness :
  exists r,
    PickFromInternalRRLocked sample_grpclb false sample_pending_pick = Some r
    /\ rr_consulted r = false
    /\ pending_pick_after r = sample_pending_pick
    /\ ((fun stats => drop_count stats "t1") <$> client_stats (policy_after r))
       = Some 1.
Proof.
  destruct (grpclb_pick_drop_or_delegate sample_grpclb false
              sample_pending_pick sample_serverlist
              {| server_address := ""; load_balance_token := "t1";
                 drop := true |})
    as [Hdrop _].
  - reflexivity.
  - simpl. lia.
  - simpl. unfold SIZE_MAX. lia.
  - reflexivity.
  - destruct (Hdrop eq_refl)
      as (r & Hr & Hrr & Hpp & _ & _ & _ & _ & _ & Hstats).
    exists r. split; [assumption|]. split; [assumption|].
    split; [assumption|].
    simpl in Hstats. destruct Hstats as (stats' & -> & Hcount & _).
    simpl. rewrite Hcount. reflexivity.
Defined.

(** C6, counterexample.  The entry at the current index is a drop and the
    balancer call keeps no client stats: the pick completes as a drop, and
    there are no client stats afterwards either, so that no drop count has
    gone up. *)
Lemma grpclb_drop_without_client_stats_counts_nothing :
  exists r,
    PickFromInternalRRLocked sample_grpclb_without_stats false
      sample_pending_pick = Some r
    /\ pick_done r = true
    /\ rr_consulted r = false
    /\ pick_connected_subchannel (pick (pending_pick_after r)) = None
    /\ client_stats sample_grpclb_without_stats = None
    /\ client_stats (policy_after r) = None.
Proof. eexists. split; [reflexivity|]. simpl. auto 10. Qed.

End GrpcLbPick.

(** ** Health-check client: end of a call *)

Section HealthCheckCallEnded.

Import HealthCheck.

Variable next_attempt_time : BackOffOptions -> nat -> Z.

Lemma constructed_backoff_options :
  options_ (retry_backoff_ constructed) = health_check_backoff_options.
Proof. reflexivity. Qed.

(** C7, as amended.  When the current health-check call of a client that
    is not shutting down terminates: on status UNIMPLEMENTED the client
    publishes READY and neither restarts the call nor arms a timer.  On any
    other termination of a call that never got a response, it publishes
    TRANSIENT_FAILURE and arms the retry timer with the next attempt time
    of its back-off (initial 1 s, multiplier 1.6, jitter 0.2, maximum
    120 s), and starts a new call when that timer expires.  On any other
    termination of a call that did get a response, it resets the back-off
    and starts a new call at once, publishing CONNECTING, without arming
    the timer. *)
Theorem health_check_call_terminated (c : HealthCheckClient)
    (current : CallState) (result : trailing_metadata_result) :
  shutting_down_ c = false ->
  call_state_ c = Some current ->
  options_ (retry_backoff_ c) = health_check_backoff_options ->
  (received_status result = GRPC_STATUS_UNIMPLEMENTED ->
   exists c',
     RecvTrailingMetadataReady next_attempt_time c (call_number current)
       result = Some c'
     /\ state_ c' = GRPC_CHANNEL_READY
     /\ call_state_ c' = None
     /\ calls_started c' = calls_started c
     /\ retry_timer_callback_pending_ c' = retry_timer_callback_pending_ c
     /\ retry_timer_ c' = retry_timer_ c)
  /\ (received_status result <> GRPC_STATUS_UNIMPLEMENTED ->
      seen_response_ current = false ->
      exists c',
        RecvTrailingMetadataReady next_attempt_time c (call_number current)
          result = Some c'
        /\ state_ c' = GRPC_CHANNEL_TRANSIENT_FAILURE
        /\ call_state_ c' = None
        /\ calls_started c' = calls_started c
        /\ retry_timer_callback_pending_ c' = true
        /\ retry_timer_ c'
           = Some (next_attempt_time health_check_backoff_options
                     (attempts_ (retry_backoff_ c)))
        /\ options_ (retry_backoff_ c') = health_check_backoff_options
        /\ exists c'',
             OnRetryTimer c' false = Some c''
             /\ state_ c'' = GRPC_CHANNEL_CONNECTING
             /\ call_state_ c''
                = Some {| call_number := calls_started c;
                          seen_response_ := false |}
             /\ calls_started c'' = S (calls_started c))
  /\ (received_status result <> GRPC_STATUS_UNIMPLEMENTED ->
      seen_response_ current = true ->
      exists c',
        RecvTrailingMetadataReady next_attempt_time c (call_number current)
          result = Some c'
        /\ state_ c' = GRPC_CHANNEL_CONNECTING
        /\ call_state_ c'
           = Some {| call_number := calls_started c;
                     seen_response_ := false |}
        /\ calls_started c' = S (calls_started c)
        /\ retry_backoff_ c'
           = {| options_ := health_check_backoff_options; attempts_ := 0 |}
        /\ retry_timer_callback_pending_ c' = retry_timer_callback_pending_ c
        /\ retry_timer_ c' = retry_timer_ c).
Proof.
  intros Hshutdown Hcall Hoptions.
  unfold RecvTrailingMetadataReady, CallEnded.
  destruct c as [st ns hn sd cs started bo pending timer].
  destruct bo as [options attempts]. simpl in *.
  subst sd cs options.
  rewrite Nat.eqb_refl.
  split; [|split].
  - intros ->. simpl. eexists. split; [reflexivity|]. simpl. auto 10.
  - intros Hstatus Hseen.
    destruct (grpc_status_code_eqb (received_status result)
                GRPC_STATUS_UNIMPLEMENTED) eqn:E.
    { destruct (received_status result); try discriminate. contradiction. }
    rewrite Hseen. simpl. eexists. split; [reflexivity|]. simpl.
    repeat (split; [reflexivity|]).
    eexists. split; [reflexivity|]. simpl. auto.
  - intros Hstatus Hseen.
    destruct (grpc_status_code_eqb (received_status result)
                GRPC_STATUS_UNIMPLEMENTED) eqn:E.
    { destruct (received_status result); try discriminate. contradiction. }
    rewrite Hseen. simpl. eexists. split; [reflexivity|]. simpl. auto 10.
Qed.

End HealthCheckCallEnded.

Lemma health_check_call_terminated_witness :
exists c',
  HealthCheck.RecvTrailingMetadataReady HealthCheck.sample_next_attempt_time
    HealthCheck.sample_waiting_client 0
    (HealthCheck.BatchError GRPC_STATUS_UNAVAILABLE) = Some c'
  /\ HealthCheck.state_ c' = GRPC_CHANNEL_TRANSIENT_FAILURE
  /\ HealthCheck.retry_timer_ c' = Some 1000.
Proof.
destruct (health_check_call_terminated HealthCheck.sample_next_attempt_time
            HealthCheck.sample_waiting_client
            {| HealthCheck.call_number := 0;
               HealthCheck.seen_response_ := false |}
            (HealthCheck.BatchError GRPC_STATUS_UNAVAILABLE))
  as (_ & Hretry & _).
- reflexivity.
- reflexivity.
- reflexivity.
- destruct Hretry as (c' & Hc' & Hstate & _ & _ & _ & Htimer & _).
  + discriminate.
  + reflexivity.
  + exists c'. split; [exact Hc'|]. split; [exact Hstate|]. exact Htimer.
Defined.

(** C7, counterexample.  The first call got a SERVING response and then
  ends with status UNAVAILABLE: the client starts a second call at once and
  publishes CONNECTING; it does not publish TRANSIENT_FAILURE and arms no
  timer. *)
Lemma health_check_restarts_at_once_after_response :
match HealthCheck.sample_serving_client
      ≫= (fun c =>
            HealthCheck.RecvTrailingMetadataReady
              HealthCheck.sample_next_attempt_time c 0
              (HealthCheck.TrailingMetadata (Some GRPC_STATUS_UNAVAILABLE)))
with
| Some c' =>
    HealthCheck.state_ c' = GRPC_CHANNEL_CONNECTING
    /\ HealthCheck.retry_timer_callback_pending_ c' = false
    /\ HealthCheck.retry_timer_ c' = None
    /\ HealthCheck.calls_started c' = 2%nat
| None => False
end.
Proof. vm_compute. repeat split. Qed.

(** * Further properties *)

(** ** Method entries of the service config *)

Lemma method_parameters_field_unknown (field : grpc_json)
    (st : method_parsing_state) :
  known_method_field field = false ->
  method_parameters_field field st = FieldOk st.
Proof.
  unfold known_method_field, method_parameters_field, key_is.
  destruct (json_key field) as [key|]; [|reflexivity].
  intros H.
  apply orb_false_elim in H as [H Hretry].
  apply orb_false_elim in H as [Hwait Htimeout].
  rewrite Hwait, Htimeout, Hretry. reflexivity.
Qed.

Lemma method_parameters_fields_filter (fields : list grpc_json) :
  forall st,
    method_parameters_fields (List.filter known_method_field fields) st
    = method_parameters_fields fields st.
Proof.
  induction fields as [|field rest IH]; intros st; [reflexivity|].
  simpl. destruct (known_method_field field) eqn:Hknown.
  - simpl. destruct (method_parameters_field field st); auto.
  - rewrite (method_parameters_field_unknown field st Hknown). apply IH.
Qed.

(** X1.  The parser of a method entry looks at the fields named waitForReady,
    timeout and retryPolicy only: fields with any other key, or with no key,
    can be removed from the entry without changing what the parser
    returns. *)
Theorem method_parameters_ignore_unknown_fields (json : grpc_json) :
  method_parameters_create_from_json json
  = method_parameters_create_from_json
      (Json (json_type json) (json_key json) (json_value json)
         (List.filter known_method_field (json_children json))).
Proof.
  unfold method_parameters_create_from_json. simpl.
  rewrite method_parameters_fields_filter. reflexivity.
Qed.


Lemma method_parameters_field_step (field : grpc_json)
    (st st1 : method_parsing_state) :
  method_parameters_field field st = FieldOk st1 ->
  wait_for_ready_outcome [field] (mps_wait_for_ready st)
    (mps_wait_for_ready st1)
  /\ retry_policy_outcome [field] (mps_retry_policy st) (mps_retry_policy st1).
Proof.
  unfold method_parameters_field, wait_for_ready_outcome,
    retry_policy_outcome, fields_with_key, key_is. simpl.
  destruct (json_key field) as [key|].
  - destruct (String.eqb key "waitForReady") eqn:Ewait.
    + apply String.eqb_eq in Ewait. subst key. simpl.
      destruct (mps_wait_for_ready st) eqn:Ew; try discriminate.
      unfold parse_wait_for_ready.
      destruct (json_type field) eqn:Et; try discriminate;
        intros [= <-]; simpl; (split; [tauto|]);
        destruct (mps_retry_policy st); auto.
    + destruct (String.eqb key "timeout") eqn:Etimeout.
      * apply String.eqb_eq in Etimeout. subst key. simpl.
        destruct ((tv_sec (mps_timeout st) >? 0)
                  || (tv_nsec (mps_timeout st) >? 0)); try discriminate.
        destruct (parse_timeout field (mps_timeout st)) as [[[] t]|];
          try discriminate.
        intros [= <-]. simpl.
        destruct (mps_wait_for_ready st), (mps_retry_policy st); auto.
      * destruct (String.eqb key "retryPolicy") eqn:Eretry.
        -- destruct (mps_retry_policy st) eqn:Er; try discriminate.
           destruct (parse_retry_policy field zeroed_retry_policy)
             as [[] rp] eqn:Ep; try discriminate.
           intros [= <-]. simpl. split.
           ++ destruct (mps_wait_for_ready st); auto.
           ++ exists rp. auto.
        -- intros [= <-].
           destruct (mps_wait_for_ready st), (mps_retry_policy st); auto.
  - intros [= <-].
    destruct (mps_wait_for_ready st), (mps_retry_policy st); auto.
Qed.

Lemma wait_for_ready_outcome_cons (field : grpc_json) (rest : list grpc_json)
    (w0 w1 w2 : wait_for_ready_value) :
  wait_for_ready_outcome [field] w0 w1 ->
  wait_for_ready_outcome rest w1 w2 ->
  wait_for_ready_outcome (field :: rest) w0 w2.
Proof.
  unfold wait_for_ready_outcome, fields_with_key. simpl.
  destruct (key_is (json_key field) "waitForReady").
  - destruct w0; [|intros [[=] _]|intros [[=] _]].
    intros [[Ht ->]|[Ht ->]] [-> ->]; auto.
  - destruct w0.
    + intros ->. auto.
    + intros [_ ->]. auto.
    + intros [_ ->]. auto.
Qed.

Lemma retry_policy_outcome_cons (field : grpc_json) (rest : list grpc_json)
    (r0 r1 r2 : option retry_policy_params) :
  retry_policy_outcome [field] r0 r1 ->
  retry_policy_outcome rest r1 r2 ->
  retry_policy_outcome (field :: rest) r0 r2.
Proof.
  unfold retry_policy_outcome, fields_with_key. simpl.
  destruct (key_is (json_key field) "retryPolicy").
  - destruct r0; [intros [[=] _]|].
    intros (rp & Hp & ->) [-> ->]. eauto.
  - destruct r0.
    + intros [_ ->]. auto.
    + intros ->. auto.
Qed.

Lemma method_parameters_fields_outcome (fields : list grpc_json) :
  forall st st',
    method_parameters_fields fields st = FieldOk st' ->
    wait_for_ready_outcome fields (mps_wait_for_ready st)
      (mps_wait_for_ready st')
    /\ retry_policy_outcome fields (mps_retry_policy st)
         (mps_retry_policy st').
Proof.
  induction fields as [|field rest IH]; intros st st'.
  - intros [= <-]. unfold wait_for_ready_outcome, retry_policy_outcome.
    simpl. destruct (mps_wait_for_ready st), (mps_retry_policy st); auto.
  - simpl.
    destruct (method_parameters_field field st) as [st1| |] eqn:Hfield;
      try discriminate.
    intros Hrest.
    destruct (method_parameters_field_step _ _ _ Hfield) as [Hw Hr].
    destruct (IH _ _ Hrest) as [Hw' Hr'].
    split.
    + eapply wait_for_ready_outcome_cons; eauto.
    + eapply retry_policy_outcome_cons; eauto.
Qed.

(** X2.  In a method entry that the parser accepts, waitForReady and
    retryPolicy occur at most once each.  Without a waitForReady field the
    parameters leave wait-for-ready unset, with one they hold TRUE for a JSON
    true and FALSE for a JSON false; without a retryPolicy field they hold no
    retry policy, with one they hold what [parse_retry_policy] made of that
    field starting from a zeroed policy. *)
Theorem method_parameters_single_valued_fields (json : grpc_json)
    (params : method_parameters) :
  method_parameters_create_from_json json = Some (Some params) ->
  match fields_with_key "waitForReady" (json_children json) with
  | [] => wait_for_ready params = WAIT_FOR_READY_UNSET
  | [field] =>
      (json_type field = GRPC_JSON_TRUE
       /\ wait_for_ready params = WAIT_FOR_READY_TRUE)
      \/ (json_type field = GRPC_JSON_FALSE
          /\ wait_for_ready params = WAIT_FOR_READY_FALSE)
  | _ => False
  end
  /\ match fields_with_key "retryPolicy" (json_children json) with
     | [] => retry_policy params = None
     | [field] =>
         exists rp,
           parse_retry_policy field zeroed_retry_policy = (true, rp)
           /\ retry_policy params = Some rp
     | _ => False
     end.
Proof.
  unfold method_parameters_create_from_json.
  destruct (method_parameters_fields _ _) as [st| |] eqn:Hfields;
    try discriminate.
  intros [= <-]. simpl.
  apply method_parameters_fields_outcome in Hfields.
  exact Hfields.
Qed.

Lemma method_parameters_single_valued_fields_witness :
  match fields_with_key "waitForReady" (json_children sample_method_json) with
  | [] => wait_for_ready sample_method_parameters = WAIT_FOR_READY_UNSET
  | [field] =>
      (json_type field = GRPC_JSON_TRUE
       /\ wait_for_ready sample_method_parameters = WAIT_FOR_READY_TRUE)
      \/ (json_type field = GRPC_JSON_FALSE
          /\ wait_for_ready sample_method_parameters = WAIT_FOR_READY_FALSE)
  | _ => False
  end
  /\ match fields_with_key "retryPolicy" (json_children sample_method_json) with
     | [] => retry_policy sample_method_parameters = None
     | [field] =>
         exists rp,
           parse_retry_policy field zeroed_retry_policy = (true, rp)
           /\ retry_policy sample_method_parameters = Some rp
     | _ => False
     end.
Proof.
  apply (method_parameters_single_valued_fields sample_method_json
           sample_method_parameters).
  vm_compute. reflexivity.
Defined.


Lemma parse_retryable_status_codes_stored (elements : list grpc_json) :
  forall rp rp',
    0 <= num_retryable_status_codes rp ->
    num_retryable_status_codes rp + Z.of_nat (length elements) <= SIZE_MAX ->
    parse_retryable_status_codes elements rp = (true, rp') ->
    exists statuses,
      Forall2 (fun element status =>
                 grpc_status_from_string (json_value element) = Some status)
        elements statuses
      /\ num_retryable_status_codes rp'
         = num_retryable_status_codes rp + Z.of_nat (length elements)
      /\ retryable_status_codes rp'
         = match elements with
           | [] => retryable_status_codes rp
           | _ => Some ((default [] (retryable_status_codes rp)
                         ++ statuses)%list)
           end.
Proof.
  induction elements as [|element rest IH]; intros rp rp' Hnum Hbound.
  - simpl. intros [= <-]. exists []. split; [constructor|].
    split; [lia|reflexivity].
  - simpl in Hbound |- *.
    destruct (negb _); [discriminate|].
    destruct (grpc_status_from_string (json_value element)) as [status|] eqn:Hs;
      [|discriminate].
    intros Hrest.
    assert (Hwrap : size_t_wrap (num_retryable_status_codes rp + 1)
                    = num_retryable_status_codes rp + 1)
      by (apply size_t_wrap_small; lia).
    rewrite Hwrap in Hrest.
    apply IH in Hrest; simpl; [|lia|lia].
    destruct Hrest as (statuses & Hall & Hcount & Hcodes).
    simpl in Hcount, Hcodes.
    exists (status :: statuses). split; [constructor; assumption|].
    split; [lia|].
    rewrite Hcodes. destruct rest as [|e r].
    + inversion Hall. subst. reflexivity.
    + rewrite <- app_assoc. reflexivity.
Qed.

Lemma parse_retry_policy_sub_field_codes (sub_field : grpc_json)
    (rp rp' : retry_policy_params) :
  parse_retry_policy_sub_field sub_field rp = (true, rp') ->
  if key_is (json_key sub_field) "retryableStatusCodes"
  then retryable_status_codes rp = None
       /\ parse_retryable_status_codes (json_children sub_field) rp
          = (true, rp')
  else retryable_status_codes rp' = retryable_status_codes rp
       /\ num_retryable_status_codes rp' = num_retryable_status_codes rp.
Proof.
  unfold parse_retry_policy_sub_field, key_is.
  destruct (json_key sub_field) as [key|]; [|discriminate].
  destruct (String.eqb key "maxRetryAttempts") eqn:E1.
  { apply String.eqb_eq in E1. subst key. simpl.
    repeat (destruct (negb _); [discriminate|]).
    intros [= _ <-]. auto. }
  destruct (String.eqb key "initialBackoffMs") eqn:E2.
  { apply String.eqb_eq in E2. subst key. simpl.
    repeat (destruct (negb _); [discriminate|]).
    intros [= _ <-]. auto. }
  destruct (String.eqb key "maxBackoffMs") eqn:E3.
  { apply String.eqb_eq in E3. subst key. simpl.
    repeat (destruct (negb _); [discriminate|]).
    intros [= _ <-]. auto. }
  destruct (String.eqb key "retryableStatusCodes") eqn:E4.
  - destruct (bool_decide _) eqn:Hnull; [discriminate|].
    apply bool_decide_eq_false in Hnull.
    destruct (negb _); [discriminate|].
    intros Hparse. split; [|exact Hparse].
    destruct (retryable_status_codes rp); [|reflexivity].
    exfalso. apply Hnull. discriminate.
  - intros [= <-]. auto.
Qed.

Lemma parse_retry_policy_sub_fields_stored (sub_fields : list grpc_json) :
  forall rp rp' elements,
    Z.of_nat (length (concat (map json_children
                (fields_with_key "retryableStatusCodes" sub_fields))))
      <= SIZE_MAX ->
    status_codes_stored rp elements ->
    parse_retry_policy_sub_fields sub_fields rp = (true, rp') ->
    status_codes_stored rp'
      (elements
       ++ concat (map json_children
                    (fields_with_key "retryableStatusCodes" sub_fields)))%list.
Proof.
  induction sub_fields as [|sub_field rest IH]; intros rp rp' elements Hbound.
  - simpl. intros Hstored [= <-]. rewrite app_nil_r. exact Hstored.
  - unfold fields_with_key in Hbound |- *. simpl in Hbound |- *.
    intros Hstored.
    destruct (parse_retry_policy_sub_field sub_field rp) as [[] rp1] eqn:Hsub;
      [|discriminate].
    intros Hrest.
    apply parse_retry_policy_sub_field_codes in Hsub.
    destruct (key_is (json_key sub_field) "retryableStatusCodes").
    + simpl in Hbound |- *. rewrite length_app in Hbound.
      destruct Hsub as [Hnull Hparse].
      destruct Hstored as [(_ & Hzero & ->)|(codes & Hsome & _)];
        [|congruence].
      apply parse_retryable_status_codes_stored in Hparse; [|lia|lia].
      destruct Hparse as (statuses & Hall & Hcount & Hcodes).
      rewrite app_assoc.
      apply (IH rp1); [unfold fields_with_key; lia| |exact Hrest].
      simpl. destruct (json_children sub_field) as [|e r] eqn:Hchildren.
      * left. simpl in Hcount. split; [congruence|]. split; [lia|reflexivity].
      * right. exists statuses. rewrite Hcodes, Hnull. simpl.
        split; [reflexivity|].
        split; [inversion Hall; discriminate|].
        split; [|exact Hall].
        rewrite Hcount, Hzero. apply Forall2_length in Hall.
        rewrite <- Hall. simpl. lia.
    + destruct Hsub as [Hcodes Hcount].
      apply (IH rp1); [exact Hbound| |exact Hrest].
      destruct Hstored as [(Hnull & Hzero & ->)|(codes & Hsome & Hne & Hlen & Hall)].
      * left. split; [congruence|]. split; [congruence|reflexivity].
      * right. exists codes. split; [congruence|]. split; [exact Hne|].
        split; [congruence|exact Hall].
Qed.

Lemma Forall2_In_l {A B : Type} (P : A -> B -> Prop) (l : list A)
    (k : list B) (x : A) :
  Forall2 P l k -> In x l -> exists y, In y k /\ P x y.
Proof.
  induction 1 as [|x' y' l' k' Hxy _ IH]; simpl; [tauto|].
  intros [<-|Hin]; [eauto|].
  destruct (IH Hin) as (y & Hy & Hp). eauto.
Qed.

Lemma Forall2_In_r {A B : Type} (P : A -> B -> Prop) (l : list A)
    (k : list B) (y : B) :
  Forall2 P l k -> In y k -> exists x, In x l /\ P x y.
Proof.
  induction 1 as [|x' y' l' k' Hxy _ IH]; simpl; [tauto|].
  intros [<-|Hin]; [eauto|].
  destruct (IH Hin) as (x & Hx & Hp). eauto.
Qed.

Lemma existsb_status_In (status : grpc_status_code)
    (codes : list grpc_status_code) :
  existsb (grpc_status_code_eqb status) codes = true <-> In status codes.
Proof.
  rewrite existsb_exists. split.
  - intros (s & Hin & Heq). destruct status, s; try discriminate; exact Hin.
  - intros Hin. exists status. split; [exact Hin|]. destruct status; reflexivity.
Qed.

(** X3.  Which statuses a parsed retry policy lets the call retry on: every
    status when the retryableStatusCodes arrays of the policy hold no element
    at all (the list pointer stays NULL, also for an empty array), and
    otherwise exactly the statuses that some element of those arrays
    names. *)
Theorem retryable_status_codes_reflect_config (field : grpc_json)
    (rp : retry_policy_params) (status : grpc_status_code) :
  Z.of_nat (length (retryable_status_elements field)) <= SIZE_MAX ->
  parse_retry_policy field zeroed_retry_policy = (true, rp) ->
  ClientChannel.is_status_code_in_list status (retryable_status_codes rp)
    (num_retryable_status_codes rp) = true
  <-> (retryable_status_elements field = []
       \/ exists element,
            In element (retryable_status_elements field)
            /\ grpc_status_from_string (json_value element) = Some status).
Proof.
  unfold retryable_status_elements, parse_retry_policy.
  intros Hbound.
  destruct (negb _); [discriminate|].
  intros Hparse.
  apply (parse_retry_policy_sub_fields_stored _ _ _ []) in Hparse;
    [|exact Hbound|left; auto].
  simpl in Hparse.
  unfold ClientChannel.is_status_code_in_list.
  destruct Hparse as [(-> & _ & ->)|(codes & -> & Hne & -> & Hall)].
  - split; auto.
  - rewrite Nat2Z.id, firstn_all, existsb_status_In. split.
    + intros Hin. right.
      destruct (Forall2_In_r _ _ _ _ Hall Hin) as (element & He & Hs).
      eauto.
    + intros [Hnil|(element & Hin & Hs)].
      * rewrite Hnil in Hall. inversion Hall. congruence.
      * destruct (Forall2_In_l _ _ _ _ Hall Hin) as (s & Hs' & Heq).
        rewrite Hs in Heq. injection Heq as <-. exact Hs'.
Qed.

Lemma retryable_status_codes_reflect_config_witness :
  ClientChannel.is_status_code_in_list GRPC_STATUS_ABORTED
    (Some [GRPC_STATUS_UNAVAILABLE; GRPC_STATUS_ABORTED]) 2 = true
  <-> (retryable_status_elements sample_two_codes_policy_json = []
       \/ exists element,
            In element (retryable_status_elements sample_two_codes_policy_json)
            /\ grpc_status_from_string (json_value element)
               = Some GRPC_STATUS_ABORTED).
Proof.
  apply (retryable_status_codes_reflect_config sample_two_codes_policy_json
           {| max_retry_attempts := 2; initial_backoff_ms := 0;
              max_backoff_ms := 0; backoff_multiplier := 0;
              retryable_status_codes :=
                Some [GRPC_STATUS_UNAVAILABLE; GRPC_STATUS_ABORTED];
              num_retryable_status_codes := 2 |} GRPC_STATUS_ABORTED).
  - vm_compute. discriminate.
  - vm_compute. reflexivity.
Defined.


Lemma parse_timeout_from_zero (field : grpc_json) (t : gpr_timespec) :
  parse_timeout field {| tv_sec := 0; tv_nsec := 0 |} = Some (true, t) ->
  0 <= tv_sec t /\ 0 <= tv_nsec t.
Proof.
  destruct field as [type key value children].
  destruct type;
    try (unfold parse_timeout; simpl; discriminate).
  intros Hparse. apply parse_timeout_sound in Hparse. simpl in Hparse.
  destruct Hparse as [(whole & _ & Hw & ->)
                     |(whole & fraction & _ & Hw & Hd & Hlen & ->)];
    simpl; destruct Hw as (_ & Hdw & _);
    pose proof (decimal_value_range _ Hdw) as Hr.
  - lia.
  - pose proof (decimal_value_range _ Hd) as Hf.
    split; [lia|].
    apply Z.mul_nonneg_nonneg; [lia|].
    apply Z.pow_nonneg. lia.
Qed.

Lemma method_parameters_field_timeout (field : grpc_json)
    (st st1 : method_parsing_state) :
  method_parameters_field field st = FieldOk st1 ->
  0 <= tv_sec (mps_timeout st) /\ 0 <= tv_nsec (mps_timeout st) ->
  if key_is (json_key field) "timeout"
  then mps_timeout st = {| tv_sec := 0; tv_nsec := 0 |}
       /\ parse_timeout field {| tv_sec := 0; tv_nsec := 0 |}
          = Some (true, mps_timeout st1)
  else mps_timeout st1 = mps_timeout st.
Proof.
  unfold method_parameters_field, key_is.
  destruct (json_key field) as [key|]; [|intros [= <-]; reflexivity].
  destruct (String.eqb key "waitForReady") eqn:Ewait.
  { apply String.eqb_eq in Ewait. subst key. simpl.
    destruct (mps_wait_for_ready st); try discriminate.
    destruct (parse_wait_for_ready _ _) as [[] w]; try discriminate.
    intros [= <-]. reflexivity. }
  destruct (String.eqb key "timeout") eqn:Etimeout.
  - destruct (Z.gtb_spec (tv_sec (mps_timeout st)) 0); [discriminate|].
    destruct (Z.gtb_spec (tv_nsec (mps_timeout st)) 0); [discriminate|].
    simpl. intros Hparse [Hsec Hnsec].
    assert (Hzero : mps_timeout st = {| tv_sec := 0; tv_nsec := 0 |}).
    { destruct (mps_timeout st) as [sec nsec]. simpl in *. f_equal; lia. }
    rewrite Hzero in Hparse |- *.
    destruct (parse_timeout field _) as [[[] t]|]; try discriminate.
    injection Hparse as <-. auto.
  - destruct (String.eqb key "retryPolicy").
    + destruct (mps_retry_policy st); try discriminate.
      destruct (parse_retry_policy _ _) as [[] rp]; try discriminate.
      intros [= <-]. reflexivity.
    + intros [= <-]. reflexivity.
Qed.

Lemma method_parameters_fields_timeout (fields : list grpc_json) :
  forall st st',
    method_parameters_fields fields st = FieldOk st' ->
    0 <= tv_sec (mps_timeout st) /\ 0 <= tv_nsec (mps_timeout st) ->
    (fields_with_key "timeout" fields = [] -> mps_timeout st' = mps_timeout st)
    /\ (fields_with_key "timeout" fields <> [] ->
        mps_timeout st = {| tv_sec := 0; tv_nsec := 0 |})
    /\ forall pre field post,
         fields = (pre ++ field :: post)%list ->
         key_is (json_key field) "timeout" = true ->
         exists t,
           parse_timeout field {| tv_sec := 0; tv_nsec := 0 |} = Some (true, t)
           /\ match fields_with_key "timeout" post with
              | [] => mps_timeout st' = t
              | _ => t = {| tv_sec := 0; tv_nsec := 0 |}
              end.
Proof.
  induction fields as [|field rest IH]; intros st st'.
  - intros [= <-] _. split; [auto|]. split; [intros []; reflexivity|].
    intros [|? ?] ? ? [=].
  - simpl.
    destruct (method_parameters_field field st) as [st1| |] eqn:Hfield;
      try discriminate.
    intros Hrest Hnonneg.
    pose proof (method_parameters_field_timeout _ _ _ Hfield Hnonneg) as Hstep.
    assert (Hnonneg1 : 0 <= tv_sec (mps_timeout st1)
                       /\ 0 <= tv_nsec (mps_timeout st1)).
    { destruct (key_is (json_key field) "timeout").
      - destruct Hstep as [_ Hparse].
        apply parse_timeout_from_zero in Hparse. exact Hparse.
      - rewrite Hstep. exact Hnonneg. }
    destruct (IH _ _ Hrest Hnonneg1) as (Hnone & Hsome & Hsplit).
    unfold fields_with_key in *. simpl.
    destruct (key_is (json_key field) "timeout") eqn:Hkey.
    + destruct Hstep as [Hzero Hparse].
      split; [discriminate|]. split; [auto|].
      intros [|first pre] f post.
      * simpl. intros [= <- <-] _. exists (mps_timeout st1).
        split; [exact Hparse|].
        destruct (List.filter _ rest) eqn:Hfilter; [auto|].
        apply Hsome. discriminate.
      * simpl. intros [= <- ->]. apply (Hsplit pre f post eq_refl).
    + split; [intros Hnil; rewrite (Hnone Hnil); exact Hstep|].
      split; [intros Hne; rewrite <- Hstep; auto|].
      intros [|first pre] f post.
      * simpl. intros [= <- <-]. congruence.
      * simpl. intros [= <- ->]. apply (Hsplit pre f post eq_refl).
Qed.

(** X4.  Timeout fields of a method entry that the parser accepts.  Without
    any the timeout of the parameters is zero.  Each timeout field parses,
    from a zero time, to a duration; the parameters hold the duration of the
    last one, and every timeout field that is followed by another one has
    the duration zero: a second timeout is refused once a non-zero one was
    read, but accepted after a zero one. *)
Theorem method_parameters_timeout_fields (json : grpc_json)
    (params : method_parameters) :
  method_parameters_create_from_json json = Some (Some params) ->
  (fields_with_key "timeout" (json_children json) = [] ->
   timeout params = {| tv_sec := 0; tv_nsec := 0 |})
  /\ forall pre field post,
       json_children json = (pre ++ field :: post)%list ->
       key_is (json_key field) "timeout" = true ->
       exists t,
         parse_timeout field {| tv_sec := 0; tv_nsec := 0 |} = Some (true, t)
         /\ match fields_with_key "timeout" post with
            | [] => timeout params = t
            | _ => t = {| tv_sec := 0; tv_nsec := 0 |}
            end.
Proof.
  unfold method_parameters_create_from_json.
  destruct (method_parameters_fields _ _) as [st| |] eqn:Hfields;
    try discriminate.
  intros [= <-]. simpl.
  apply method_parameters_fields_timeout in Hfields; [|simpl; lia].
  destruct Hfields as (Hnone & _ & Hsplit). auto.
Qed.

Lemma method_parameters_timeout_fields_witness :
  (fields_with_key "timeout" (json_children sample_zero_timeout_json) = [] ->
   timeout sample_zero_timeout_parameters = {| tv_sec := 0; tv_nsec := 0 |})
  /\ forall pre field post,
       json_children sample_zero_timeout_json = (pre ++ field :: post)%list ->
       key_is (json_key field) "timeout" = true ->
       exists t,
         parse_timeout field {| tv_sec := 0; tv_nsec := 0 |} = Some (true, t)
         /\ match fields_with_key "timeout" post with
            | [] => timeout sample_zero_timeout_parameters = t
            | _ => t = {| tv_sec := 0; tv_nsec := 0 |}
            end.
Proof.
  apply (method_parameters_timeout_fields sample_zero_timeout_json
           sample_zero_timeout_parameters).
  vm_compute. reflexivity.
Defined.


(** ** Pending batches of a call *)

Section PendingBatches.

Import ClientChannel.

(** X5.  A batch that [pending_batches_add] accepts sits, with both flags
    cleared, in the slot that [get_batch_index] names; the other slots are
    as before; and a further batch for the same slot fails the assertion of
    [pending_batches_add] as long as the slot is taken. *)
Theorem pending_batches_add_lookup (calld calld' : call_data)
    (b : grpc_transport_stream_op_batch) :
  pending_batches_add calld b = Some calld' ->
  exists idx,
    get_batch_index b = Some idx
    /\ pending_batches calld' !! idx
       = Some {| batch := Some b; retry_checks_for_new_batch_done := false;
                 handler_in_flight := false |}
    /\ (forall j, j <> idx ->
          pending_batches calld' !! j = pending_batches calld !! j)
    /\ forall b',
         get_batch_index b' = Some idx -> pending_batches_add calld' b' = None.
Proof.
  unfold pending_batches_add.
  destruct (get_batch_index b) as [idx|] eqn:Hidx; [|discriminate]. simpl.
  destruct (pending_batches calld !! idx) as [pending|] eqn:Hslot;
    [|discriminate]. simpl.
  destruct (batch pending); [discriminate|].
  intros [= <-]. exists idx. simpl.
  assert (Hlen : (idx < length (pending_batches calld))%nat)
    by (apply lookup_lt_is_Some; eauto).
  split; [reflexivity|]. split; [apply list_lookup_insert_eq; exact Hlen|].
  split.
  - intros j Hj. apply list_lookup_insert_ne. auto.
  - intros b' ->. simpl. rewrite list_lookup_insert_eq by exact Hlen.
    reflexivity.
Qed.

Lemma pending_batches_add_lookup_witness :
  exists idx,
    get_batch_index sample_unary_batch = Some idx
    /\ pending_batches sample_waiting_call !! idx
       = Some {| batch := Some sample_unary_batch;
                 retry_checks_for_new_batch_done := false;
                 handler_in_flight := false |}
    /\ (forall j, j <> idx ->
          pending_batches sample_waiting_call !! j
          = pending_batches sample_call !! j)
    /\ forall b',
         get_batch_index b' = Some idx ->
         pending_batches_add sample_waiting_call b' = None.
Proof.
  apply (pending_batches_add_lookup sample_call sample_waiting_call
           sample_unary_batch).
  vm_compute. reflexivity.
Defined.

(** The slots that the walk marks, from index [i] on. *)
Lemma mark_handlers_in_flight_spec (pending : list pending_batch) :
  forall i first_batch_idx,
    mark_handlers_in_flight pending i first_batch_idx
    = (map (fun p => if awaits_handler p then set_handler_in_flight true p
                     else p) pending,
       match first_batch_idx with
       | Some _ => first_batch_idx
       | None => head (marked_slots pending i)
       end,
       match first_batch_idx with
       | Some _ => marked_slots pending i
       | None => tail (marked_slots pending i)
       end).
Proof.
  induction pending as [|p rest IH]; intros i first.
  - simpl. destruct first; reflexivity.
  - simpl. destruct (awaits_handler p).
    + destruct first as [f|]; rewrite IH; reflexivity.
    + rewrite IH. reflexivity.
Qed.

Lemma awaits_handler_batch (p : pending_batch) :
  awaits_handler p = true ->
  exists b, batch p = Some b /\ handler_in_flight p = false.
Proof.
  unfold awaits_handler. intros H. apply andb_true_iff in H as [Hb Hf].
  apply bool_decide_eq_true in Hb. apply negb_true_iff in Hf.
  destruct (batch p) as [b|]; [eauto|congruence].
Qed.

Lemma run_started_closures_marked (suffix : list pending_batch) :
  forall prefix calld,
    pending_batches calld
    = (prefix
       ++ map (fun p => if awaits_handler p then set_handler_in_flight true p
                        else p) suffix)%list ->
    exists calld',
      run_started_closures calld (marked_slots suffix (length prefix))
      = Some (calld', batches_to_handle suffix)
      /\ pending_batches calld' = (prefix ++ map handle_slot suffix)%list.
Proof.
  induction suffix as [|p rest IH]; intros prefix calld Hpending.
  - simpl. exists calld. split; [reflexivity|]. exact Hpending.
  - simpl in Hpending |- *. unfold batches_to_handle, handle_slot. simpl.
    destruct (awaits_handler p) eqn:Hp.
    + destruct (awaits_handler_batch _ Hp) as (b & Hb & Hf).
      simpl. unfold take_pending_batch.
      rewrite Hpending, list_lookup_middle by reflexivity. simpl.
      rewrite Hb. simpl.
      rewrite insert_app_r_alt by lia. rewrite Nat.sub_diag. simpl.
      destruct (IH (prefix ++ [clear_batch (set_handler_in_flight true p)])%list
                  (set_pending_batches
                     (prefix
                      ++ clear_batch (set_handler_in_flight true p)
                         :: map (fun p => if awaits_handler p
                                          then set_handler_in_flight true p
                                          else p) rest)%list calld))
        as (calld' & Hrun & Hfinal).
      { simpl. rewrite <- app_assoc. reflexivity. }
      rewrite length_app in Hrun. simpl in Hrun.
      rewrite Nat.add_1_r in Hrun. rewrite Hrun. simpl.
      exists calld'. rewrite Hf. split; [reflexivity|].
      rewrite Hfinal, <- app_assoc. reflexivity.
    + destruct (IH (prefix ++ [p])%list calld) as (calld' & Hrun & Hfinal).
      { rewrite Hpending, <- app_assoc. reflexivity. }
      rewrite length_app in Hrun. simpl in Hrun.
      rewrite Nat.add_1_r in Hrun.
      exists calld'. split.
      * rewrite Hrun. f_equal. f_equal.
        fold (batches_to_handle rest).
        unfold awaits_handler in Hp.
        destruct (handler_in_flight p); [reflexivity|].
        destruct (batch p); [discriminate|reflexivity].
      * rewrite Hfinal, <- app_assoc. reflexivity.
Qed.

Lemma marked_slots_none (pending : list pending_batch) :
  Forall (fun p => awaits_handler p = false) pending ->
  forall i, marked_slots pending i = []
            /\ map (fun p => if awaits_handler p
                             then set_handler_in_flight true p else p) pending
               = pending.
Proof.
  induction 1 as [|p rest Hp _ IH]; intros i; simpl; [auto|].
  rewrite Hp. destruct (IH (S i)) as [-> ->]. auto.
Qed.

Lemma set_pending_batches_id (calld : call_data) :
  set_pending_batches (pending_batches calld) calld = calld.
Proof. destruct calld. reflexivity. Qed.

Lemma pending_batches_fail_settled (calld : call_data) :
  Forall (fun p => awaits_handler p = false) (pending_batches calld) ->
  pending_batches_fail calld
  = Some (calld, {| handled_directly := None; closures_started := [] |}).
Proof.
  intros Hnone. unfold pending_batches_fail.
  rewrite mark_handlers_in_flight_spec.
  destruct (marked_slots_none _ Hnone 0%nat) as [-> ->]. simpl.
  rewrite set_pending_batches_id. reflexivity.
Qed.

Lemma handle_slot_settled (p : pending_batch) :
  awaits_handler (handle_slot p) = false.
Proof.
  unfold handle_slot. destruct (awaits_handler p) eqn:Hp; [|exact Hp].
  reflexivity.
Qed.

Lemma mark_slot_settled (p : pending_batch) :
  awaits_handler (if awaits_handler p then set_handler_in_flight true p
                  else p) = false.
Proof.
  destruct (awaits_handler p) eqn:Hp; [|exact Hp].
  unfold awaits_handler. simpl. apply andb_false_r.
Qed.

Lemma take_pending_batch_frame (calld calld' : call_data) (i : nat)
    (b : grpc_transport_stream_op_batch) :
  take_pending_batch calld i = Some (calld', b) ->
  error calld' = error calld
  /\ subchannel_call calld' = subchannel_call calld
  /\ exists p, pending_batches calld !! i = Some p
               /\ pending_batches calld'
                  = <[i := clear_batch p]> (pending_batches calld).
Proof.
  unfold take_pending_batch.
  destruct (pending_batches calld !! i) as [p|]; [|discriminate]. simpl.
  destruct (batch p); [|discriminate]. simpl.
  intros [= <- _]. simpl. eauto.
Qed.

Lemma run_started_closures_frame (slots : list nat) :
  forall calld calld' handled,
    run_started_closures calld slots = Some (calld', handled) ->
    error calld' = error calld
    /\ subchannel_call calld' = subchannel_call calld.
Proof.
  induction slots as [|i rest IH]; intros calld calld' handled.
  - intros [= <- _]. auto.
  - simpl.
    destruct (take_pending_batch calld i) as [[calld1 b]|] eqn:Htake;
      [|discriminate]. simpl.
    destruct (run_started_closures calld1 rest) as [[calld2 h]|] eqn:Hrun;
      [|discriminate]. simpl.
    intros [= <- _].
    apply take_pending_batch_frame in Htake as (He & Hs & _).
    apply IH in Hrun as [He' Hs']. split; congruence.
Qed.

Lemma pending_batches_fail_spec (calld : call_data) :
  exists calld1 handled calld2 by_closures,
    pending_batches_fail calld = Some (calld1, handled)
    /\ run_started_closures calld1 (closures_started handled)
       = Some (calld2, by_closures)
    /\ all_handled handled by_closures
       = batches_to_handle (pending_batches calld)
    /\ pending_batches calld2 = map handle_slot (pending_batches calld)
    /\ Forall (fun p => awaits_handler p = false) (pending_batches calld1)
    /\ error calld1 = error calld /\ error calld2 = error calld.
Proof.
  unfold pending_batches_fail. rewrite mark_handlers_in_flight_spec.
  set (marked := map _ (pending_batches calld)).
  destruct (run_started_closures_marked (pending_batches calld) []
              (set_pending_batches marked calld) eq_refl)
    as (calld' & Hrun & Hfinal).
  simpl in Hrun, Hfinal.
  assert (Hmarked : Forall (fun p => awaits_handler p = false) marked).
  { apply Forall_map. apply Forall_forall. intros p _.
    apply mark_slot_settled. }
  destruct (marked_slots (pending_batches calld) 0) as [|i rest] eqn:Hslots.
  - simpl in Hrun |- *. injection Hrun as <- Hnone.
    exists (set_pending_batches marked calld),
      {| handled_directly := None; closures_started := [] |},
      (set_pending_batches marked calld), [].
    simpl. unfold all_handled. simpl. rewrite <- Hnone. auto 10.
  - simpl in Hrun |- *. unfold fail_pending_batch_in_call_combiner.
    destruct (take_pending_batch (set_pending_batches marked calld) i)
      as [[calld1 b]|] eqn:Htake; [|discriminate]. simpl in Hrun |- *.
    destruct (run_started_closures calld1 rest) as [[calld2 h]|] eqn:Hrest;
      [|discriminate]. simpl in Hrun.
    injection Hrun as <- Hall.
    exists calld1, {| handled_directly := Some b; closures_started := rest |},
      calld2, h.
    simpl. unfold all_handled. simpl.
    pose proof (run_started_closures_frame _ _ _ _ Hrest) as [He2 _].
    apply take_pending_batch_frame in Htake as (He1 & _ & p & Hp & Hpending).
    simpl in He1, Hp, Hpending.
    split; [reflexivity|]. split; [exact Hrest|]. split; [exact Hall|].
    split; [exact Hfinal|]. split; [|split; congruence].
    rewrite Hpending. apply Forall_insert; [exact Hmarked|].
    unfold awaits_handler. reflexivity.
Qed.

(** X6.  [pending_batches_fail] cannot fail an assertion, and together with
    the closures it starts on the call combiner it fails every pending batch
    whose handler was not in flight exactly once, in the order of the slots,
    and clears the slots of those batches.  Calling it again before the
    closures have run starts nothing and fails nothing. *)
Theorem pending_batches_fail_once (calld : call_data) :
  exists calld1 handled calld2 by_closures,
    pending_batches_fail calld = Some (calld1, handled)
    /\ run_started_closures calld1 (closures_started handled)
       = Some (calld2, by_closures)
    /\ all_handled handled by_closures
       = batches_to_handle (pending_batches calld)
    /\ pending_batches calld2 = map handle_slot (pending_batches calld)
    /\ pending_batches_fail calld1
       = Some (calld1,
               {| handled_directly := None; closures_started := [] |}).
Proof.
  destruct (pending_batches_fail_spec calld)
    as (calld1 & handled & calld2 & by_closures & Hfail & Hrun & Hall
        & Hfinal & Hsettled & _).
  exists calld1, handled, calld2, by_closures.
  repeat (split; [assumption|]).
  apply pending_batches_fail_settled. exact Hsettled.
Qed.

(** X7.  A [cancel_stream] batch that reaches a call which was not cancelled
    before and has no subchannel call yet: the cancel error is recorded in
    the call, and the walk with the closures it starts fails the cancel
    batch and every other pending batch whose handler was not in flight,
    leaving no batch that awaits a handler.  Every batch that arrives
    afterwards is failed at once and leaves the call data as they are. *)
Theorem cancel_before_pick_fails_pending_batches (chand : channel_data)
    (calld : call_data) (b : grpc_transport_stream_op_batch)
    (cancel_error : grpc_status_code) (idx : nat) (slot : pending_batch) :
  error calld = None ->
  subchannel_call calld = None ->
  cancel_stream b = true ->
  get_batch_index b = Some idx ->
  pending_batches calld !! idx = Some slot ->
  batch slot = None ->
  exists calld1 handled calld2 by_closures,
    cc_start_transport_stream_op_batch chand calld b cancel_error
    = Some (calld1, PendingFailed handled)
    /\ error calld1 = Some cancel_error
    /\ run_started_closures calld1 (closures_started handled)
       = Some (calld2, by_closures)
    /\ In b (all_handled handled by_closures)
    /\ (forall b', In b' (batches_to_handle (pending_batches calld)) ->
                   In b' (all_handled handled by_closures))
    /\ Forall (fun p => awaits_handler p = false) (pending_batches calld2)
    /\ forall b' cancel_error',
         cc_start_transport_stream_op_batch chand calld2 b' cancel_error'
         = Some (calld2, FailedAtOnce).
Proof.
  intros Herror Hcall Hcancel Hidx Hslot Hfree.
  unfold cc_start_transport_stream_op_batch.
  rewrite Herror. simpl.
  unfold pending_batches_add. rewrite Hidx. simpl. rewrite Hslot. simpl.
  rewrite Hfree. simpl. rewrite Hcancel, Hcall.
  set (added := <[idx := _]> (pending_batches calld)).
  set (calld0 := set_error (Some cancel_error)
                   (set_pending_batches added calld)).
  destruct (pending_batches_fail_spec calld0)
    as (calld1 & handled & calld2 & by_closures & Hfail & Hrun & Hall
        & Hfinal & _ & He1 & He2).
  rewrite Hfail. simpl.
  exists calld1, handled, calld2, by_closures.
  split; [reflexivity|]. split; [rewrite He1; reflexivity|].
  split; [exact Hrun|].
  assert (Hlen : (idx < length (pending_batches calld))%nat)
    by (apply lookup_lt_is_Some; eauto).
  assert (Hsplit : pending_batches calld
                   = (take idx (pending_batches calld)
                      ++ slot :: drop (S idx) (pending_batches calld))%list).
  { symmetry. apply take_drop_middle. exact Hslot. }
  assert (Hadded : added
                   = (take idx (pending_batches calld)
                      ++ {| batch := Some b;
                            retry_checks_for_new_batch_done := false;
                            handler_in_flight := false |}
                         :: drop (S idx) (pending_batches calld))%list).
  { unfold added. apply insert_take_drop. exact Hlen. }
  rewrite Hall. change (pending_batches calld0) with added.
  split; [|split].
  - rewrite Hadded. unfold batches_to_handle. rewrite omap_app. simpl.
    apply in_or_app. right. left. reflexivity.
  - intros b'. rewrite Hsplit at 1. rewrite Hadded.
    unfold batches_to_handle. rewrite !omap_app. simpl.
    rewrite Hfree. destruct (handler_in_flight slot);
      rewrite !in_app_iff; simpl; tauto.
  - split.
    + rewrite Hfinal. apply Forall_map. apply Forall_forall. intros p _.
      apply handle_slot_settled.
    + intros b' e'. rewrite He2. reflexivity.
Qed.

Lemma cancel_before_pick_fails_pending_batches_witness :
  exists calld1 handled calld2 by_closures,
    cc_start_transport_stream_op_batch (cc_init_channel_elem None)
      sample_waiting_call sample_cancel_batch GRPC_STATUS_CANCELLED
    = Some (calld1, PendingFailed handled)
    /\ error calld1 = Some GRPC_STATUS_CANCELLED
    /\ run_started_closures calld1 (closures_started handled)
       = Some (calld2, by_closures)
    /\ In sample_cancel_batch (all_handled handled by_closures)
    /\ (forall b',
          In b' (batches_to_handle (pending_batches sample_waiting_call)) ->
          In b' (all_handled handled by_closures))
    /\ Forall (fun p => awaits_handler p = false) (pending_batches calld2)
    /\ forall b' cancel_error',
         cc_start_transport_stream_op_batch (cc_init_channel_elem None)
           calld2 b' cancel_error'
         = Some (calld2, FailedAtOnce).
Proof.
  apply (cancel_before_pick_fails_pending_batches (cc_init_channel_elem None)
           sample_waiting_call sample_cancel_batch GRPC_STATUS_CANCELLED
           6%nat
           {| batch := None; retry_checks_for_new_batch_done := false;
              handler_in_flight := false |});
    vm_compute; reflexivity.
Defined.

End PendingBatches.


(** ** Retry bookkeeping of a call *)

Section RetryFrames.

Import ClientChannel.

(** What the caching steps leave alone, and that they never take the
    commitment back. *)
Lemma retry_committed_frame (calld : call_data) :
  call_frame calld (retry_committed calld).
Proof.
  unfold call_frame, retry_committed.
  destruct (retry_committed_flag calld) eqn:Hc; simpl; rewrite ?Hc; auto 10.
Qed.

Lemma call_frame_refl (calld : call_data) : call_frame calld calld.
Proof. unfold call_frame. auto 10. Qed.

Lemma call_frame_trans (c1 c2 c3 : call_data) :
  call_frame c1 c2 -> call_frame c2 c3 -> call_frame c1 c3.
Proof.
  unfold call_frame.
  intros (He & Ht & Hs & Hn & Hm & Hp & Hc)
    (He' & Ht' & Hs' & Hn' & Hm' & Hp' & Hc').
  repeat split; try congruence; auto.
Qed.

Lemma cache_send_initial_metadata_frame (b : grpc_transport_stream_op_batch)
    (calld calld' : call_data) (go_on : bool) :
  cache_send_initial_metadata b calld = Some (go_on, calld') ->
  call_frame calld calld'.
Proof.
  unfold cache_send_initial_metadata.
  destruct (send_initial_metadata b); [|intros [= _ <-]; apply call_frame_refl].
  destruct (send_initial_metadata_storage calld); [discriminate|].
  destruct (md_copy_fails _); intros [= _ <-].
  - eapply call_frame_trans; [|apply retry_committed_frame].
    unfold call_frame. simpl. auto 10.
  - unfold call_frame. simpl. auto 10.
Qed.

Lemma cache_send_message_frame (b : grpc_transport_stream_op_batch)
    (calld calld' : call_data) :
  cache_send_message b calld = Some calld' -> call_frame calld calld'.
Proof.
  unfold cache_send_message.
  destruct (send_message b); [|intros [= <-]; apply call_frame_refl].
  destruct (_ <? _); [|discriminate].
  intros [= <-]. unfold call_frame. simpl. auto 10.
Qed.

Lemma cache_send_trailing_metadata_frame (b : grpc_transport_stream_op_batch)
    (calld calld' : call_data) :
  cache_send_trailing_metadata b calld = Some calld' -> call_frame calld calld'.
Proof.
  unfold cache_send_trailing_metadata.
  destruct (send_trailing_metadata b); [|intros [= <-]; apply call_frame_refl].
  destruct (send_trailing_metadata_storage calld); [discriminate|].
  destruct (md_copy_fails _); intros [= <-].
  - eapply call_frame_trans; [|apply retry_committed_frame].
    unfold call_frame. simpl. auto 10.
  - unfold call_frame. simpl. auto 10.
Qed.

(** [retry_checks_for_new_batch] on the slot [i]: besides the caches, the
    byte count and the commitment it changes the flag of the slot only. *)
Lemma retry_checks_for_new_batch_slots (chand : channel_data)
    (calld calld' : call_data) (i : nat) :
  retry_checks_for_new_batch chand calld i = Some calld' ->
  exists pending,
    pending_batches calld !! i = Some pending
    /\ (retry_checks_for_new_batch_done pending = true -> calld' = calld)
    /\ (retry_checks_for_new_batch_done pending = false ->
        pending_batches calld'
        = <[i := {| batch := batch pending;
                    retry_checks_for_new_batch_done := true;
                    handler_in_flight := handler_in_flight pending |}]>
            (pending_batches calld))
    /\ error calld' = error calld
    /\ retry_timer calld' = retry_timer calld
    /\ subchannel_call calld' = subchannel_call calld
    /\ num_retry_attempts calld' = num_retry_attempts calld
    /\ method_params calld' = method_params calld
    /\ (retry_committed_flag calld = true -> retry_committed_flag calld' = true).
Proof.
  unfold retry_checks_for_new_batch.
  destruct (pending_batches calld !! i) as [pending|] eqn:Hslot;
    [|discriminate]. simpl.
  destruct (retry_checks_for_new_batch_done pending) eqn:Hdone.
  { intros [= <-]. exists pending. split; [reflexivity|]. split; [auto|].
    split; [congruence|]. auto 10. }
  destruct (batch pending) as [b|] eqn:Hb; [|discriminate]. simpl.
  remember (<[i := _]> (pending_batches calld)) as slots eqn:Hslots.
  remember (set_pending_batches slots calld) as calld1 eqn:Hcalld1.
  assert (H1 : call_frame_but_slots calld slots calld1).
  { subst calld1. unfold call_frame_but_slots, call_frame. simpl. auto 10. }
  intros Hrest.
  assert (Hgoal : call_frame_but_slots calld slots calld').
  { revert Hrest.
    destruct (cancel_stream b); [intros Heq; injection Heq as <-; exact H1|].
    destruct (call_retry_policy calld1);
      [|intros Heq; injection Heq as <-; exact H1].
    destruct (retry_committed_flag _) eqn:Hc;
      [intros Heq; injection Heq as <-; exact H1|].
    remember (set_bytes_buffered_for_retry _ calld1) as calld2 eqn:Hcalld2.
    assert (H2 : call_frame calld1 calld2).
    { subst calld2. unfold call_frame. simpl. auto 10. }
    assert (Hstep : forall c, call_frame calld2 c ->
                              call_frame_but_slots calld slots c).
    { intros c Hc2. pose proof (call_frame_trans _ _ _ H2 Hc2) as Hc1.
      unfold call_frame_but_slots, call_frame in *.
      destruct H1 as (Hs & He & Ht & Hsc & Hn & Hm & Hcm).
      destruct Hc1 as (He' & Ht' & Hsc' & Hn' & Hm' & Hp' & Hcm').
      repeat split; try congruence; auto. }
    destruct (_ <? _).
    { intros Heq; injection Heq as <-. apply Hstep.
      apply retry_committed_frame. }
    destruct (cache_send_initial_metadata b calld2) as [[go_on calld3]|] eqn:H3;
      [|discriminate]. simpl.
    apply cache_send_initial_metadata_frame in H3.
    destruct go_on; [|intros Heq; injection Heq as <-; apply Hstep; exact H3].
    destruct (cache_send_message b calld3) as [calld4|] eqn:H4;
      [|discriminate]. simpl.
    apply cache_send_message_frame in H4.
    intros H5. apply cache_send_trailing_metadata_frame in H5.
    apply Hstep. eauto using call_frame_trans. }
  exists pending. split; [reflexivity|]. split; [congruence|].
  subst slots.
  unfold call_frame_but_slots, call_frame in Hgoal.
  destruct Hgoal as (Hs & He & Ht & Hsc & Hn & Hm & Hcm).
  split; [intros _; rewrite Hb; exact Hs|]. auto 10.
Qed.

(** X8.  The retry checks for a pending batch are made once: when
    [retry_checks_for_new_batch] has run for a slot, running it again for
    that slot changes nothing, so that a batch is never counted or cached
    twice. *)
Theorem retry_checks_for_new_batch_idempotent (chand : channel_data)
    (calld calld' : call_data) (i : nat) :
  retry_checks_for_new_batch chand calld i = Some calld' ->
  retry_checks_for_new_batch chand calld' i = Some calld'.
Proof.
  intros Hfirst.
  destruct (retry_checks_for_new_batch_slots _ _ _ _ Hfirst)
    as (pending & Hslot & Hsame & Hslots & _).
  destruct (retry_checks_for_new_batch_done pending) eqn:Hdone.
  - rewrite (Hsame eq_refl) in Hfirst |- *. exact Hfirst.
  - unfold retry_checks_for_new_batch at 1.
    rewrite (Hslots eq_refl).
    rewrite list_lookup_insert_eq by (apply lookup_lt_is_Some; eauto).
    reflexivity.
Qed.

Lemma retry_checks_for_new_batch_idempotent_witness :
  retry_checks_for_new_batch (cc_init_channel_elem None)
    sample_checked_call 0 = Some sample_checked_call.
Proof.
  apply (retry_checks_for_new_batch_idempotent (cc_init_channel_elem None)
           sample_waiting_call sample_checked_call 0).
  vm_compute. reflexivity.
Defined.

End RetryFrames.


Section NoRetryAfterCommit.

Import ClientChannel.

Variable gpr_backoff_deadline : gpr_backoff -> Z -> Z.
Variable chand : channel_data.

Lemma maybe_retry_settled (calld calld' : call_data)
    (retry_state retry_state' : option subchannel_call_retry_state)
    (status : grpc_status_code) (now : Z) (retrying : bool) :
  maybe_retry gpr_backoff_deadline calld retry_state status now
  = Some (retrying, calld', retry_state') ->
  error calld' = error calld
  /\ retry_committed_flag calld' = retry_committed_flag calld
  /\ (retry_committed_flag calld = true \/ error calld <> None ->
      num_retry_attempts calld' = num_retry_attempts calld
      /\ retry_timer calld' = retry_timer calld).
Proof.
  unfold maybe_retry.
  destruct (call_retry_policy calld) as [policy|]; [|discriminate]. simpl.
  destruct (from_option retry_dispatched false retry_state);
    [intros [= _ <- _]; auto|].
  destruct (grpc_status_code_eqb status GRPC_STATUS_OK);
    [intros [= _ <- _]; simpl; auto|].
  destruct (negb _); [intros [= _ <- _]; auto|].
  destruct (negb (_ / 2 <=? _)); [intros [= _ <- _]; simpl; auto|].
  destruct (retry_committed_flag calld) eqn:Hc;
    [intros [= _ <- _]; simpl; auto|].
  destruct (_ =? _); [intros [= _ <- _]; simpl; auto|].
  destruct (bool_decide (error calld <> None)) eqn:He;
    [intros [= _ <- _]; simpl; auto|].
  apply bool_decide_eq_false in He.
  intros [= _ <- _]. simpl. split; [reflexivity|]. split; [exact Hc|].
  intros [Hcommitted|Herror]; [discriminate|contradiction].
Qed.

Lemma retry_checks_for_pending_batches_settled (indices : list nat) :
  forall calld calld',
    retry_checks_for_pending_batches chand calld indices = Some calld' ->
    error calld' = error calld
    /\ retry_timer calld' = retry_timer calld
    /\ num_retry_attempts calld' = num_retry_attempts calld
    /\ (retry_committed_flag calld = true -> retry_committed_flag calld' = true).
Proof.
  induction indices as [|i rest IH]; intros calld calld'.
  - intros [= <-]. auto.
  - simpl.
    destruct (pending_batches calld !! i) as [pending|]; [|discriminate].
    simpl.
    destruct (batch pending).
    + destruct (retry_checks_for_new_batch chand calld i) as [calld1|] eqn:H1;
        [|discriminate]. simpl.
      intros Hrest. apply IH in Hrest as (He & Ht & Hn & Hc).
      apply retry_checks_for_new_batch_slots in H1
        as (_ & _ & _ & _ & He1 & Ht1 & _ & Hn1 & _ & Hc1).
      repeat split; try congruence. auto.
    + simpl. apply IH.
Qed.

Lemma call_step_settled (calld calld' : call_data) (op : call_op) :
  call_step gpr_backoff_deadline chand calld op = Some calld' ->
  (retry_committed_flag calld = true -> retry_committed_flag calld' = true)
  /\ (error calld <> None -> error calld' <> None)
  /\ (retry_committed_flag calld = true \/ error calld <> None ->
      num_retry_attempts calld' = num_retry_attempts calld
      /\ retry_timer calld' = retry_timer calld).
Proof.
  destruct op as [b|status| |i| | |retry_state status now| |i]; simpl.
  - unfold pending_batches_add.
    destruct (get_batch_index b); [|discriminate]. simpl.
    destruct (pending_batches calld !! _) as [pending|]; [|discriminate].
    simpl. destruct (batch pending); [discriminate|].
    intros [= <-]. simpl. auto.
  - intros [= <-]. simpl. split; [auto|]. split; [discriminate|auto].
  - intros [= <-]. simpl. auto.
  - intros Hchecks.
    apply retry_checks_for_new_batch_slots in Hchecks
      as (_ & _ & _ & _ & He & Ht & _ & Hn & _ & Hc).
    rewrite He, Ht, Hn. auto.
  - unfold start_retriable_subchannel_batches.
    generalize (seq 0 MAX_PENDING_BATCHES). intros indices.
    destruct (subchannel_call calld) as [rs|]; [|discriminate]. simpl.
    destruct (retry_checks_for_pending_batches chand calld indices)
      as [calld1|] eqn:H1; [|discriminate]. simpl.
    destruct (build_send_batch calld1 rs) as [[rs1 send_batch]|];
      [|discriminate]. simpl.
    destruct (build_recv_batches (pending_batches calld1) rs1)
      as [[rs2 recv_batches]|]; [|discriminate]. simpl.
    destruct (_ <? _)%nat; [discriminate|].
    destruct (_ =? _)%nat; [discriminate|].
    intros [= <-]. simpl.
    apply retry_checks_for_pending_batches_settled in H1
      as (He & Ht & Hn & Hc).
    rewrite He, Ht, Hn. auto.
  - intros [= <-]. pose proof (retry_committed_spec calld) as Hspec.
    destruct Hspec as (Hc & _ & _ & _ & Hn & Ht & _).
    rewrite Hn, Ht. split; [auto|]. split; [|auto].
    unfold retry_committed. destruct (retry_committed_flag calld); auto.
  - destruct (maybe_retry _ _ _ _ _) as [[[retrying calld1] rs]|] eqn:Hretry;
      [|discriminate]. simpl.
    intros [= <-]. apply maybe_retry_settled in Hretry as (He & Hc & Hrest).
    rewrite He, Hc. auto.
  - destruct (mark_handlers_in_flight (pending_batches calld) 0 None)
      as [[pending first] started].
    intros [= <-]. simpl. auto.
  - unfold take_pending_batch.
    destruct (pending_batches calld !! i) as [pending|]; [|discriminate].
    simpl. destruct (batch pending); [|discriminate]. simpl.
    intros [= <-]. simpl. auto.
Qed.

(** X9.  Once a call is committed, or cancelled from the surface, no later
    operation on it dispatches a retry: along every run of its operations
    the call stays committed (or cancelled), [num_retry_attempts] keeps its
    value and the retry timer is not armed anew. *)
Theorem settled_call_never_retries (ops : list call_op) :
  forall calld calld',
    retry_committed_flag calld = true \/ error calld <> None ->
    call_run gpr_backoff_deadline chand calld ops = Some calld' ->
    (retry_committed_flag calld = true -> retry_committed_flag calld' = true)
    /\ (error calld <> None -> error calld' <> None)
    /\ num_retry_attempts calld' = num_retry_attempts calld
    /\ retry_timer calld' = retry_timer calld.
Proof.
  induction ops as [|op rest IH]; intros calld calld' Hsettled.
  - intros [= <-]. auto.
  - simpl.
    destruct (call_step _ _ calld op) as [calld1|] eqn:Hstep; [|discriminate].
    simpl. intros Hrun.
    apply call_step_settled in Hstep as (Hc & He & Hsame).
    destruct (Hsame Hsettled) as [Hn Ht].
    assert (Hsettled1 : retry_committed_flag calld1 = true
                        \/ error calld1 <> None)
      by (destruct Hsettled; auto).
    destruct (IH _ _ Hsettled1 Hrun) as (Hc' & He' & Hn' & Ht').
    repeat split; try congruence; auto.
Qed.

End NoRetryAfterCommit.

Lemma settled_call_never_retries_witness :
  (ClientChannel.retry_committed_flag ClientChannel.sample_committed_call = true
   -> ClientChannel.retry_committed_flag
        ClientChannel.sample_committed_after_failure = true)
  /\ (ClientChannel.error ClientChannel.sample_committed_call <> None ->
      ClientChannel.error ClientChannel.sample_committed_after_failure <> None)
  /\ ClientChannel.num_retry_attempts
       ClientChannel.sample_committed_after_failure
     = ClientChannel.num_retry_attempts ClientChannel.sample_committed_call
  /\ ClientChannel.retry_timer ClientChannel.sample_committed_after_failure
     = ClientChannel.retry_timer ClientChannel.sample_committed_call.
Proof.
  apply (settled_call_never_retries ClientChannel.sample_backoff_deadline
           (ClientChannel.cc_init_channel_elem None)
           [ClientChannel.OpMaybeRetry (Some ClientChannel.fresh_retry_state)
              GRPC_STATUS_UNAVAILABLE 0]
           ClientChannel.sample_committed_call
           ClientChannel.sample_committed_after_failure).
  - left. vm_compute. reflexivity.
  - vm_compute. reflexivity.
Defined.


Section SendOps.

Import ClientChannel.

Lemma build_recv_batches_send_side (pending : list pending_batch) :
  forall retry_state retry_state' batches,
    build_recv_batches pending retry_state = Some (retry_state', batches) ->
    send_started retry_state' = send_started retry_state
    /\ Forall (fun b => send_initial_metadata b = false
                        /\ send_message b = false
                        /\ send_trailing_metadata b = false) batches.
Proof.
  induction pending as [|p rest IH]; intros rs rs' batches.
  - intros [= <- <-]. auto.
  - simpl. destruct (batch p) as [b|]; [|apply IH].
    destruct (negb _ && negb _ && negb _); [apply IH|].
    destruct (_ && negb (collect_stats b)); [discriminate|].
    destruct (build_recv_batches rest _) as [[rs1 batches1]|] eqn:Hrest;
      [|discriminate]. simpl.
    intros [= <- <-]. apply IH in Hrest as [Hsame Hall].
    split; [exact Hsame|]. constructor; [simpl; auto|exact Hall].
Qed.

Lemma build_send_batch_once (calld : call_data)
    (retry_state retry_state' : subchannel_call_retry_state)
    (send_batch : option grpc_transport_stream_op_batch) :
  build_send_batch calld retry_state = Some (retry_state', send_batch) ->
  send_ops_started_once calld retry_state retry_state'
    (option_list send_batch).
Proof.
  unfold build_send_batch, send_ops_started_once.
  destruct (seen_send_initial_metadata calld
            && negb (started_send_initial_metadata retry_state)) eqn:Hinitial.
  - destruct (copy_cached_metadata (send_initial_metadata_storage calld))
      as [md|]; [|discriminate]. simpl.
    apply andb_true_iff in Hinitial as [_ Hstarted].
    apply negb_true_iff in Hstarted.
    destruct ((started_send_message_count retry_state
               <? num_send_message_ops calld)
              && negb (started_send_message_count retry_state
                       <? completed_send_message_count retry_state))
      eqn:Hmessage.
    + destruct (get_send_message_cache calld
                  (started_send_message_count retry_state))
        as [cache|] eqn:Hcache; [|discriminate]. simpl.
      unfold get_send_message_cache in Hcache.
      destruct (_ <? num_send_message_ops calld); [|discriminate].
      destruct (seen_send_trailing_metadata calld && _ && _) eqn:Htrailing.
      * destruct (copy_cached_metadata (send_trailing_metadata_storage calld))
          as [tmd|]; [|discriminate]. simpl.
        apply andb_true_iff in Htrailing as [_ Ht].
        apply negb_true_iff in Ht. simpl in Ht.
        intros [= <- <-]. simpl.
        split; [|split; [|split]]; try (intros; auto; fail).
        -- intros b [<-|[]]. simpl. auto 10.
        -- intros Hnone. exfalso.
           pose proof (Hnone _ (or_introl eq_refl)) as Hfalse.
           simpl in Hfalse. discriminate.
      * simpl. intros [= <- <-]. simpl.
        split; [|split; [|split]]; try (intros; auto; fail).
        -- intros b [<-|[]]. simpl. split; [auto|]. split; [auto|].
           intros [=].
        -- intros Hnone. exfalso.
           pose proof (Hnone _ (or_introl eq_refl)) as Hfalse.
           simpl in Hfalse. discriminate.
    + simpl.
      destruct (seen_send_trailing_metadata calld && _ && _) eqn:Htrailing.
      * destruct (copy_cached_metadata (send_trailing_metadata_storage calld))
          as [tmd|]; [|discriminate]. simpl.
        apply andb_true_iff in Htrailing as [_ Ht].
        apply negb_true_iff in Ht. simpl in Ht.
        intros [= <- <-]. simpl.
        split; [|split; [|split]]; try (intros; auto; fail).
        intros b [<-|[]]. simpl. split; [auto|]. split; [intros [=]|auto].
      * simpl. intros [= <- <-]. simpl.
        split; [|split; [|split]]; try (intros; auto; fail).
        intros b [<-|[]]. simpl. split; [auto|]. split; intros [=].
  - simpl.
    destruct ((started_send_message_count retry_state
               <? num_send_message_ops calld)
              && negb (started_send_message_count retry_state
                       <? completed_send_message_count retry_state))
      eqn:Hmessage.
    + destruct (get_send_message_cache calld
                  (started_send_message_count retry_state))
        as [cache|] eqn:Hcache; [|discriminate]. simpl.
      unfold get_send_message_cache in Hcache.
      destruct (_ <? num_send_message_ops calld); [|discriminate].
      destruct (seen_send_trailing_metadata calld && _ && _) eqn:Htrailing.
      * destruct (copy_cached_metadata (send_trailing_metadata_storage calld))
          as [tmd|]; [|discriminate]. simpl.
        apply andb_true_iff in Htrailing as [_ Ht].
        apply negb_true_iff in Ht. simpl in Ht.
        intros [= <- <-]. simpl.
        split; [|split; [|split]]; try (intros; auto; fail).
        -- intros b [<-|[]]. simpl. split; [intros [=]|]. auto.
        -- intros Hnone. exfalso.
           pose proof (Hnone _ (or_introl eq_refl)) as Hfalse.
           simpl in Hfalse. discriminate.
      * simpl. intros [= <- <-]. simpl.
        split; [|split; [|split]]; try (intros; auto; fail).
        -- intros b [<-|[]]. simpl. split; [intros [=]|].
           split; [auto|intros [=]].
        -- intros Hnone. exfalso.
           pose proof (Hnone _ (or_introl eq_refl)) as Hfalse.
           simpl in Hfalse. discriminate.
    + simpl.
      destruct (seen_send_trailing_metadata calld && _ && _) eqn:Htrailing.
      * destruct (copy_cached_metadata (send_trailing_metadata_storage calld))
          as [tmd|]; [|discriminate]. simpl.
        apply andb_true_iff in Htrailing as [_ Ht].
        apply negb_true_iff in Ht. simpl in Ht.
        intros [= <- <-]. simpl.
        split; [|split; [|split]]; try (intros; auto; fail).
        intros b [<-|[]]. simpl. split; [intros [=]|].
        split; [intros [=]|auto].
      * simpl. intros [= <- <-]. simpl.
        split; [|split; [|split]]; try (intros; auto; fail).
        intros b [].
Qed.

(** X10.  The batches that [start_retriable_subchannel_batches] gives to a
    subchannel call start every send op at most once on that call: a batch
    carries [send_initial_metadata] or [send_trailing_metadata] only if the
    op was not started on the call before, and it is marked started
    afterwards; a batch that carries [send_message] carries the cached message
    whose index is the number of messages started before, and that number
    goes up by one; without such a batch the number stays.  Only the first
    batch can carry send ops. *)
Theorem start_retriable_subchannel_batches_send_ops (chand : channel_data)
    (calld calld' : call_data) (rs : subchannel_call_retry_state)
    (batches : list grpc_transport_stream_op_batch) :
  subchannel_call calld = Some rs ->
  start_retriable_subchannel_batches chand calld = Some (calld', batches) ->
  exists rs',
    subchannel_call calld' = Some rs'
    /\ send_ops_started_once calld' rs rs' batches
    /\ Forall (fun b => send_initial_metadata b = false
                        /\ send_message b = false
                        /\ send_trailing_metadata b = false) (tail batches).
Proof.
  intros Hcall. unfold start_retriable_subchannel_batches.
  generalize (seq 0 MAX_PENDING_BATCHES). intros indices.
  rewrite Hcall. simpl.
  destruct (retry_checks_for_pending_batches chand calld indices)
    as [calld1|]; [|discriminate]. simpl.
  destruct (build_send_batch calld1 rs) as [[rs1 send_batch]|] eqn:Hsend;
    [|discriminate]. simpl.
  destruct (build_recv_batches (pending_batches calld1) rs1)
    as [[rs2 recv_batches]|] eqn:Hrecv; [|discriminate]. simpl.
  destruct (_ <? _)%nat; [discriminate|].
  destruct (_ =? _)%nat; [discriminate|].
  intros [= <- <-]. exists rs2. simpl. split; [reflexivity|].
  apply build_send_batch_once in Hsend.
  apply build_recv_batches_send_side in Hrecv as [Hsame Hrecv].
  unfold send_started in Hsame. injection Hsame as Hcount Hinitial Htrailing.
  destruct Hsend as (Hops & Hnone & Hi & Ht).
  rewrite Forall_forall in Hrecv.
  split.
  - unfold send_ops_started_once. simpl.
    rewrite Hcount, Hinitial, Htrailing.
    split; [|split; [|auto]].
    + intros b Hin. apply in_app_or in Hin as [Hin|Hin].
      * apply Hops. exact Hin.
      * apply list_elem_of_In in Hin.
        destruct (Hrecv _ Hin) as (-> & -> & ->).
        repeat split; discriminate.
    + intros Hfalse. apply Hnone. intros b Hin. apply Hfalse.
      apply in_or_app. auto.
  - apply Forall_forall. intros b Hin. apply list_elem_of_In in Hin.
    apply Hrecv. apply list_elem_of_In.
    destruct send_batch as [sb|]; simpl in Hin; [exact Hin|].
    destruct recv_batches; simpl in Hin; [contradiction|]. right. exact Hin.
Qed.

Lemma start_retriable_subchannel_batches_send_ops_witness :
  exists rs',
    subchannel_call sample_first_attempt = Some rs'
    /\ send_ops_started_once sample_first_attempt fresh_retry_state rs'
         [sample_unary_batch]
    /\ Forall (fun b => send_initial_metadata b = false
                        /\ send_message b = false
                        /\ send_trailing_metadata b = false)
         (tail [sample_unary_batch]).
Proof.
  apply (start_retriable_subchannel_batches_send_ops
           (cc_init_channel_elem None)
           (create_subchannel_call sample_waiting_call)
           sample_first_attempt fresh_retry_state [sample_unary_batch]).
  - reflexivity.
  - vm_compute. reflexivity.
Defined.

End SendOps.


(** ** Round-robin policy: rotation, cancellation, shutdown *)

Section RoundRobinRotation.

Import RoundRobin.

Variable sl : grpc_lb_subchannel_list.
Variable pick : PickState.

Hypothesis list_not_empty : 0 < num_subchannels sl.
Hypothesis list_fits : 2 * num_subchannels sl <= SIZE_MAX.
Hypothesis all_ready :
  Forall (fun sd => curr_connectivity_state sd = GRPC_CHANNEL_READY)
    (subchannels sl).

Lemma ready_at_all (index : Z) :
  0 <= index < num_subchannels sl -> ready_at sl index = true.
Proof.
  intros Hrange. unfold ready_at.
  destruct (subchannels sl !! Z.to_nat index) as [sd|] eqn:Hsd.
  - rewrite Forall_forall in all_ready.
    rewrite (all_ready sd); [reflexivity|].
    eapply list_elem_of_lookup_2. exact Hsd.
  - apply lookup_ge_None in Hsd. unfold num_subchannels in Hrange. lia.
Qed.

Lemma PickLocked_all_ready (p : RoundRobin) (sd : grpc_lb_subchannel_data) :
  shutdown_ p = false ->
  subchannel_list_ p = Some sl ->
  0 <= last_ready_subchannel_index_ p ->
  last_ready_subchannel_index_ p + num_subchannels sl <= SIZE_MAX ->
  subchannels sl
    !! Z.to_nat ((last_ready_subchannel_index_ p + 1) mod num_subchannels sl)
  = Some sd ->
  PickLocked p pick
  = Some (true,
          set_last_ready_subchannel_index
            ((last_ready_subchannel_index_ p + 1) mod num_subchannels sl) p,
          picked pick sd).
Proof.
  intros Hshutdown Hlist Hlast Hbound Hsd.
  assert (Hrange : 0 <= (last_ready_subchannel_index_ p + 1)
                        mod num_subchannels sl < num_subchannels sl)
    by (apply Z.mod_pos_bound; exact list_not_empty).
  assert (Hnext : next_ready_from sl (last_ready_subchannel_index_ p)
                    (length (subchannels sl)) 0
                  = (last_ready_subchannel_index_ p + 1)
                    mod num_subchannels sl).
  { rewrite (next_ready_from_found sl (last_ready_subchannel_index_ p)
               (conj Hlast Hbound) (length (subchannels sl)) 0 0).
    - unfold scan_index. rewrite Z.add_0_r. reflexivity.
    - lia.
    - unfold num_subchannels in list_not_empty. lia.
    - unfold num_subchannels. lia.
    - apply ready_at_all. apply scan_index_range. exact list_not_empty.
    - intros k' Hk'. lia. }
  unfold PickLocked. rewrite Hshutdown, Hlist.
  unfold GetNextReadySubchannelIndexLocked. rewrite Hlist. simpl.
  rewrite Hnext.
  destruct (Z.ltb_spec ((last_ready_subchannel_index_ p + 1)
                        mod num_subchannels sl) (num_subchannels sl));
    [|lia].
  rewrite Hsd. simpl.
  unfold UpdateLastReadySubchannelIndexLocked. rewrite Hlist. simpl.
  destruct (Z.ltb_spec ((last_ready_subchannel_index_ p + 1)
                        mod num_subchannels sl) (num_subchannels sl));
    [|lia].
  reflexivity.
Qed.

(** X11.  Rotation.  While every subchannel of the current list is READY,
    successive picks go round the list: after [n] picks, the next one
    completes at once with the subchannel at index [(last + 1 + n) mod N],
    where [last] is the index the policy started from and [N] the number of
    subchannels. *)
Theorem round_robin_rotation (n : nat) :
  forall (p : RoundRobin) (sd : grpc_lb_subchannel_data),
    shutdown_ p = false ->
    subchannel_list_ p = Some sl ->
    0 <= last_ready_subchannel_index_ p ->
    last_ready_subchannel_index_ p + num_subchannels sl <= SIZE_MAX ->
    subchannels sl
      !! Z.to_nat ((last_ready_subchannel_index_ p + 1 + Z.of_nat n)
                   mod num_subchannels sl)
    = Some sd ->
    exists p' p'',
      pick_repeatedly p pick n = Some p'
      /\ PickLocked p' pick = Some (true, p'', picked pick sd).
Proof.
  induction n as [|n IH]; intros p sd Hshutdown Hlist Hlast Hbound Hsd.
  - simpl. rewrite Z.add_0_r in Hsd.
    exists p. eexists. split; [reflexivity|].
    apply PickLocked_all_ready; assumption.
  - assert (Hrange : 0 <= (last_ready_subchannel_index_ p + 1)
                          mod num_subchannels sl < num_subchannels sl)
      by (apply Z.mod_pos_bound; exact list_not_empty).
    destruct (subchannels sl
                !! Z.to_nat ((last_ready_subchannel_index_ p + 1)
                             mod num_subchannels sl)) as [first|] eqn:Hfirst.
    2:{ apply lookup_ge_None in Hfirst. unfold num_subchannels in *. lia. }
    pose proof (PickLocked_all_ready p first Hshutdown Hlist Hlast Hbound
                  Hfirst) as Hpick.
    assert (Heq : ((last_ready_subchannel_index_ p + 1)
                   mod num_subchannels sl + 1 + Z.of_nat n)
                  mod num_subchannels sl
                  = (last_ready_subchannel_index_ p + 1 + Z.of_nat (S n))
                    mod num_subchannels sl).
    { rewrite <- Z.add_assoc, Z.add_mod_idemp_l by lia.
      f_equal. lia. }
    cbn [pick_repeatedly]. rewrite Hpick.
    apply IH.
    + exact Hshutdown.
    + exact Hlist.
    + simpl. lia.
    + simpl. lia.
    + simpl. rewrite Heq. exact Hsd.
Qed.

End RoundRobinRotation.

Lemma round_robin_rotation_witness :
  exists p' p'',
    RoundRobin.pick_repeatedly RoundRobin.sample_ready_policy
      RoundRobin.sample_pick 3 = Some p'
    /\ RoundRobin.PickLocked p' RoundRobin.sample_pick
       = Some (true, p'',
               RoundRobin.picked RoundRobin.sample_pick
                 (RoundRobin.sample_subchannel "B" GRPC_CHANNEL_READY)).
Proof.
  apply (round_robin_rotation RoundRobin.sample_ready_list
           RoundRobin.sample_pick);
    try (vm_compute; reflexivity); try (vm_compute; discriminate).
  repeat constructor.
Defined.


Section RoundRobinPendingPicks.

Import RoundRobin.

Lemma cancel_picks_from_spec (picks : list PickState) (mask value : Z) :
  forall kept cancelled,
    cancel_picks_from picks mask value kept cancelled
    = ((rev (List.filter (fun pick => negb (pick_matches mask value pick))
               picks) ++ kept)%list,
       (cancelled ++ List.filter (pick_matches mask value) picks)%list).
Proof.
  induction picks as [|pick next IH]; intros kept cancelled.
  - simpl. rewrite app_nil_r. reflexivity.
  - cbn [cancel_picks_from List.filter].
    change (Z.land (initial_metadata_flags pick) mask =? value)
      with (pick_matches mask value pick).
    destruct (pick_matches mask value pick); simpl.
    + rewrite IH, <- app_assoc. reflexivity.
    + rewrite IH, <- app_assoc. reflexivity.
Qed.

(** X12.  [CancelPicksLocked] splits the pending picks in two: the picks
    whose flags under the mask equal the value get their closure scheduled
    with the error "Pick Cancelled", in the order of the list, and keep the
    connected subchannel they had; the others stay pending, in reverse
    order.  No pick is lost or handled twice. *)
Theorem CancelPicksLocked_partition (p : RoundRobin) (mask value : Z) :
  let '(p', completions) := CancelPicksLocked p mask value in
  map completed completions
  = List.filter (pick_matches mask value) (pending_picks_ p)
  /\ Forall (fun c => completion_error c = Some "Pick Cancelled") completions
  /\ pending_picks_ p'
     = rev (List.filter (fun pick => negb (pick_matches mask value pick))
              (pending_picks_ p))
  /\ Permutation (pending_picks_ p)
       (map completed completions ++ pending_picks_ p').
Proof.
  unfold CancelPicksLocked. rewrite cancel_picks_from_spec. simpl.
  rewrite app_nil_r, map_map. simpl. rewrite map_id.
  split; [reflexivity|]. split; [apply Forall_map, Forall_true; auto|].
  split; [reflexivity|].
  rewrite <- Permutation_rev.
  induction (pending_picks_ p) as [|pick rest IH]; simpl; [constructor|].
  destruct (pick_matches mask value pick); simpl.
  - constructor. exact IH.
  - rewrite <- Permutation_middle. constructor. exact IH.
Qed.

Lemma PickLocked_pending (p p' : RoundRobin) (pick pick' : PickState)
    (done : bool) :
  PickLocked p pick = Some (done, p', pick') ->
  shutdown_ p' = false
  /\ subchannel_list_ p' = subchannel_list_ p
  /\ pending_picks_ p'
     = (if done then pending_picks_ p else pick :: pending_picks_ p).
Proof.
  unfold PickLocked.
  destruct (shutdown_ p) eqn:Hshutdown; [discriminate|].
  assert (Hqueue :
    (p0 ← (if started_picking_ p then Some p else StartPickingLocked p);
     Some (false, set_pending_picks (pick :: pending_picks_ p0) p0, pick))
    = Some (done, p', pick') ->
    shutdown_ p' = false
    /\ subchannel_list_ p' = subchannel_list_ p
    /\ pending_picks_ p'
       = (if done then pending_picks_ p else pick :: pending_picks_ p)).
  { destruct (started_picking_ p); simpl.
    - intros [= <- <- _]. simpl. auto.
    - unfold StartPickingLocked.
      destruct (subchannel_list_ p) eqn:Hl; [|discriminate]. simpl.
      intros [= <- <- _]. simpl. rewrite Hl. auto. }
  destruct (subchannel_list_ p) as [sl|] eqn:Hlist; [|exact Hqueue].
  unfold GetNextReadySubchannelIndexLocked. rewrite Hlist. simpl.
  destruct (_ <? num_subchannels sl); [|exact Hqueue].
  destruct (subchannels sl !! _) as [sd|]; [|discriminate]. simpl.
  unfold UpdateLastReadySubchannelIndexLocked. rewrite Hlist. simpl.
  destruct (_ <? num_subchannels sl); [|discriminate]. simpl.
  intros [= <- <- _]. simpl. auto.
Qed.

Lemma next_ready_from_range (sl : grpc_lb_subchannel_list) (last_ready : Z)
    (remaining : nat) :
  forall i,
    0 <= next_ready_from sl last_ready remaining i <= num_subchannels sl.
Proof.
  induction remaining as [|remaining IH]; intros i; simpl.
  - unfold num_subchannels. lia.
  - destruct (subchannels sl !! _) as [sd|] eqn:Hsd; [|apply IH].
    destruct (grpc_connectivity_state_eqb _ _); [|apply IH].
    assert (0 < num_subchannels sl).
    { apply lookup_lt_Some in Hsd. unfold num_subchannels. lia. }
    pose proof (Z.mod_pos_bound (size_t_wrap (i + last_ready + 1))
                  (num_subchannels sl)). lia.
Qed.

Lemma PickLocked_total (p : RoundRobin) (pick : PickState) :
  shutdown_ p = false ->
  subchannel_list_ p <> None ->
  is_Some (PickLocked p pick).
Proof.
  intros Hshutdown Hlist. unfold PickLocked. rewrite Hshutdown.
  destruct (subchannel_list_ p) as [sl|] eqn:Hsl; [|congruence].
  assert (Hqueue : is_Some
    (p0 ← (if started_picking_ p then Some p else StartPickingLocked p);
     Some (false, set_pending_picks (pick :: pending_picks_ p0) p0, pick))).
  { destruct (started_picking_ p); simpl; [eauto|].
    unfold StartPickingLocked. rewrite Hsl. simpl. eauto. }
  unfold GetNextReadySubchannelIndexLocked. rewrite Hsl. simpl.
  pose proof (next_ready_from_range sl (last_ready_subchannel_index_ p)
                (length (subchannels sl)) 0) as Hrange.
  destruct (Z.ltb_spec (next_ready_from sl (last_ready_subchannel_index_ p)
                          (length (subchannels sl)) 0) (num_subchannels sl))
    as [Hlt|_]; [|exact Hqueue].
  destruct (subchannels sl !! _) as [sd|] eqn:Hsd.
  2:{ apply lookup_ge_None in Hsd. unfold num_subchannels in Hlt. lia. }
  simpl. unfold UpdateLastReadySubchannelIndexLocked. rewrite Hsl. simpl.
  destruct (Z.ltb_spec (next_ready_from sl (last_ready_subchannel_index_ p)
                          (length (subchannels sl)) 0) (num_subchannels sl));
    [|lia].
  simpl. eauto.
Qed.

Lemma hand_off_picks_spec (picks : list PickState) :
  forall new_policy,
    shutdown_ new_policy = false ->
    subchannel_list_ new_policy <> None ->
    exists new_policy' completions,
      hand_off_picks picks new_policy = Some (new_policy', completions)
      /\ (length (pending_picks_ new_policy') + length completions
          = length (pending_picks_ new_policy) + length picks)%nat
      /\ Forall (fun c => completion_error c = None) completions.
Proof.
  induction picks as [|pick next IH]; intros new_policy Hshutdown Hlist.
  - exists new_policy, []. simpl. split; [reflexivity|]. split; [lia|auto].
  - simpl.
    destruct (PickLocked_total new_policy pick Hshutdown Hlist)
      as [[[done np1] pick1] Hpick].
    rewrite Hpick. simpl.
    apply PickLocked_pending in Hpick as (Hs1 & Hl1 & Hp1).
    destruct (IH np1 Hs1) as (np2 & completions & Hrest & Hcount & Herr);
      [congruence|].
    rewrite Hrest. simpl.
    exists np2. eexists. split; [reflexivity|].
    rewrite Hp1 in Hcount.
    destruct done; simpl in *; (split; [lia|auto]).
Qed.

(** X13.  [HandOffPendingPicksLocked] to a round-robin policy that is not
    shut down and has a subchannel list fails no assertion and loses no
    pick: afterwards the old policy has no pending pick, and every pick that
    was pending there has either got its closure scheduled without error or
    is pending at the new policy. *)
Theorem HandOffPendingPicksLocked_conserves_picks (p new_policy : RoundRobin) :
  shutdown_ new_policy = false ->
  subchannel_list_ new_policy <> None ->
  exists p' new_policy' completions,
    HandOffPendingPicksLocked p new_policy
    = Some (p', new_policy', completions)
    /\ pending_picks_ p' = []
    /\ (length (pending_picks_ new_policy') + length completions
        = length (pending_picks_ new_policy) + length (pending_picks_ p))%nat
    /\ Forall (fun c => completion_error c = None) completions.
Proof.
  intros Hshutdown Hlist. unfold HandOffPendingPicksLocked.
  destruct (hand_off_picks_spec (pending_picks_ p) new_policy Hshutdown Hlist)
    as (np & completions & Hrun & Hcount & Herr).
  rewrite Hrun. simpl.
  exists (set_pending_picks [] p), np, completions. auto.
Qed.

Lemma HandOffPendingPicksLocked_conserves_picks_witness :
  exists p' new_policy' completions,
    HandOffPendingPicksLocked sample_queued_policy sample_ready_policy
    = Some (p', new_policy', completions)
    /\ pending_picks_ p' = []
    /\ (length (pending_picks_ new_policy') + length completions
        = length (pending_picks_ sample_ready_policy)
          + length (pending_picks_ sample_queued_policy))%nat
    /\ Forall (fun c => completion_error c = None) completions.
Proof.
  apply (HandOffPendingPicksLocked_conserves_picks sample_queued_policy
           sample_ready_policy).
  - reflexivity.
  - discriminate.
Defined.

(** X14.  [ShutdownLocked] schedules the closure of every pending pick once,
    with an error and without a connected subchannel, and leaves a policy
    that has no pending pick and no subchannel list.  On that policy a
    further pick fails the assertion of [PickLocked], a connectivity
    notification of any subchannel changes nothing, completes nothing and
    does not renew the watch, and [CancelPicksLocked] finds nothing to
    cancel. *)
Theorem ShutdownLocked_final (p : RoundRobin) :
  let '(p', completions) := ShutdownLocked p in
  map completed completions
  = map (set_pick_connected_subchannel None) (pending_picks_ p)
  /\ Forall (fun c => pick_connected_subchannel (completed c) = None
                      /\ completion_error c <> None) completions
  /\ pending_picks_ p' = []
  /\ subchannel_list_ p' = None
  /\ latest_pending_subchannel_list_ p' = None
  /\ (forall pick, PickLocked p' pick = None)
  /\ (forall list i new_state error cancelled,
        OnConnectivityChangedLocked p' list i new_state error cancelled
        = Some {| policy_after := p'; picks_completed := [];
                  watch_renewed := false |})
  /\ (forall mask value, CancelPicksLocked p' mask value = (p', [])).
Proof.
  unfold ShutdownLocked. simpl.
  split; [rewrite map_map; reflexivity|].
  split; [apply Forall_map, Forall_true; simpl; auto|].
  auto 10.
Qed.

End RoundRobinPendingPicks.


Section RoundRobinConnectivity.

Import RoundRobin.

Lemma filter_length_insert {A : Type} (f : A -> bool) (l : list A) (i : nat)
    (x y : A) :
  l !! i = Some x ->
  Z.of_nat (length (List.filter f (<[i := y]> l)))
  = Z.of_nat (length (List.filter f l))
    - (if f x then 1 else 0) + (if f y then 1 else 0).
Proof.
  intros Hx.
  rewrite (insert_take_drop l i y) by (eapply lookup_lt_Some; exact Hx).
  rewrite <- (take_drop_middle l i x Hx) at 3.
  rewrite !List.filter_app, !length_app. simpl.
  destruct (f x), (f y); simpl; lia.
Qed.

Lemma count_prev_state_insert (state : grpc_connectivity_state)
    (sl : grpc_lb_subchannel_list) (i : nat)
    (sd sd' : grpc_lb_subchannel_data) :
  subchannels sl !! i = Some sd ->
  count_prev_state state (set_subchannels (<[i := sd']> (subchannels sl)) sl)
  = count_prev_state state sl
    - (if grpc_connectivity_state_eqb (prev_connectivity_state sd) state
       then 1 else 0)
    + (if grpc_connectivity_state_eqb (prev_connectivity_state sd') state
       then 1 else 0).
Proof.
  intros Hsd. unfold count_prev_state. simpl.
  apply (filter_length_insert
           (fun sd => grpc_connectivity_state_eqb (prev_connectivity_state sd)
                        state)).
  exact Hsd.
Qed.

Lemma count_prev_state_bounds (state : grpc_connectivity_state)
    (sl : grpc_lb_subchannel_list) (i : nat) (sd : grpc_lb_subchannel_data) :
  subchannels sl !! i = Some sd ->
  0 <= count_prev_state state sl <= num_subchannels sl
  /\ (prev_connectivity_state sd = state -> 0 < count_prev_state state sl)
  /\ (prev_connectivity_state sd <> state ->
      count_prev_state state sl < num_subchannels sl).
Proof.
  intros Hsd. unfold count_prev_state, num_subchannels.
  rewrite <- (take_drop_middle _ _ _ Hsd).
  rewrite !List.filter_app, !length_app. simpl.
  pose proof (List.filter_length_le
                (fun sd => grpc_connectivity_state_eqb
                             (prev_connectivity_state sd) state)
                (take i (subchannels sl))).
  pose proof (List.filter_length_le
                (fun sd => grpc_connectivity_state_eqb
                             (prev_connectivity_state sd) state)
                (drop (S i) (subchannels sl))).
  split; [|split].
  - destruct (grpc_connectivity_state_eqb _ _); simpl; lia.
  - intros ->.
    replace (grpc_connectivity_state_eqb state state) with true
      by (destruct state; reflexivity).
    simpl. lia.
  - intros Hne.
    replace (grpc_connectivity_state_eqb (prev_connectivity_state sd) state)
      with false
      by (destruct (prev_connectivity_state sd), state;
          simpl; congruence).
    lia.
Qed.

Lemma count_prev_state_set_counters (state : grpc_connectivity_state)
    (ready transient_failures shutdown idle : Z)
    (sl : grpc_lb_subchannel_list) :
  count_prev_state state
    (set_counters ready transient_failures shutdown idle sl)
  = count_prev_state state sl.
Proof. reflexivity. Qed.

Lemma count_prev_state_set_subchannels (state : grpc_connectivity_state)
    (ready transient_failures shutdown idle : Z)
    (v : list grpc_lb_subchannel_data) (sl : grpc_lb_subchannel_list) :
  count_prev_state state
    (set_subchannels v
       (set_counters ready transient_failures shutdown idle sl))
  = count_prev_state state (set_subchannels v sl).
Proof. reflexivity. Qed.

Lemma UpdateStateCountersLocked_spec (sl : grpc_lb_subchannel_list)
    (i : nat) (sd : grpc_lb_subchannel_data) :
  num_subchannels sl <= SIZE_MAX ->
  counters_consistent sl ->
  subchannels sl !! i = Some sd ->
  exists sl',
    UpdateStateCountersLocked sl i = Some sl'
    /\ counters_consistent sl'
    /\ subchannels sl'
       = <[i := set_connectivity_states (curr_connectivity_state sd)
                   (curr_connectivity_state sd) sd]> (subchannels sl)
    /\ shutting_down sl' = shutting_down sl.
Proof.
  intros Hfits (Hready & Hfailures & Hshutdown & Hidle) Hsd.
  pose proof (count_prev_state_bounds GRPC_CHANNEL_READY sl i sd Hsd)
    as (Hr1 & Hr2 & Hr3).
  pose proof (count_prev_state_bounds GRPC_CHANNEL_TRANSIENT_FAILURE sl i sd
                Hsd) as (Hf1 & Hf2 & Hf3).
  pose proof (count_prev_state_bounds GRPC_CHANNEL_SHUTDOWN sl i sd Hsd)
    as (Hs1 & Hs2 & Hs3).
  pose proof (count_prev_state_bounds GRPC_CHANNEL_IDLE sl i sd Hsd)
    as (Hi1 & Hi2 & Hi3).
  pose proof (fun state =>
                count_prev_state_insert state sl i sd
                  (set_connectivity_states (curr_connectivity_state sd)
                     (curr_connectivity_state sd) sd) Hsd) as Hcount.
  pose proof (Hcount GRPC_CHANNEL_READY) as Hc1.
  pose proof (Hcount GRPC_CHANNEL_TRANSIENT_FAILURE) as Hc2.
  pose proof (Hcount GRPC_CHANNEL_SHUTDOWN) as Hc3.
  pose proof (Hcount GRPC_CHANNEL_IDLE) as Hc4.
  clear Hcount.
  unfold UpdateStateCountersLocked. rewrite Hsd.
  unfold counters_consistent.
  cbn -[count_prev_state size_t_wrap decrement_state_counter
        increment_state_counter].
  destruct (prev_connectivity_state sd) eqn:Hprev;
    destruct (curr_connectivity_state sd) eqn:Hcurr;
    cbn -[count_prev_state size_t_wrap] in *;
    repeat match goal with
           | H : ?a = ?a -> _ |- _ => specialize (H eq_refl)
           | H : ?a <> ?b -> _ |- _ => specialize (H ltac:(discriminate))
           end;
    repeat match goal with
           | |- context [0 <? ?x] =>
               destruct (Z.ltb_spec 0 x); [|exfalso; lia]
           end;
    cbn -[count_prev_state size_t_wrap];
    eexists; (split; [reflexivity|]);
    cbn -[count_prev_state size_t_wrap];
    rewrite ?size_t_wrap_small by lia;
    (split; [|split; reflexivity]);
    rewrite ?count_prev_state_set_counters,
      ?count_prev_state_set_subchannels;
    lia.
Qed.

(** X15.  The four state counters of a subchannel list count the subchannels
    by the state they were last seen in.  [UpdateStateCountersLocked] keeps
    them so: on a list whose counters agree with the previous states of its
    subchannels none of its assertions fails, the previous state of the
    subchannel becomes its current state, and the counters agree with the
    previous states again. *)
Theorem UpdateStateCountersLocked_consistent (sl : grpc_lb_subchannel_list)
    (i : nat) (sd : grpc_lb_subchannel_data) :
  num_subchannels sl <= SIZE_MAX ->
  counters_consistent sl ->
  subchannels sl !! i = Some sd ->
  exists sl',
    UpdateStateCountersLocked sl i = Some sl'
    /\ counters_consistent sl'
    /\ subchannels sl'
       = <[i := set_connectivity_states (curr_connectivity_state sd)
                   (curr_connectivity_state sd) sd]> (subchannels sl)
    /\ shutting_down sl' = shutting_down sl.
Proof. apply UpdateStateCountersLocked_spec. Qed.

Lemma UpdateStateCountersLocked_consistent_witness :
  exists sl',
    UpdateStateCountersLocked sample_changed_list 0 = Some sl'
    /\ counters_consistent sl'
    /\ subchannels sl'
       = <[0%nat := set_connectivity_states
                      (curr_connectivity_state sample_changed_subchannel)
                      (curr_connectivity_state sample_changed_subchannel)
                      sample_changed_subchannel]>
           (subchannels sample_changed_list)
    /\ shutting_down sl' = shutting_down sample_changed_list.
Proof.
  apply (UpdateStateCountersLocked_consistent sample_changed_list 0
           sample_changed_subchannel).
  - vm_compute. discriminate.
  - vm_compute. auto.
  - reflexivity.
Defined.

Lemma next_ready_from_result (sl : grpc_lb_subchannel_list) (last_ready : Z) :
  0 <= last_ready /\ last_ready + num_subchannels sl <= SIZE_MAX ->
  forall remaining i,
    0 <= i -> i + Z.of_nat remaining <= num_subchannels sl ->
    (0 <= next_ready_from sl last_ready remaining i < num_subchannels sl
     /\ ready_at sl (next_ready_from sl last_ready remaining i) = true)
    \/ (next_ready_from sl last_ready remaining i = num_subchannels sl
        /\ forall k, i <= k < i + Z.of_nat remaining ->
                     ready_at sl (scan_index sl last_ready k) = false).
Proof.
  intros Hbound. induction remaining as [|remaining IH]; intros i Hi Hfit.
  - right. split; [reflexivity|]. intros k Hk. lia.
  - rewrite (next_ready_from_step sl last_ready Hbound) by lia.
    destruct (ready_at sl (scan_index sl last_ready i)) eqn:Hready.
    + left. split; [|exact Hready]. apply scan_index_range. lia.
    + destruct (IH (i + 1)) as [Hfound|[Hnone Hall]]; [lia|lia|auto|].
      right. split; [exact Hnone|].
      intros k Hk. destruct (Z.eq_dec k i) as [->|Hne]; [exact Hready|].
      apply Hall. lia.
Qed.

Lemma next_ready_from_exists (sl : grpc_lb_subchannel_list) (last_ready j : Z) :
  0 <= last_ready /\ last_ready + num_subchannels sl <= SIZE_MAX ->
  0 <= j < num_subchannels sl ->
  ready_at sl j = true ->
  0 <= next_ready_from sl last_ready (length (subchannels sl)) 0
    < num_subchannels sl
  /\ ready_at sl (next_ready_from sl last_ready (length (subchannels sl)) 0)
     = true.
Proof.
  intros Hbound Hj Hready.
  destruct (next_ready_from_result sl last_ready Hbound
              (length (subchannels sl)) 0) as [Hfound|[_ Hall]];
    [lia|unfold num_subchannels; lia|exact Hfound|].
  exfalso.
  assert (Hk : 0 <= (j - last_ready - 1) mod num_subchannels sl
               < num_subchannels sl) by (apply Z.mod_pos_bound; lia).
  specialize (Hall ((j - last_ready - 1) mod num_subchannels sl)).
  unfold scan_index in Hall.
  rewrite Z.add_mod_idemp_r in Hall by lia.
  replace (last_ready + 1 + (j - last_ready - 1)) with j in Hall by lia.
  rewrite (Z.mod_small j) in Hall by lia.
  rewrite Hall in Hready; [discriminate|].
  unfold num_subchannels in *. lia.
Qed.

Lemma ready_at_insert (sl : grpc_lb_subchannel_list) (i : nat)
    (sd : grpc_lb_subchannel_data) :
  (i < length (subchannels sl))%nat ->
  curr_connectivity_state sd = GRPC_CHANNEL_READY ->
  ready_at (set_subchannels (<[i := sd]> (subchannels sl)) sl) (Z.of_nat i)
  = true.
Proof.
  intros Hi Hready. unfold ready_at. simpl.
  rewrite Nat2Z.id, list_lookup_insert_eq by exact Hi.
  rewrite Hready. reflexivity.
Qed.

End RoundRobinConnectivity.


Section RoundRobinReady.

Import RoundRobin.

Lemma fulfil_pending_picks_each (picks : list PickState)
    (selected : grpc_lb_subchannel_data) :
  Forall2
    (fun pick c =>
       completion_error c = None
       /\ pick_connected_subchannel (completed c)
          = connected_subchannel selected
       /\ pick_user_data (completed c)
          = match pick_user_data pick with
            | Some _ => Some (user_data selected)
            | None => None
            end
       /\ initial_metadata_flags (completed c)
          = initial_metadata_flags pick)
    picks (fulfil_pending_picks picks selected).
Proof.
  induction picks as [|pick rest IH]; simpl; constructor; auto.
Qed.

Variable p : RoundRobin.
Variable list : subchannel_list_ref.
Variable sl : grpc_lb_subchannel_list.
Variable i : nat.
Variable sd : grpc_lb_subchannel_data.
Variable error : option string.

Hypothesis policy_alive : shutdown_ p = false.
Hypothesis tracker_alive :
  current_state (state_tracker_ p) <> GRPC_CHANNEL_SHUTDOWN.
Hypothesis list_watched : list = CurrentList \/ list = LatestPendingList.
Hypothesis list_of_subchannel : referenced_list p list = Some sl.
Hypothesis list_alive : shutting_down sl = false.
Hypothesis counters : counters_consistent sl.
Hypothesis last_ready_fits :
  0 <= last_ready_subchannel_index_ p
  /\ last_ready_subchannel_index_ p + num_subchannels sl <= SIZE_MAX.
Hypothesis subchannel_at : subchannels sl !! i = Some sd.

(** X16.  A subchannel of the current or of the latest pending list is
    reported READY to a policy that is not shut down.  Then no assertion of
    [OnConnectivityChangedLocked] fails; the list of that subchannel is the
    current list afterwards (a latest pending list is promoted and the
    policy has no pending list any more); the policy is READY; every pending
    pick gets its closure scheduled without error, all of them with the
    connected subchannel and the user data of one and the same READY
    subchannel of the current list; no pick stays pending; and the watch of
    the subchannel is renewed. *)
Theorem OnConnectivityChangedLocked_ready :
  exists change current selected,
    OnConnectivityChangedLocked p list i GRPC_CHANNEL_READY error false
    = Some change
    /\ watch_renewed change = true
    /\ pending_picks_ (policy_after change) = []
    /\ Forall2
         (fun pick c =>
            completion_error c = None
            /\ pick_connected_subchannel (completed c)
               = connected_subchannel selected
            /\ pick_user_data (completed c)
               = match pick_user_data pick with
                 | Some _ => Some (user_data selected)
                 | None => None
                 end
            /\ initial_metadata_flags (completed c)
               = initial_metadata_flags pick)
         (pending_picks_ p) (picks_completed change)
    /\ subchannel_list_ (policy_after change) = Some current
    /\ ready_at current (Z.of_nat i) = true
    /\ In selected (subchannels current)
    /\ curr_connectivity_state selected = GRPC_CHANNEL_READY
    /\ current_state (state_tracker_ (policy_after change))
       = GRPC_CHANNEL_READY
    /\ (list = LatestPendingList ->
        latest_pending_subchannel_list_ (policy_after change) = None).
Proof.
  assert (Hi : (i < length (subchannels sl))%nat)
    by (eapply lookup_lt_Some; exact subchannel_at).
  set (sd1 := set_connectivity_states GRPC_CHANNEL_READY
                (prev_connectivity_state sd) sd).
  set (sl1 := set_subchannels (<[i := sd1]> (subchannels sl)) sl).
  assert (Hcons1 : counters_consistent sl1).
  { destruct counters as (Hr & Hf & Hs & Hd).
    unfold counters_consistent, sl1.
    rewrite !(count_prev_state_insert _ sl i sd sd1 subchannel_at).
    simpl. repeat split; lia. }
  assert (Hsd1 : subchannels sl1 !! i = Some sd1)
    by (apply list_lookup_insert_eq; exact Hi).
  assert (Hlen1 : num_subchannels sl1 = num_subchannels sl)
    by (unfold num_subchannels, sl1; simpl; rewrite length_insert;
        reflexivity).
  assert (Hfits1 : num_subchannels sl1 <= SIZE_MAX) by lia.
  destruct (UpdateStateCountersLocked_spec sl1 i sd1 Hfits1 Hcons1 Hsd1)
    as (sl2 & Hupdate & Hcons2 & Hsubs2 & Hshut2).
  simpl in Hsubs2. rewrite list_insert_insert_eq in Hsubs2.
  set (sd2 := set_connectivity_states GRPC_CHANNEL_READY GRPC_CHANNEL_READY
                sd1) in Hsubs2.
  assert (Hsd2 : subchannels sl2 !! i = Some sd2)
    by (rewrite Hsubs2; apply list_lookup_insert_eq; exact Hi).
  assert (Hready2 : (0 <? num_ready sl2) = true).
  { apply Z.ltb_lt. destruct Hcons2 as (-> & _).
    apply (count_prev_state_bounds GRPC_CHANNEL_READY sl2 i sd2 Hsd2).
    reflexivity. }
  assert (Hlen2 : num_subchannels sl2 = num_subchannels sl)
    by (unfold num_subchannels; rewrite Hsubs2, length_insert; reflexivity).
  set (sd3 := match connected_subchannel sd2 with
              | None => set_connected_subchannel (subchannel sd2) sd2
              | Some _ => sd2
              end).
  assert (Hcurr3 : curr_connectivity_state sd3 = GRPC_CHANNEL_READY)
    by (unfold sd3; destruct (connected_subchannel sd2); reflexivity).
  set (sl3 := set_subchannels (<[i := sd3]> (subchannels sl2)) sl2).
  assert (Hlen3 : num_subchannels sl3 = num_subchannels sl)
    by (unfold num_subchannels, sl3; simpl; rewrite length_insert;
        exact Hlen2).
  assert (Hready3 : ready_at sl3 (Z.of_nat i) = true).
  { apply ready_at_insert; [|exact Hcurr3].
    rewrite Hsubs2, length_insert. exact Hi. }
  destruct (next_ready_from_exists sl3 (last_ready_subchannel_index_ p)
              (Z.of_nat i)) as [Hrange Hselected];
    [rewrite Hlen3; exact last_ready_fits
    |rewrite Hlen3; unfold num_subchannels; lia
    |exact Hready3|].
  set (next := next_ready_from sl3 (last_ready_subchannel_index_ p)
                 (length (subchannels sl3)) 0) in *.
  destruct (ready_at_lookup sl3 next Hselected) as (selected & Hsel & Hsel_ready).
  unfold OnConnectivityChangedLocked.
  rewrite policy_alive, list_of_subchannel. simpl.
  rewrite list_alive. simpl.
  assert (Hin : In selected (subchannels sl3)).
  { apply list_elem_of_In. eapply list_elem_of_lookup_2. exact Hsel. }
  pose proof (grpc_connectivity_state_set_alive (state_tracker_ p)
                GRPC_CHANNEL_READY None tracker_alive) as Htracker.
  destruct list_watched as [Hl|Hl]; rewrite Hl in *; simpl in *.
  - rewrite subchannel_at. simpl. fold sd1. fold sl1.
    rewrite Hupdate. simpl. rewrite Hsd2. simpl.
    unfold UpdateConnectivityStatusLocked. simpl. rewrite Hready2. simpl.
    fold sd3. fold sl3.
    unfold GetNextReadySubchannelIndexLocked. simpl. fold next.
    destruct (Z.ltb_spec next (num_subchannels sl3)) as [_|Hge]; [|lia].
    rewrite Hsel. simpl.
    destruct (pending_picks_ p) as [|pick rest] eqn:Hpicks; simpl.
    + eexists. exists sl3, selected. split; [reflexivity|]. simpl.
      rewrite ?Hpicks.
      repeat (split; [solve [auto|constructor]|]). discriminate.
    + unfold UpdateLastReadySubchannelIndexLocked. simpl.
      destruct (Z.ltb_spec next (num_subchannels sl3)) as [_|Hge]; [|lia].
      simpl.
      eexists. exists sl3, selected. split; [reflexivity|]. simpl.
      rewrite ?Hpicks.
      repeat (split;
              [solve [auto
                     |apply (fulfil_pending_picks_each (pick :: rest) selected)]
              |]). discriminate.
  - rewrite subchannel_at. simpl. fold sd1. fold sl1.
    rewrite Hupdate. simpl. rewrite Hsd2. simpl.
    unfold UpdateConnectivityStatusLocked. simpl. rewrite Hready2. simpl.
    fold sd3. fold sl3.
    unfold GetNextReadySubchannelIndexLocked. simpl. fold next.
    destruct (Z.ltb_spec next (num_subchannels sl3)) as [_|Hge]; [|lia].
    rewrite Hsel. simpl.
    destruct (pending_picks_ p) as [|pick rest] eqn:Hpicks; simpl.
    + eexists. exists sl3, selected. split; [reflexivity|]. simpl.
      rewrite ?Hpicks.
      repeat (split; [solve [auto|constructor]|]). reflexivity.
    + unfold UpdateLastReadySubchannelIndexLocked. simpl.
      destruct (Z.ltb_spec next (num_subchannels sl3)) as [_|Hge]; [|lia].
      simpl.
      eexists. exists sl3, selected. split; [reflexivity|]. simpl.
      rewrite ?Hpicks.
      repeat (split;
              [solve [auto
                     |apply (fulfil_pending_picks_each (pick :: rest) selected)]
              |]). reflexivity.
Qed.

End RoundRobinReady.

Lemma OnConnectivityChangedLocked_ready_witness :
  exists change,
    RoundRobin.OnConnectivityChangedLocked RoundRobin.sample_queued_policy
      RoundRobin.CurrentList 0 GRPC_CHANNEL_READY None false
    = Some change
    /\ RoundRobin.pending_picks_ (RoundRobin.policy_after change) = []
    /\ length (RoundRobin.picks_completed change) = 2%nat
    /\ Forall (fun c => RoundRobin.completion_error c = None)
         (RoundRobin.picks_completed change)
    /\ current_state (RoundRobin.state_tracker_ (RoundRobin.policy_after change))
       = GRPC_CHANNEL_READY.
Proof.
  destruct (OnConnectivityChangedLocked_ready RoundRobin.sample_queued_policy
              RoundRobin.CurrentList RoundRobin.sample_list 0
              (RoundRobin.sample_subchannel "A" GRPC_CHANNEL_CONNECTING) None)
    as (change & current & selected & Hchange & _ & Hpending & Hpicks & _ & _
        & _ & _ & Hstate & _).
  - reflexivity.
  - simpl. discriminate.
  - left. reflexivity.
  - reflexivity.
  - reflexivity.
  - vm_compute. auto.
  - vm_compute. split; discriminate.
  - reflexivity.
  - exists change. split; [exact Hchange|]. split; [exact Hpending|].
    split.
    + apply Forall2_length in Hpicks. rewrite <- Hpicks. reflexivity.
    + split; [|exact Hstate].
      clear - Hpicks.
      induction Hpicks as [|pick c picks cs [Herr _] _ IH];
        constructor; assumption.
Defined.


Section RoundRobinNotReady.

Import RoundRobin.

Lemma filter_length_existsb {A : Type} (f : A -> bool) (l : list A) :
  (0 <? Z.of_nat (length (List.filter f l))) = existsb f l.
Proof.
  induction l as [|x l IH]; simpl; [reflexivity|].
  destruct (f x); simpl; [|exact IH].
  apply Z.ltb_lt. lia.
Qed.

Lemma failed_subchannels_count (l : list grpc_lb_subchannel_data) :
  let shutdown :=
    Z.of_nat
      (length
         (List.filter
            (fun sd =>
               grpc_connectivity_state_eqb (prev_connectivity_state sd)
                 GRPC_CHANNEL_SHUTDOWN) l)) in
  let failures :=
    Z.of_nat
      (length
         (List.filter
            (fun sd =>
               grpc_connectivity_state_eqb (prev_connectivity_state sd)
                 GRPC_CHANNEL_TRANSIENT_FAILURE) l)) in
  shutdown + failures <= Z.of_nat (length l)
  /\ (shutdown + failures =? Z.of_nat (length l))
     = forallb
         (fun sd =>
            grpc_connectivity_state_eqb (prev_connectivity_state sd)
              GRPC_CHANNEL_TRANSIENT_FAILURE
            || grpc_connectivity_state_eqb (prev_connectivity_state sd)
                 GRPC_CHANNEL_SHUTDOWN) l.
Proof.
  induction l as [|sd l [IHle IHeq]]; [split; [simpl; lia|reflexivity]|].
  cbn zeta in *. cbn [List.filter forallb length].
  destruct (prev_connectivity_state sd); cbn -[Z.of_nat Z.add Z.eqb];
    cbn [length]; rewrite ?Nat2Z.inj_succ; (split; [lia|]).
  - apply Z.eqb_neq. lia.
  - apply Z.eqb_neq. lia.
  - apply Z.eqb_neq. lia.
  - rewrite <- IHeq.
    destruct (Z.eqb_spec
                (Z.of_nat
                   (length
                      (List.filter
                         (fun sd =>
                            grpc_connectivity_state_eqb
                              (prev_connectivity_state sd)
                              GRPC_CHANNEL_SHUTDOWN) l))
                 + Z.of_nat
                     (length
                        (List.filter
                           (fun sd =>
                              grpc_connectivity_state_eqb
                                (prev_connectivity_state sd)
                                GRPC_CHANNEL_TRANSIENT_FAILURE) l)))
                (Z.of_nat (length l)));
      [apply Z.eqb_eq|apply Z.eqb_neq]; lia.
  - rewrite <- IHeq.
    destruct (Z.eqb_spec
                (Z.of_nat
                   (length
                      (List.filter
                         (fun sd =>
                            grpc_connectivity_state_eqb
                              (prev_connectivity_state sd)
                              GRPC_CHANNEL_SHUTDOWN) l))
                 + Z.of_nat
                     (length
                        (List.filter
                           (fun sd =>
                              grpc_connectivity_state_eqb
                                (prev_connectivity_state sd)
                                GRPC_CHANNEL_TRANSIENT_FAILURE) l)))
                (Z.of_nat (length l)));
      [apply Z.eqb_eq|apply Z.eqb_neq]; lia.
Qed.

Variable p : RoundRobin.
Variable list : subchannel_list_ref.
Variable sl : grpc_lb_subchannel_list.
Variable i : nat.
Variable sd : grpc_lb_subchannel_data.
Variable new_state : grpc_connectivity_state.
Variable error : option string.

Hypothesis policy_alive : shutdown_ p = false.
Hypothesis tracker_alive :
  current_state (state_tracker_ p) <> GRPC_CHANNEL_SHUTDOWN.
Hypothesis list_watched : list = CurrentList \/ list = LatestPendingList.
Hypothesis list_of_subchannel : referenced_list p list = Some sl.
Hypothesis list_alive : shutting_down sl = false.
Hypothesis list_fits : num_subchannels sl <= SIZE_MAX.
Hypothesis counters : counters_consistent sl.
Hypothesis subchannel_at : subchannels sl !! i = Some sd.
Hypothesis not_ready :
  new_state = GRPC_CHANNEL_CONNECTING
  \/ new_state = GRPC_CHANNEL_TRANSIENT_FAILURE.

(** X17.  A subchannel of the current or of the latest pending list is
    reported CONNECTING or TRANSIENT_FAILURE to a policy that is not shut
    down.  Then no assertion of [OnConnectivityChangedLocked] fails, no pick
    is completed and the pending picks stay pending, the watch of the
    subchannel is renewed, and the counters of the list agree with its
    subchannels again.  The policy is READY if another subchannel of that
    list was last seen READY; else CONNECTING if that is the state reported;
    else TRANSIENT_FAILURE if all subchannels of the list were last seen in
    TRANSIENT_FAILURE or SHUTDOWN; else it keeps its state.  It never
    becomes IDLE here. *)
Theorem OnConnectivityChangedLocked_not_ready :
  exists change sl',
    OnConnectivityChangedLocked p list i new_state error false = Some change
    /\ watch_renewed change = true
    /\ picks_completed change = []
    /\ pending_picks_ (policy_after change) = pending_picks_ p
    /\ started_picking_ (policy_after change) = started_picking_ p
    /\ referenced_list (policy_after change) list = Some sl'
    /\ counters_consistent sl'
    /\ subchannels sl'
       = <[i := set_connectivity_states new_state new_state sd]>
           (subchannels sl)
    /\ current_state (state_tracker_ (policy_after change))
       = if any_subchannel_ready sl' then GRPC_CHANNEL_READY
         else if grpc_connectivity_state_eqb new_state
                   GRPC_CHANNEL_CONNECTING
         then GRPC_CHANNEL_CONNECTING
         else if all_subchannels_failed sl'
         then GRPC_CHANNEL_TRANSIENT_FAILURE
         else current_state (state_tracker_ p).
Proof.
  assert (Hi : (i < length (subchannels sl))%nat)
    by (eapply lookup_lt_Some; exact subchannel_at).
  set (sd1 := set_connectivity_states new_state
                (prev_connectivity_state sd) sd).
  set (sl1 := set_subchannels (<[i := sd1]> (subchannels sl)) sl).
  assert (Hcons1 : counters_consistent sl1).
  { destruct counters as (Hr & Hf & Hs & Hd).
    unfold counters_consistent, sl1.
    rewrite !(count_prev_state_insert _ sl i sd sd1 subchannel_at).
    simpl. repeat split; lia. }
  assert (Hsd1 : subchannels sl1 !! i = Some sd1)
    by (apply list_lookup_insert_eq; exact Hi).
  assert (Hlen1 : num_subchannels sl1 = num_subchannels sl)
    by (unfold num_subchannels, sl1; simpl; rewrite length_insert;
        reflexivity).
  assert (Hfits1 : num_subchannels sl1 <= SIZE_MAX) by lia.
  destruct (UpdateStateCountersLocked_spec sl1 i sd1 Hfits1 Hcons1 Hsd1)
    as (sl2 & Hupdate & Hcons2 & Hsubs2 & Hshut2).
  simpl in Hsubs2. rewrite list_insert_insert_eq in Hsubs2.
  set (sd2 := set_connectivity_states new_state new_state sd1) in Hsubs2.
  assert (Hsd2 : subchannels sl2 !! i = Some sd2)
    by (rewrite Hsubs2; apply list_lookup_insert_eq; exact Hi).
  assert (Hlen2 : num_subchannels sl2 = num_subchannels sl)
    by (unfold num_subchannels; rewrite Hsubs2, length_insert; reflexivity).
  assert (Hready : (0 <? num_ready sl2) = any_subchannel_ready sl2).
  { destruct Hcons2 as (-> & _). apply filter_length_existsb. }
  assert (Hshutdown : (num_shutdown sl2 =? num_subchannels sl2) = false).
  { apply Z.eqb_neq. destruct Hcons2 as (_ & _ & -> & _).
    pose proof (count_prev_state_bounds GRPC_CHANNEL_SHUTDOWN sl2 i sd2 Hsd2)
      as (_ & _ & Hlt).
    assert (prev_connectivity_state sd2 <> GRPC_CHANNEL_SHUTDOWN)
      by (simpl; destruct not_ready as [-> | ->]; discriminate).
    specialize (Hlt ltac:(assumption)). lia. }
  assert (Hfailed :
    (size_t_wrap (num_shutdown sl2 + num_transient_failures sl2)
     =? num_subchannels sl2) = all_subchannels_failed sl2).
  { destruct Hcons2 as (_ & -> & -> & _).
    destruct (failed_subchannels_count (subchannels sl2)) as [Hle Heq].
    cbn zeta in Hle, Heq. unfold count_prev_state, num_subchannels in *.
    rewrite size_t_wrap_small by lia. exact Heq. }
  assert (Hsame : subchannels sl2
                  = <[i := set_connectivity_states new_state new_state sd]>
                      (subchannels sl)) by exact Hsubs2.
  assert (Hcurr : curr_connectivity_state sd2 = new_state) by reflexivity.
  unfold OnConnectivityChangedLocked.
  rewrite policy_alive, list_of_subchannel. simpl.
  rewrite list_alive. simpl.
  pose proof (fun state err =>
                grpc_connectivity_state_set_alive (state_tracker_ p) state err
                  tracker_alive) as Htracker.
  assert (Hgoal : forall (when_ready : RoundRobin ->
                                       option connectivity_change) p0,
    (p0 = set_subchannel_list (Some sl2) p
     \/ p0 = set_latest_pending_subchannel_list (Some sl2) p) ->
    referenced_list p0 list = Some sl2 ->
    exists change sl',
      (p1 ← UpdateConnectivityStatusLocked p0 sl2 sd2 error;
       if grpc_connectivity_state_eqb (curr_connectivity_state sd2)
            GRPC_CHANNEL_SHUTDOWN
       then Some {| policy_after := p1; picks_completed := [];
                    watch_renewed := false |}
       else if grpc_connectivity_state_eqb (curr_connectivity_state sd2)
                 GRPC_CHANNEL_READY
       then when_ready p1
       else Some {| policy_after := p1; picks_completed := [];
                    watch_renewed := true |})
      = Some change
      /\ watch_renewed change = true
      /\ picks_completed change = []
      /\ pending_picks_ (policy_after change) = pending_picks_ p
      /\ started_picking_ (policy_after change) = started_picking_ p
      /\ referenced_list (policy_after change) list = Some sl'
      /\ counters_consistent sl'
      /\ subchannels sl'
         = <[i := set_connectivity_states new_state new_state sd]>
             (subchannels sl)
      /\ current_state (state_tracker_ (policy_after change))
         = if any_subchannel_ready sl' then GRPC_CHANNEL_READY
           else if grpc_connectivity_state_eqb new_state
                     GRPC_CHANNEL_CONNECTING
           then GRPC_CHANNEL_CONNECTING
           else if all_subchannels_failed sl'
           then GRPC_CHANNEL_TRANSIENT_FAILURE
           else current_state (state_tracker_ p)).
  { intros when_ready p0 Hp0 Href.
    assert (Hfields : state_tracker_ p0 = state_tracker_ p
                      /\ pending_picks_ p0 = pending_picks_ p
                      /\ started_picking_ p0 = started_picking_ p)
      by (destruct Hp0 as [-> | ->]; auto).
    destruct Hfields as (Ht0 & Hp & Hs).
    unfold UpdateConnectivityStatusLocked.
    rewrite Hcurr, Hready, Hshutdown, Hfailed, Ht0.
    assert (Hlist : forall p1,
               subchannel_list_ p1 = subchannel_list_ p0 ->
               latest_pending_subchannel_list_ p1
               = latest_pending_subchannel_list_ p0 ->
               referenced_list p1 list = Some sl2).
    { intros p1 H1 H2. rewrite <- Href.
      destruct list_watched as [-> | ->]; simpl; assumption. }
    destruct not_ready as [-> | ->]; simpl;
      destruct (any_subchannel_ready sl2) eqn:Hany; simpl;
      try destruct (all_subchannels_failed sl2) eqn:Hall; simpl;
      eexists; exists sl2; (split; [reflexivity|]); simpl;
      rewrite ?Htracker, ?Ht0, ?Hany, ?Hall;
      repeat (split;
              [first [reflexivity|assumption|apply Hlist; reflexivity]|]);
      first [reflexivity|assumption]. }
  destruct list_watched as [Hl|Hl]; rewrite Hl in *; simpl in *.
  - rewrite subchannel_at. simpl. fold sd1. fold sl1.
    rewrite Hupdate. simpl. rewrite Hsd2. simpl.
    apply (Hgoal _ _ (or_introl eq_refl) eq_refl).
  - rewrite subchannel_at. simpl. fold sd1. fold sl1.
    rewrite Hupdate. simpl. rewrite Hsd2. simpl.
    apply (Hgoal _ _ (or_intror eq_refl) eq_refl).
Qed.

End RoundRobinNotReady.

Lemma OnConnectivityChangedLocked_not_ready_witness :
  exists change,
    RoundRobin.OnConnectivityChangedLocked RoundRobin.sample_failing_policy
      RoundRobin.CurrentList 0 GRPC_CHANNEL_TRANSIENT_FAILURE
      (Some "connection refused") false
    = Some change
    /\ RoundRobin.pending_picks_ (RoundRobin.policy_after change)
       = [RoundRobin.sample_pick]
    /\ current_state (RoundRobin.state_tracker_ (RoundRobin.policy_after change))
       = GRPC_CHANNEL_TRANSIENT_FAILURE.
Proof.
  destruct (OnConnectivityChangedLocked_not_ready
              RoundRobin.sample_failing_policy RoundRobin.CurrentList
              RoundRobin.sample_failing_list 0
              (RoundRobin.sample_subchannel "A" GRPC_CHANNEL_CONNECTING)
              GRPC_CHANNEL_TRANSIENT_FAILURE (Some "connection refused"))
    as (change & sl' & Hchange & _ & _ & Hpicks & _ & _ & _ & Hsubs & Hstate).
  - reflexivity.
  - simpl. discriminate.
  - left. reflexivity.
  - reflexivity.
  - reflexivity.
  - vm_compute. discriminate.
  - vm_compute. auto.
  - reflexivity.
  - right. reflexivity.
  - exists change. split; [exact Hchange|]. split; [exact Hpicks|].
    rewrite Hstate.
    unfold RoundRobin.any_subchannel_ready, RoundRobin.all_subchannels_failed.
    rewrite Hsubs. reflexivity.
Defined.


(** ** Health-check client: runs, watchers and shutdown *)

Section HealthCheckRuns.

Import HealthCheck.

Variable next_attempt_time : BackOffOptions -> nat -> Z.

Lemma StartCallLocked_idle (c : HealthCheckClient) :
  shutting_down_ c = false ->
  call_state_ c = None ->
  exists c',
    StartCallLocked c = Some c'
    /\ shutting_down_ c' = false
    /\ is_Some (call_state_ c')
    /\ calls_started c' = S (calls_started c)
    /\ retry_timer_callback_pending_ c' = retry_timer_callback_pending_ c
    /\ retry_backoff_ c' = retry_backoff_ c
    /\ retry_timer_ c' = retry_timer_ c.
Proof.
  intros Hshut Hcall. unfold StartCallLocked. rewrite Hshut, Hcall.
  eexists. split; [reflexivity|]. simpl. rewrite Hshut. eauto 10.
Qed.

Lemma CallEnded_consistent (c : HealthCheckClient) (self : nat)
    (retry : bool) :
  call_state_consistent c ->
  exists c',
    CallEnded next_attempt_time c self retry = Some c'
    /\ call_state_consistent c'
    /\ (attempts_ (retry_backoff_ c') = S (attempts_ (retry_backoff_ c)) ->
        retry_timer_callback_pending_ c = false
        /\ call_state_ c' = None
        /\ retry_timer_callback_pending_ c' = true).
Proof.
  intros [Hshut Hpending]. unfold CallEnded.
  destruct (call_state_ c) as [current|] eqn:Hcall.
  2:{ exists c. split; [reflexivity|].
      split; [split; rewrite Hcall; auto|].
      intros Hn. destruct (n_Sn _ Hn). }
  destruct (call_number current =? self)%nat.
  2:{ exists c. split; [reflexivity|].
      split; [split; rewrite Hcall; auto|].
      intros Hn. destruct (n_Sn _ Hn). }
  assert (Hs : shutting_down_ c = false)
    by (destruct (shutting_down_ c); [specialize (Hshut eq_refl)|];
        congruence).
  assert (Hp : retry_timer_callback_pending_ c = false)
    by (destruct (retry_timer_callback_pending_ c);
        [specialize (Hpending eq_refl)|]; congruence).
  destruct retry.
  2:{ eexists. split; [reflexivity|]. simpl. split; [split; auto|].
      intros Hn. destruct (n_Sn _ Hn). }
  simpl. rewrite Hs.
  destruct (seen_response_ current).
  - unfold StartCall, StartCallLocked. simpl. rewrite Hs.
    eexists. split; [reflexivity|]. simpl.
    split; [split; simpl; rewrite ?Hs, ?Hp; discriminate|].
    intros Hn. discriminate Hn.
  - eexists. split; [reflexivity|]. unfold StartRetryTimer. simpl.
    split; [split; auto|]. auto.
Qed.


Lemma health_step_consistent (c : HealthCheckClient) (e : health_event) :
  call_state_consistent c ->
  match health_step next_attempt_time c e with
  | Some c' =>
      call_state_consistent c'
      /\ (attempts_ (retry_backoff_ c') = S (attempts_ (retry_backoff_ c)) ->
          retry_timer_callback_pending_ c = false
          /\ call_state_ c' = None
          /\ retry_timer_callback_pending_ c' = true)
  | None =>
      exists observed,
        e = EvNotifyOnHealthChange observed /\ notify_state_ c <> None
  end.
Proof.
  intros Hinv. destruct e as [observed| |cancelled|self healthy|self result|self];
    simpl.
  - unfold NotifyOnHealthChange.
    destruct (notify_state_ c) eqn:Hnotify; simpl.
    + exists observed. split; [reflexivity|discriminate].
    + destruct (negb (grpc_connectivity_state_eqb observed (state_ c))); simpl;
        (split; [exact Hinv|]); intros Hn; destruct (n_Sn _ Hn).
  - split; [split; reflexivity|]. intros Hn. destruct (n_Sn _ Hn).
  - unfold OnRetryTimer. simpl.
    destruct (shutting_down_ c) eqn:Hs; simpl.
    { destruct Hinv as [Hshut _]. split.
      - split; simpl; intros; [apply Hshut; assumption|discriminate].
      - intros Hn. destruct (n_Sn _ Hn). }
    destruct cancelled; simpl.
    { split.
      - split; simpl; intros; [congruence|discriminate].
      - intros Hn. destruct (n_Sn _ Hn). }
    destruct (call_state_ c) as [current|] eqn:Hcall; simpl.
    { split.
      - split; simpl; intros; [congruence|discriminate].
      - intros Hn. destruct (n_Sn _ Hn). }
    unfold StartCallLocked. simpl. rewrite ?Hs, ?Hcall. split.
    + split; simpl; intros; [congruence|discriminate].
    + simpl. intros Hn. destruct (n_Sn _ Hn).
  - unfold is_current_call.
    destruct (call_state_ c) as [current|] eqn:Hcall.
    + destruct (call_number current =? self)%nat.
      * split.
        -- destruct Hinv as [Hshut Hpending]. rewrite Hcall in Hshut, Hpending.
           split; simpl; intros H;
             [specialize (Hshut H)|specialize (Hpending H)]; discriminate.
        -- simpl. intros Hn. destruct (n_Sn _ Hn).
      * split; [exact Hinv|]. simpl. intros Hn. destruct (n_Sn _ Hn).
    + split; [exact Hinv|]. simpl. intros Hn. destruct (n_Sn _ Hn).
  - unfold RecvTrailingMetadataReady.
    destruct (grpc_status_code_eqb (received_status result)
                GRPC_STATUS_UNIMPLEMENTED).
    + destruct (CallEnded_consistent
                  (SetHealthStatusLocked c GRPC_CHANNEL_READY) self false Hinv)
        as (c' & -> & Hinv' & Htimer).
      split; [exact Hinv'|exact Htimer].
    + destruct (CallEnded_consistent c self true Hinv)
        as (c' & -> & Hinv' & Htimer).
      split; [exact Hinv'|exact Htimer].
  - destruct (CallEnded_consistent c self true Hinv)
      as (c' & -> & Hinv' & Htimer).
    split; [exact Hinv'|exact Htimer].
Qed.

Lemma health_run_app (c : HealthCheckClient) (pre post : list health_event) :
  health_run next_attempt_time c (pre ++ post)
  = health_run next_attempt_time c pre
      ≫= (fun c1 => health_run next_attempt_time c1 post).
Proof.
  revert c. induction pre as [|e pre IH]; intros c; simpl; [reflexivity|].
  destruct (health_step next_attempt_time c e); simpl; [apply IH|reflexivity].
Qed.

Lemma health_run_consistent (events : list health_event) :
  forall c c',
    call_state_consistent c ->
    health_run next_attempt_time c events = Some c' ->
    call_state_consistent c'.
Proof.
  induction events as [|e events IH]; simpl; intros c c' Hinv Hrun.
  - injection Hrun as <-. exact Hinv.
  - pose proof (health_step_consistent c e Hinv) as Hstep.
    destruct (health_step next_attempt_time c e) as [c1|]; [|discriminate].
    simpl in Hrun. destruct Hstep as [Hinv1 _]. eauto.
Qed.

(** X18.  Of the assertions of the health-check client only the one of
    [NotifyOnHealthChange] can fail.  From a client that uses no call state
    while it shuts down or waits for its retry timer, a run of events fails
    exactly if it comes to a [NotifyOnHealthChange] while a watcher is
    registered; [GPR_ASSERT(call_state_ == nullptr)] of [StartCallLocked]
    and [GPR_ASSERT(!shutting_down_)] of [CallEnded] hold on every run. *)
Theorem health_run_fails_only_at_notify (events : list health_event) :
  forall c,
    call_state_consistent c ->
    health_run next_attempt_time c events = None
    <-> exists pre observed post c1,
          events = (pre ++ EvNotifyOnHealthChange observed :: post)%list
          /\ health_run next_attempt_time c pre = Some c1
          /\ notify_state_ c1 <> None.
Proof.
  induction events as [|e events IH]; intros c Hinv.
  - split; [discriminate|].
    intros (pre & observed & post & c1 & Heq & _). destruct pre; discriminate.
  - pose proof (health_step_consistent c e Hinv) as Hstep. simpl.
    destruct (health_step next_attempt_time c e) as [c1|] eqn:He; simpl.
    + destruct Hstep as [Hinv1 _]. rewrite (IH c1 Hinv1). split.
      * intros (pre & observed & post & c2 & -> & Hrun & Hnotify).
        exists (e :: pre), observed, post, c2. simpl. rewrite He. auto.
      * intros (pre & observed & post & c2 & Heq & Hrun & Hnotify).
        destruct pre as [|e' pre]; simpl in Heq, Hrun.
        -- injection Heq as -> ->. injection Hrun as <-.
           simpl in He. unfold NotifyOnHealthChange in He.
           destruct (notify_state_ c); [discriminate|contradiction].
        -- injection Heq as <- ->. rewrite He in Hrun. simpl in Hrun.
           exists pre, observed, post, c2. auto.
    + destruct Hstep as (observed & -> & Hnotify). split; [|reflexivity].
      intros _. exists [], observed, events, c. auto.
Qed.

(** X19.  The retry timer and the call exclude each other.  Along every run
    from a client that uses no call state while it shuts down or waits for
    its retry timer, this stays so; and an event arms the retry timer (takes
    the next attempt time of the back-off) only when the callback of the
    timer is not pending, leaving the client without a call state until the
    timer callback runs. *)
Theorem retry_timer_armed_when_idle (events : list health_event)
    (c c1 c2 : HealthCheckClient) (e : health_event) :
  call_state_consistent c ->
  health_run next_attempt_time c events = Some c1 ->
  health_step next_attempt_time c1 e = Some c2 ->
  call_state_consistent c2
  /\ (attempts_ (retry_backoff_ c2) = S (attempts_ (retry_backoff_ c1)) ->
      retry_timer_callback_pending_ c1 = false
      /\ call_state_ c2 = None
      /\ retry_timer_callback_pending_ c2 = true).
Proof.
  intros Hinv Hrun Hstep.
  pose proof (health_run_consistent events c c1 Hinv Hrun) as Hinv1.
  pose proof (health_step_consistent c1 e Hinv1) as H.
  rewrite Hstep in H. exact H.
Qed.


Lemma health_step_shut_down (c c' : HealthCheckClient) (e : health_event) :
  shutting_down_ c = true ->
  call_state_ c = None ->
  health_step next_attempt_time c e = Some c' ->
  shutting_down_ c' = true
  /\ call_state_ c' = None
  /\ calls_started c' = calls_started c
  /\ retry_backoff_ c' = retry_backoff_ c
  /\ retry_timer_ c' = retry_timer_ c
  /\ (retry_timer_callback_pending_ c' = true ->
      retry_timer_callback_pending_ c = true).
Proof.
  intros Hs Hcall.
  destruct e as [observed| |cancelled|self healthy|self result|self]; simpl.
  - unfold NotifyOnHealthChange. destruct (notify_state_ c); [discriminate|].
    destruct (negb (grpc_connectivity_state_eqb observed (state_ c))); simpl;
      intros Heq; injection Heq as <-; simpl; auto 10.
  - intros Heq; injection Heq as <-. simpl. auto 10.
  - unfold OnRetryTimer. simpl. rewrite Hs. simpl.
    intros Heq; injection Heq as <-. simpl.
    repeat (split; [assumption || reflexivity|]). discriminate.
  - unfold is_current_call. rewrite Hcall.
    intros Heq; injection Heq as <-. simpl. auto 10.
  - unfold RecvTrailingMetadataReady, CallEnded. simpl. rewrite Hcall.
    destruct (grpc_status_code_eqb (received_status result)
                GRPC_STATUS_UNIMPLEMENTED);
      intros Heq; injection Heq as <-; simpl; auto 10.
  - unfold CallEnded. rewrite Hcall.
    intros Heq; injection Heq as <-. auto 10.
Qed.

(** X20.  [Orphan] is final.  It tells a registered watcher once, with
    [GRPC_ERROR_CANCELLED], cancels the retry timer if its callback is
    pending, and leaves a client on which no later event starts a call or
    arms the retry timer: along every run the client keeps shutting down,
    has no call state, has started no further call, and its back-off and
    timer are as [Orphan] found them. *)
Theorem Orphan_final (events : list health_event)
    (c c' : HealthCheckClient) :
  health_run next_attempt_time (client_after (Orphan c)) events = Some c' ->
  (watcher_cancelled (Orphan c) = true <-> notify_state_ c <> None)
  /\ timer_cancelled (Orphan c) = retry_timer_callback_pending_ c
  /\ shutting_down_ c' = true
  /\ call_state_ c' = None
  /\ calls_started c' = calls_started c
  /\ retry_backoff_ c' = retry_backoff_ c
  /\ retry_timer_ c' = retry_timer_ c
  /\ (retry_timer_callback_pending_ c' = true ->
      retry_timer_callback_pending_ c = true).
Proof.
  intros Hrun. split.
  { simpl. rewrite bool_decide_eq_true.
    destruct (notify_state_ c); split; try done; intros []; discriminate. }
  split; [reflexivity|].
  assert (Hgen : forall c0,
             shutting_down_ c0 = true -> call_state_ c0 = None ->
             health_run next_attempt_time c0 events = Some c' ->
             shutting_down_ c' = true
             /\ call_state_ c' = None
             /\ calls_started c' = calls_started c0
             /\ retry_backoff_ c' = retry_backoff_ c0
             /\ retry_timer_ c' = retry_timer_ c0
             /\ (retry_timer_callback_pending_ c' = true ->
                 retry_timer_callback_pending_ c0 = true)).
  { clear Hrun. induction events as [|e events IH]; simpl; intros c0 Hs Hcall Hrun.
    - injection Hrun as <-. auto 10.
    - destruct (health_step next_attempt_time c0 e) as [c1|] eqn:He;
        [|discriminate].
      simpl in Hrun.
      apply health_step_shut_down in He
        as (Hs1 & Hcall1 & Hn1 & Hb1 & Ht1 & Hp1); [|assumption..].
      destruct (IH c1 Hs1 Hcall1 Hrun) as (? & ? & Hn & Hb & Ht & Hp).
      rewrite Hn, Hb, Ht, Hn1, Hb1, Ht1. auto 10. }
  apply (Hgen (client_after (Orphan c))); [reflexivity..|exact Hrun].
Qed.

Lemma SetHealthStatusLocked_watcher (c : HealthCheckClient)
    (state : grpc_connectivity_state) :
  watcher_consistent c ->
  watcher_consistent (SetHealthStatusLocked c state)
  /\ health_changes_notified (SetHealthStatusLocked c state)
     = (health_changes_notified c
        + (if bool_decide (is_Some (notify_state_ c))
              && negb (grpc_connectivity_state_eqb state (state_ c))
           then 1 else 0))%nat.
Proof.
  intros Hw. unfold watcher_consistent, SetHealthStatusLocked in *. simpl.
  destruct (notify_state_ c) as [observed|] eqn:Hnotify.
  - rewrite <- (Hw observed eq_refl).
    rewrite bool_decide_eq_true_2 by eauto. simpl.
    destruct observed, state; simpl; split;
      try (intros ? [= <-]; reflexivity); lia.
  - rewrite bool_decide_eq_false_2 by (intros []; discriminate). simpl.
    split; [discriminate|lia].
Qed.


Lemma CallEnded_watch (c c' : HealthCheckClient) (self : nat) (retry : bool) :
  CallEnded next_attempt_time c self retry = Some c' ->
  (exists state,
      state_ c' = state_ (SetHealthStatusLocked c state)
      /\ notify_state_ c' = notify_state_ (SetHealthStatusLocked c state)
      /\ health_changes_notified c'
         = health_changes_notified (SetHealthStatusLocked c state))
  \/ (state_ c' = state_ c
      /\ notify_state_ c' = notify_state_ c
      /\ health_changes_notified c' = health_changes_notified c).
Proof.
  unfold CallEnded.
  destruct (call_state_ c) as [current|];
    [|intros Heq; injection Heq as <-; auto].
  destruct (call_number current =? self)%nat;
    [|intros Heq; injection Heq as <-; auto].
  destruct retry; [|intros Heq; injection Heq as <-; auto].
  simpl. destruct (shutting_down_ c) eqn:Hs; [discriminate|].
  destruct (seen_response_ current).
  - unfold StartCall, StartCallLocked. simpl. rewrite Hs.
    intros Heq; injection Heq as <-. left. exists GRPC_CHANNEL_CONNECTING.
    auto.
  - intros Heq; injection Heq as <-. left.
    exists GRPC_CHANNEL_TRANSIENT_FAILURE. auto.
Qed.

Lemma health_step_watch (c c' : HealthCheckClient) (e : health_event) :
  health_step next_attempt_time c e = Some c' ->
  (exists state,
      state_ c' = state_ (SetHealthStatusLocked c state)
      /\ notify_state_ c' = notify_state_ (SetHealthStatusLocked c state)
      /\ health_changes_notified c'
         = health_changes_notified (SetHealthStatusLocked c state))
  \/ (state_ c' = state_ c
      /\ health_changes_notified c' = health_changes_notified c
      /\ (notify_state_ c' = notify_state_ c
          \/ notify_state_ c' = None
          \/ (notify_state_ c = None
              /\ notify_state_ c' = Some (state_ c)))).
Proof.
  destruct e as [observed| |cancelled|self healthy|self result|self]; simpl.
  - unfold NotifyOnHealthChange.
    destruct (notify_state_ c) eqn:Hnotify; [discriminate|].
    destruct (grpc_connectivity_state_eqb observed (state_ c)) eqn:Heqb; simpl;
      intros Heq; injection Heq as <-; right; simpl; auto.
    repeat split. right. right. split; [reflexivity|].
    destruct observed, (state_ c); try discriminate; reflexivity.
  - intros Heq; injection Heq as <-. right. simpl. auto.
  - unfold OnRetryTimer. simpl.
    destruct (negb (shutting_down_ c) && negb cancelled
              && bool_decide (call_state_ c = None)) eqn:Hcond.
    + apply andb_prop in Hcond as [Hcond Hcall].
      apply andb_prop in Hcond as [Hs _].
      apply negb_true_iff in Hs. apply bool_decide_eq_true in Hcall.
      unfold StartCallLocked. simpl. rewrite Hs, Hcall.
      intros Heq; injection Heq as <-. left. exists GRPC_CHANNEL_CONNECTING.
      auto.
    + intros Heq; injection Heq as <-. right. simpl. auto.
  - destruct (is_current_call c self);
      intros Heq; injection Heq as <-; left; exists (response_state healthy);
      destruct healthy; auto.
  - unfold RecvTrailingMetadataReady.
    destruct (grpc_status_code_eqb (received_status result)
                GRPC_STATUS_UNIMPLEMENTED).
    + unfold CallEnded. simpl.
      destruct (call_state_ c) as [current|];
        [destruct (call_number current =? self)%nat|];
        intros Heq; injection Heq as <-; left; exists GRPC_CHANNEL_READY;
        auto.
    + intros H. apply CallEnded_watch in H as [H|(? & ? & ?)]; auto 10.
  - intros H. apply CallEnded_watch in H as [H|(? & ? & ?)]; auto 10.
Qed.

(** X21.  A registered watcher sees every change.  Along every run from a
    client whose watcher, if one is registered, holds the state of the
    client in its variable, this stays so; and an event schedules the
    closure of the watcher exactly when a watcher is registered and the
    event changes the state of the client, and then once. *)
Theorem watcher_notified_on_change (events : list health_event)
    (c c1 c2 : HealthCheckClient) (e : health_event) :
  watcher_consistent c ->
  health_run next_attempt_time c events = Some c1 ->
  health_step next_attempt_time c1 e = Some c2 ->
  watcher_consistent c2
  /\ notifications c1 c2
     = if bool_decide (is_Some (notify_state_ c1))
          && negb (grpc_connectivity_state_eqb (state_ c2) (state_ c1))
       then 1%nat else 0%nat.
Proof.
  assert (Hstep : forall c1 c2 e,
             watcher_consistent c1 ->
             health_step next_attempt_time c1 e = Some c2 ->
             watcher_consistent c2
             /\ notifications c1 c2
                = if bool_decide (is_Some (notify_state_ c1))
                     && negb (grpc_connectivity_state_eqb (state_ c2)
                                (state_ c1))
                  then 1%nat else 0%nat).
  { clear. intros c1 c2 e Hw He.
    apply health_step_watch in He
      as [(state & Hstate & Hnotify & Hcount)|(Hstate & Hcount & Hnotify)].
    - destruct (SetHealthStatusLocked_watcher c1 state Hw) as [Hw' Hcount'].
      split.
      + intros observed. rewrite Hnotify, Hstate. apply Hw'.
      + unfold notifications. rewrite Hcount, Hcount', Hstate. simpl.
        destruct (bool_decide (is_Some (notify_state_ c1))
                  && negb (grpc_connectivity_state_eqb state (state_ c1)));
          lia.
    - split.
      + intros observed. rewrite Hstate.
        destruct Hnotify as [->|[->|[_ ->]]];
          [apply Hw|discriminate|intros [= <-]; reflexivity].
      + unfold notifications. rewrite Hcount, Hstate.
        assert (Hrefl : grpc_connectivity_state_eqb (state_ c1) (state_ c1)
                        = true) by (destruct (state_ c1); reflexivity).
        rewrite Hrefl, andb_false_r. lia. }
  intros Hw Hrun He.
  assert (Hw1 : watcher_consistent c1).
  { clear He. revert c Hw Hrun.
    induction events as [|e0 events IH]; simpl; intros c Hw Hrun.
    - injection Hrun as <-. exact Hw.
    - destruct (health_step next_attempt_time c e0) as [c0|] eqn:He0;
        [|discriminate].
      simpl in Hrun. apply (IH c0); [|exact Hrun].
      apply (Hstep c c0 e0 Hw He0). }
  apply (Hstep c1 c2 e Hw1 He).
Qed.

End HealthCheckRuns.

Lemma health_run_fails_only_at_notify_witness :
  HealthCheck.call_state_consistent HealthCheck.sample_waiting_client
  /\ HealthCheck.health_run HealthCheck.sample_next_attempt_time
       HealthCheck.sample_waiting_client
       [HealthCheck.EvNotifyOnHealthChange GRPC_CHANNEL_CONNECTING;
        HealthCheck.EvDoneReadingRecvMessage 0 true;
        HealthCheck.EvNotifyOnHealthChange GRPC_CHANNEL_READY]
     = None.
Proof.
  assert (H : HealthCheck.call_state_consistent
                HealthCheck.sample_waiting_client)
    by (split; intros H; vm_compute in H; discriminate H).
  split; [exact H|].
  apply (health_run_fails_only_at_notify HealthCheck.sample_next_attempt_time
           _ _ H).
  exists [HealthCheck.EvNotifyOnHealthChange GRPC_CHANNEL_CONNECTING;
          HealthCheck.EvDoneReadingRecvMessage 0 true],
    GRPC_CHANNEL_READY, [],
    (HealthCheck.DoneReadingRecvMessage
       (HealthCheck.set_notify_state (Some GRPC_CHANNEL_CONNECTING)
          HealthCheck.sample_waiting_client) true).
  split; [reflexivity|]. split; [reflexivity|]. vm_compute. discriminate.
Defined.

Lemma retry_timer_armed_when_idle_witness :
  exists c2,
    HealthCheck.health_step HealthCheck.sample_next_attempt_time
      HealthCheck.sample_waiting_client (HealthCheck.EvCallEndedRetry 0)
    = Some c2
    /\ HealthCheck.call_state_consistent c2
    /\ HealthCheck.call_state_ c2 = None
    /\ HealthCheck.retry_timer_callback_pending_ c2 = true.
Proof.
  eexists. split; [reflexivity|].
  match goal with
  | |- HealthCheck.call_state_consistent ?c2 /\ _ =>
      destruct (retry_timer_armed_when_idle
                  HealthCheck.sample_next_attempt_time
                  [] HealthCheck.sample_waiting_client
                  HealthCheck.sample_waiting_client c2
                  (HealthCheck.EvCallEndedRetry 0))
        as [Hinv Harmed]
  end.
  - split; intros H; vm_compute in H; discriminate H.
  - reflexivity.
  - reflexivity.
  - split; [exact Hinv|]. apply Harmed. reflexivity.
Defined.

Lemma Orphan_final_witness :
  exists c',
    HealthCheck.health_run HealthCheck.sample_next_attempt_time
      (HealthCheck.client_after
         (HealthCheck.Orphan HealthCheck.sample_waiting_client))
      [HealthCheck.EvOnRetryTimer false; HealthCheck.EvCallEndedRetry 0]
    = Some c'
    /\ HealthCheck.call_state_ c' = None
    /\ HealthCheck.calls_started c' = 1%nat.
Proof.
  eexists. split; [reflexivity|].
  match goal with
  | |- HealthCheck.call_state_ ?c' = _ /\ _ =>
      destruct (Orphan_final HealthCheck.sample_next_attempt_time
                  [HealthCheck.EvOnRetryTimer false;
                   HealthCheck.EvCallEndedRetry 0]
                  HealthCheck.sample_waiting_client c')
        as (_ & _ & _ & Hcall & Hstarted & _)
  end.
  - reflexivity.
  - split; [exact Hcall|exact Hstarted].
Defined.

Lemma watcher_notified_on_change_witness :
  exists c1 c2,
    HealthCheck.health_run HealthCheck.sample_next_attempt_time
      HealthCheck.sample_waiting_client
      [HealthCheck.EvNotifyOnHealthChange GRPC_CHANNEL_CONNECTING]
    = Some c1
    /\ HealthCheck.health_step HealthCheck.sample_next_attempt_time c1
         (HealthCheck.EvDoneReadingRecvMessage 0 true)
       = Some c2
    /\ HealthCheck.watcher_consistent c2
    /\ HealthCheck.notifications c1 c2 = 1%nat.
Proof.
  eexists. eexists. split; [reflexivity|]. split; [reflexivity|].
  match goal with
  | |- _ /\ HealthCheck.notifications ?c1 ?c2 = _ =>
      destruct (watcher_notified_on_change
                  HealthCheck.sample_next_attempt_time
                  [HealthCheck.EvNotifyOnHealthChange GRPC_CHANNEL_CONNECTING]
                  HealthCheck.sample_waiting_client c1 c2
                  (HealthCheck.EvDoneReadingRecvMessage 0 true))
        as [Hw Hcount]
  end.
  - intros observed H. vm_compute in H. discriminate H.
  - reflexivity.
  - reflexivity.
  - split; [exact Hw|exact Hcount].
Defined.


(** ** grpclb: server lists and backend addresses *)

Section ServerlistAddresses.

Import Serverlist.

Lemma port_shift_range (p : Z) : Z.shiftr p 16 = 0 <-> 0 <= p < 65536.
Proof.
  rewrite Z.shiftr_div_pow2 by lia. change (2 ^ 16) with 65536.
  rewrite Z.div_small_iff by lia. lia.
Qed.

Lemma IsServerValid_iff (server : grpc_grpclb_server) :
  IsServerValid server = true
  <-> drop server = false
      /\ 0 <= port server < 65536
      /\ (size (ip_address server) = 4 \/ size (ip_address server) = 16).
Proof.
  unfold IsServerValid. rewrite <- port_shift_range.
  destruct (drop server); [intuition discriminate|].
  destruct (Z.eqb_spec (Z.shiftr (port server) 16) 0) as [Hp|Hp]; simpl;
    [|intuition discriminate].
  destruct (Z.eqb_spec (size (ip_address server)) 4) as [H4|H4]; simpl;
    [intuition|].
  destruct (Z.eqb_spec (size (ip_address server)) 16) as [H16|H16]; simpl;
    intuition discriminate.
Qed.

(** X22.  [IsServerValid] accepts exactly the servers that are no drop
    entries, have a port from 0 to 65535 (a negative port is refused, the
    shift being arithmetic) and an IP address of 4 or 16 bytes.  For these
    [ParseServer] gives an IPv4 or IPv6 socket address that holds the port
    unchanged and the first 4 or 16 bytes of the IP address; for a drop
    entry, and for any other IP size, it leaves the address zeroed. *)
Theorem ParseServer_valid (server : grpc_grpclb_server) :
  (IsServerValid server = true
   <-> drop server = false
       /\ 0 <= port server < 65536
       /\ (size (ip_address server) = 4 \/ size (ip_address server) = 16))
  /\ (IsServerValid server = true ->
      ParseServer server
      = if size (ip_address server) =? 4
        then {| addr := sockaddr_in (port server)
                          (take 4 (bytes (ip_address server)));
                len := sizeof_sockaddr_in |}
        else {| addr := sockaddr_in6 (port server)
                          (take 16 (bytes (ip_address server)));
                len := sizeof_sockaddr_in6 |})
  /\ (drop server = true
      \/ (size (ip_address server) <> 4 /\ size (ip_address server) <> 16) ->
      ParseServer server = zeroed_address).
Proof.
  split; [apply IsServerValid_iff|]. split.
  - intros Hvalid. apply IsServerValid_iff in Hvalid as (Hdrop & Hport & Hsize).
    unfold ParseServer, uint16_cast. rewrite Hdrop.
    rewrite (Z.mod_small (port server)) by lia.
    destruct Hsize as [-> | ->]; reflexivity.
  - unfold ParseServer. intros [-> | [H4 H16]]; [reflexivity|].
    destruct (drop server); [reflexivity|].
    destruct (Z.eqb_spec (size (ip_address server)) 4); [contradiction|].
    destruct (Z.eqb_spec (size (ip_address server)) 16); [contradiction|].
    reflexivity.
Qed.

Lemma count_valid_spec (servers : list grpc_grpclb_server) :
  forall num_valid,
    0 <= num_valid ->
    num_valid + Z.of_nat (length servers) <= SIZE_MAX ->
    count_valid servers num_valid
    = num_valid + Z.of_nat (length (List.filter IsServerValid servers)).
Proof.
  induction servers as [|server rest IH]; simpl; intros num_valid H0 Hfits;
    [lia|].
  destruct (IsServerValid server); simpl.
  - rewrite size_t_wrap_small by lia. rewrite IH by lia. lia.
  - rewrite IH by lia. lia.
Qed.

Lemma grpc_lb_addresses_set_address_next (done rest : list grpc_lb_address)
    (slot : grpc_lb_address) (address : grpc_resolved_address)
    (is_balancer : bool) (balancer_name user_data : option string) :
  grpc_lb_addresses_set_address (done ++ slot :: rest)
    (Z.of_nat (length done)) address is_balancer balancer_name user_data
  = Some ((done
           ++ [{| Serverlist.address := address;
                  Serverlist.is_balancer := is_balancer;
                  Serverlist.balancer_name := balancer_name;
                  Serverlist.user_data := user_data |}])
          ++ rest)%list.
Proof.
  unfold grpc_lb_addresses_set_address.
  rewrite length_app. simpl.
  destruct (Z.leb_spec 0 (Z.of_nat (length done))); [|lia].
  destruct (Z.ltb_spec (Z.of_nat (length done))
              (Z.of_nat (length done + S (length rest)))); [|lia].
  simpl. rewrite Nat2Z.id.
  rewrite insert_app_r_alt by lia. rewrite Nat.sub_diag. simpl.
  rewrite <- app_assoc. reflexivity.
Qed.

Lemma populate_addresses_spec (servers : list grpc_grpclb_server) :
  forall (done slots : list grpc_lb_address) (num_valid : Z),
    length slots = length (List.filter IsServerValid servers) ->
    num_valid = Z.of_nat (length done + length slots) ->
    num_valid <= SIZE_MAX ->
    populate_addresses servers num_valid (done ++ slots)
      (Z.of_nat (length done))
    = Some ((done
             ++ map server_lb_address (List.filter IsServerValid servers))%list,
            num_valid).
Proof.
  induction servers as [|server rest IH]; simpl;
    intros done slots num_valid Hslots Hnum Hfits.
  - destruct slots; [|discriminate]. simpl in Hnum.
    rewrite !app_nil_r. rewrite Nat.add_0_r in Hnum. subst. reflexivity.
  - destruct (IsServerValid server) eqn:Hvalid; simpl.
    + destruct slots as [|slot slots]; [discriminate|].
      simpl in Hslots, Hnum. injection Hslots as Hslots.
      destruct (Z.ltb_spec (Z.of_nat (length done)) num_valid); [|lia].
      simpl. rewrite grpc_lb_addresses_set_address_next. simpl.
      rewrite size_t_wrap_small by lia.
      replace (Z.of_nat (length done) + 1)
        with (Z.of_nat (length (done ++ [server_lb_address server])))
        by (rewrite length_app; simpl; lia).
      change {| address := ParseServer server; is_balancer := false;
                balancer_name := None;
                user_data := server_user_data server |}
        with (server_lb_address server).
      rewrite IH; [|assumption| |assumption].
      * rewrite <- app_assoc. reflexivity.
      * rewrite length_app. simpl. lia.
    + apply IH; assumption.
Qed.

(** X23.  [ProcessServerlist] fails none of its assertions and stores no
    entry outside the array it allocates: for a list of at most [SIZE_MAX]
    servers it returns one LB address for every valid server and none for
    the others, in the order of the server list; each is a backend address
    ([is_balancer] false, no balancer name) with the socket address that
    [ParseServer] gives and, as user data, the load-balance token up to its
    first NUL, or the empty token where the server has none. *)
Theorem ProcessServerlist_valid_servers
    (serverlist : list grpc_grpclb_server) :
  Z.of_nat (length serverlist) <= SIZE_MAX ->
  ProcessServerlist serverlist
  = Some (map server_lb_address (List.filter IsServerValid serverlist)).
Proof.
  intros Hfits. unfold ProcessServerlist.
  rewrite count_valid_spec by lia. rewrite Z.add_0_l.
  pose proof (List.filter_length_le IsServerValid serverlist) as Hle.
  unfold grpc_lb_addresses_create. rewrite Nat2Z.id.
  change 0 with (Z.of_nat (length (@nil grpc_lb_address))) at 1.
  rewrite <- (app_nil_l (replicate _ _)).
  rewrite (populate_addresses_spec serverlist [] _ _);
    [|apply length_replicate|simpl; rewrite length_replicate; reflexivity|lia].
  simpl. rewrite Z.eqb_refl. reflexivity.
Qed.

Lemma count_backends_spec (addresses : list grpc_lb_address) :
  forall num_backends,
    0 <= num_backends ->
    num_backends + Z.of_nat (length addresses) <= SIZE_MAX ->
    count_backends addresses num_backends
    = num_backends
      + Z.of_nat (length (List.filter (fun a => negb (is_balancer a))
                            addresses)).
Proof.
  induction addresses as [|a rest IH]; simpl; intros num_backends H0 Hfits;
    [lia|].
  destruct (is_balancer a); simpl.
  - rewrite IH by lia. lia.
  - rewrite size_t_wrap_small by lia. rewrite IH by lia. lia.
Qed.

Lemma copy_backends_spec (addresses : list grpc_lb_address) :
  forall (done slots : list grpc_lb_address),
    length slots
    = length (List.filter (fun a => negb (is_balancer a)) addresses) ->
    Z.of_nat (length done + length slots) <= SIZE_MAX ->
    copy_backends addresses (done ++ slots) (Z.of_nat (length done))
    = Some (done
            ++ map backend_copy
                 (List.filter (fun a => negb (is_balancer a)) addresses))%list.
Proof.
  induction addresses as [|a rest IH]; simpl; intros done slots Hslots Hfits.
  - destruct slots; [|discriminate]. reflexivity.
  - destruct (is_balancer a) eqn:Hb; simpl.
    + apply IH; assumption.
    + destruct slots as [|slot slots]; [discriminate|].
      simpl in Hslots, Hfits. injection Hslots as Hslots.
      rewrite grpc_lb_addresses_set_address_next. simpl.
      rewrite size_t_wrap_small by lia.
      replace (Z.of_nat (length done) + 1)
        with (Z.of_nat (length (done ++ [backend_copy a])))
        by (rewrite length_app; simpl; lia).
      change {| address := address a; is_balancer := false;
                balancer_name := None; user_data := Some LB_TOKEN_EMPTY |}
        with (backend_copy a).
      rewrite IH; [|assumption|rewrite length_app; simpl; lia].
      rewrite <- app_assoc. reflexivity.
Qed.

Lemma ExtractBackendAddresses_spec (addresses : list grpc_lb_address) :
  Z.of_nat (length addresses) <= SIZE_MAX ->
  ExtractBackendAddresses addresses
  = Some (map backend_copy
            (List.filter (fun a => negb (is_balancer a)) addresses)).
Proof.
  intros Hfits. unfold ExtractBackendAddresses.
  rewrite count_backends_spec by lia. rewrite Z.add_0_l.
  pose proof (List.filter_length_le (fun a => negb (is_balancer a)) addresses)
    as Hle.
  unfold grpc_lb_addresses_create. rewrite Nat2Z.id.
  apply (copy_backends_spec addresses []).
  - apply length_replicate.
  - simpl. rewrite length_replicate. lia.
Qed.

(** X24.  [ExtractBackendAddresses] stores no entry outside the array it
    allocates: for at most [SIZE_MAX] addresses it returns the addresses
    that are not balancers, in order, each as a backend address with the
    empty LB token and without balancer name, whatever user data and name it
    had; no balancer address is among them, and extracting again from the
    result changes nothing. *)
Theorem ExtractBackendAddresses_backends (addresses : list grpc_lb_address) :
  Z.of_nat (length addresses) <= SIZE_MAX ->
  exists backends,
    ExtractBackendAddresses addresses = Some backends
    /\ map address backends
       = map address
           (List.filter (fun a => negb (is_balancer a)) addresses)
    /\ Forall (fun a => is_balancer a = false
                        /\ balancer_name a = None
                        /\ user_data a = Some LB_TOKEN_EMPTY) backends
    /\ ExtractBackendAddresses backends = Some backends.
Proof.
  intros Hfits. eexists. split; [apply ExtractBackendAddresses_spec, Hfits|].
  pose proof (List.filter_length_le (fun a => negb (is_balancer a)) addresses)
    as Hle.
  split; [rewrite map_map; reflexivity|].
  split; [apply Forall_map, Forall_true; intros a; simpl; auto|].
  rewrite ExtractBackendAddresses_spec by (rewrite length_map; lia).
  f_equal.
  induction (List.filter (fun a => negb (is_balancer a)) addresses)
    as [|a rest IH]; simpl; [reflexivity|].
  f_equal. apply IH. simpl in Hle. lia.
Qed.

End ServerlistAddresses.

Lemma ParseServer_valid_witness :
  Serverlist.IsServerValid
    {| Serverlist.ip_address :=
         {| Serverlist.size := 4;
            Serverlist.bytes := [Byte.x0a; Byte.x00; Byte.x00; Byte.x01] |};
       Serverlist.port := 443; Serverlist.has_load_balance_token := true;
       Serverlist.load_balance_token := "t2"; Serverlist.drop := false |}
  = true
  /\ Serverlist.ParseServer
       {| Serverlist.ip_address :=
            {| Serverlist.size := 4;
               Serverlist.bytes := [Byte.x0a; Byte.x00; Byte.x00; Byte.x01] |};
          Serverlist.port := 443; Serverlist.has_load_balance_token := true;
          Serverlist.load_balance_token := "t2"; Serverlist.drop := false |}
     = {| Serverlist.addr :=
            Serverlist.sockaddr_in 443
              [Byte.x0a; Byte.x00; Byte.x00; Byte.x01];
          Serverlist.len := 16 |}.
Proof.
  split; [reflexivity|].
  apply (ParseServer_valid
           {| Serverlist.ip_address :=
                {| Serverlist.size := 4;
                   Serverlist.bytes :=
                     [Byte.x0a; Byte.x00; Byte.x00; Byte.x01] |};
              Serverlist.port := 443;
              Serverlist.has_load_balance_token := true;
              Serverlist.load_balance_token := "t2";
              Serverlist.drop := false |}).
  reflexivity.
Defined.

Lemma ProcessServerlist_valid_servers_witness :
  Serverlist.ProcessServerlist Serverlist.sample_servers
  = Some [{| Serverlist.address :=
               {| Serverlist.addr :=
                    Serverlist.sockaddr_in 443
                      [Byte.x0a; Byte.x00; Byte.x00; Byte.x01];
                  Serverlist.len := 16 |};
             Serverlist.is_balancer := false;
             Serverlist.balancer_name := None;
             Serverlist.user_data := Some "t2" |};
          {| Serverlist.address :=
               {| Serverlist.addr :=
                    Serverlist.sockaddr_in6 8080 (replicate 16 Byte.x00);
                  Serverlist.len := 28 |};
             Serverlist.is_balancer := false;
             Serverlist.balancer_name := None;
             Serverlist.user_data := Some "" |}].
Proof.
  rewrite (ProcessServerlist_valid_servers Serverlist.sample_servers).
  - reflexivity.
  - vm_compute. discriminate.
Defined.

Lemma ExtractBackendAddresses_backends_witness :
  exists backends,
    Serverlist.ExtractBackendAddresses Serverlist.sample_addresses
    = Some backends
    /\ Serverlist.ExtractBackendAddresses backends = Some backends.
Proof.
  destruct (ExtractBackendAddresses_backends Serverlist.sample_addresses)
    as (backends & Hextract & _ & _ & Hagain).
  - vm_compute. discriminate.
  - exists backends. split; [exact Hextract|exact Hagain].
Defined.


(** ** Client channel: the list of external connectivity watchers *)

Section ExternalWatchers.

Import ClientChannel.

Lemma lookup_watcher_In (watchers : list external_connectivity_watcher)
    (closure : nat) (w : external_connectivity_watcher) :
  lookup_external_connectivity_watcher watchers closure = Some w ->
  In w watchers /\ on_complete w = closure.
Proof.
  induction watchers as [|n next IH]; simpl; [discriminate|].
  destruct (Nat.eqb_spec (on_complete n) closure) as [Heq|Hne]; simpl.
  - intros H. injection H as <-. auto.
  - intros H. destruct (IH H). auto.
Qed.

Lemma lookup_watcher_None (watchers : list external_connectivity_watcher)
    (closure : nat) :
  lookup_external_connectivity_watcher watchers closure = None
  <-> ~ In closure (map on_complete watchers).
Proof.
  induction watchers as [|n next IH]; simpl; [tauto|].
  destruct (Nat.eqb_spec (on_complete n) closure) as [Heq|Hne]; simpl.
  - split; [discriminate|]. intros H. destruct H. auto.
  - rewrite IH. tauto.
Qed.

Lemma In_map_l {A B : Type} (f : A -> B) (a : A) (l : list A) :
  In a l -> In (f a) (map f l).
Proof. apply in_map. Qed.

Lemma lookup_watcher_found (watchers : list external_connectivity_watcher)
    (w : external_connectivity_watcher) :
  NoDup (map on_complete watchers) ->
  In w watchers ->
  lookup_external_connectivity_watcher watchers (on_complete w) = Some w.
Proof.
  induction watchers as [|n next IH]; simpl; [contradiction|].
  intros Hnodup [->|Hin].
  - rewrite Nat.eqb_refl. reflexivity.
  - apply NoDup_cons in Hnodup as [Hn Hnodup].
    destruct (Nat.eqb_spec (on_complete n) (on_complete w)) as [Heq|Hne];
      simpl; [|auto].
    exfalso. apply Hn. rewrite Heq. apply list_elem_of_In, in_map, Hin.
Qed.

Lemma count_watchers_length (watchers : list external_connectivity_watcher) :
  forall count,
    count_watchers watchers count = count + Z.of_nat (length watchers).
Proof.
  induction watchers as [|n next IH]; simpl; intros count; [lia|].
  rewrite IH. lia.
Qed.

Lemma filter_other_watchers (watchers : list external_connectivity_watcher)
    (w : external_connectivity_watcher) :
  ~ In (watcher_address w) (map watcher_address watchers) ->
  List.filter (fun n => negb (same_watcher n w)) watchers = watchers.
Proof.
  induction watchers as [|n next IH]; simpl; [reflexivity|].
  intros Hnot. destruct (same_watcher n w) eqn:Hsame; simpl.
  - apply Nat.eqb_eq in Hsame. exfalso. apply Hnot. auto.
  - rewrite IH by tauto. reflexivity.
Qed.

Lemma remove_behind_spec (next : list external_connectivity_watcher)
    (too_remove : external_connectivity_watcher) :
  forall w,
    NoDup (map watcher_address next) ->
    In too_remove next ->
    remove_behind w next too_remove
    = Some (w :: List.filter (fun n => negb (same_watcher n too_remove)) next).
Proof.
  induction next as [|n behind IH]; simpl; intros w Hnodup Hin;
    [contradiction|].
  apply NoDup_cons in Hnodup as [Hn Hnodup].
  destruct (same_watcher n too_remove) eqn:Hsame; simpl.
  - apply Nat.eqb_eq in Hsame.
    rewrite filter_other_watchers; [reflexivity|].
    rewrite <- Hsame. intros H. apply Hn, list_elem_of_In, H.
  - destruct Hin as [->|Hin].
    + unfold same_watcher in Hsame. rewrite Nat.eqb_refl in Hsame.
      discriminate.
    + rewrite IH by assumption. reflexivity.
Qed.

Lemma remove_behind_missing (next : list external_connectivity_watcher)
    (too_remove : external_connectivity_watcher) :
  forall w,
    ~ In (watcher_address too_remove) (map watcher_address next) ->
    remove_behind w next too_remove = None.
Proof.
  induction next as [|n behind IH]; simpl; intros w Hnot; [reflexivity|].
  destruct (same_watcher n too_remove) eqn:Hsame; simpl.
  - apply Nat.eqb_eq in Hsame. exfalso. apply Hnot. auto.
  - rewrite IH by tauto. reflexivity.
Qed.

Lemma remove_watcher_spec (watchers : list external_connectivity_watcher)
    (too_remove : external_connectivity_watcher) :
  watchers_distinct watchers ->
  In too_remove watchers ->
  external_connectivity_watcher_list_remove watchers too_remove
  = Some (List.filter (fun n => negb (same_watcher n too_remove)) watchers).
Proof.
  intros [Haddr Hclosure] Hin.
  unfold external_connectivity_watcher_list_remove.
  rewrite lookup_watcher_found by assumption.
  destruct watchers as [|head next]; [contradiction|].
  simpl in *. apply NoDup_cons in Haddr as [Hhead Haddr].
  assert (Hsym : same_watcher too_remove head = same_watcher head too_remove)
    by apply Nat.eqb_sym.
  rewrite Hsym.
  destruct (same_watcher head too_remove) eqn:Hsame; simpl.
  - apply Nat.eqb_eq in Hsame.
    rewrite filter_other_watchers; [reflexivity|].
    rewrite <- Hsame. intros H. apply Hhead, list_elem_of_In, H.
  - destruct Hin as [->|Hin].
    + unfold same_watcher in Hsame. rewrite Nat.eqb_refl in Hsame.
      discriminate.
    + apply remove_behind_spec; assumption.
Qed.

Lemma filter_watchers_distinct (watchers : list external_connectivity_watcher)
    (keep : external_connectivity_watcher -> bool) :
  watchers_distinct watchers ->
  watchers_distinct (List.filter keep watchers).
Proof.
  unfold watchers_distinct.
  induction watchers as [|n next IH]; simpl; [auto|].
  intros [Haddr Hclosure].
  apply NoDup_cons in Haddr as [Hn1 Haddr].
  apply NoDup_cons in Hclosure as [Hn2 Hclosure].
  destruct (IH (conj Haddr Hclosure)) as [IH1 IH2].
  destruct (keep n); simpl; [|auto].
  split; apply NoDup_cons; (split; [|assumption]); intros H;
    apply list_elem_of_In, in_map_iff in H as (m & Hm & Hin);
    apply filter_In in Hin as [Hin _];
    [apply Hn1|apply Hn2]; rewrite <- Hm; apply list_elem_of_In, in_map, Hin.
Qed.

Lemma lookup_watcher_filter (watchers : list external_connectivity_watcher)
    (keep : external_connectivity_watcher -> bool) (closure : nat) :
  (forall n, In n watchers -> keep n = false -> on_complete n <> closure) ->
  lookup_external_connectivity_watcher (List.filter keep watchers) closure
  = lookup_external_connectivity_watcher watchers closure.
Proof.
  induction watchers as [|n next IH]; simpl; intros Hkeep; [reflexivity|].
  destruct (keep n) eqn:Hn; simpl.
  - rewrite IH by auto. reflexivity.
  - destruct (Nat.eqb_spec (on_complete n) closure) as [Heq|Hne]; simpl.
    + destruct (Hkeep n (or_introl eq_refl) Hn Heq).
    + apply IH. auto.
Qed.

Lemma same_watcher_eq (watchers : list external_connectivity_watcher)
    (a b : external_connectivity_watcher) :
  NoDup (map watcher_address watchers) ->
  In a watchers -> In b watchers -> same_watcher a b = true -> a = b.
Proof.
  unfold same_watcher. intros Hnodup Ha Hb Heq.
  apply Nat.eqb_eq in Heq.
  induction watchers as [|n next IH]; simpl in *; [contradiction|].
  apply NoDup_cons in Hnodup as [Hn Hnodup].
  destruct Ha as [->|Ha], Hb as [->|Hb]; auto.
  - exfalso. apply Hn. rewrite Heq. apply list_elem_of_In, in_map, Hb.
  - exfalso. apply Hn. rewrite <- Heq. apply list_elem_of_In, in_map, Ha.
Qed.

(** X25.  Appending a watcher.  For a list whose nodes have distinct
    addresses and closures and a new node, the assertion of
    [external_connectivity_watcher_list_append] fails exactly if a node of
    the list has the closure of the new one.  Otherwise the node becomes
    the head; looking up its closure finds it and every other lookup is as
    before; the number of watchers goes up by one; addresses and closures
    stay distinct; and removing the node again gives back the list. *)
Theorem watcher_list_append_lookup
    (watchers : list external_connectivity_watcher)
    (w : external_connectivity_watcher) :
  watchers_distinct watchers ->
  ~ In (watcher_address w) (map watcher_address watchers) ->
  (external_connectivity_watcher_list_append watchers w = None
   <-> exists n, In n watchers /\ on_complete n = on_complete w)
  /\ forall watchers',
       external_connectivity_watcher_list_append watchers w = Some watchers' ->
       watchers' = w :: watchers
       /\ watchers_distinct watchers'
       /\ lookup_external_connectivity_watcher watchers' (on_complete w)
          = Some w
       /\ (forall closure,
             closure <> on_complete w ->
             lookup_external_connectivity_watcher watchers' closure
             = lookup_external_connectivity_watcher watchers closure)
       /\ grpc_client_channel_num_external_connectivity_watchers watchers'
          = grpc_client_channel_num_external_connectivity_watchers watchers + 1
       /\ external_connectivity_watcher_list_remove watchers' w
          = Some watchers.
Proof.
  intros [Haddr Hclosure] Hfresh.
  unfold external_connectivity_watcher_list_append. split.
  - destruct (lookup_external_connectivity_watcher watchers (on_complete w))
      as [n|] eqn:Hlookup.
    + split; [|reflexivity]. intros _. exists n.
      apply lookup_watcher_In in Hlookup. exact Hlookup.
    + split; [discriminate|]. intros (n & Hin & Heq).
      apply lookup_watcher_None in Hlookup. destruct Hlookup.
      rewrite <- Heq. apply in_map, Hin.
  - intros watchers'.
    destruct (lookup_external_connectivity_watcher watchers (on_complete w))
      as [n|] eqn:Hlookup; [discriminate|].
    intros H. injection H as <-.
    apply lookup_watcher_None in Hlookup.
    assert (Hdistinct : watchers_distinct (w :: watchers)).
    { split; simpl; apply NoDup_cons; (split; [|assumption]);
        intros H; apply list_elem_of_In in H; contradiction. }
    split; [reflexivity|]. split; [exact Hdistinct|].
    split; [simpl; rewrite Nat.eqb_refl; reflexivity|].
    split.
    { intros closure Hne. simpl.
      destruct (Nat.eqb_spec (on_complete w) closure); [congruence|].
      reflexivity. }
    split.
    { unfold grpc_client_channel_num_external_connectivity_watchers.
      rewrite !count_watchers_length. simpl length. lia. }
    rewrite remove_watcher_spec by (simpl; auto).
    simpl.
    assert (Hrefl : same_watcher w w = true) by apply Nat.eqb_refl.
    rewrite Hrefl. simpl.
    rewrite filter_other_watchers by assumption. reflexivity.
Qed.

(** X26.  Removing a watcher.  From a list whose nodes have distinct
    addresses and closures, [external_connectivity_watcher_list_remove]
    takes a node of the list out and keeps the others in their order,
    wherever the node stands; its closure is not found any more, every
    other lookup is as before, and the number of watchers goes down by one.
    For a node that is not in the list the function does not return: either
    its assertion fails or it runs into [GPR_UNREACHABLE_CODE]. *)
Theorem watcher_list_remove_lookup
    (watchers : list external_connectivity_watcher)
    (too_remove : external_connectivity_watcher) :
  watchers_distinct watchers ->
  (In too_remove watchers ->
   exists before behind,
     watchers = (before ++ too_remove :: behind)%list
     /\ external_connectivity_watcher_list_remove watchers too_remove
        = Some (before ++ behind)%list
     /\ watchers_distinct (before ++ behind)
     /\ lookup_external_connectivity_watcher (before ++ behind)
          (on_complete too_remove) = None
     /\ (forall closure,
           closure <> on_complete too_remove ->
           lookup_external_connectivity_watcher (before ++ behind) closure
           = lookup_external_connectivity_watcher watchers closure)
     /\ grpc_client_channel_num_external_connectivity_watchers
          (before ++ behind)
        = grpc_client_channel_num_external_connectivity_watchers watchers - 1)
  /\ (~ In (watcher_address too_remove) (map watcher_address watchers) ->
      external_connectivity_watcher_list_remove watchers too_remove = None).
Proof.
  intros Hdistinct. split.
  - intros Hin.
    destruct (in_split _ _ Hin) as (before & behind & Hsplit).
    exists before, behind. split; [exact Hsplit|].
    assert (Hfilter :
      List.filter (fun n => negb (same_watcher n too_remove)) watchers
      = (before ++ behind)%list).
    { destruct Hdistinct as [Haddr _]. subst watchers.
      rewrite List.filter_app. simpl.
      assert (Hrefl : same_watcher too_remove too_remove = true)
        by apply Nat.eqb_refl.
      rewrite Hrefl. simpl.
      rewrite map_app in Haddr. simpl in Haddr.
      apply NoDup_app in Haddr as (Hbefore & Hcross & Hbehind).
      apply NoDup_cons in Hbehind as [Hnot Hbehind].
      rewrite !filter_other_watchers; [reflexivity| |].
      - intros H. apply Hnot, list_elem_of_In, H.
      - intros H. apply (Hcross (watcher_address too_remove)).
        + apply list_elem_of_In, H.
        + left. }
    rewrite <- Hfilter.
    split; [apply remove_watcher_spec; assumption|].
    split; [apply filter_watchers_distinct; assumption|].
    assert (Hother : forall n,
               In n watchers ->
               negb (same_watcher n too_remove) = false ->
               n = too_remove).
    { intros n Hn Hsame. apply negb_false_iff in Hsame.
      destruct Hdistinct as [Haddr _].
      apply (same_watcher_eq watchers); assumption. }
    split.
    { apply lookup_watcher_None. intros H.
      apply in_map_iff in H as (n & Heq & Hn).
      apply filter_In in Hn as [Hn Hkeep].
      destruct Hdistinct as [Haddr Hclosure].
      assert (n = too_remove).
      { pose proof (lookup_watcher_found watchers n Hclosure Hn) as H1.
        pose proof (lookup_watcher_found watchers too_remove Hclosure Hin)
          as H2.
        rewrite Heq in H1. congruence. }
      subst n. unfold same_watcher in Hkeep.
      rewrite Nat.eqb_refl in Hkeep. discriminate. }
    split.
    { intros closure Hne. apply lookup_watcher_filter.
      intros n Hn Hkeep. rewrite (Hother n Hn Hkeep). auto. }
    unfold grpc_client_channel_num_external_connectivity_watchers.
    rewrite !count_watchers_length, Hfilter, Hsplit, !length_app. simpl.
    lia.
  - intros Hnot. unfold external_connectivity_watcher_list_remove.
    destruct (lookup_external_connectivity_watcher watchers
                (on_complete too_remove)); [|reflexivity].
    destruct watchers as [|head next]; [reflexivity|].
    simpl in Hnot.
    destruct (same_watcher too_remove head) eqn:Hsame; simpl.
    + apply Nat.eqb_eq in Hsame. exfalso. apply Hnot. auto.
    + apply remove_behind_missing. tauto.
Qed.

End ExternalWatchers.

Lemma watcher_list_append_lookup_witness :
  ClientChannel.external_connectivity_watcher_list_remove
    ({| ClientChannel.watcher_address := 4; ClientChannel.on_complete := 40 |}
     :: ClientChannel.sample_watchers)
    {| ClientChannel.watcher_address := 4; ClientChannel.on_complete := 40 |}
  = Some ClientChannel.sample_watchers.
Proof.
  destruct (watcher_list_append_lookup ClientChannel.sample_watchers
              {| ClientChannel.watcher_address := 4;
                 ClientChannel.on_complete := 40 |})
    as [_ Happend].
  - split; simpl; repeat (apply NoDup_cons;
      split; [intros H; apply list_elem_of_In in H; simpl in H; lia|]);
      apply NoDup_nil; exact I.
  - simpl. lia.
  - destruct (Happend _ eq_refl) as (_ & _ & _ & _ & _ & Hremove).
    exact Hremove.
Defined.

Lemma watcher_list_remove_lookup_witness :
  ClientChannel.external_connectivity_watcher_list_remove
    ClientChannel.sample_watchers
    {| ClientChannel.watcher_address := 2; ClientChannel.on_complete := 20 |}
  <> None
  /\ ClientChannel.external_connectivity_watcher_list_remove
       ClientChannel.sample_watchers
       {| ClientChannel.watcher_address := 5; ClientChannel.on_complete := 20 |}
     = None.
Proof.
  assert (Hdistinct : ClientChannel.watchers_distinct
                        ClientChannel.sample_watchers).
  { split; simpl; repeat (apply NoDup_cons;
      split; [intros H; apply list_elem_of_In in H; simpl in H; lia|]);
      apply NoDup_nil; exact I. }
  split.
  - destruct (watcher_list_remove_lookup ClientChannel.sample_watchers
                {| ClientChannel.watcher_address := 2;
                   ClientChannel.on_complete := 20 |} Hdistinct)
      as [Hremove _].
    destruct Hremove as (before & behind & _ & -> & _); [simpl; auto|].
    discriminate.
  - apply (watcher_list_remove_lookup ClientChannel.sample_watchers
             {| ClientChannel.watcher_address := 5;
                ClientChannel.on_complete := 20 |} Hdistinct).
    simpl. lia.
Defined.
